(* ===== verification/_CoqProject ===== *)
-Q . S2P
Prelude.v
Float64.v
Clock.v
Sha256.v
Posix.v
Json.v
Spec.v
Offer.v
Ledger.v
LedgerStep.v
Samples.v
LedgerProps.v
Locks.v
Scheduler.v
Settings.v
Protocol.v
FileAccess.v
FileTransfer.v
TransferSystem.v
TransferInv.v
TransferCalls.v
TransferLogic.v
TransferReads.v
TransferSteps.v
TransferWork.v
TransferVerify.v
TransferPublish.v
TransferRemove.v
TransferSafe.v
TransferResume.v
TransferProps.v
TransferSamples.v
Inputs.v
LedgerProtocol.v
Supervisor.v
Monitor.v
SupervisorProtocol.v
Machine.v
ExecutorProps.v
SupervisorProps.v
Wire.v
WorkloadSchema.v
Database.v
Records.v
NodeRecords.v
RecordsProps.v
WorkloadSamples.v
Identity.v
IdentityProps.v
Contributors.v
ContributorProps.v
DatabaseProps.v
PolicyPackages.v
Policy.v
PolicyProps.v
Authority.v
Control.v
Channel.v
Commands.v
Checks.v
Transfers.v
Runner.v
Queue.v
Dispatch.v
ChannelProps.v
ControlProps.v
TaskLogic.v
DispatchProps.v
ReconcileProps.v
ProviderProps.v
DispatchSamples.v
AuditFormat.v
Collector.v
AuditDelivery.v
AuditSystem.v
AuditProps.v
AuditSamples.v
