(* ===== verification/Prelude.v ===== *)
(** * FICC contributor execution: a Rocq development

    FICC runs workloads of a laboratory's projects on machines ("contributors")
    that their owners lend.  A controller ([src/src/ficc]) keeps the database of
    identities, policies, contributors and workloads; on each contributor a local
    executor ([src/src/ficc/execution]) admits, runs and fences attempts under the
    local owner's offer; on every managed machine a helper ([src/node/ficc_node]) puts
    files in their place under a transfer protocol that survives interruptions.  This
    library models the parts that decide who may run what, where, how often and for how
    long, what evidence of it leaves the controller and what becomes of transferred
    files, and proves what they guarantee.

    ** How the parts interact

    A user signs in ([auth.py]), submits a workload under a project
    ([workloads/records.py]) and leaves a delegation ([workloads/authority.py]) that
    every later step compares with the current identities, memberships, roles and
    the active policy ([policies.py]).  A scheduler provider orders the queue, a
    contributor with an activated certificate ([contributor_store.py]) reports its
    capacity, and the controller reserves capacity in its own database before it
    sends a plan and a lease.  The executor's supervisor admits the plan into its
    ledger ([execution/ledger.py]), starts it when asked, and stops it when the
    lease, the offer or the clock no longer permits it ([execution/monitor.py]).
    The protected actions among these are admitted only once the collector of audit
    evidence has them ([audit_delivery.py]).  A file transfer is a receipt and a stage
    beside the destination, written by chunks, verified, and renamed into place by the
    node helper ([node/ficc_node/file_transfer.py]); it shares no state with the
    workloads.

    ** Files

    Foundations: [Prelude] (results and exceptions, text patterns, maps in key order,
    tactics), [Float64] (binary64 comparisons and sums on the Standard Library's
    [SpecFloat]), [Sha256], [Json] (canonical text, with its round trip).

    The executor: [Spec] ([spec.py]), [Clock] ([clock.py]), [Offer] ([offer.py]),
    [Ledger] ([ledger.py]), [Settings] ([settings.py]), [Protocol] ([protocol.py]),
    [Inputs] ([inputs.py]), [Supervisor] ([supervisor.py], [envelope.py]), [Monitor]
    ([monitor.py]), [Wire] ([wire.py]).  [LedgerStep] gives every ledger operation as a
    step on rows with the invariant [wf], [Locks] the abstract lock table the ledger
    refines, [LedgerProtocol] and [SupervisorProtocol] what each supervisor method may
    do to the ledger, [Machine] the interleaving of requests, pool operations, ticks
    and restarts.  [LedgerProps], [SupervisorProps] and [ExecutorProps] hold the
    theorems and [Samples] their concrete inputs.

    The controller: [WorkloadSchema] ([workloads/schema.py]), [Database] (the tables of
    [store.py] and their rows), [Records] ([workloads/records.py],
    [inference/admission.py]), [NodeRecords] ([workloads/node_records.py]), [Identity]
    ([identity_store.py], [auth.py], [resource_store.py]), [Contributors]
    ([contributor_store.py], sessions of [contributors.py]), [PolicyPackages]
    ([policy_packages.py]), [Policy] ([policy_store.py], [policy_provider.py],
    [policies.py]), [Authority] ([workloads/authority.py], the dataset rules of
    [workloads/inputs.py]).  [RecordsProps], [IdentityProps], [ContributorProps],
    [PolicyProps] hold their invariants and theorems, [DatabaseProps] those of their
    interleaving on one database, [WorkloadSamples] the concrete inputs.
    [Scheduler] is the fair scheduler provider.

    The controller's tasks: [Control] (tasks as programs of code between awaits),
    [Channel] ([workloads/channel.py]), [Commands] ([workloads/commands.py]), [Checks] and
    [Transfers] ([workloads/inputs.py]: what a dispatch rereads, and the sending of
    datasets), [Runner] ([workloads/provider.py], [workloads/runner.py]), [Queue]
    ([workloads/queue.py], [workloads/usage.py]) and [Dispatch], the event loop that
    interleaves them with connections, restarts and every other writer of the database.
    [ChannelProps], [ControlProps], [TaskLogic], [DispatchProps], [ReconcileProps] and
    [ProviderProps] hold their theorems, [DispatchSamples] the concrete runs.

    Audit evidence: [AuditFormat] ([audit_sdk.py], [audit_state.py]), [Collector]
    ([audit-providers/https]), [AuditDelivery] ([audit_delivery.py]), [AuditSystem] (the
    delivering process, its disk, the audit table, the network and the collector),
    [AuditProps] and [AuditSamples].

    File transfers: [Posix] (files, directories and descriptors of the destination, what
    a loss of power may undo), [FileAccess] ([node/ficc_node/files.py],
    [node/ficc_node/receipts.py]), [FileTransfer] ([node/ficc_node/file_transfer.py], the
    code as programs of calls), [TransferSystem] (the files, the receipts, the requests,
    other programs, kills and losses of power).  [TransferInv] holds the invariant and
    the phases of a transfer, [TransferCalls] what one call does to it, [TransferLogic]
    the logic of programs, [TransferReads] its rules for the reading steps,
    [TransferSteps], [TransferWork], [TransferVerify], [TransferPublish] and
    [TransferRemove] the actions (prepare; chunks; verify and resume; publication;
    discarding and cleanup), [TransferSafe] the dispatcher and the system, [TransferResume]
    runs under a kernel that does not fail; [TransferProps] and [TransferSamples] the
    theorems and their concrete runs.

    ** How the code is read

    A database operation is a function from the tables to new tables and a result, or
    an exception of [exn]; a transaction that raises changes nothing.  A method that
    raises after it has changed something (the supervisor) is a state and exception
    monad, and a method that gives up a lock is a program of critical sections.
    Clock readings, random identities, the operating system, installed providers,
    X.509, ssh-keygen, zip and JSON readers and pydantic's union dispatch are
    arguments, so a theorem holds for whatever they answer.  Integers are Z with
    the bounds the models' fields declare; times are binary64; text is a sequence of
    code points below 256, and every field with a pattern is ASCII.

    ** What the theorems show

    Executor: the ledger's invariant and its refinement of exclusive locks; no
    reservation beyond the offer; a start intent granted at most once; a dead lease
    never revives; outcomes and slots survive until cleanup is confirmed; the same
    for every interleaving of the executor's threads; a tick fences every attempt
    without a live lease.  Scheduler: order, limits, maximality and a bound on
    starvation.  Controller: the database's invariant under every interleaving of
    its writers; attempts only evolve forward; a start is dispatched at most once;
    capacity is never reserved twice; secrets yield no more than the live membership
    grants and an ended credential stays dead; a policy decision stands only with the
    active package of a trusted publisher.  Controller tasks: on one channel a start is
    delivered once, a reply is handed to the command it answers, reconciliation with a
    silent or answering contributor ends, and what the fair scheduler selects passes the
    controller's validation.  Audit: the collector's trail covers every row the delivery
    calls delivered, and an admitted protected action has its evidence outside.  Transfers:
    a published file has the agreed content, files outside the transfer's own names are
    left as they are, an acknowledged chunk survives a loss of power, the retained
    transfers stay within their number and bytes, and an interrupted transfer can be
    resumed to success when the system no longer fails.

    ** Bounds and fuel

    [Fair.loop] runs with as much fuel as there are pending jobs plus rounds, which
    its theorem shows to be enough; the JSON parser's fuel is the length of its
    text, enough by the round trip; [Inputs.write_loop] and [FileTransfer.write_all] have
    one unit per byte and the reading loops as many units as bytes are asked for, since
    each turn moves one byte at least or stops.  [Runner.schedule] has 64 rounds,
    enough because each examines a job and the pass examines 64
    ([ProviderProps.select_rounds_enough]); [Runner.reconcile] has 2^257, and
    [ReconcileProps.reconcile_terminates] shows that they are never used up.
    [AuditFormat.shortest] tries up to the 17 digits that identify every binary64.

    ** Assumptions of the concurrent models

    Tasks of one event loop interleave at awaits only; the executor's threads between
    critical sections; the helper's requests at every call.  On a destination other
    programs may do anything to files but leave the helper's private objects and the
    reserved names of stages and originals alone, and an inode number is not used again
    while a receipt names it; a loss of power keeps, of every file and directory, what was
    synced and any part of what was not.  A chunk counts as acknowledged for a theorem
    when every receipt was on the disk at that time (the finding on [write_chunk] says why).

    ** Not modelled

    The HTTP routes and command lines, which translate requests into the operations
    above; the other file actions of the node helper (listing, display, modes, folders)
    and the controller's side of an upload or download ([transfers.py]); jobs, terminals,
    viewers, agents, modules and virtual machines of the host-administration side;
    federation and inference gateways; backup and restore; packaging; and, of the
    modelled parts, what only performs input and output: opening databases and sockets,
    reading administrators' configuration files, the certificate authority plugin's
    network calls.  The lock of a namespace of receipts is the rule that one request of
    it runs at a time. *)

From Stdlib Require Export ZArith Lia Bool Ascii.
From stdpp Require Export base gmap strings sorting fin_maps option.
From stdpp Require Export list.

#[global] Set Default Goal Selector "!".

(** ** Exceptions

    The Python exception classes the modelled code raises and catches.  The
    class hierarchy that the handlers test ([except ValueError], [isinstance
    (exc, Conflict)]) is written out by the predicates below. *)
Inductive exn :=
| Conflict (message : string)
| InputFailure (message : string)
| StopPending (message : string)
| ValueError (message : string)
| OSError (message : string)
| StorageError (message : string)
| Failure (code message : string) (status : Z)
| AuditError (code message : string)
| FileError (code message : string)
| OtherError (message : string).

#[global] Instance exn_eq_dec : EqDecision exn.
Proof. solve_decision. Defined.

(** [isinstance (e, Conflict)]: [InputFailure] derives from [Conflict]. *)
Definition is_conflict (e : exn) : bool :=
  match e with Conflict _ | InputFailure _ => true | _ => false end.

(** [isinstance (e, ValueError)]: [Conflict], [InputFailure], [StopPending],
    [AuditError] and [FileError] derive from [ValueError]. *)
Definition is_value_error (e : exn) : bool :=
  match e with
  | Conflict _ | InputFailure _ | StopPending _ | ValueError _ | AuditError _ _ | FileError _ _ => true
  | _ => false
  end.

Definition is_os_error (e : exn) : bool :=
  match e with OSError _ => true | _ => false end.

Definition exn_message (e : exn) : string :=
  match e with
  | Conflict m | InputFailure m | StopPending m | ValueError m | OSError m
  | StorageError m | Failure _ m _ | AuditError _ m | FileError _ m | OtherError m => m
  end.

(** ** Results *)

Inductive res (A : Type) :=
| Ok (a : A)
| Err (e : exn).
Arguments Ok {A} a.
Arguments Err {A} e.

#[global] Instance res_ret : MRet res := fun A a => Ok a.
#[global] Instance res_bind : MBind res := fun A B f m =>
  match m with Ok a => f a | Err e => Err e end.
#[global] Instance res_fmap : FMap res := fun A B f m =>
  match m with Ok a => Ok (f a) | Err e => Err e end.

(** [if condition: raise e]. *)
Definition raise_if (condition : bool) (e : exn) : res unit :=
  if condition then Err e else Ok tt.

(** [if value is None: raise e] with the value used afterwards. *)
Definition some_or {A} (o : option A) (e : exn) : res A :=
  match o with Some a => Ok a | None => Err e end.

Definition is_ok {A} (r : res A) : bool :=
  match r with Ok _ => true | Err _ => false end.

#[global] Instance res_eq_dec `{EqDecision A} : EqDecision (res A).
Proof. solve_decision. Defined.

Lemma is_ok_Ok {A} (r : res A) : is_ok r = true → ∃ a, r = Ok a.
Proof. destruct r as [a|e]; [by exists a|done]. Qed.

(** A field of a row that is known to be there. *)
Lemma fmap_value {A B} (f : A → B) o c y : o = Some c → f <$> o = Some y → f c = y.
Proof. by intros -> [= <-]. Qed.

Lemma Ok_inj {A} (a b : A) : Ok a = Ok b → a = b.
Proof. by intros [= ->]. Qed.

Lemma bind_Ok {A B} (m : res A) (f : A → res B) b :
  (m ≫= f) = Ok b ↔ ∃ a, m = Ok a ∧ f a = Ok b.
Proof.
  split.
  - destruct m as [a|e]; simpl; [by exists a|done].
  - by intros (a & -> & ?).
Qed.

Lemma bind_Err {A B} (m : res A) (f : A → res B) e :
  (m ≫= f) = Err e ↔ m = Err e ∨ ∃ a, m = Ok a ∧ f a = Err e.
Proof.
  split.
  - destruct m as [a|e']; simpl; [intros ?; right; by exists a|intros [= ->]; by left].
  - by intros [->|(a & -> & H)].
Qed.

Lemma raise_if_Ok c e u : raise_if c e = Ok u ↔ c = false.
Proof. destruct c, u; simpl; split; congruence. Qed.

Lemma raise_if_Err c e e' : raise_if c e = Err e' ↔ c = true ∧ e' = e.
Proof. destruct c; simpl; (split; [intros [= ->]; done|intros [H ->]; congruence]). Qed.

Lemma some_or_Ok {A} (o : option A) e a : some_or o e = Ok a ↔ o = Some a.
Proof. destruct o; simpl; split; congruence. Qed.

Lemma raise_if_bind_Ok {B} c e (m : res B) b :
  (raise_if c e ;; m) = Ok b ↔ c = false ∧ m = Ok b.
Proof. destruct c; simpl; (split; [intros H|intros [? H]]); done. Qed.

(** Fold with early exit: a [for] loop whose body may raise. *)
Fixpoint foldM {A B} (f : B → A → res B) (b : B) (l : list A) : res B :=
  match l with
  | [] => Ok b
  | x :: l => b' ← f b x; foldM f b' l
  end.

(** [for x in l: body], the body only raising. *)
Fixpoint forM_ {A} (f : A → res unit) (l : list A) : res unit :=
  match l with
  | [] => Ok tt
  | x :: l => f x ;; forM_ f l
  end.

(** A comprehension whose element may raise. *)
Fixpoint mapM {A B} (f : A → res B) (l : list A) : res (list B) :=
  match l with
  | [] => Ok []
  | x :: l => y ← f x; ys ← mapM f l; Ok (y :: ys)
  end.

Lemma forM_raise_if {A} (c : A → bool) e (l : list A) u :
  forM_ (fun x => raise_if (c x) e) l = Ok u ↔ Forall (fun x => c x = false) l.
Proof.
  destruct u. induction l as [|x l IH]; simpl; [by split|].
  rewrite Forall_cons_iff, <- IH. apply raise_if_bind_Ok.
Qed.

Lemma forM_Ok {A} (f : A → res unit) (l : list A) :
  (∀ x, x ∈ l → f x = Ok tt) → forM_ f l = Ok tt.
Proof.
  induction l as [|x l IH]; intros H; simpl; [done|]. rewrite H by by left. simpl.
  apply IH. intros y Hy. apply H. by right.
Qed.

Lemma mapM_Ok_id {A} (f : A → res A) (l : list A) : (∀ x, x ∈ l → f x = Ok x) → mapM f l = Ok l.
Proof.
  induction l as [|x l IH]; intros H; simpl; [done|]. rewrite H by by left. simpl.
  rewrite IH; [done|]. intros y Hy. apply H. by right.
Qed.

Lemma foldM_ind {A B} (P : B → Prop) (f : B → A → res B) l b b' :
  P b →
  (∀ x c c', x ∈ l → P c → f c x = Ok c' → P c') →
  foldM f b l = Ok b' → P b'.
Proof.
  revert b. induction l as [|x l IH]; intros b HP Hstep H; simpl in H; [by simplify_eq|].
  apply bind_Ok in H as (c & Hc & H).
  apply (IH c); [|set_solver|done]. eapply Hstep; [|done..]. set_solver.
Qed.

(** ** Tactics

    [res_inv] inverts a successful (or failed) chain of binds in the
    hypotheses into the guards that were passed and the intermediate values. *)
Ltac res_inv1 :=
  match goal with
  | H : (raise_if _ _ ;; _) = Ok _ |- _ => apply raise_if_bind_Ok in H as [? H]
  | H : (_ ≫= _) = Ok _ |- _ => apply bind_Ok in H as (? & ? & H)
  | H : raise_if _ _ = Ok _ |- _ => apply raise_if_Ok in H
  | H : some_or _ _ = Ok _ |- _ => apply some_or_Ok in H
  | H : Ok _ = Ok _ |- _ => injection H as H
  | H : Err _ = Ok _ |- _ => discriminate H
  | H : Ok _ = Err _ |- _ => discriminate H
  | H : mret _ = Ok _ |- _ => unfold mret, res_ret in H
  | H : context [let '(_, _) := ?p in _] |- _ => is_var p; destruct p
  end.
Ltac res_inv := repeat (res_inv1; simpl in * |-; simplify_eq).

(** Evaluate the monadic steps of a goal whose guards have been rewritten. *)
Ltac run := cbn [mbind res_bind fmap res_fmap mret res_ret raise_if some_or negb orb andb].

(** Boolean guards as propositions. *)
Ltac bool_inv1 :=
  match goal with
  | H : _ && _ = true |- _ => apply andb_true_iff in H as [? ?]
  | H : _ || _ = false |- _ => apply orb_false_iff in H as [? ?]
  | H : negb _ = true |- _ => apply negb_true_iff in H
  | H : negb _ = false |- _ => apply negb_false_iff in H
  | H : bool_decide _ = true |- _ => apply bool_decide_eq_true in H
  | H : bool_decide _ = false |- _ => apply bool_decide_eq_false in H
  | H : (_ <? _)%Z = true |- _ => apply Z.ltb_lt in H
  | H : (_ <? _)%Z = false |- _ => apply Z.ltb_ge in H
  | H : (_ <=? _)%Z = true |- _ => apply Z.leb_le in H
  | H : (_ <=? _)%Z = false |- _ => apply Z.leb_gt in H
  | H : (_ =? _)%Z = true |- _ => apply Z.eqb_eq in H
  | H : (_ =? _)%Z = false |- _ => apply Z.eqb_neq in H
  end.
Ltac bool_inv := repeat bool_inv1.

Tactic Notation "inv_ok" := res_inv; bool_inv; simplify_eq.

(** The same inversion without unfolding any definition. *)
Ltac lean_inv := repeat (first [res_inv1 | bool_inv1]; cbn beta iota in * |-; simplify_eq).

(** ** Lists *)

(** [len (set (values)) == len (values)]. *)
Definition distinct {A} `{EqDecision A} (l : list A) : bool := bool_decide (NoDup l).

Definition sumZ {A} (f : A → Z) (l : list A) : Z := foldr (fun x s => (f x + s)%Z) 0%Z l.

Lemma sumZ_app {A} (f : A → Z) l k : sumZ f (l ++ k) = (sumZ f l + sumZ f k)%Z.
Proof. induction l as [|x l IH]; simpl; lia. Qed.

Lemma sumZ_Permutation {A} (f : A → Z) l k : l ≡ₚ k → sumZ f l = sumZ f k.
Proof. induction 1; simpl; lia. Qed.

Lemma sumZ_nonneg {A} (f : A → Z) l :
  Forall (fun x => 0 <= f x)%Z l → (0 <= sumZ f l)%Z.
Proof. induction 1; simpl; lia. Qed.

Lemma sumZ_filter_le {A} (f : A → Z) (P : A → Prop) `{∀ x, Decision (P x)} l :
  Forall (fun x => 0 <= f x)%Z l → (sumZ f (filter P l) <= sumZ f l)%Z.
Proof.
  induction 1 as [|x l Hx Hl IH]; [done|].
  rewrite filter_cons. case_decide; simpl; lia.
Qed.

(** Some element satisfies a boolean predicate: Python's [any]. *)
Lemma existsb_false {A} (f : A → bool) (l : list A) :
  existsb f l = false ↔ ∀ x, x ∈ l → f x = false.
Proof.
  induction l as [|y l IH]; simpl.
  - split; [|done]. intros _ x Hx. by apply elem_of_nil in Hx.
  - rewrite orb_false_iff, IH. setoid_rewrite elem_of_cons.
    split; [intros [? ?] x [->|?]|intros H; split; [|intros x ?; apply H]]; auto.
Qed.

Lemma existsb_true {A} (f : A → bool) (l : list A) :
  existsb f l = true ↔ ∃ x, x ∈ l ∧ f x = true.
Proof.
  rewrite existsb_exists. split; intros (x & Hx & ?); exists x; split; try done;
    by apply list_elem_of_In.
Qed.

Lemma forallb_true {A} (f : A → bool) (l : list A) :
  forallb f l = true ↔ ∀ x, x ∈ l → f x = true.
Proof.
  rewrite forallb_forall. split; intros H x Hx; apply H; by apply list_elem_of_In.
Qed.

Lemma elem_of_List_filter {A} (f : A → bool) (l : list A) x :
  x ∈ List.filter f l ↔ f x = true ∧ x ∈ l.
Proof. rewrite !list_elem_of_In, filter_In. tauto. Qed.

Lemma filter_all {A} (f : A → bool) (l : list A) :
  (∀ x, x ∈ l → f x = true) → List.filter f l = l.
Proof.
  induction l as [|x l IH]; intros H; simpl; [done|].
  rewrite H by by left. f_equal. apply IH. intros y Hy. apply H. by right.
Qed.

Lemma filter_none {A} (f : A → bool) (l : list A) :
  (∀ x, x ∈ l → f x = false) → List.filter f l = [].
Proof.
  induction l as [|x l IH]; intros H; simpl; [done|].
  rewrite H by by left. apply IH. intros y Hy. apply H. by right.
Qed.

(** One more element in the part of one index. *)
Lemma bind_update_Permutation {A B} (f g : A → list B) (l : list A) a b :
  NoDup l → a ∈ l → f a ≡ₚ b :: g a → (∀ x, x ≠ a → f x = g x) →
  (l ≫= f) ≡ₚ b :: (l ≫= g).
Proof.
  intros Hnd Ha Hb Hf. induction Hnd as [|x l Hx Hnd IH]; [by apply elem_of_nil in Ha|].
  rewrite !bind_cons. apply elem_of_cons in Ha as [<-|Ha].
  - rewrite Hb. simpl. constructor. f_equiv. apply reflexive_eq. clear -Hx Hf.
    induction l as [|y l IH]; [done|]. apply not_elem_of_cons in Hx as [Hy Hl].
    rewrite !bind_cons, IH, Hf by done. done.
  - rewrite IH, Hf by (done || by intros ->). by rewrite Permutation_middle.
Qed.

(** ** Rows in key order

    [SELECT ... ORDER BY id]: the rows of a table in the binary order of their
    text keys. *)
Definition key_le {A} (a b : string * A) : Prop := String.le a.1 b.1.
#[global] Instance key_le_dec {A} : RelDecision (@key_le A).
Proof. intros a b. unfold key_le. apply _. Defined.

Definition rows {A} (m : gmap string A) : list (string * A) :=
  merge_sort key_le (map_to_list m).

Definition row_values {A} (m : gmap string A) : list A := (rows m).*2.

Lemma rows_Permutation {A} (m : gmap string A) : rows m ≡ₚ map_to_list m.
Proof. apply merge_sort_Permutation. Qed.

Lemma elem_of_rows {A} (m : gmap string A) k v : (k, v) ∈ rows m ↔ m !! k = Some v.
Proof. by rewrite rows_Permutation, elem_of_map_to_list. Qed.

Lemma elem_of_row_values {A} (m : gmap string A) v :
  v ∈ row_values m ↔ ∃ k, m !! k = Some v.
Proof.
  unfold row_values. rewrite list_elem_of_fmap. split.
  - intros ([k v'] & -> & Hin). exists k. by apply elem_of_rows.
  - intros [k Hk]. exists (k, v). by rewrite elem_of_rows.
Qed.

Lemma ltb_leb a b : String.ltb a b = negb (String.leb b a).
Proof.
  unfold String.ltb, String.leb. rewrite String.compare_antisym.
  by destruct (String.compare b a).
Qed.

#[global] Instance key_le_total {A} : Total (@key_le A).
Proof. intros a b. unfold key_le. apply (total String.le). Qed.
#[global] Instance key_le_trans {A} : Transitive (@key_le A).
Proof. intros a b c. unfold key_le. by intros ? ?; etrans. Qed.

Lemma rows_StronglySorted {A} (m : gmap string A) : StronglySorted key_le (rows m).
Proof. apply StronglySorted_merge_sort; apply _. Qed.

Lemma rows_keys_NoDup {A} (m : gmap string A) : NoDup (rows m).*1.
Proof. rewrite rows_Permutation. apply NoDup_fst_map_to_list. Qed.

Lemma sumZ_rows_insert {A} (f : A → Z) (m : gmap string A) k v :
  m !! k = None →
  sumZ f (row_values (<[k:=v]> m)) = (f v + sumZ f (row_values m))%Z.
Proof.
  intros Hk. unfold row_values.
  rewrite (sumZ_Permutation f _ ((k, v) :: map_to_list m).*2); last first.
  { apply fmap_Permutation. rewrite rows_Permutation. by apply map_to_list_insert. }
  simpl. f_equal. apply sumZ_Permutation, fmap_Permutation. by rewrite rows_Permutation.
Qed.

Lemma sumZ_rows_delete {A} (f : A → Z) (m : gmap string A) k v :
  m !! k = Some v → sumZ f (row_values m) = (f v + sumZ f (row_values (delete k m)))%Z.
Proof.
  intros Hk. rewrite <- (insert_delete_id m k v Hk) at 1. apply sumZ_rows_insert, lookup_delete_eq.
Qed.

Lemma sumZ_rows_update {A} (f : A → Z) (m : gmap string A) k v w :
  m !! k = Some v → sumZ f (row_values (<[k := w]> m)) = (sumZ f (row_values m) - f v + f w)%Z.
Proof.
  intros Hk. rewrite (sumZ_rows_delete f m k v Hk), <- insert_delete_eq, sumZ_rows_insert by apply lookup_delete_eq. lia.
Qed.

(** ** Text patterns

    The regular expressions of the validated fields, as character classes with
    length bounds.  Strings are sequences of code points below 256; every field
    constrained by a pattern is ASCII. *)
Definition char_between (lo hi c : ascii) : bool :=
  (N.leb (N_of_ascii lo) (N_of_ascii c)) && (N.leb (N_of_ascii c) (N_of_ascii hi)).

Definition is_digit := char_between "0" "9".
Definition is_lower := char_between "a" "z".
Definition is_upper := char_between "A" "Z".
Definition is_hex (c : ascii) : bool := is_digit c || char_between "a" "f" c.

Fixpoint all_chars (p : ascii → bool) (s : string) : bool :=
  match s with
  | EmptyString => true
  | String c s => p c && all_chars p s
  end.

Fixpoint contains_char (c : ascii) (s : string) : bool :=
  match s with
  | EmptyString => false
  | String d s => Ascii.eqb c d || contains_char c s
  end.

(** A character class listed by its members. *)
Definition one_of (s : string) (c : ascii) : bool := contains_char c s.

Definition length_between (lo hi : Z) (s : string) : bool :=
  (lo <=? Z.of_nat (String.length s))%Z && (Z.of_nat (String.length s) <=? hi)%Z.

(** [^[first][rest]{0,n}$]. *)
Definition leading (first rest : ascii → bool) (n : Z) (s : string) : bool :=
  match s with
  | EmptyString => false
  | String c s => first c && all_chars rest s && length_between 0 n s
  end.

Fixpoint strip_prefix (p s : string) : option string :=
  match p, s with
  | EmptyString, _ => Some s
  | String a p, String b s => if Ascii.eqb a b then strip_prefix p s else None
  | String _ _, EmptyString => None
  end.

(** [s.startswith (p)]. *)
Definition starts_with (p s : string) : bool :=
  match strip_prefix p s with Some _ => true | None => false end.

(** Python's chunked iteration [for offset in range (0, len (l), n)] over
    [l[offset:offset + n]]; [n] is positive at every use. *)
Fixpoint chunks_fuel {A} (fuel : nat) (n : nat) (l : list A) : list (list A) :=
  match fuel with
  | O => []
  | S fuel => match l with
              | [] => []
              | _ => take n l :: chunks_fuel fuel n (drop n l)
              end
  end.
Definition chunks {A} (n : nat) (l : list A) : list (list A) := chunks_fuel (length l) n l.

Lemma chunks_fuel_concat {A} fuel n (l : list A) :
  0 < n → length l ≤ fuel → concat (chunks_fuel fuel n l) = l.
Proof.
  intros Hn. revert l. induction fuel as [|fuel IH]; intros l Hl; simpl.
  { by destruct l; simpl in *; [|lia]. }
  destruct l as [|x l]; [done|]. simpl in Hl |- *.
  rewrite IH.
  - destruct n; [lia|]. simpl. f_equal. apply take_drop.
  - destruct n; [lia|]. simpl. rewrite length_drop. lia.
Qed.

Lemma chunks_concat {A} n (l : list A) : 0 < n → concat (chunks n l) = l.
Proof. intros. by apply chunks_fuel_concat. Qed.

Lemma chunks_length {A} n (l : list A) c : c ∈ chunks n l → length c ≤ n.
Proof.
  unfold chunks. generalize (length l) as fuel. intros fuel. revert l.
  induction fuel as [|fuel IH]; intros l; simpl; [set_solver|].
  destruct l as [|x l]; [set_solver|].
  rewrite elem_of_cons. intros [->|Hc]; [|by eapply IH].
  rewrite length_take. simpl. lia.
Qed.

Lemma elem_of_chunks {A} n (l : list A) x : 0 < n → x ∈ l → ∃ c, c ∈ chunks n l ∧ x ∈ c.
Proof.
  intros Hn. rewrite <- (chunks_concat n l Hn) at 1. rewrite list_elem_of_In, in_concat.
  intros (c & Hc & Hx). exists c. by rewrite !list_elem_of_In.
Qed.

Lemma chunks_elem {A} n (l c : list A) x : 0 < n → c ∈ chunks n l → x ∈ c → x ∈ l.
Proof.
  intros Hn Hc Hx. rewrite <- (chunks_concat n l Hn). apply list_elem_of_In, in_concat.
  exists c. by rewrite <- !list_elem_of_In.
Qed.

(** [mapM] succeeds element by element. *)
Lemma mapM_Ok {A B} (f : A → res B) (l : list A) k : mapM f l = Ok k ↔ Forall2 (fun x y => f x = Ok y) l k.
Proof.
  revert k. induction l as [|x l IH]; intros k; simpl.
  - split; [by intros [= <-]; constructor|by inversion 1].
  - rewrite bind_Ok. setoid_rewrite bind_Ok. setoid_rewrite IH. split.
    + intros (y & Hy & k' & Hk & [= <-]). by constructor.
    + inversion 1; subst; eauto.
Qed.

(** A database of equations that unfold the modelled guards, and one of facts
    that close the routine side conditions. *)
Create HintDb ficc discriminated.
Create Rewrite HintDb ficc_rw.
#[export] Hint Rewrite @lookup_insert_eq @lookup_delete_eq : ficc_rw.

Lemma row_values_insert {A} (m : gmap string A) k x :
  m !! k = None → row_values (<[k := x]> m) ≡ₚ x :: row_values m.
Proof.
  intros H. unfold row_values. by rewrite !rows_Permutation, map_to_list_insert.
Qed.

Lemma filter_Permutation_bool {A} (f : A → bool) (l k : list A) :
  l ≡ₚ k → List.filter f l ≡ₚ List.filter f k.
Proof.
  induction 1 as [|x l k _ IH|x y l|l k l' _ IH1 _ IH2]; simpl; [done| | |by etrans].
  - destruct (f x); [by constructor|done].
  - destruct (f x), (f y); by constructor || done.
Qed.

Lemma filter_filter {A} (f g : A → bool) (l : list A) :
  List.filter g (List.filter f l) = List.filter (fun x => f x && g x) l.
Proof.
  induction l as [|x l IH]; simpl; [done|]. destruct (f x); simpl; [|done].
  destruct (g x); by rewrite IH.
Qed.
