(* ===== verification/Float64.v ===== *)
(** * Binary64 arithmetic

    Python floats.  Wall-clock times, lease expiries and timestamps are IEEE
    binary64 numbers; this file fixes the format of the standard library's
    executable specification (53 bits of precision, largest exponent 1024) and
    proves the order laws the lease arguments use.  Every operation is the
    correctly rounded one, so a witness evaluates the arithmetic of the code. *)

From Stdlib Require Import SpecFloat.
From S2P Require Import Prelude.

Abbreviation float := spec_float.

Definition prec : Z := 53.
Definition emax : Z := 1024.

Definition f_add : float → float → float := SFadd prec emax.
Definition f_sub : float → float → float := SFsub prec emax.
Definition f_mul : float → float → float := SFmul prec emax.
Definition f_lt : float → float → bool := SFltb.
Definition f_le : float → float → bool := SFleb.
Definition f_eq : float → float → bool := SFeqb.

(** [float (z)], rounded to nearest even. *)
Definition f_of_Z (z : Z) : float := binary_normalize prec emax z 0 false.

(** Quotients, for the decimal constants of the code ([0.6] is [6 / 10] rounded). *)
Definition f_div : float → float → float := SFdiv prec emax.

(** [math.isfinite]. *)
Definition is_finite (x : float) : bool :=
  match x with S754_zero _ | S754_finite _ _ _ => true | _ => false end.

(** [int (x)]: truncation toward zero. *)
Definition f_trunc (x : float) : res Z :=
  match x with
  | S754_zero _ => Ok 0%Z
  | S754_finite s m e =>
      Ok (cond_Zopp s (if (0 <=? e)%Z then Zpos m * 2 ^ e else Zpos m / 2 ^ (- e))%Z)
  | S754_infinity _ => Err (OtherError "OverflowError")
  | S754_nan => Err (ValueError "cannot convert float NaN to integer")
  end.

(** Python's [max (a, b)] on floats: the first argument unless the second is
    strictly greater. *)
Definition f_max (a b : float) : float := if f_lt a b then b else a.

#[global] Instance float_eq_dec : EqDecision float.
Proof. solve_decision. Defined.

Definition f_zero : float := S754_zero false.

(** ** The order

    Finite numbers of one sign are compared by exponent, then mantissa; this is
    a lexicographic order whatever the representation, which makes [f_lt] a
    strict partial order and [f_le] transitive. *)
Definition magnitude_lt (m1 : positive) (e1 : Z) (m2 : positive) (e2 : Z) : Prop :=
  (e1 < e2)%Z ∨ (e1 = e2 ∧ (m1 < m2)%positive).

Lemma compare_finite s m1 e1 m2 e2 :
  SFcompare (S754_finite s m1 e1) (S754_finite s m2 e2) =
  Some (if s then CompOpp (match Z.compare e1 e2 with Eq => Pos.compare m1 m2 | c => c end)
        else match Z.compare e1 e2 with Eq => Pos.compare m1 m2 | c => c end).
Proof.
  simpl. unfold Pos.compare. by destruct s, (Z.compare e1 e2).
Qed.

Lemma f_lt_iff x y : f_lt x y = true ↔ SFcompare x y = Some Lt.
Proof. unfold f_lt, SFltb. destruct (SFcompare x y) as [[]|]; split; congruence. Qed.

Lemma f_le_iff x y :
  f_le x y = true ↔ SFcompare x y = Some Lt ∨ SFcompare x y = Some Eq.
Proof.
  unfold f_le, SFleb.
  destruct (SFcompare x y) as [[]|]; (split; [auto; congruence|]); intros [|]; congruence.
Qed.

Lemma magnitude_trichotomy m1 e1 m2 e2 :
  match (match Z.compare e1 e2 with Eq => Pos.compare m1 m2 | c => c end) with
  | Lt => magnitude_lt m1 e1 m2 e2
  | Eq => m1 = m2 ∧ e1 = e2
  | Gt => magnitude_lt m2 e2 m1 e1
  end.
Proof.
  unfold magnitude_lt. destruct (Z.compare_spec e1 e2); [|lia|lia].
  destruct (Pos.compare_spec m1 m2); auto.
Qed.

(** The order as a relation on representations. *)
Inductive float_below : float → float → Prop :=
| below_neg_inf y : y ≠ S754_nan → y ≠ S754_infinity true → float_below (S754_infinity true) y
| below_pos_inf x : x ≠ S754_nan → x ≠ S754_infinity false → float_below x (S754_infinity false)
| below_neg_zero m e s : float_below (S754_finite true m e) (S754_zero s)
| below_zero_pos m e s : float_below (S754_zero s) (S754_finite false m e)
| below_sign m1 e1 m2 e2 : float_below (S754_finite true m1 e1) (S754_finite false m2 e2)
| below_pos m1 e1 m2 e2 : magnitude_lt m1 e1 m2 e2 →
    float_below (S754_finite false m1 e1) (S754_finite false m2 e2)
| below_neg m1 e1 m2 e2 : magnitude_lt m2 e2 m1 e1 →
    float_below (S754_finite true m1 e1) (S754_finite true m2 e2).

Lemma f_lt_below x y : f_lt x y = true ↔ float_below x y.
Proof.
  rewrite f_lt_iff. split.
  - destruct x as [s1|s1| |s1 m1 e1], y as [s2|s2| |s2 m2 e2]; try done;
      try (destruct s1, s2; simpl; first [done | by constructor]);
      try (destruct s1; simpl; first [done | by constructor]);
      try (destruct s2; simpl; first [done | by constructor]).
    destruct (decide (s1 = s2)) as [<-|Hs].
    + rewrite compare_finite. pose proof (magnitude_trichotomy m1 e1 m2 e2) as Hm.
      destruct s1, (match Z.compare e1 e2 with Eq => _ | c => c end); try done; by constructor.
    + destruct s1, s2; simpl; try done; constructor.
  - destruct 1 as [y Hn Hi|x Hn Hi|m e s|m e s|m1 e1 m2 e2|m1 e1 m2 e2 Hm|m1 e1 m2 e2 Hm].
    + by destruct y as [s|[]| |s m e].
    + by destruct x as [s|[]| |s m e].
    + done.
    + done.
    + done.
    + rewrite compare_finite. pose proof (magnitude_trichotomy m1 e1 m2 e2) as Ht.
      destruct (match Z.compare e1 e2 with Eq => _ | c => c end); unfold magnitude_lt in *; try done; lia.
    + rewrite compare_finite. pose proof (magnitude_trichotomy m1 e1 m2 e2) as Ht.
      destruct (match Z.compare e1 e2 with Eq => _ | c => c end); unfold magnitude_lt in *; try done; lia.
Qed.

Lemma magnitude_lt_trans m1 e1 m2 e2 m3 e3 :
  magnitude_lt m1 e1 m2 e2 → magnitude_lt m2 e2 m3 e3 → magnitude_lt m1 e1 m3 e3.
Proof. unfold magnitude_lt. lia. Qed.

Lemma f_lt_trans x y z : f_lt x y = true → f_lt y z = true → f_lt x z = true.
Proof.
  rewrite !f_lt_below. intros H1 H2.
  destruct H1; inversion H2; subst; try done; constructor; try done;
    eauto using magnitude_lt_trans.
Qed.

Lemma f_lt_irrefl x : f_lt x x = false.
Proof.
  destruct (f_lt x x) eqn:H; [|done]. apply f_lt_below in H.
  inversion H; subst; unfold magnitude_lt in *; try done; lia.
Qed.

Lemma compare_Eq x y :
  SFcompare x y = Some Eq →
  x = y ∨ (∃ s s', x = S754_zero s ∧ y = S754_zero s').
Proof.
  destruct x as [s1|s1| |s1 m1 e1], y as [s2|s2| |s2 m2 e2]; try done;
    try (by destruct s1); try (by destruct s2); try (by destruct s1, s2; auto); eauto 6.
  destruct (decide (s1 = s2)) as [<-|Hs]; [|by destruct s1, s2].
  rewrite compare_finite. pose proof (magnitude_trichotomy m1 e1 m2 e2) as Hm.
  destruct s1, (match Z.compare e1 e2 with Eq => _ | c => c end); try done;
    destruct Hm as [-> ->]; auto.
Qed.

Lemma f_le_cases x y :
  f_le x y = true →
  f_lt x y = true ∨ x = y ∨ (∃ s s', x = S754_zero s ∧ y = S754_zero s').
Proof. rewrite f_le_iff, f_lt_iff. intros [?|?%compare_Eq]; auto. Qed.

Lemma f_lt_le x y : f_lt x y = true → f_le x y = true.
Proof. rewrite f_le_iff, f_lt_iff. auto. Qed.

Lemma f_lt_zero_l s s' y : f_lt (S754_zero s) y = true → f_lt (S754_zero s') y = true.
Proof. rewrite !f_lt_below. inversion 1; subst; by constructor. Qed.
Lemma f_lt_zero_r s s' x : f_lt x (S754_zero s) = true → f_lt x (S754_zero s') = true.
Proof. rewrite !f_lt_below. inversion 1; subst; by constructor. Qed.

Lemma f_le_lt_trans x y z : f_le x y = true → f_lt y z = true → f_lt x z = true.
Proof.
  intros [?|[->|(s & s' & -> & ->)]]%f_le_cases ?; eauto using f_lt_trans, f_lt_zero_l.
Qed.

Lemma f_lt_le_trans x y z : f_lt x y = true → f_le y z = true → f_lt x z = true.
Proof.
  intros ? [?|[<-|(s & s' & -> & ->)]]%f_le_cases; eauto using f_lt_trans, f_lt_zero_r.
Qed.

Lemma f_lt_le_false x y : f_lt x y = true → f_le y x = false.
Proof.
  intros Hlt. destruct (f_le y x) eqn:Hle; [|done].
  pose proof (f_lt_le_trans x y x Hlt Hle) as Hxx. by rewrite f_lt_irrefl in Hxx.
Qed.

(** Python's [max] dominates both arguments when it sees no NaN. *)
Lemma f_max_le_l a b : f_le a a = true → f_le a (f_max a b) = true.
Proof. unfold f_max. destruct (f_lt a b) eqn:H; auto using f_lt_le. Qed.

#[export] Hint Resolve f_lt_le f_lt_trans f_le_lt_trans f_lt_le_trans : ficc.
