(* ===== verification/Clock.v ===== *)
(** * Execution leases against the local clock

    [execution/clock.py]: a clock reading pairs the adjustable wall clock with
    the boot-time counter and the boot identity; a lease is active only while
    all three agree.  [active] is stated on the lease fields of an attempt
    record, which [renew] writes from [deadline]. *)

From Stdlib Require Import SpecFloat.
From S2P Require Import Prelude Float64.

Record Reading := mkReading { wall : float; elapsed_ns : Z; boot_id : string }.

#[global] Instance Reading_eq_dec : EqDecision Reading.
Proof. solve_decision. Defined.

(** [[0-9a-f]{n}] followed by the remaining groups, separated by hyphens. *)
Fixpoint hex_groups (groups : list nat) (s : string) : bool :=
  match groups with
  | [] => bool_decide (s = "")
  | [n] => (String.length s =? n)%nat && all_chars is_hex s
  | n :: groups =>
      all_chars is_hex (String.substring 0 n s)
      && (match String.get n s with Some c => Ascii.eqb c "-" | None => false end)
      && hex_groups groups (String.substring (S n) (String.length s - S n) s)
  end.

Definition boot_identity (s : string) : bool := hex_groups [8; 4; 4; 4; 12]%nat s.

(** [Reading.__post_init__]. *)
Definition reading_ok (r : Reading) : bool :=
  is_finite (wall r) && f_lt f_zero (wall r) && (0 <=? elapsed_ns r)%Z && boot_identity (boot_id r).

(** The fields [deadline] produces. *)
Record Timing := mkTiming {
  lease_boot_id : string; lease_received_ns : Z; lease_deadline_ns : Z }.

#[global] Instance Timing_eq_dec : EqDecision Timing.
Proof. solve_decision. Defined.

(** [active (value, now)]; [timing] is absent until the first renewal, when
    [value.get ("lease_boot_id")] is [None]. *)
Definition active (lease_sequence : Z) (lease_expires_at : float) (timing : option Timing)
    (now : Reading) : bool :=
  negb (lease_sequence =? 0)%Z
  && match timing with
     | Some t =>
         bool_decide (lease_boot_id t = boot_id now)
         && f_lt (wall now) lease_expires_at
         && (lease_received_ns t <=? elapsed_ns now)%Z
         && (elapsed_ns now <? lease_deadline_ns t)%Z
     | None => false
     end.

Definition nanoseconds : float := f_of_Z 1000000000.

(** [deadline (expires_at, now, maximum_seconds)]; [maximum_seconds] is an
    integer setting. *)
Definition deadline (expires_at : float) (now : Reading) (maximum_seconds : Z) : res Timing :=
  let maximum := f_of_Z maximum_seconds in
  raise_if (negb (is_finite maximum) || (maximum_seconds <=? 0)%Z || negb (is_finite expires_at)
            || negb (f_lt (wall now) expires_at && f_le expires_at (f_add (wall now) maximum)))
    (ValueError "The execution lease is expired or exceeds the local lease limit.") ;;
  duration_ns ← f_trunc (f_mul (f_sub expires_at (wall now)) nanoseconds);
  raise_if (duration_ns <=? 0)%Z (ValueError "The execution lease has no remaining duration.") ;;
  Ok (mkTiming (boot_id now) (elapsed_ns now) (elapsed_ns now + duration_ns)).

(** ** Facts *)

Lemma deadline_Ok expires_at now maximum t :
  deadline expires_at now maximum = Ok t →
  lease_boot_id t = boot_id now ∧ lease_received_ns t = elapsed_ns now
  ∧ (elapsed_ns now < lease_deadline_ns t)%Z
  ∧ f_lt (wall now) expires_at = true
  ∧ f_le expires_at (f_add (wall now) (f_of_Z maximum)) = true.
Proof. unfold deadline. intros H. inv_ok. repeat split; [simpl; lia|done..]. Qed.

Lemma deadline_active expires_at now maximum t seq :
  deadline expires_at now maximum = Ok t → seq ≠ 0%Z →
  active seq expires_at (Some t) now = true.
Proof.
  intros H Hseq. apply deadline_Ok in H as (Hb & Hr & Hd & Hw & _).
  unfold active. rewrite Hb, Hr, Hw, bool_decide_true by done.
  repeat (apply andb_true_iff; split); try done; try lia.
Qed.

Lemma active_inv seq expires_at timing now :
  active seq expires_at timing now = true →
  ∃ t, timing = Some t ∧ seq ≠ 0%Z ∧ lease_boot_id t = boot_id now
    ∧ f_lt (wall now) expires_at = true
    ∧ (lease_received_ns t <= elapsed_ns now < lease_deadline_ns t)%Z.
Proof.
  unfold active. destruct timing as [t|]; intros H; bool_inv; [|done].
  exists t. repeat split; try done; lia.
Qed.

(** A lease is dead at a reading when the boot-time counter has passed its
    deadline or the machine has restarted.  Unlike the wall clock, neither can
    be undone by a clock adjustment. *)
Definition lease_dead (timing : option Timing) (now : Reading) : bool :=
  match timing with
  | Some t => negb (bool_decide (lease_boot_id t = boot_id now))
              || (lease_deadline_ns t <=? elapsed_ns now)%Z
  | None => false
  end.

Lemma lease_dead_inactive seq expires_at timing now :
  lease_dead timing now = true → active seq expires_at timing now = false.
Proof.
  destruct timing as [t|]; [|done]. simpl. intros H.
  destruct (active seq expires_at (Some t) now) eqn:Ha; [|done].
  apply active_inv in Ha as (t' & [= <-] & _ & Hb & _ & Hd).
  apply orb_true_iff in H as [H|H]; bool_inv; [done|lia].
Qed.

(** Later readings of the same machine: the boot-time counter never runs back
    within a boot. *)
Definition later (t : option Timing) (now now' : Reading) : Prop :=
  (boot_id now' = boot_id now → (elapsed_ns now <= elapsed_ns now')%Z)
  ∧ (∀ x, t = Some x → boot_id now' ≠ boot_id now → lease_boot_id x ≠ boot_id now').

Lemma lease_dead_later timing now now' :
  later timing now now' → lease_dead timing now = true → lease_dead timing now' = true.
Proof.
  intros [Hmono Hboot]. destruct timing as [t|]; [|done]. simpl. intros H.
  destruct (decide (boot_id now' = boot_id now)) as [Heq|Hne].
  - rewrite Heq. specialize (Hmono Heq).
    apply orb_true_iff in H as [->|H]; [done|]. bool_inv.
    apply orb_true_iff. right. lia.
  - rewrite bool_decide_false by eauto. done.
Qed.
