(* ===== verification/Sha256.v ===== *)
(** * SHA-256

    [hashlib.sha256], on bytes as integers below 256: the content digests of
    plans, requests and input objects.  32-bit words are integers with the
    wrap-around written out.  The published test vectors are checked by
    computation. *)

From S2P Require Import Prelude.

#[local] Open Scope Z_scope.

Definition w32 (x : Z) : Z := Z.land x 0xffffffff.
Definition add32 (x y : Z) : Z := w32 (x + y).
Definition rotr (n x : Z) : Z := Z.lor (Z.shiftr x n) (w32 (Z.shiftl x (32 - n))).
Definition not32 (x : Z) : Z := Z.lxor x 0xffffffff.

(** The constants are the first 32 fractional bits of the cube roots of the
    first 64 primes, and the initial state those of the square roots of the
    first eight. *)
Definition prime (n : nat) : bool :=
  (2 <=? n)%nat && forallb (fun d => negb (n mod d =? 0)%nat) (seq 2 (n - 2)).

Definition primes : list Z :=
  Eval vm_compute in map Z.of_nat (List.filter prime (seq 0 312)).

(** The largest [r + x] with [x < 2 ^ bits] whose cube is at most [n]. *)
Fixpoint cube_root (bits : nat) (r n : Z) : Z :=
  match bits with
  | O => r
  | S bits =>
      let t := r + 2 ^ Z.of_nat bits in
      cube_root bits (if t ^ 3 <=? n then t else r) n
  end.

Definition round_constants : list Z :=
  Eval vm_compute in map (fun p => w32 (cube_root 36 0 (p * 2 ^ 96))) primes.

Definition initial_state : list Z :=
  Eval vm_compute in map (fun p => w32 (Z.sqrt (p * 2 ^ 64))) (take 8 primes).

(** The eight bytes, big endian, of a length in bits. *)
Definition be_bytes (n : nat) (x : Z) : list Z :=
  map (fun i => Z.land (Z.shiftr x (8 * Z.of_nat i)) 0xff) (rev (seq 0 n)).

Definition padded (data : list Z) : list Z :=
  let len := Z.of_nat (length data) in
  let zeros := (- (len + 9)) mod 64 in
  data ++ [0x80] ++ repeat 0 (Z.to_nat zeros) ++ be_bytes 8 (8 * len).

Definition word_of (bytes : list Z) : Z :=
  foldl (fun acc b => Z.lor (Z.shiftl acc 8) b) 0 bytes.

Definition small_sigma0 (x : Z) := Z.lxor (rotr 7 x) (Z.lxor (rotr 18 x) (Z.shiftr x 3)).
Definition small_sigma1 (x : Z) := Z.lxor (rotr 17 x) (Z.lxor (rotr 19 x) (Z.shiftr x 10)).
Definition big_sigma0 (x : Z) := Z.lxor (rotr 2 x) (Z.lxor (rotr 13 x) (rotr 22 x)).
Definition big_sigma1 (x : Z) := Z.lxor (rotr 6 x) (Z.lxor (rotr 11 x) (rotr 25 x)).

(** The schedule is kept newest first: the next word reads entries 1, 6, 14, 15. *)
Fixpoint schedule (n : nat) (recent : list Z) : list Z :=
  match n with
  | O => recent
  | S n =>
      let w i := nth i recent 0 in
      schedule n (add32 (add32 (small_sigma1 (w 1%nat)) (w 6%nat))
                        (add32 (small_sigma0 (w 14%nat)) (w 15%nat)) :: recent)
  end.

Definition round_step (s : list Z) (kw : Z * Z) : list Z :=
  match s with
  | [a; b; c; d; e; f; g; h] =>
      let ch := Z.lxor (Z.land e f) (Z.land (not32 e) g) in
      let t1 := w32 (h + big_sigma1 e + ch + kw.1 + kw.2) in
      let maj := Z.lxor (Z.land a b) (Z.lxor (Z.land a c) (Z.land b c)) in
      let t2 := w32 (big_sigma0 a + maj) in
      [add32 t1 t2; a; b; c; add32 d t1; e; f; g]
  | _ => s
  end.

Definition compress (s block : list Z) : list Z :=
  let words := map word_of (chunks 4 block) in
  let w := rev (schedule 48 (rev words)) in
  zip_with add32 s (foldl round_step s (zip round_constants w)).

Definition sha256 (data : list Z) : list Z :=
  foldl compress initial_state (chunks 64 (padded data)) ≫= be_bytes 4.

Definition hex_char (n : Z) : ascii :=
  ascii_of_N (Z.to_N (if n <? 10 then 48 + n else 87 + n)).

(** [hexdigest ()]. *)
Fixpoint hex (bytes : list Z) : string :=
  match bytes with
  | [] => EmptyString
  | b :: bytes => String (hex_char (Z.shiftr b 4)) (String (hex_char (Z.land b 15)) (hex bytes))
  end.

Definition bytes_of (s : string) : list Z :=
  map (fun c => Z.of_N (N_of_ascii c)) (String.list_ascii_of_string s).

Example sha256_abc :
  hex (sha256 (bytes_of "abc")) =
  "ba7816bf8f01cfea414140de5dae2223b00361a396177a9cb410ff61f20015ad".
Proof. vm_compute. reflexivity. Qed.

Example sha256_empty :
  hex (sha256 []) = "e3b0c44298fc1c149afbf4c8996fb92427ae41e4649b934ca495991b7852b855".
Proof. vm_compute. reflexivity. Qed.

Example sha256_two_blocks :
  hex (sha256 (bytes_of "abcdbcdecdefdefgefghfghighijhijkijkljklmklmnlmnomnopnopq")) =
  "248d6a61d20638b8e5c026930c3e6039a33ce45964ff2167f6ecedd419db06c1".
Proof. vm_compute. reflexivity. Qed.

(** ** Facts *)

Lemma round_step_length s kw : length s = 8%nat → length (round_step s kw) = 8%nat.
Proof. destruct s as [|? [|? [|? [|? [|? [|? [|? [|? [|]]]]]]]]]; done. Qed.

Lemma rounds_length l s : length s = 8%nat → length (foldl round_step s l) = 8%nat.
Proof. revert s. induction l as [|kw l IH]; intros s H; [done|]. apply IH, round_step_length, H. Qed.

Lemma compress_length s block : length s = 8%nat → length (compress s block) = 8%nat.
Proof. intros H. unfold compress. rewrite length_zip_with, rounds_length by done. lia. Qed.

Lemma sha256_length data : length (sha256 data) = 32%nat.
Proof.
  unfold sha256. assert (H : ∀ l s, length s = 8%nat → length (foldl compress s l) = 8%nat).
  { induction l as [|b l IH]; intros s Hs; [done|]. by apply IH, compress_length. }
  specialize (H (chunks 64 (padded data)) initial_state eq_refl).
  destruct (foldl compress initial_state (chunks 64 (padded data))) as [|? [|? [|? [|? [|? [|? [|? [|? [|]]]]]]]]]; done.
Qed.
