(* ===== verification/Posix.v ===== *)
(** * Files of a Linux host

    What the helper's file code asks of [os], [openat2], [renameat2] and [fallocate]:
    inodes with what readers see and what is on the disk since the last [fsync],
    directories, system calls with their results, what other programs may do between
    two calls, and what a loss of power leaves.

    A number is never used for two objects of ours; other programs may give a public
    number any meaning.  An object is private while only this program can name it: one
    made under a reserved name, or inside such a directory, and not yet moved out. *)

From S2P Require Import Prelude.

(** ** Errors *)

Inductive errno :=
| ENOENT | EEXIST | ENOTDIR | EISDIR | ENOTEMPTY | ELOOP | EXDEV | EBADF | EIO | ENOSPC | EDQUOT | EFBIG
| ENOSYS | EOPNOTSUPP | EINVAL.
#[global] Instance errno_eq_dec : EqDecision errno.
Proof. solve_decision. Defined.

(** [os.strerror]. *)
Definition strerror (e : errno) : string :=
  match e with
  | ENOENT => "No such file or directory" | EEXIST => "File exists" | ENOTDIR => "Not a directory"
  | EISDIR => "Is a directory" | ENOTEMPTY => "Directory not empty" | ELOOP => "Too many levels of symbolic links"
  | EXDEV => "Invalid cross-device link" | EBADF => "Bad file descriptor" | EIO => "Input/output error"
  | ENOSPC => "No space left on device" | EDQUOT => "Disk quota exceeded" | EFBIG => "File too large"
  | ENOSYS => "Function not implemented" | EOPNOTSUPP => "Operation not supported" | EINVAL => "Invalid argument"
  end.

(** ** Objects *)

(** [st_dev], [st_ino]. *)
Definition object : Type := Z * Z.

(** [stat.S_IFMT (st_mode)]. *)
Inductive kind := Regular | Directory | Symlink | Special (format : Z).
#[global] Instance kind_eq_dec : EqDecision kind.
Proof. solve_decision. Defined.

Record inode := mkInode {
  i_kind : kind; i_owned : bool; i_mode : Z; i_links : Z; i_mtime : Z; i_ctime : Z;
  i_data : list Z; i_disk : list Z; i_names : gmap string object; i_disk_names : gmap string object }.

Definition set_data (i : inode) (now : Z) (data : list Z) : inode :=
  mkInode (i_kind i) (i_owned i) (i_mode i) (i_links i) now now data (i_disk i) (i_names i) (i_disk_names i).
Definition set_names (i : inode) (now : Z) (names : gmap string object) : inode :=
  mkInode (i_kind i) (i_owned i) (i_mode i) (i_links i) now now (i_data i) (i_disk i) names (i_disk_names i).
Definition set_links (i : inode) (now links : Z) : inode :=
  mkInode (i_kind i) (i_owned i) (i_mode i) links (i_mtime i) now (i_data i) (i_disk i) (i_names i) (i_disk_names i).
Definition synced (i : inode) : inode :=
  mkInode (i_kind i) (i_owned i) (i_mode i) (i_links i) (i_mtime i) (i_ctime i) (i_data i) (i_data i) (i_names i)
    (i_names i).

(** What was done to names and objects that other programs can see.  A label is
    the reserved name that the moved object, or the directory of the removed one, belonged
    to; a renaming keeps the content and what it displaced. *)
Inductive effect :=
| Renamed (label : option string) (dir : object) (name : string) (moved : object) (content : list Z) (displaced : option object)
| Removed (label : option string) (dir : object) (name : string) (o : object)
| Truncated (o : object)
| Wrote (o : object)
| Made (dir : object) (name : string).

(** [f_roots]: what absolute paths resolve to; [f_private]: the private objects with the
    reserved name they belong to. *)
Record files := mkFiles {
  f_inodes : gmap object inode; f_roots : gmap string object; f_private : gmap object string;
  f_effects : list effect }.

Definition names_of (f : files) (d : object) : gmap string object :=
  match f_inodes f !! d with Some i => i_names i | None => ∅ end.
Definition disk_names_of (f : files) (d : object) : gmap string object :=
  match f_inodes f !! d with Some i => i_disk_names i | None => ∅ end.
Definition put (f : files) (o : object) (i : inode) : files :=
  mkFiles (<[o := i]> (f_inodes f)) (f_roots f) (f_private f) (f_effects f).
Definition private (f : files) (o : object) : bool := bool_decide (is_Some (f_private f !! o)).
Definition noted (f : files) (o : object) (e : effect) : files :=
  if private f o then f else mkFiles (f_inodes f) (f_roots f) (f_private f) (f_effects f ++ [e]).

(** The names of private directories. *)
Definition PREFIX : string := ".ficc-transfer-".
Definition reserved (name : string) : bool := starts_with PREFIX name.

(** ** System calls *)

Inductive access := ForDirectory | ForRead | ForWrite.

Inductive syscall :=
| Resolve (path : string)
| Walk (dir : object) (path : list string) (how : access)
| Fstat (o : object)
| StatAt (dir : object) (name : string)
| Mkdir (dir : object) (name : string)
| Create (dir : object) (name : string)
| Fsync (o : object)
| Space (o : object)
| Allocate (o : object) (size : Z)
| Pread (o : object) (size offset : Z)
| Pwrite (o : object) (data : list Z) (offset : Z)
| Truncate (o : object) (size : Z)
| Unlink (dir : object) (name : string)
| Rmdir (dir : object) (name : string)
| Rename (source_dir : object) (source : string) (dir : object) (name : string) (exchange : bool).

Record stat := mkStat {
  st_object : object; st_kind : kind; st_size : Z; st_mtime_ns : Z; st_ctime_ns : Z; st_owned : bool;
  st_mode : Z; st_nlink : Z; st_blocks : Z }.

Definition result (s : syscall) : Type :=
  match s with
  | Resolve _ | Walk _ _ _ | Create _ _ => object
  | Fstat _ | StatAt _ _ => stat
  | Space _ | Pwrite _ _ _ => Z
  | Pread _ _ _ => list Z
  | Mkdir _ _ | Fsync _ | Allocate _ _ | Truncate _ _ | Unlink _ _ | Rmdir _ _ | Rename _ _ _ _ _ => unit
  end.

(** What the kernel decides: a failure before anything is done, a number (of a new inode,
    of bytes written, of blocks), the time, and whether a failing replacement of a receipt
    was done nevertheless. *)
Record choice := mkChoice { ch_fault : option errno; ch_number : Z; ch_time : Z; ch_late : bool }.

Definition stat_of (o : object) (i : inode) (ch : choice) : stat :=
  mkStat o (i_kind i) (Z.of_nat (length (i_data i))) (i_mtime i) (i_ctime i) (i_owned i) (i_mode i) (i_links i)
    (ch_number ch).

(** One step of a lookup beneath a directory, without links and without crossing a device. *)
Definition lookup_at (f : files) (dir : object) (name : string) : errno + object :=
  match f_inodes f !! dir with
  | None => inl EBADF
  | Some i =>
      if bool_decide (i_kind i = Directory) then
        match i_names i !! name with
        | None => inl ENOENT
        | Some o =>
            match f_inodes f !! o with
            | None => inl ENOENT
            | Some j => if bool_decide (i_kind j = Symlink) then inl ELOOP
                        else if bool_decide (o.1 = dir.1) then inr o else inl EXDEV
            end
        end
      else inl ENOTDIR
  end.

Fixpoint walk (f : files) (dir : object) (path : list string) : errno + object :=
  match path with
  | [] => inr dir
  | name :: path => match lookup_at f dir name with inl e => inl e | inr o => walk f o path end
  end.

Definition granted (f : files) (o : object) (how : access) : errno + object :=
  match f_inodes f !! o with
  | None => inl EBADF
  | Some i =>
      match how with
      | ForDirectory => if bool_decide (i_kind i = Directory) then inr o else inl ENOTDIR
      | ForRead => inr o
      | ForWrite => if bool_decide (i_kind i = Directory) then inl EISDIR else inr o
      end
  end.

Definition slice (l : list Z) (offset size : Z) : list Z := take (Z.to_nat size) (drop (Z.to_nat offset) l).

(** Bytes beyond the end of a file read as zero once something is written after them. *)
Definition resized (l : list Z) (size : Z) : list Z :=
  take (Z.to_nat size) l ++ repeat 0%Z (Z.to_nat size - length l).
Definition spliced (l data : list Z) (offset : Z) : list Z :=
  resized l offset ++ data ++ drop (Z.to_nat offset + length data) l.

(** A new object in a directory; it is private in a private directory or under a reserved
    name. *)
Definition born (f : files) (dir : object) (di : inode) (name : string) (o : object) (i : inode) (now : Z) : files :=
  let label := match f_private f !! dir with
               | Some l => Some l
               | None => if reserved name then Some name else None
               end in
  let f1 := noted (put f dir (set_names di now (<[name := o]> (i_names di)))) dir (Made dir name) in
  match label with
  | Some l => mkFiles (<[o := i]> (f_inodes f1)) (f_roots f) (<[o := l]> (f_private f)) (f_effects f)
  | None => mkFiles (<[o := i]> (f_inodes f1)) (f_roots f) (f_private f) (f_effects f1)
  end.

Definition make (k : kind) (mode links : Z) (dir : object) (name : string) (ch : choice) (f : files) : errno + (files * object) :=
  match f_inodes f !! dir with
  | None => inl EBADF
  | Some di =>
      let o := (dir.1, ch_number ch) in
      if negb (bool_decide (i_kind di = Directory)) then inl ENOTDIR
      else if bool_decide (is_Some (i_names di !! name)) then inl EEXIST
      else if bool_decide (is_Some (f_inodes f !! o)) then inl EIO
      else inr (born f dir di name o (mkInode k true mode links (ch_time ch) (ch_time ch) [] [] ∅ ∅) (ch_time ch), o)
  end.

(** Taking a name away; the object keeps its number. *)
Definition removal (f : files) (dir : object) (di : inode) (name : string) (o : object) (i : inode) (now : Z) : files :=
  let f1 := put f o (set_links i now (i_links i - 1)) in
  noted (put f1 dir (set_names di now (delete name (i_names di)))) o (Removed (f_private f !! dir) dir name o).

Definition unlink (directory : bool) (dir : object) (name : string) (ch : choice) (f : files) : errno + files :=
  match f_inodes f !! dir with
  | None => inl EBADF
  | Some di =>
      match i_names di !! name with
      | None => inl ENOENT
      | Some o =>
          match f_inodes f !! o with
          | None => inl ENOENT
          | Some i =>
              if directory then
                if negb (bool_decide (i_kind i = Directory)) then inl ENOTDIR
                else if negb (bool_decide (i_names i = ∅)) then inl ENOTEMPTY
                else inr (removal f dir di name o i (ch_time ch))
              else if bool_decide (i_kind i = Directory) then inl EISDIR
              else inr (removal f dir di name o i (ch_time ch))
          end
      end
  end.

(** [renameat2]: without replacement, or as an exchange. *)
Definition moved (f : files) (source_dir : object) (source : string) (dir : object) (name : string)
    (o : object) (i : inode) (displaced : option object) (now : Z) : files :=
  let f0 := put f o (set_links i now (i_links i)) in
  let f1 := match displaced with
            | Some x => match f_inodes f0 !! x with Some xi => put f0 x (set_links xi now (i_links xi)) | None => f0 end
            | None => f0
            end in
  let without := match displaced with
                 | Some x => <[source := x]> (names_of f1 source_dir)
                 | None => delete source (names_of f1 source_dir)
                 end in
  let f2 := match f_inodes f1 !! source_dir with
            | Some si => put f1 source_dir (set_names si now without)
            | None => f1
            end in
  let f3 := match f_inodes f2 !! dir with
            | Some di => put f2 dir (set_names di now (<[name := o]> (i_names di)))
            | None => f2
            end in
  if private f dir then f3
  else mkFiles (f_inodes f3) (f_roots f3) (delete o (f_private f3))
         (f_effects f3 ++ [Renamed (f_private f !! o) dir name o (i_data i) displaced]).

Definition rename_at (source_dir : object) (source : string) (dir : object) (name : string) (exchange : bool)
    (ch : choice) (f : files) : errno + files :=
  match f_inodes f !! source_dir, f_inodes f !! dir with
  | Some si, Some di =>
      if negb (bool_decide (i_kind si = Directory) && bool_decide (i_kind di = Directory)) then inl ENOTDIR
      else if negb (bool_decide (source_dir.1 = dir.1)) then inl EXDEV
      else match i_names si !! source with
           | None => inl ENOENT
           | Some o =>
               match f_inodes f !! o with
               | None => inl ENOENT
               | Some i =>
                   if exchange then
                     match i_names di !! name with
                     | None => inl ENOENT
                     | Some x => inr (moved f source_dir source dir name o i (Some x) (ch_time ch))
                     end
                   else if bool_decide (is_Some (i_names di !! name)) then inl EEXIST
                   else inr (moved f source_dir source dir name o i None (ch_time ch))
               end
           end
  | _, _ => inl EBADF
  end.

Definition on {A} (f : files) (r : errno + (files * A)) : files * (errno + A) :=
  match r with inl e => (f, inl e) | inr (f', a) => (f', inr a) end.
Definition on_unit (f : files) (r : errno + files) : files * (errno + unit) :=
  match r with inl e => (f, inl e) | inr f' => (f', inr tt) end.

Definition regular_at (f : files) (o : object) : errno + inode :=
  match f_inodes f !! o with
  | None => inl EBADF
  | Some i => if bool_decide (i_kind i = Regular) then inr i else inl EISDIR
  end.

(** How many bytes one [pwrite] takes: at least one of a piece that is not empty. *)
Definition accepted (data : list Z) (n : Z) : Z :=
  Z.min (Z.of_nat (length data)) (Z.max 1 n).

Definition act (s : syscall) (ch : choice) (f : files) : files * (errno + result s) :=
  match s return files * (errno + result s) with
  | Resolve path =>
      (f, match f_roots f !! path with
          | None => inl ENOENT
          | Some o => granted f o ForDirectory
          end)
  | Walk dir path how =>
      (f, match walk f dir path with inl e => inl e | inr o => granted f o how end)
  | Fstat o => (f, match f_inodes f !! o with None => inl EBADF | Some i => inr (stat_of o i ch) end)
  | StatAt dir name =>
      (f, match f_inodes f !! dir with
          | None => inl EBADF
          | Some di =>
              match i_names di !! name with
              | None => inl ENOENT
              | Some o => match f_inodes f !! o with None => inl ENOENT | Some i => inr (stat_of o i ch) end
              end
          end)
  | Mkdir dir name => on_unit f (match make Directory 448 2 dir name ch f with inl e => inl e | inr p => inr p.1 end)
  | Create dir name => on f (make Regular 384 1 dir name ch f)
  | Fsync o =>
      match f_inodes f !! o with
      | None => (f, inl EBADF)
      | Some i => (put f o (synced i), inr tt)
      end
  | Space o => (f, inr (ch_number ch))
  | Allocate o size => (f, inr tt)
  | Pread o size offset =>
      (f, match regular_at f o with inl e => inl e | inr i => inr (slice (i_data i) offset size) end)
  | Pwrite o data offset =>
      match regular_at f o with
      | inl e => (f, inl e)
      | inr i =>
          let n := accepted data (ch_number ch) in
          (noted (put f o (set_data i (ch_time ch) (spliced (i_data i) (take (Z.to_nat n) data) offset))) o (Wrote o),
           inr n)
      end
  | Truncate o size =>
      match regular_at f o with
      | inl e => (f, inl e)
      | inr i => (noted (put f o (set_data i (ch_time ch) (resized (i_data i) size))) o (Truncated o), inr tt)
      end
  | Unlink dir name => on_unit f (unlink false dir name ch f)
  | Rmdir dir name => on_unit f (unlink true dir name ch f)
  | Rename source_dir source dir name exchange => on_unit f (rename_at source_dir source dir name exchange ch f)
  end.

Definition sys (s : syscall) (ch : choice) (f : files) : files * (errno + result s) :=
  match ch_fault ch with Some e => (f, inl e) | None => act s ch f end.

(** ** Between two calls *)

(** A directory names an object, for readers or on the disk. *)
Definition bound (f : files) (d : object) (name : string) (o : object) : Prop :=
  names_of f d !! name = Some o ∨ disk_names_of f d !! name = Some o.

(** No other program nor a loss of power names a private object in public, or an object
    that is not there. *)
Record discreet (f f' : files) : Prop := {
  dc_private : f_private f' = f_private f;
  dc_effects : f_effects f' = f_effects f;
  dc_kept : ∀ o, is_Some (f_inodes f !! o) → is_Some (f_inodes f' !! o);
  dc_public : ∀ d name o, f_private f !! d = None → reserved name = false → bound f' d name o → f_private f !! o = None;
  dc_there : ∀ d name o, bound f' d name o → is_Some (f_inodes f' !! o);
  dc_roots : ∀ path o, f_roots f' !! path = Some o → f_private f !! o = None ∧ is_Some (f_inodes f' !! o) }.

(** Other programs do anything to public objects and names; they leave private objects
    and reserved names alone. *)
Record others (f f' : files) : Prop := {
  ot_discreet : discreet f f';
  ot_objects : ∀ o l, f_private f !! o = Some l → f_inodes f' !! o = f_inodes f !! o;
  ot_reserved : ∀ d name, reserved name = true →
    names_of f' d !! name = names_of f d !! name ∧ disk_names_of f' d !! name = disk_names_of f d !! name }.

(** A loss of power: what was synced since it was last changed is kept; of anything else
    each byte and each name is old, new, or, for a byte, anything. *)
Record torn (i i' : inode) : Prop := {
  tn_kind : i_kind i' = i_kind i;
  tn_owned : i_owned i' = i_owned i;
  tn_mode : i_mode i' = i_mode i;
  tn_data : ∀ k b, i_data i !! k = Some b → i_disk i !! k = Some b → i_data i' !! k = Some b;
  tn_disk : i_disk i' = i_data i';
  tn_names : ∀ name, i_names i' !! name = i_names i !! name ∨ i_names i' !! name = i_disk_names i !! name;
  tn_disk_names : i_disk_names i' = i_names i' }.

Record blackout (f f' : files) : Prop := {
  bl_discreet : discreet f f';
  bl_objects : ∀ o l i, f_private f !! o = Some l → f_inodes f !! o = Some i → ∃ i', f_inodes f' !! o = Some i' ∧ torn i i';
  bl_reserved : ∀ d name, reserved name = true →
    (names_of f' d !! name = names_of f d !! name ∨ names_of f' d !! name = disk_names_of f d !! name)
    ∧ disk_names_of f' d !! name = names_of f' d !! name }.
