(* ===== verification/Json.v ===== *)
(** * Canonical JSON and content digests

    [execution/spec.py]: [encoded] (sorted keys, compact separators, ASCII
    output) and [digest].  The decoder stands for [json.loads] on this compact
    form; the round trip gives injectivity of the encoding, hence a digest
    equality is content equality or a SHA-256 collision.  Floats never occur in
    a digested value and are left out of the type. *)

From S2P Require Import Prelude Sha256.

#[local] Set Warnings "-register-all".
Inductive json :=
| JNull
| JBool (b : bool)
| JInt (z : Z)
| JStr (s : string)
| JArr (l : list json)
| JObj (l : list (string * json)).

Section json_ind.
  Variable P : json → Prop.
  Hypothesis Hnull : P JNull.
  Hypothesis Hbool : ∀ b, P (JBool b).
  Hypothesis Hint : ∀ z, P (JInt z).
  Hypothesis Hstr : ∀ s, P (JStr s).
  Hypothesis Harr : ∀ l, Forall P l → P (JArr l).
  Hypothesis Hobj : ∀ l, Forall (fun p => P p.2) l → P (JObj l).

Fixpoint json_nested_ind (j : json) : P j :=
  match j with
  | JNull => Hnull
  | JBool b => Hbool b
  | JInt z => Hint z
  | JStr s => Hstr s
  | JArr l => Harr l ((fix go l := match l return Forall P l with
                                   | [] => List.Forall_nil _
                                   | x :: l => List.Forall_cons _ x l (json_nested_ind x) (go l)
                                   end) l)
  | JObj l => Hobj l ((fix go l := match l return Forall (fun p => P p.2) l with
                                   | [] => List.Forall_nil _
                                   | x :: l => List.Forall_cons _ x l (json_nested_ind x.2) (go l)
                                   end) l)
  end.
End json_ind.

(** ** The printer *)

Definition quote : ascii := "034".

Definition digit (n : Z) : ascii := ascii_of_N (Z.to_N (48 + n)).

Fixpoint print_digits (fuel : nat) (n : Z) (acc : string) : string :=
  match fuel with
  | O => String (digit n) acc
  | S fuel => if (n <? 10)%Z then String (digit n) acc
              else print_digits fuel (n / 10) (String (digit (n mod 10)) acc)
  end.

Definition print_nat (n : Z) : string := print_digits (Z.to_nat (Z.log2 n)) n "".

Definition print_int (z : Z) : string :=
  if (z <? 0)%Z then String "-" (print_nat (- z)) else print_nat z.

Definition escape (c : ascii) (rest : string) : string :=
  let n := Z.of_N (N_of_ascii c) in
  if Ascii.eqb c quote then String "\" (String quote rest)
  else if Ascii.eqb c "\" then String "\" (String "\" rest)
  else if (n =? 10)%Z then String "\" (String "n" rest)
  else if (n =? 13)%Z then String "\" (String "r" rest)
  else if (n =? 9)%Z then String "\" (String "t" rest)
  else if (n =? 12)%Z then String "\" (String "f" rest)
  else if (n =? 8)%Z then String "\" (String "b" rest)
  else if ((32 <=? n) && (n <=? 126))%Z then String c rest
  else String "\" (String "u" (String "0" (String "0" (String (hex_char (Z.shiftr n 4))
         (String (hex_char (Z.land n 15)) rest))))).

Fixpoint print_chars (s rest : string) : string :=
  match s with
  | EmptyString => String quote rest
  | String c s => escape c (print_chars s rest)
  end.

Definition print_string (s rest : string) : string := String quote (print_chars s rest).

Fixpoint print (j : json) (rest : string) : string :=
  match j with
  | JNull => "null" +:+ rest
  | JBool true => "true" +:+ rest
  | JBool false => "false" +:+ rest
  | JInt z => print_int z +:+ rest
  | JStr s => print_string s rest
  | JArr [] => "[]" +:+ rest
  | JArr (x :: l) =>
      String "[" (print x ((fix tail l := match l with
        | [] => String "]" rest
        | y :: l => String "," (print y (tail l)) end) l))
  | JObj [] => "{}" +:+ rest
  | JObj ((k, x) :: l) =>
      String "{" (print_string k (String ":" (print x ((fix tail l := match l with
        | [] => String "}" rest
        | (k, y) :: l => String "," (print_string k (String ":" (print y (tail l)))) end) l))))
  end.

(** ** [sort_keys=True] *)

Fixpoint canon (j : json) : json :=
  match j with
  | JArr l => JArr (map canon l)
  | JObj l => JObj (merge_sort key_le (map (fun '(k, v) => (k, canon v)) l))
  | _ => j
  end.

(** [json.dumps (value, sort_keys=True, separators=(",", ":"))]. *)
Definition encoded (j : json) : string := print (canon j) "".

Definition content_hash (data : string) : string := "sha256:" +:+ hex (sha256 (bytes_of data)).

Definition digest (j : json) : string := content_hash (encoded j).

(** ** The decoder *)

Definition digit_value (c : ascii) : Z := Z.of_N (N_of_ascii c) - 48.

Fixpoint parse_digits (acc : Z) (s : string) : Z * string :=
  match s with
  | String c s' => if is_digit c then parse_digits (10 * acc + digit_value c) s' else (acc, s)
  | EmptyString => (acc, EmptyString)
  end.

Definition hex_value (c : ascii) : Z :=
  if is_digit c then digit_value c else Z.of_N (N_of_ascii c) - 87.

Definition cons_char (c : ascii) (r : option (string * string)) : option (string * string) :=
  match r with Some (s, rest) => Some (String c s, rest) | None => None end.

Fixpoint parse_chars (s : string) : option (string * string) :=
  match s with
  | EmptyString => None
  | String c r =>
      if Ascii.eqb c quote then Some (EmptyString, r)
      else if Ascii.eqb c "\" then
        match r with
        | EmptyString => None
        | String k r =>
            if Ascii.eqb k quote then cons_char quote (parse_chars r)
            else if Ascii.eqb k "\" then cons_char "\" (parse_chars r)
            else if Ascii.eqb k "n" then cons_char "010" (parse_chars r)
            else if Ascii.eqb k "r" then cons_char "013" (parse_chars r)
            else if Ascii.eqb k "t" then cons_char "009" (parse_chars r)
            else if Ascii.eqb k "f" then cons_char "012" (parse_chars r)
            else if Ascii.eqb k "b" then cons_char "008" (parse_chars r)
            else match r with
                 | String _ (String _ (String h (String l r))) =>
                     cons_char (ascii_of_N (Z.to_N (16 * hex_value h + hex_value l))) (parse_chars r)
                 | _ => None
                 end
        end
      else cons_char c (parse_chars r)
  end.

Fixpoint parse (fuel : nat) (s : string) : option (json * string) :=
  match fuel with
  | O => None
  | S fuel =>
      match s with
      | EmptyString => None
      | String c r =>
          if Ascii.eqb c "n" then (fun r => (JNull, r)) <$> strip_prefix "ull" r
          else if Ascii.eqb c "t" then (fun r => (JBool true, r)) <$> strip_prefix "rue" r
          else if Ascii.eqb c "f" then (fun r => (JBool false, r)) <$> strip_prefix "alse" r
          else if Ascii.eqb c quote then (fun '(s, r) => (JStr s, r)) <$> parse_chars r
          else if Ascii.eqb c "-" then let '(n, r) := parse_digits 0 r in Some (JInt (- n), r)
          else if is_digit c then let '(n, r) := parse_digits 0 s in Some (JInt n, r)
          else if Ascii.eqb c "[" then
            match strip_prefix "]" r with
            | Some r => Some (JArr [], r)
            | None => '(l, r) ← parse_items fuel r; Some (JArr l, r)
            end
          else if Ascii.eqb c "{" then
            match strip_prefix "}" r with
            | Some r => Some (JObj [], r)
            | None => '(l, r) ← parse_fields fuel r; Some (JObj l, r)
            end
          else None
      end
  end
with parse_items (fuel : nat) (s : string) : option (list json * string) :=
  match fuel with
  | O => None
  | S fuel =>
      '(x, r) ← parse fuel s;
      match strip_prefix "," r with
      | Some r => '(l, r) ← parse_items fuel r; Some (x :: l, r)
      | None => r ← strip_prefix "]" r; Some ([x], r)
      end
  end
with parse_fields (fuel : nat) (s : string) : option (list (string * json) * string) :=
  match fuel with
  | O => None
  | S fuel =>
      r ← strip_prefix (String quote "") s;
      '(k, r) ← parse_chars r;
      r ← strip_prefix ":" r;
      '(x, r) ← parse fuel r;
      match strip_prefix "," r with
      | Some r => '(l, r) ← parse_fields fuel r; Some ((k, x) :: l, r)
      | None => r ← strip_prefix "}" r; Some ([(k, x)], r)
      end
  end.

Example encoded_sorts :
  encoded (JObj [("b", JArr [JInt (-12); JNull]); ("a", JStr "x/y")]) =
  String "{" (print_string "a" (String ":" (print_string "x/y"
    ("," +:+ print_string "b" ":[-12,null]}")))).
Proof. vm_compute. reflexivity. Qed.

(** [json.loads] on a complete text. *)
Definition decoded (s : string) : option json :=
  match parse (String.length s) s with
  | Some (j, EmptyString) => Some j
  | _ => None
  end.

(** ** Round trip *)

Definition delimited (rest : string) : Prop :=
  match rest with EmptyString => True | String c _ => is_digit c = false end.

Lemma digit_facts n : (0 <= n < 10)%Z → is_digit (digit n) = true ∧ digit_value (digit n) = n.
Proof.
  intros Hn. rewrite <- (Z2Nat.id n) by lia.
  assert (Hk : Z.to_nat n < 10) by lia. generalize dependent (Z.to_nat n). clear Hn.
  intros k Hk. do 10 (destruct k as [|k]; [by vm_compute|]). lia.
Qed.

Lemma parse_print_digits fuel n acc :
  (0 <= n < 10 ^ (Z.of_nat fuel + 1))%Z →
  parse_digits 0 (print_digits fuel n acc) = parse_digits n acc.
Proof.
  revert n acc. induction fuel as [|fuel IH]; intros n acc Hn.
  - destruct (digit_facts n) as [Hd Hv]; [lia|].
    cbn [print_digits parse_digits]. rewrite Hd, Hv. f_equal.
  - cbn [print_digits]. destruct (Z.ltb_spec n 10) as [Hlt|Hge].
    + destruct (digit_facts n) as [Hd Hv]; [lia|].
      cbn [parse_digits]. rewrite Hd, Hv. f_equal.
    + destruct (digit_facts (n mod 10)) as [Hd Hv]; [apply Z.mod_pos_bound; lia|].
      rewrite IH.
      * cbn [parse_digits]. rewrite Hd, Hv. f_equal. pose proof (Z.div_mod n 10). lia.
      * split; [apply Z.div_pos; lia|]. apply Z.div_lt_upper_bound; [lia|].
        replace (10 * 10 ^ (Z.of_nat fuel + 1))%Z with (10 ^ (Z.of_nat (S fuel) + 1))%Z; [lia|].
        rewrite <- Z.pow_succ_r by lia. f_equal. lia.
Qed.

Lemma log2_bound n : (0 <= n)%Z → (0 <= n < 10 ^ (Z.of_nat (Z.to_nat (Z.log2 n)) + 1))%Z.
Proof.
  intros Hn. split; [done|]. pose proof (Z.log2_nonneg n). rewrite Z2Nat.id by done.
  destruct (decide (n = 0)%Z) as [->|]; [done|].
  pose proof (Z.log2_spec n ltac:(lia)).
  pose proof (Z.pow_le_mono_l 2 10 (Z.log2 n + 1)). lia.
Qed.

Lemma parse_print_nat n acc :
  (0 <= n)%Z → parse_digits 0 (print_digits (Z.to_nat (Z.log2 n)) n acc) = parse_digits n acc.
Proof. intros Hn. by apply parse_print_digits, log2_bound. Qed.

Lemma print_digits_app fuel n acc rest :
  print_digits fuel n acc +:+ rest = print_digits fuel n (acc +:+ rest).
Proof.
  revert n acc. induction fuel as [|fuel IH]; intros n acc; simpl; [done|].
  destruct (n <? 10)%Z; [done|]. apply IH.
Qed.

Lemma print_digits_head fuel n acc :
  (0 <= n < 10 ^ (Z.of_nat fuel + 1))%Z →
  ∃ d s, print_digits fuel n acc = String (digit d) s ∧ (0 <= d < 10)%Z.
Proof.
  revert n acc. induction fuel as [|fuel IH]; intros n acc Hn; cbn [print_digits].
  - exists n, acc. split; [done|]. lia.
  - destruct (Z.ltb_spec n 10); [exists n, acc; split; [done|lia]|]. apply IH.
    split; [apply Z.div_pos; lia|]. apply Z.div_lt_upper_bound; [lia|].
    replace (10 * 10 ^ (Z.of_nat fuel + 1))%Z with (10 ^ (Z.of_nat (S fuel) + 1))%Z; [lia|].
    rewrite <- Z.pow_succ_r by lia. f_equal. lia.
Qed.

Lemma parse_digits_delimited n rest : delimited rest → parse_digits n rest = (n, rest).
Proof. destruct rest as [|c rest]; simpl; [done|]. by intros ->. Qed.

Lemma parse_int fuel z rest :
  delimited rest → parse (S fuel) (print_int z +:+ rest) = Some (JInt z, rest).
Proof.
  intros Hrest. unfold print_int. destruct (Z.ltb_spec z 0) as [Hz|Hz].
  - change (String "-" ?s +:+ rest) with (String "-" (s +:+ rest)).
    unfold print_nat. rewrite print_digits_app. cbn [parse]. simpl Ascii.eqb. cbv iota.
    rewrite parse_print_nat by lia. simpl String.app.
    rewrite parse_digits_delimited by done. by rewrite Z.opp_involutive.
  - unfold print_nat. rewrite print_digits_app.
    destruct (print_digits_head (Z.to_nat (Z.log2 z)) z ("" +:+ rest)) as (d & s & Heq & Hd);
      [by apply log2_bound|].
    pose proof (parse_print_nat z ("" +:+ rest) Hz) as Hp. rewrite Heq in Hp |- *.
    destruct (digit_facts d Hd) as [Hdig _]. cbn [parse].
    assert (Hne : ∀ c, is_digit c = false → Ascii.eqb (digit d) c = false).
    { intros c Hc. by destruct (Ascii.eqb_spec (digit d) c) as [<-|]; [congruence|]. }
    rewrite !Hne by done. rewrite Hdig, Hp. simpl. by rewrite parse_digits_delimited.
Qed.

Lemma parse_escape c s : parse_chars (escape c s) = cons_char c (parse_chars s).
Proof. destruct c as [[] [] [] [] [] [] [] []]; reflexivity. Qed.

Lemma parse_print_chars s rest : parse_chars (print_chars s rest) = Some (s, rest).
Proof. induction s as [|c s IH]; [done|]. simpl. by rewrite parse_escape, IH. Qed.

(** Fuel the decoder needs, and the text is never shorter. *)
Fixpoint need (j : json) : nat :=
  match j with
  | JArr l => S (list_sum (map (fun x => S (need x)) l))
  | JObj l => S (list_sum (map (fun '(_, x) => S (need x)) l))
  | _ => 1
  end.

Fixpoint items_tail (l : list json) (rest : string) : string :=
  match l with
  | [] => String "]" rest
  | y :: l => String "," (print y (items_tail l rest))
  end.

Fixpoint fields_tail (l : list (string * json)) (rest : string) : string :=
  match l with
  | [] => String "}" rest
  | (k, y) :: l => String "," (print_string k (String ":" (print y (fields_tail l rest))))
  end.

Lemma print_arr x l rest :
  print (JArr (x :: l)) rest = String "[" (print x (items_tail l rest)).
Proof. simpl. do 2 f_equal. induction l as [|y l IH]; [done|]. simpl. by rewrite IH. Qed.

Lemma print_obj k x l rest :
  print (JObj ((k, x) :: l)) rest =
  String "{" (print_string k (String ":" (print x (fields_tail l rest)))).
Proof.
  simpl. do 5 f_equal. induction l as [|[k' y] l IH]; [done|]. simpl. by rewrite IH.
Qed.

Lemma items_tail_delimited l rest : delimited (items_tail l rest).
Proof. by destruct l. Qed.
Lemma fields_tail_delimited l rest : delimited (fields_tail l rest).
Proof. by destruct l as [|[]]. Qed.

Lemma print_string_chars k rest : parse_chars (print_chars k rest) = Some (k, rest).
Proof. apply parse_print_chars. Qed.

(** What [parse] does on a printed value, as the induction carries it. *)
Definition parses (j : json) : Prop :=
  ∀ fuel rest, need j ≤ fuel → delimited rest → parse fuel (print j rest) = Some (j, rest).

Lemma parse_items_print x l fuel rest :
  parses x → Forall parses l →
  S (need x) + list_sum (map (fun x => S (need x)) l) ≤ fuel →
  parse_items fuel (print x (items_tail l rest)) = Some (x :: l, rest).
Proof.
  intros Hx Hl. revert x Hx fuel. induction Hl as [|y l Hy Hl IH]; intros x Hx fuel Hf;
    (destruct fuel as [|fuel]; [simpl in Hf; lia|]); cbn [parse_items].
  - rewrite Hx by (simpl in *; done || lia). done.
  - rewrite Hx by (simpl in *; done || lia). cbn [mbind option_bind items_tail]. simpl strip_prefix.
    cbv iota. rewrite IH; [done|done|]. simpl in Hf |- *. lia.
Qed.

Lemma parse_fields_print k x l fuel rest :
  parses x → Forall (fun p => parses p.2) l →
  S (need x) + list_sum (map (fun '(_, x) => S (need x)) l) ≤ fuel →
  parse_fields fuel (print_string k (String ":" (print x (fields_tail l rest)))) =
  Some ((k, x) :: l, rest).
Proof.
  intros Hx Hl. revert k x Hx fuel. induction Hl as [|[k' y] l Hy Hl IH]; intros k x Hx fuel Hf;
    (destruct fuel as [|fuel]; [simpl in Hf; lia|]); cbn [parse_fields];
    unfold print_string at 1; simpl strip_prefix; cbn [mbind option_bind];
    rewrite parse_print_chars; cbn [mbind option_bind]; simpl strip_prefix; cbn [mbind option_bind].
  - rewrite Hx by (simpl in *; done || lia). done.
  - rewrite Hx by (simpl in *; done || lia). cbn [mbind option_bind fields_tail]. simpl strip_prefix.
    cbv iota. rewrite IH; [done|done|]. simpl in Hf |- *. lia.
Qed.

Lemma print_not_bracket j rest : strip_prefix "]" (print j rest) = None.
Proof.
  destruct j as [|[]|z|s|[|x l]|[|[k x] l]]; try done.
  change (strip_prefix "]" (print_int z +:+ rest) = None).
  unfold print_int. destruct (Z.ltb_spec z 0) as [Hz|Hz]; [done|].
  unfold print_nat. rewrite print_digits_app.
  destruct (print_digits_head (Z.to_nat (Z.log2 z)) z ("" +:+ rest)) as (d & s & -> & Hd);
    [by apply log2_bound|].
  destruct (digit_facts d Hd) as [Hdig _]. cbn [strip_prefix].
  destruct (Ascii.eqb "]" (digit d)) eqn:Heq; [|done].
  apply Ascii.eqb_eq in Heq. rewrite <- Heq in Hdig. discriminate Hdig.
Qed.

Lemma parse_print j : parses j.
Proof.
  induction j as [|b|z|s|l IH|l IH] using json_nested_ind; intros fuel rest Hf Hrest;
    (destruct fuel as [|fuel]; [simpl in Hf; lia|]).
  - done.
  - by destruct b.
  - by apply parse_int.
  - unfold print, print_string. cbn [parse]. simpl Ascii.eqb. cbv iota.
    by rewrite parse_print_chars.
  - destruct l as [|x l]; [done|]. rewrite print_arr. cbn [parse]. simpl Ascii.eqb. simpl is_digit.
    cbv iota. inversion IH as [|? ? Hx Hl]; subst.
    rewrite print_not_bracket, parse_items_print; [done|done|done|]. simpl in Hf. lia.
  - destruct l as [|[k x] l]; [done|]. rewrite print_obj. cbn [parse]. simpl Ascii.eqb.
    cbv iota. inversion IH as [|? ? Hx Hl]; subst.
    change (strip_prefix "}" (print_string ?k ?r)) with (@None string).
    rewrite parse_fields_print; [done|done|done|]. simpl in Hf. lia.
Qed.

Lemma escape_length c s : String.length s < String.length (escape c s).
Proof. destruct c as [[] [] [] [] [] [] [] []]; simpl; lia. Qed.

Lemma print_chars_length s rest : String.length rest < String.length (print_chars s rest).
Proof.
  induction s as [|c s IH]; simpl; [lia|]. pose proof (escape_length c (print_chars s rest)). lia.
Qed.

Lemma print_digits_length fuel n acc : String.length acc < String.length (print_digits fuel n acc).
Proof.
  revert n acc. induction fuel as [|fuel IH]; intros n acc; simpl; [lia|].
  destruct (n <? 10)%Z; simpl; [lia|].
  pose proof (IH (n / 10)%Z (String (digit (n mod 10)) acc)). simpl in *. lia.
Qed.

Lemma print_int_length z rest : String.length rest < String.length (print_int z +:+ rest).
Proof.
  unfold print_int, print_nat. destruct (z <? 0)%Z.
  - change (String "-" ?s +:+ rest) with (String "-" (s +:+ rest)). rewrite print_digits_app.
    etrans; [apply (print_digits_length (Z.to_nat (Z.log2 (- z))) (- z) ("" +:+ rest))|].
    apply Nat.lt_succ_diag_r.
  - rewrite print_digits_app. apply (print_digits_length _ _ ("" +:+ rest)).
Qed.

#[local] Ltac norm_length :=
  simpl; repeat change ("" +:+ ?r) with r; lia.

Lemma print_length j : ∀ rest, need j + String.length rest ≤ String.length (print j rest).
Proof.
  induction j as [|b|z|s|l IH|l IH] using json_nested_ind; intros rest.
  - norm_length.
  - destruct b; norm_length.
  - pose proof (print_int_length z rest). simpl in *. lia.
  - pose proof (print_chars_length s rest). simpl in *. lia.
  - destruct l as [|x l]; [norm_length|]. rewrite print_arr.
    inversion IH as [|? ? Hx Hl]; subst. specialize (Hx (items_tail l rest)). simpl in *.
    assert (list_sum (map (fun x => S (need x)) l) + String.length rest
            < String.length (items_tail l rest)); [|lia].
    clear Hx IH. induction Hl as [|y l Hy Hl IHl]; simpl; [lia|].
    specialize (Hy (items_tail l rest)). lia.
  - destruct l as [|[k x] l]; [norm_length|]. rewrite print_obj.
    inversion IH as [|? ? Hx Hl]; subst. specialize (Hx (fields_tail l rest)). simpl in *.
    assert (list_sum (map (fun '(_, x) => S (need x)) l) + String.length rest
            < String.length (fields_tail l rest)).
    { clear Hx IH. induction Hl as [|[k' y] l Hy Hl IHl]; simpl; [lia|].
      specialize (Hy (fields_tail l rest)). simpl in Hy.
      pose proof (print_chars_length k' (String ":" (print y (fields_tail l rest)))). simpl in *. lia. }
    pose proof (print_chars_length k (String ":" (print x (fields_tail l rest)))). simpl in *. lia.
Qed.

Lemma decoded_print j : decoded (print j "") = Some j.
Proof.
  unfold decoded. rewrite parse_print; [done| |done].
  pose proof (print_length j ""). simpl in *. lia.
Qed.

Lemma encoded_inj i j : encoded i = encoded j → canon i = canon j.
Proof.
  unfold encoded. intros H. apply (f_equal decoded) in H.
  rewrite !decoded_print in H. congruence.
Qed.

#[global] Instance json_eq_dec : EqDecision json.
Proof.
  refine (fun i j => cast_if (decide (print i "" = print j ""))); [|abstract congruence].
  abstract (match goal with H : print _ _ = print _ _ |- _ =>
    apply (f_equal decoded) in H; rewrite !decoded_print in H; congruence end).
Defined.

(** ** Fields of canonical objects

    Canonical objects determine their keys up to order, and objects declared
    with the same distinct keys determine their values. *)

Lemma canon_pairs_keys (l : list (string * json)) :
  (map (fun '(k, v) => (k, canon v)) l).*1 = l.*1.
Proof. rewrite <- list_fmap_compose. apply list_fmap_ext. by intros ? []. Qed.

Lemma canon_obj_Permutation l l' :
  canon (JObj l) = canon (JObj l') →
  map (fun '(k, v) => (k, canon v)) l ≡ₚ map (fun '(k, v) => (k, canon v)) l'.
Proof.
  simpl. intros [= H].
  rewrite <- (merge_sort_Permutation key_le (map _ l)), H. apply merge_sort_Permutation.
Qed.

Lemma canon_obj_keys l l' : canon (JObj l) = canon (JObj l') → l.*1 ≡ₚ l'.*1.
Proof.
  intros H%canon_obj_Permutation%(fmap_Permutation fst). by rewrite !canon_pairs_keys in H.
Qed.

Lemma Permutation_same_keys {A} (l l' : list (string * A)) :
  NoDup l.*1 → l.*1 = l'.*1 → l ≡ₚ l' → l = l'.
Proof.
  revert l'. induction l as [|[k v] l IH]; intros [|[k' v'] l'] Hnd Hk Hp; try done.
  simpl in *. injection Hk as -> Hk. apply NoDup_cons in Hnd as [Hnin Hnd].
  assert ((k', v) ∈ (k', v') :: l') as [[= ->]|Hin]%elem_of_cons.
  { rewrite <- Hp. apply elem_of_cons. by left. }
  - f_equal. apply IH; [done..|]. by eapply Permutation_cons_inv.
  - exfalso. apply Hnin. rewrite Hk. apply list_elem_of_fmap. by exists (k', v).
Qed.

Lemma canon_obj_inj l l' :
  NoDup l.*1 → l.*1 = l'.*1 → canon (JObj l) = canon (JObj l') →
  map (fun p => canon p.2) l = map (fun p => canon p.2) l'.
Proof.
  intros Hnd Hk Hp%canon_obj_Permutation.
  apply Permutation_same_keys in Hp; [|by rewrite canon_pairs_keys|by rewrite !canon_pairs_keys].
  apply (f_equal (map snd)) in Hp. rewrite !map_map in Hp.
  etrans; [|etrans; [apply Hp|]]; apply map_ext; by intros [].
Qed.

(** ** Digests *)

Definition is_byte (b : Z) : Prop := (0 <= b < 256)%Z.

Lemma hex_char_inj a b :
  (0 <= a < 16)%Z → (0 <= b < 16)%Z → hex_char a = hex_char b → a = b.
Proof.
  intros Ha Hb. rewrite <- (Z2Nat.id a), <- (Z2Nat.id b) by lia.
  assert (Z.to_nat a < 16) by lia. assert (Z.to_nat b < 16) by lia.
  generalize dependent (Z.to_nat a). generalize dependent (Z.to_nat b). clear.
  intros m Hm n Hn.
  do 16 (destruct m as [|m];
    [do 16 (destruct n as [|n]; [vm_compute; first [done | by intros [=]]|]); lia|]). lia.
Qed.

Lemma hex_inj a b : Forall is_byte a → Forall is_byte b → hex a = hex b → a = b.
Proof.
  intros Ha. revert b. induction Ha as [|x a Hx Ha IH]; intros [|y b] Hb; try done.
  inversion Hb as [|? ? Hy Hb']; subst. intros [= H1 H2 H3]. unfold is_byte in *.
  apply hex_char_inj in H1; [|rewrite Z.shiftr_div_pow2 by done; split; [apply Z.div_pos|apply Z.div_lt_upper_bound]; lia ..].
  apply hex_char_inj in H2; [|change 15%Z with (Z.ones 4); rewrite Z.land_ones by done; apply Z.mod_pos_bound; lia ..].
  f_equal; [|auto].
  rewrite !Z.shiftr_div_pow2 in H1 by done.
  change 15%Z with (Z.ones 4) in H2. rewrite !Z.land_ones in H2 by done.
  rewrite (Z.div_mod x (2 ^ 4)), (Z.div_mod y (2 ^ 4)) by done. congruence.
Qed.

Lemma be_bytes_bytes n x : Forall is_byte (be_bytes n x).
Proof.
  apply Forall_forall. intros b Hb. unfold be_bytes in Hb.
  apply list_elem_of_fmap in Hb as (i & -> & _). unfold is_byte.
  change 0xff%Z with (Z.ones 8). rewrite Z.land_ones by done. apply Z.mod_pos_bound. lia.
Qed.

Lemma sha256_bytes data : Forall is_byte (sha256 data).
Proof.
  unfold sha256. apply Forall_forall. intros b Hb.
  apply list_elem_of_bind in Hb as (x & Hb & _).
  by eapply Forall_forall in Hb; [|apply be_bytes_bytes].
Qed.

(** Two texts that hash alike without being equal. *)
Definition sha256_collision (a b : string) : Prop :=
  a ≠ b ∧ sha256 (bytes_of a) = sha256 (bytes_of b).

Lemma digest_binding i j :
  digest i = digest j → canon i = canon j ∨ sha256_collision (encoded i) (encoded j).
Proof.
  unfold digest, content_hash. intros H.
  apply (inj (String.app "sha256:")) in H. apply hex_inj in H; [|apply sha256_bytes..].
  destruct (decide (encoded i = encoded j)) as [He|He]; [left; by apply encoded_inj|by right].
Qed.
