(* ===== verification/Spec.v ===== *)
(** * Execution identities, resource requests and immutable plans

    [execution/spec.py].  Each pydantic model is a record with a boolean
    validator holding its field constraints and model validators; [*_dump] is
    [model_dump] with the model serializers applied.  A plan's digest is the
    SHA-256 of its canonical JSON; [plan_digest_binds] shows that equal digests
    mean equal plans unless SHA-256 collides. *)

From S2P Require Import Prelude Float64 Sha256 Json.

(** ** Field patterns *)

Definition identity (s : string) : bool := (String.length s =? 32)%nat && all_chars is_hex s.

Definition digest_text (s : string) : bool :=
  match strip_prefix "sha256:" s with
  | Some h => (String.length h =? 64)%nat && all_chars is_hex h
  | None => false
  end.

Definition name_char (c : ascii) : bool := is_lower c || is_digit c || one_of "_.-" c.
Definition name (s : string) : bool := leading is_lower name_char 79 s.

Definition alnum (c : ascii) : bool := is_upper c || is_lower c || is_digit c.
Definition device (s : string) : bool :=
  leading alnum (fun c => alnum c || one_of "_.:/-" c) 127 s.
Definition object_name (s : string) : bool :=
  leading alnum (fun c => alnum c || one_of "_.-" c) 127 s.
Definition variable (s : string) : bool :=
  leading (fun c => is_upper c || is_lower c || Ascii.eqb c "_")
          (fun c => alnum c || Ascii.eqb c "_") 127 s.
Definition socket_name (s : string) : bool := leading is_lower name_char 63 s.

Definition count (z : Z) : bool := (0 <=? z)%Z && (z <=? 2 ^ 63 - 1)%Z.
Definition positive_count (z : Z) : bool := (1 <=? z)%Z && (z <=? 2 ^ 63 - 1)%Z.
Definition revision_number (z : Z) : bool := (1 <=? z)%Z && (z <=? 2 ^ 53 - 1)%Z.

(** ** Limits *)

Record Limits := mkLimits {
  cpu_millis : Z; memory_bytes : Z; swap_bytes : Z; processes : Z;
  storage_bytes : Z; storage_inodes : Z; gpu_devices : list string }.

(** [getattr (limits, name)] over the six counted resources. *)
Inductive resource := CpuMillis | MemoryBytes | SwapBytes | Processes | StorageBytes | StorageInodes.

#[global] Instance resource_eq_dec : EqDecision resource.
Proof. solve_decision. Defined.

Definition amount (l : Limits) (r : resource) : Z :=
  match r with
  | CpuMillis => cpu_millis l | MemoryBytes => memory_bytes l | SwapBytes => swap_bytes l
  | Processes => processes l | StorageBytes => storage_bytes l | StorageInodes => storage_inodes l
  end.

(** The names the ledger sums over unfinished attempts, and over retained ones. *)
Definition compute_resources : list resource := [CpuMillis; MemoryBytes; SwapBytes; Processes].
Definition storage_resources : list resource := [StorageBytes; StorageInodes].
Definition all_resources : list resource := compute_resources ++ storage_resources.

Definition limits_ok (l : Limits) : bool :=
  positive_count (cpu_millis l) && positive_count (memory_bytes l) && count (swap_bytes l)
  && positive_count (processes l) && positive_count (storage_bytes l)
  && positive_count (storage_inodes l)
  && forallb device (gpu_devices l) && (length (gpu_devices l) <=? 64)%nat
  && distinct (gpu_devices l).

(** [Limits.fits]. *)
Definition fits (l ceiling : Limits) : bool :=
  forallb (fun r => amount l r <=? amount ceiling r)%Z all_resources
  && forallb (fun d => bool_decide (d ∈ gpu_devices ceiling)) (gpu_devices l).

(** ** Runtime, payload, objects, outputs, endpoints *)

Record Runtime := mkRuntime {
  provider : string; package_digest : string; image_digest : string;
  isolation : string; network : string }.

Definition runtime_ok (r : Runtime) : bool :=
  name (provider r) && digest_text (package_digest r) && digest_text (image_digest r)
  && name (isolation r) && name (network r).

Record Payload := mkPayload { argv : list string; environment : gmap string string }.

Definition strings_json (l : list string) : json := JArr (map JStr l).

Definition payload_dump (p : Payload) : json :=
  JObj [("argv", strings_json (argv p));
        ("environment", JObj (map (fun '(k, v) => (k, JStr v)) (rows (environment p))))].

Definition argument (s : string) : bool := length_between 0 16384 s.

(** Field constraints and [Payload.bounded]. *)
Definition payload_ok (p : Payload) : bool :=
  forallb argument (argv p)
  && (1 <=? length (argv p))%nat && (length (argv p) <=? 256)%nat
  && forallb (fun '(k, v) => variable k && argument v) (rows (environment p))
  && (length (rows (environment p)) <=? 64)%nat
  && match argv p with a :: _ => starts_with "/" a | [] => false end
  && negb (existsb (contains_char "000") (argv p ++ row_values (environment p)))
  && (Z.of_nat (String.length (encoded (payload_dump p))) <=? 65536)%Z.

Inductive delivery_mode := Local | Stream.

Record ObjectReference := mkObject {
  object_id : string; object_digest : string; object_bytes : Z; object_label : string;
  delivery : delivery_mode }.

Definition object_ok (o : ObjectReference) : bool :=
  identity (object_id o) && digest_text (object_digest o) && count (object_bytes o)
  && object_name (object_label o).

(** [ObjectReference.compatible] leaves the default delivery out. *)
Definition object_dump (o : ObjectReference) : json :=
  JObj ([("id", JStr (object_id o)); ("digest", JStr (object_digest o));
         ("bytes", JInt (object_bytes o)); ("name", JStr (object_label o))]
        ++ match delivery o with Local => [] | Stream => [("delivery", JStr "stream")] end).

Record Output := mkOutput { output_name : string; output_path : string }.

(** The components between slashes. *)
Fixpoint split_on (c : ascii) (s : string) : list string :=
  match s with
  | EmptyString => [EmptyString]
  | String d s =>
      if Ascii.eqb c d then EmptyString :: split_on c s
      else match split_on c s with
           | [] => [String d EmptyString]
           | p :: ps => String d p :: ps
           end
  end.

Definition is_control (c : ascii) : bool :=
  (N_of_ascii c <? 32)%N || (N_of_ascii c =? 127)%N.

(** [Output.below_work_directory]: the text is already the normal form of a
    relative [PurePosixPath] (no empty and no "." component), has no ".."
    component and no control character. *)
Definition below_work_directory (value : string) : bool :=
  forallb (fun part => negb (bool_decide (part = "")) && negb (bool_decide (part = "."))
                       && negb (bool_decide (part = ".."))) (split_on "/" value)
  && all_chars (fun c => negb (is_control c)) value.

Definition output_ok (o : Output) : bool :=
  name (output_name o) && length_between 1 4096 (output_path o)
  && below_work_directory (output_path o).

Record Endpoint := mkEndpoint { socket : string; paths : list string; concurrency : Z }.

Definition endpoint_routes : list string :=
  ["/health"; "/v1/models"; "/v1/chat/completions"; "/v1/embeddings"; "/api/version"; "/api/blobs";
   "/api/create"; "/api/show"; "/api/ps"; "/api/chat"; "/api/embed"].

Definition endpoint_ok (e : Endpoint) : bool :=
  socket_name (socket e) && (1 <=? length (paths e))%nat && (length (paths e) <=? 16)%nat
  && (1 <=? concurrency e)%Z && (concurrency e <=? 34)%Z
  && forallb (fun p => bool_decide (p ∈ endpoint_routes)) (paths e) && distinct (paths e).

(** ** Jobs and plans *)

Record Job := mkJob {
  job_name : string; runtime : Runtime; payload : Payload; limits : Limits;
  inputs : list ObjectReference; outputs : list Output; sensitive : bool;
  endpoint : option Endpoint }.

Definition job_ok (j : Job) : bool :=
  length_between 1 80 (job_name j) && runtime_ok (runtime j) && payload_ok (payload j)
  && limits_ok (limits j)
  && forallb object_ok (inputs j) && (length (inputs j) <=? 64)%nat
  && forallb output_ok (outputs j) && (length (outputs j) <=? 64)%nat
  && match endpoint j with Some e => endpoint_ok e | None => true end
  && distinct (map object_id (inputs j)) && distinct (map object_label (inputs j))
  && distinct (map output_name (outputs j)) && distinct (map output_path (outputs j)).

Definition runtime_dump (r : Runtime) : json :=
  JObj [("provider", JStr (provider r)); ("package_digest", JStr (package_digest r));
        ("image_digest", JStr (image_digest r)); ("isolation", JStr (isolation r));
        ("network", JStr (network r))].

Definition limits_dump (l : Limits) : json :=
  JObj [("cpu_millis", JInt (cpu_millis l)); ("memory_bytes", JInt (memory_bytes l));
        ("swap_bytes", JInt (swap_bytes l)); ("processes", JInt (processes l));
        ("storage_bytes", JInt (storage_bytes l)); ("storage_inodes", JInt (storage_inodes l));
        ("gpu_devices", strings_json (gpu_devices l))].

Definition output_dump (o : Output) : json :=
  JObj [("name", JStr (output_name o)); ("path", JStr (output_path o))].

Definition endpoint_dump (e : Endpoint) : json :=
  JObj [("socket", JStr (socket e)); ("paths", strings_json (paths e));
        ("concurrency", JInt (concurrency e))].

(** [Job.serialize_endpoint] drops an absent endpoint. *)
Definition job_dump (j : Job) : json :=
  JObj ([("name", JStr (job_name j)); ("runtime", runtime_dump (runtime j));
         ("payload", payload_dump (payload j)); ("limits", limits_dump (limits j));
         ("inputs", JArr (map object_dump (inputs j)));
         ("outputs", JArr (map output_dump (outputs j)));
         ("sensitive", JBool (sensitive j))]
        ++ match endpoint j with Some e => [("endpoint", endpoint_dump e)] | None => [] end).

(** [version] is the literal 1. *)
Record Plan := mkPlan {
  deployment_id : string; node_id : string; project_id : string; subject_id : string;
  job_id : string; attempt_id : string; generation : Z; offer_revision : Z;
  policy_revision : Z; job : Job }.

Definition plan_dump (p : Plan) : json :=
  JObj [("version", JInt 1); ("deployment_id", JStr (deployment_id p));
        ("node_id", JStr (node_id p)); ("project_id", JStr (project_id p));
        ("subject_id", JStr (subject_id p)); ("job_id", JStr (job_id p));
        ("attempt_id", JStr (attempt_id p)); ("generation", JInt (generation p));
        ("offer_revision", JInt (offer_revision p)); ("policy_revision", JInt (policy_revision p));
        ("job", job_dump (job p))].

Definition plan_ok (p : Plan) : bool :=
  identity (deployment_id p) && identity (node_id p) && identity (project_id p)
  && identity (subject_id p) && identity (job_id p) && identity (attempt_id p)
  && revision_number (generation p) && revision_number (offer_revision p)
  && count (policy_revision p) && job_ok (job p)
  && (Z.of_nat (String.length (encoded (plan_dump p))) <=? 131072)%Z.

(** [Plan.digest]. *)
Definition plan_digest (p : Plan) : string := digest (plan_dump p).

(** ** Fences, renewals and results *)

Record Fence := mkFence { f_attempt_id : string; f_generation : Z; f_plan_digest : string }.

Definition plan_fence (p : Plan) : Fence := mkFence (attempt_id p) (generation p) (plan_digest p).

Inductive astate :=
| Prepared | Starting | Running | Succeeded | Failed | Cancelled | Expired | Unknown | Released.

#[global] Instance astate_eq_dec : EqDecision astate.
Proof. solve_decision. Defined.

(** [TERMINAL]. *)
Definition terminal (s : astate) : bool :=
  match s with Succeeded | Failed | Cancelled | Expired => true | _ => false end.

Record AttemptResult := mkResult {
  r_fence : Fence; r_state : astate; r_reason : option string; r_exit_code : option Z;
  r_output_bytes : Z; r_error_bytes : Z; r_cleanup_confirmed : bool }.

(** Field constraints and [AttemptResult.terminal_truth]. *)
Definition result_ok (r : AttemptResult) : bool :=
  identity (f_attempt_id (r_fence r)) && revision_number (f_generation (r_fence r))
  && digest_text (f_plan_digest (r_fence r))
  && match r_reason r with Some s => name s | None => true end
  && match r_exit_code r with Some c => (0 <=? c)%Z && (c <=? 255)%Z | None => true end
  && count (r_output_bytes r) && count (r_error_bytes r)
  && negb (bool_decide (r_state r = Released) && negb (r_cleanup_confirmed r))
  && negb (bool_decide (r_state r = Succeeded) && negb (bool_decide (r_exit_code r = Some 0%Z))).

Record Renewal := mkRenewal { n_fence : Fence; n_sequence : Z; n_expires_at : float }.

Definition renewal_ok (n : Renewal) : bool :=
  identity (f_attempt_id (n_fence n)) && revision_number (f_generation (n_fence n))
  && digest_text (f_plan_digest (n_fence n)) && revision_number (n_sequence n)
  && is_finite (n_expires_at n) && f_lt f_zero (n_expires_at n).

(** [protocol.Admission]: a plan with its first lease. *)
Record Admission := mkAdmission { adm_plan : Plan; adm_lease : Renewal }.

(** [Admission.binding]. *)
Definition admission_ok (a : Admission) : bool :=
  plan_ok (adm_plan a) && renewal_ok (adm_lease a)
  && bool_decide (f_attempt_id (n_fence (adm_lease a)) = attempt_id (adm_plan a))
  && (f_generation (n_fence (adm_lease a)) =? generation (adm_plan a))%Z
  && bool_decide (f_plan_digest (n_fence (adm_lease a)) = plan_digest (adm_plan a))
  && (n_sequence (adm_lease a) =? 1)%Z.

Lemma list_cons_eq_inv {A} (x y : A) l k : x :: l = y :: k → x = y ∧ l = k.
Proof. by intros [= -> ->]. Qed.

#[global] Instance Limits_eq_dec : EqDecision Limits. Proof. solve_decision. Defined.
#[global] Instance Runtime_eq_dec : EqDecision Runtime. Proof. solve_decision. Defined.
#[global] Instance Payload_eq_dec : EqDecision Payload. Proof. solve_decision. Defined.
#[global] Instance delivery_eq_dec : EqDecision delivery_mode. Proof. solve_decision. Defined.
#[global] Instance Object_eq_dec : EqDecision ObjectReference. Proof. solve_decision. Defined.
#[global] Instance Output_eq_dec : EqDecision Output. Proof. solve_decision. Defined.
#[global] Instance Endpoint_eq_dec : EqDecision Endpoint. Proof. solve_decision. Defined.
#[global] Instance Job_eq_dec : EqDecision Job. Proof. solve_decision. Defined.
#[global] Instance Plan_eq_dec : EqDecision Plan. Proof. solve_decision. Defined.
#[global] Instance Fence_eq_dec : EqDecision Fence. Proof. solve_decision. Defined.
#[global] Instance Result_eq_dec : EqDecision AttemptResult. Proof. solve_decision. Defined.
#[global] Instance Renewal_eq_dec : EqDecision Renewal. Proof. solve_decision. Defined.

(** ** Serialization is injective *)

Lemma canon_JStr a b : canon (JStr a) = canon (JStr b) → a = b.
Proof. by intros [= ->]. Qed.
Lemma canon_JInt a b : canon (JInt a) = canon (JInt b) → a = b.
Proof. by intros [= ->]. Qed.
Lemma canon_JBool a b : canon (JBool a) = canon (JBool b) → a = b.
Proof. by intros [= ->]. Qed.

(** Compare two canonical objects declared with the same keys, field by field. *)
Ltac fields H :=
  apply canon_obj_inj in H;
  [ cbn [map app snd] in H;
    repeat (apply list_cons_eq_inv in H as [? H]);
    clear H;
    repeat match goal with
    | E : canon (JStr _) = canon (JStr _) |- _ => apply canon_JStr in E
    | E : canon (JInt _) = canon (JInt _) |- _ => apply canon_JInt in E
    | E : canon (JBool _) = canon (JBool _) |- _ => apply canon_JBool in E
    end
  | apply (bool_decide_unpack _); vm_compute; exact I
  | reflexivity ].

Lemma strings_json_inj l l' : canon (strings_json l) = canon (strings_json l') → l = l'.
Proof.
  unfold strings_json. cbn [canon]. intros [= H]. revert l' H.
  induction l as [|s l IH]; intros [|s' l'] H; try done.
  cbn in H. injection H as -> H. f_equal. auto.
Qed.

Lemma map_canon_inj {A} (f : A → json) (l l' : list A) :
  (∀ x y, canon (f x) = canon (f y) → x = y) →
  canon (JArr (map f l)) = canon (JArr (map f l')) → l = l'.
Proof.
  intros Hf. cbn [canon]. intros [= H]. revert l' H.
  induction l as [|x l IH]; intros [|y l'] H; try done.
  cbn [map] in H. injection H as H1 H2. apply Hf in H1 as ->. f_equal. auto.
Qed.

Lemma environment_dump_inj (e e' : gmap string string) :
  canon (JObj (map (fun '(k, v) => (k, JStr v)) (rows e))) =
  canon (JObj (map (fun '(k, v) => (k, JStr v)) (rows e'))) → e = e'.
Proof.
  intros H%canon_obj_Permutation. rewrite !map_map in H.
  rewrite <- (list_to_map_to_list e), <- (list_to_map_to_list e').
  apply list_to_map_proper; [apply NoDup_fst_map_to_list|].
  rewrite <- !rows_Permutation.
  set (back := fun p : string * json => match p with (k, JStr v) => (k, v) | (k, _) => (k, "") end).
  assert (Hback : ∀ l : list (string * string),
    back <$> map (fun x => (fun '(k, v) => (k, canon v)) ((fun '(k, v) => (k, JStr v)) x)) l = l).
  { intros l. induction l as [|[k v] l IH]; [done|]. simpl. f_equal. apply IH. }
  apply (fmap_Permutation back) in H. by rewrite !Hback in H.
Qed.

Lemma payload_dump_inj p p' : canon (payload_dump p) = canon (payload_dump p') → p = p'.
Proof.
  unfold payload_dump. intros H. fields H. destruct p, p'; simpl in *. f_equal; [by apply strings_json_inj|by apply environment_dump_inj].
Qed.

Lemma object_dump_inj o o' : canon (object_dump o) = canon (object_dump o') → o = o'.
Proof.
  unfold object_dump. intros H. pose proof (canon_obj_keys _ _ H) as Hk%Permutation_length.
  destruct o as [???? []], o' as [???? []]; try done; fields H; simpl in *; by subst.
Qed.

Lemma output_dump_inj o o' : canon (output_dump o) = canon (output_dump o') → o = o'.
Proof. unfold output_dump. intros H. destruct o, o'. fields H. simpl in *. by subst. Qed.

Lemma runtime_dump_inj r r' : canon (runtime_dump r) = canon (runtime_dump r') → r = r'.
Proof. unfold runtime_dump. intros H. destruct r, r'. fields H. simpl in *. by subst. Qed.

Lemma limits_dump_inj l l' : canon (limits_dump l) = canon (limits_dump l') → l = l'.
Proof.
  unfold limits_dump. intros H. destruct l, l'. fields H. simpl in *. subst. f_equal.
  by apply strings_json_inj.
Qed.

Lemma endpoint_dump_inj e e' : canon (endpoint_dump e) = canon (endpoint_dump e') → e = e'.
Proof.
  unfold endpoint_dump. intros H. destruct e, e'. fields H. simpl in *. subst. f_equal.
  by apply strings_json_inj.
Qed.

Lemma job_dump_inj j j' : canon (job_dump j) = canon (job_dump j') → j = j'.
Proof.
  unfold job_dump. intros H. pose proof (canon_obj_keys _ _ H) as Hk%Permutation_length.
  destruct j as [????? ?? [e|]], j' as [????? ?? [e'|]]; try done; fields H; simpl in *; subst;
    f_equal; eauto using runtime_dump_inj, payload_dump_inj, limits_dump_inj, map_canon_inj,
      object_dump_inj, output_dump_inj.
  f_equal. by apply endpoint_dump_inj.
Qed.

Lemma plan_dump_inj p p' : canon (plan_dump p) = canon (plan_dump p') → p = p'.
Proof.
  unfold plan_dump. intros H. destruct p, p'. fields H. simpl in *. subst. f_equal.
  by apply job_dump_inj.
Qed.

(** Equal plan digests name equal plans, unless the two canonical texts are a
    SHA-256 collision: the digest in a fence binds every field of the plan. *)
Lemma plan_digest_inj p q :
  plan_digest p = plan_digest q →
  p = q ∨ sha256_collision (encoded (plan_dump p)) (encoded (plan_dump q)).
Proof. intros [H|H]%digest_binding; [left; by apply plan_dump_inj|by right]. Qed.
