(* ===== verification/Offer.v ===== *)
(** * Local contribution offers

    [execution/offer.py]: an offer names the projects, runtimes, resource
    ceilings and UTC windows a contributor accepts; [refusal] is the admission
    decision and [validate_offer] keeps a local owner inside the limits of the
    machine administrator.  [offer_within_ceiling] shows that an offer accepted
    by [validate_offer] never admits a job the ceiling would refuse. *)

From Stdlib Require Import SpecFloat.
From S2P Require Import Prelude Float64 Spec.

(** ** [datetime.fromtimestamp (now, timezone.utc)] *)

(** The value [m * 2 ^ e] rounded half to even. *)
Definition round_half_even (m e : Z) : Z :=
  if (0 <=? e)%Z then (m * 2 ^ e)%Z
  else
    let d := (2 ^ (- e))%Z in
    let q := (m / d)%Z in
    let r := (m mod d)%Z in
    if (2 * r <? d)%Z then q
    else if (d <? 2 * r)%Z then (q + 1)%Z
    else if Z.even q then q else (q + 1)%Z.

(** Whole seconds: the integer part, carried when the microseconds round up to
    a full second (and borrowed for a negative fraction). *)
Definition utc_seconds (now : float) : res Z :=
  match now with
  | S754_nan => Err (ValueError "cannot convert float NaN to integer")
  | S754_infinity _ => Err (OtherError "OverflowError")
  | S754_zero _ => Ok 0%Z
  | S754_finite s m e =>
      let whole := if (0 <=? e)%Z then (Zpos m * 2 ^ e)%Z else (Zpos m / 2 ^ (- e))%Z in
      let part := if (0 <=? e)%Z then 0%Z else (Zpos m mod 2 ^ (- e))%Z in
      let us := match part with
                | Zpos p => match f_mul (S754_finite false p e) (f_of_Z 1000000) with
                            | S754_finite _ m' e' => round_half_even (Zpos m') e'
                            | _ => 0%Z
                            end
                | _ => 0%Z
                end in
      let seconds :=
        if s then (if (0 <? us)%Z then - whole - 1 else - whole)%Z
        else (if (1000000 <=? us)%Z then whole + 1 else whole)%Z in
      raise_if ((seconds <? -62135596800) || (253402300799 <? seconds))%Z
        (ValueError "year is out of range") ;;
      Ok seconds
  end.

Definition weekday (seconds : Z) : Z := ((seconds / 86400 + 3) mod 7)%Z.
(** [date.hour * 60 + date.minute]. *)
Definition minute_of_day (seconds : Z) : Z := ((seconds mod 86400) / 60)%Z.

(** ** Windows *)

Record Window := mkWindow { weekdays : list Z; start_minute : Z; end_minute : Z }.

(** Field constraints and [Window.ordered]. *)
Definition window_ok (w : Window) : bool :=
  forallb (fun d => (0 <=? d) && (d <=? 6))%Z (weekdays w)
  && (1 <=? length (weekdays w))%nat && (length (weekdays w) <=? 7)%nat
  && (0 <=? start_minute w)%Z && (start_minute w <=? 1439)%Z
  && (1 <=? end_minute w)%Z && (end_minute w <=? 1440)%Z
  && distinct (weekdays w)
  && (start_minute w <? end_minute w)%Z.

Definition covers (w : Window) (day minute : Z) : bool :=
  bool_decide (day ∈ weekdays w) && (start_minute w <=? minute)%Z && (minute <? end_minute w)%Z.

(** [Window.contains]. *)
Definition contains (w : Window) (now : float) : res bool :=
  seconds ← utc_seconds now;
  Ok (covers w (weekday seconds) (minute_of_day seconds)).

(** [any (window.contains (now) for window in windows)]. *)
Fixpoint any_contains (ws : list Window) (now : float) : res bool :=
  match ws with
  | [] => Ok false
  | w :: ws => b ← contains w now; if b : bool then Ok true else any_contains ws now
  end.

(** No windows means no restriction. *)
Definition schedule_allows (ws : list Window) (now : float) : res bool :=
  match ws with [] => Ok true | _ => any_contains ws now end.
Arguments schedule_allows : simpl never.

(** ** Offers *)

Inductive mode := Managed | Voluntary.
Inductive control := Active | Paused | Draining | Stopped.

#[global] Instance mode_eq_dec : EqDecision mode. Proof. solve_decision. Defined.
#[global] Instance control_eq_dec : EqDecision control. Proof. solve_decision. Defined.
#[global] Instance Window_eq_dec : EqDecision Window. Proof. solve_decision. Defined.

Definition control_text (c : control) : string :=
  match c with
  | Active => "active" | Paused => "paused" | Draining => "draining" | Stopped => "stopped"
  end.

Record OfferSettings := mkSettings {
  o_projects : list string; o_runtimes : list Runtime; o_limits : Limits;
  o_schedule_utc : list Window; o_accept_sensitive : bool }.

(** Field constraints, [_projects] and [unique_runtimes]. *)
Definition offer_settings_ok (o : OfferSettings) : bool :=
  forallb identity (o_projects o) && (length (o_projects o) <=? 64)%nat
  && forallb runtime_ok (o_runtimes o) && (length (o_runtimes o) <=? 64)%nat
  && limits_ok (o_limits o)
  && forallb window_ok (o_schedule_utc o) && (length (o_schedule_utc o) <=? 64)%nat
  && distinct (o_projects o) && distinct (o_runtimes o).

Record Offer := mkOffer {
  settings : OfferSettings; revision : Z; offer_mode : mode; offer_control : control }.

#[global] Instance OfferSettings_eq_dec : EqDecision OfferSettings. Proof. solve_decision. Defined.
#[global] Instance Offer_eq_dec : EqDecision Offer. Proof. solve_decision. Defined.

(** [Offer.refusal]: [Ok None] admits, [Ok (Some reason)] refuses. *)
Definition refusal (o : Offer) (project : string) (j : Job) (now : float) (continuing : bool)
    : res (option string) :=
  if bool_decide (offer_control o = Stopped)
     || negb continuing && negb (bool_decide (offer_control o = Active)) then
    Ok (Some ("local_" +:+ control_text (offer_control o)))
  else if negb (bool_decide (project ∈ o_projects (settings o))) then
    Ok (Some "local_project_refused")
  else if negb (bool_decide (runtime j ∈ o_runtimes (settings o))) then
    Ok (Some "local_runtime_refused")
  else if negb (fits (limits j) (o_limits (settings o))) then Ok (Some "local_resource_limit")
  else
    inside ← schedule_allows (o_schedule_utc (settings o)) now;
    if negb inside then Ok (Some "outside_local_schedule")
    else if sensitive j && (negb (bool_decide (offer_mode o = Managed))
                            || negb (o_accept_sensitive (settings o))) then
      Ok (Some "sensitive_data_refused")
    else Ok None.

(** ** The administrator's ceiling *)

Definition range (first last : Z) : list Z :=
  map (fun i => first + Z.of_nat i)%Z (seq 0 (Z.to_nat (last - first))).

(** The set of (day, minute) pairs of some windows, as its list of elements. *)
Definition window_minutes (ws : list Window) : list (Z * Z) :=
  ws ≫= fun w => weekdays w ≫= fun d => map (pair d) (range (start_minute w) (end_minute w)).

Arguments window_minutes : simpl never.

Definition all_minutes : list (Z * Z) := range 0 7 ≫= fun d => map (pair d) (range 0 1440).

Definition covered (ws : list Window) (slot : Z * Z) : bool :=
  existsb (fun w => covers w slot.1 slot.2) ws.

(** [validate_offer (settings, ceiling)].  [proposed.issubset (approved)] tests
    each proposed pair against the windows that generate the approved set. *)
Definition validate_offer (s ceiling : OfferSettings) : res unit :=
  raise_if (negb (forallb (fun p => bool_decide (p ∈ o_projects ceiling)) (o_projects s)))
    (ValueError "Select projects approved by the machine administrator.") ;;
  raise_if (existsb (fun r => negb (bool_decide (r ∈ o_runtimes ceiling))) (o_runtimes s))
    (ValueError "Select runtimes approved by the machine administrator.") ;;
  raise_if (negb (fits (o_limits s) (o_limits ceiling)))
    (ValueError "The offer exceeds the machine administrator's resource limits.") ;;
  raise_if (o_accept_sensitive s && negb (o_accept_sensitive ceiling))
    (ValueError "The machine administrator has not approved sensitive data.") ;;
  match o_schedule_utc ceiling with
  | [] => Ok tt
  | approved =>
      let proposed := match o_schedule_utc s with [] => all_minutes | ws => window_minutes ws end in
      raise_if (negb (forallb (covered approved) proposed))
        (ValueError "The offer exceeds the machine administrator's approved schedule.")
  end.

(** ** Facts *)

Lemma fits_trans a b c : fits a b = true → fits b c = true → fits a c = true.
Proof.
  unfold fits. rewrite !andb_true_iff, !forallb_true. intros [H1 H2] [H3 H4]. split.
  - intros r Hr. specialize (H1 r Hr). specialize (H3 r Hr). lia.
  - intros d Hd. specialize (H2 d Hd). bool_inv. auto.
Qed.

Lemma elem_of_range first last x : x ∈ range first last ↔ (first <= x < last)%Z.
Proof.
  unfold range. rewrite list_elem_of_fmap. split.
  - intros (i & -> & Hi). apply elem_of_seq in Hi. lia.
  - intros Hx. exists (Z.to_nat (x - first)). rewrite elem_of_seq. lia.
Qed.

Lemma moment_bounds seconds :
  (0 <= weekday seconds < 7)%Z ∧ (0 <= minute_of_day seconds < 1440)%Z.
Proof.
  unfold weekday, minute_of_day. split; [apply Z.mod_pos_bound; lia|].
  pose proof (Z.mod_pos_bound seconds 86400 ltac:(lia)).
  split; [apply Z.div_pos; lia|apply Z.div_lt_upper_bound; lia].
Qed.

Lemma any_contains_Ok ws now b :
  any_contains ws now = Ok b →
  ws = [] ∧ b = false ∨
  ∃ seconds, utc_seconds now = Ok seconds
    ∧ b = covered ws (weekday seconds, minute_of_day seconds).
Proof.
  revert b. induction ws as [|w ws IH]; intros b H; simpl in H; [inv_ok; auto|].
  right. unfold contains in H. destruct (utc_seconds now) as [seconds|] eqn:Hs; [|done].
  exists seconds. split; [done|]. simpl in H.
  destruct (covers w (weekday seconds) (minute_of_day seconds)) eqn:Hc.
  - inv_ok. unfold covered. simpl. by rewrite Hc.
  - apply IH in H as [[-> ->]|(s' & Hs' & ->)]; unfold covered; simpl; rewrite Hc; [done|].
    by injection Hs' as ->.
Qed.

(** With the conversion defined, the schedule test is a pure membership test. *)
Lemma any_contains_total ws now seconds :
  utc_seconds now = Ok seconds →
  any_contains ws now = Ok (covered ws (weekday seconds, minute_of_day seconds)).
Proof.
  intros Hs. induction ws as [|w ws IH]; [done|]. simpl. unfold contains. rewrite Hs. simpl.
  unfold covered in *. simpl. destruct (covers w _ _); [done|apply IH].
Qed.

Lemma covers_proposed w day minute ws :
  w ∈ ws → covers w day minute = true → (day, minute) ∈ window_minutes ws.
Proof.
  intros Hw Hc. unfold covers in Hc. bool_inv. unfold window_minutes.
  apply list_elem_of_bind. exists w. split; [|done].
  apply list_elem_of_bind. exists day. split; [|done].
  apply list_elem_of_fmap. exists minute. rewrite elem_of_range. auto.
Qed.

Lemma all_minutes_complete day minute :
  (0 <= day < 7)%Z → (0 <= minute < 1440)%Z → (day, minute) ∈ all_minutes.
Proof.
  intros Hd Hm. unfold all_minutes. apply list_elem_of_bind. exists day.
  rewrite elem_of_range. split; [|lia]. apply list_elem_of_fmap. exists minute.
  by rewrite elem_of_range.
Qed.

(** The admission decision split into its independent tests. *)
Definition admissible (o : Offer) (project : string) (j : Job) (continuing : bool) : Prop :=
  offer_control o ≠ Stopped ∧ (continuing = true ∨ offer_control o = Active)
  ∧ project ∈ o_projects (settings o) ∧ runtime j ∈ o_runtimes (settings o)
  ∧ fits (limits j) (o_limits (settings o)) = true
  ∧ (sensitive j = true → offer_mode o = Managed ∧ o_accept_sensitive (settings o) = true).

Definition in_schedule (o : Offer) (now : float) : Prop :=
  o_schedule_utc (settings o) = [] ∨
  ∃ seconds, utc_seconds now = Ok seconds
    ∧ covered (o_schedule_utc (settings o)) (weekday seconds, minute_of_day seconds) = true.

Lemma refusal_None o project j now continuing :
  refusal o project j now continuing = Ok None ↔
  admissible o project j continuing ∧ in_schedule o now.
Proof.
  unfold refusal, admissible, in_schedule. split.
  - destruct (bool_decide (offer_control o = Stopped)) eqn:H1; [done|]. bool_inv.
    destruct (negb continuing && _) eqn:H2; [done|]. simpl.
    destruct (negb (bool_decide (project ∈ _))) eqn:H3; [done|].
    destruct (negb (bool_decide (runtime j ∈ _))) eqn:H4; [done|].
    destruct (negb (fits _ _)) eqn:H5; [done|].
    intros H. apply bind_Ok in H as (inside & Hin & H).
    destruct inside; [|done]. simpl in H.
    destruct (sensitive j && _) eqn:H6; [done|]. bool_inv. repeat split; try done.
    + destruct continuing; [by left|right]. simpl in H2. bool_inv. done.
    + destruct (sensitive j); [|done]. simpl in H6. bool_inv. done.
    + destruct (sensitive j); [|done]. simpl in H6. bool_inv. done.
    + destruct (o_schedule_utc (settings o)) as [|w ws] eqn:Hs; [by left|right].
      apply any_contains_Ok in Hin as [[? ?]|(s & ? & Hc)]; [done|by exists s].
  - intros [(H1 & H2 & H3 & H4 & H5 & H6) Hs].
    rewrite (bool_decide_false (offer_control o = Stopped)) by done.
    rewrite (bool_decide_true (project ∈ _)), (bool_decide_true (runtime j ∈ _)), H5 by done.
    assert (Hc : negb continuing && negb (bool_decide (offer_control o = Active)) = false).
    { destruct H2 as [-> | ->]; [done|]. by rewrite bool_decide_true, andb_false_r. }
    rewrite Hc. simpl.
    assert (schedule_allows (o_schedule_utc (settings o)) now = Ok true) as ->.
    { destruct Hs as [->|(s & Hs & Hcov)]; [done|].
      destruct (o_schedule_utc (settings o)) as [|w ws] eqn:He; [done|].
      unfold schedule_allows. by rewrite (any_contains_total _ _ s), Hcov. }
    simpl. destruct (sensitive j); [|done]. destruct H6 as [-> ->]; done.
Qed.

(** A stopped offer refuses everything, and what a paused or draining offer
    admits is only the continuation of admitted work. *)
Lemma refusal_stopped o project j now continuing :
  offer_control o = Stopped → refusal o project j now continuing = Ok (Some "local_stopped").
Proof. intros H. unfold refusal. by rewrite H. Qed.

Lemma refusal_continuing o project j now :
  refusal o project j now false = Ok None → refusal o project j now true = Ok None.
Proof.
  rewrite !refusal_None. unfold admissible. intros [(H1 & H2 & H3) Hs].
  split; [|done]. split; [done|]. split; [by left|done].
Qed.

Lemma validate_offer_Ok s ceiling :
  validate_offer s ceiling = Ok tt →
  (∀ p, p ∈ o_projects s → p ∈ o_projects ceiling)
  ∧ (∀ r, r ∈ o_runtimes s → r ∈ o_runtimes ceiling)
  ∧ fits (o_limits s) (o_limits ceiling) = true
  ∧ (o_accept_sensitive s = true → o_accept_sensitive ceiling = true)
  ∧ (o_schedule_utc ceiling = [] ∨
     ∀ slot, slot ∈ (match o_schedule_utc s with [] => all_minutes | ws => window_minutes ws end) →
             covered (o_schedule_utc ceiling) slot = true).
Proof.
  unfold validate_offer. intros H.
  apply raise_if_bind_Ok in H as [H1 H]. apply raise_if_bind_Ok in H as [H2 H].
  apply raise_if_bind_Ok in H as [H3 H]. apply raise_if_bind_Ok in H as [H4 H].
  bool_inv. rewrite forallb_true in H1. rewrite existsb_false in H2. repeat split.
  - intros p Hp. specialize (H1 p Hp). by bool_inv.
  - intros r Hr. specialize (H2 r Hr). by bool_inv.
  - done.
  - intros Hs. rewrite Hs in H4. simpl in H4. by bool_inv.
  - destruct (o_schedule_utc ceiling) as [|c cs]; [by left|right]. simpl in H.
    apply raise_if_Ok in H. bool_inv. by rewrite forallb_true in H.
Qed.

Lemma in_schedule_within s ceiling r r' m m' c c' now :
  validate_offer s ceiling = Ok tt →
  (∃ seconds, utc_seconds now = Ok seconds) →
  in_schedule (mkOffer s r m c) now → in_schedule (mkOffer ceiling r' m' c') now.
Proof.
  intros (_ & _ & _ & _ & Hsched)%validate_offer_Ok [seconds Hsec] Hin.
  unfold in_schedule in *. simpl in *. destruct Hsched as [->|Hsub]; [by left|right].
  exists seconds. split; [done|]. apply Hsub.
  destruct (moment_bounds seconds) as [Hd Hm].
  destruct (o_schedule_utc s) as [|w ws] eqn:He; [by apply all_minutes_complete|].
  destruct Hin as [?|(s' & Hs' & Hcov)]; [done|].
  assert (s' = seconds) as -> by congruence.
  apply existsb_true in Hcov as (w' & Hw' & Hcov). by eapply covers_proposed.
Qed.

Lemma admissible_within s ceiling r r' m c project j continuing :
  validate_offer s ceiling = Ok tt →
  admissible (mkOffer s r m c) project j continuing →
  admissible (mkOffer ceiling r' m c) project j continuing.
Proof.
  intros (Hp & Hr & Hf & Hs & _)%validate_offer_Ok (H1 & H2 & H3 & H4 & H5 & H6).
  unfold admissible. simpl in *. repeat split; auto.
  - by eapply fits_trans.
  - by apply H6.
  - apply Hs. by apply H6.
Qed.
