(* ===== verification/Ledger.v ===== *)
(** * The durable execution ledger

    [execution/ledger.py]: local offers, attempt fences and exclusive
    reservations in SQLite.  The three tables are the fields of [ledger]; the
    JSON text of the [value] column is the record [attempt], and the columns
    [job_id], [generation], [plan_digest], [state] and [slot] are projections of
    it because every write updates them together.  Each method runs inside
    [with self.lock, self.db], so an operation either returns the new tables or
    raises and leaves them unchanged (see [Transactions]).  Key, uniqueness and
    foreign-key violations are [StorageError]. *)

From Stdlib Require Import SpecFloat.
From S2P Require Import Prelude Float64 Json Clock Spec Offer.

(** ** Data *)

(** The position of one staged input. *)
Record Receipt := mkReceipt { rc_offset : Z; rc_complete : bool; rc_identity : json }.

(** [value["admission_rejection"]]. *)
Record Rejection := mkRejection { rej_ledger_id : string; rej_observation : option json }.

(** One entry of [value["storage_recovery"]]. *)
Record Recovery := mkRecovery { rec_before : option json; rec_after : json; rec_observed_at : float }.

(** The [value] dictionary.  Keys that some operations add later ([lease_*],
    [prepared_runtime], ...) are [None] or [false] while absent. *)
Record attempt := mkAttempt {
  a_plan : Plan;
  a_digest : string;
  a_slot : option string;
  a_binding : option json;
  a_state : astate;
  a_cleanup : bool;
  a_sequence : Z;
  a_expires_at : float;
  a_timing : option Timing;
  a_created_at : float;
  a_reason : option string;
  a_exit_code : option Z;
  a_output_bytes : Z;
  a_error_bytes : Z;
  a_rejection : option Rejection;
  a_prepared_runtime : option json;
  a_engine_released : bool;
  a_payload_released : bool;
  a_pending_stop : option string;
  a_input_progress : option (gmap string Receipt);
  a_runtime_binding : option json;
  a_outcome : option astate;
  a_recovery : list Recovery }.

Definition set_state (s : astate) (a : attempt) : attempt :=
  mkAttempt (a_plan a) (a_digest a) (a_slot a) (a_binding a) s (a_cleanup a) (a_sequence a)
    (a_expires_at a) (a_timing a) (a_created_at a) (a_reason a) (a_exit_code a)
    (a_output_bytes a) (a_error_bytes a) (a_rejection a) (a_prepared_runtime a)
    (a_engine_released a) (a_payload_released a) (a_pending_stop a) (a_input_progress a)
    (a_runtime_binding a) (a_outcome a) (a_recovery a).

Definition set_lease (sequence : Z) (expires_at : float) (timing : Timing)
    (a : attempt) : attempt :=
  mkAttempt (a_plan a) (a_digest a) (a_slot a) (a_binding a) (a_state a) (a_cleanup a) sequence
    expires_at (Some timing) (a_created_at a) (a_reason a) (a_exit_code a) (a_output_bytes a)
    (a_error_bytes a) (a_rejection a) (a_prepared_runtime a) (a_engine_released a)
    (a_payload_released a) (a_pending_stop a) (a_input_progress a) (a_runtime_binding a)
    (a_outcome a) (a_recovery a).

Definition set_running (binding : json) (a : attempt) : attempt :=
  mkAttempt (a_plan a) (a_digest a) (a_slot a) (a_binding a) Running (a_cleanup a)
    (a_sequence a) (a_expires_at a) (a_timing a) (a_created_at a) (a_reason a) (a_exit_code a)
    (a_output_bytes a) (a_error_bytes a) (a_rejection a) (a_prepared_runtime a)
    (a_engine_released a) (a_payload_released a) (a_pending_stop a) (a_input_progress a)
    (Some binding) (a_outcome a) (a_recovery a).

Definition set_result (r : AttemptResult) (a : attempt) : attempt :=
  mkAttempt (a_plan a) (a_digest a) (a_slot a) (a_binding a) (r_state r) (r_cleanup_confirmed r)
    (a_sequence a) (a_expires_at a) (a_timing a) (a_created_at a) (r_reason r) (r_exit_code r)
    (r_output_bytes r) (r_error_bytes r) (a_rejection a) (a_prepared_runtime a)
    (a_engine_released a) (a_payload_released a) (a_pending_stop a) (a_input_progress a)
    (a_runtime_binding a) (a_outcome a) (a_recovery a).

Definition set_released (a : attempt) : attempt :=
  mkAttempt (a_plan a) (a_digest a) None (a_binding a) Released (a_cleanup a) (a_sequence a)
    (a_expires_at a) (a_timing a) (a_created_at a) (a_reason a) (a_exit_code a)
    (a_output_bytes a) (a_error_bytes a) (a_rejection a) (a_prepared_runtime a)
    (a_engine_released a) (a_payload_released a) (a_pending_stop a) (a_input_progress a)
    (a_runtime_binding a) (Some (a_state a)) (a_recovery a).

Definition set_recovered (binding : json) (records : list Recovery) (a : attempt) : attempt :=
  mkAttempt (a_plan a) (a_digest a) (a_slot a) (Some binding) (a_state a) true (a_sequence a)
    (a_expires_at a) (a_timing a) (a_created_at a) (a_reason a) (a_exit_code a)
    (a_output_bytes a) (a_error_bytes a) (a_rejection a) (a_prepared_runtime a)
    (a_engine_released a) (a_payload_released a) (a_pending_stop a) (a_input_progress a)
    (a_runtime_binding a) (a_outcome a) records.

Definition set_unknown (reason : string) (a : attempt) : attempt :=
  mkAttempt (a_plan a) (a_digest a) (a_slot a) (a_binding a) Unknown (a_cleanup a)
    (a_sequence a) (a_expires_at a) (a_timing a) (a_created_at a) (Some reason) None
    (a_output_bytes a) (a_error_bytes a) (a_rejection a) (a_prepared_runtime a)
    (a_engine_released a) (a_payload_released a) (a_pending_stop a) (a_input_progress a)
    (a_runtime_binding a) (a_outcome a) (a_recovery a).

Definition set_prepared_runtime (j : json) (a : attempt) : attempt :=
  mkAttempt (a_plan a) (a_digest a) (a_slot a) (a_binding a) (a_state a) (a_cleanup a)
    (a_sequence a) (a_expires_at a) (a_timing a) (a_created_at a) (a_reason a) (a_exit_code a)
    (a_output_bytes a) (a_error_bytes a) (a_rejection a) (Some j) (a_engine_released a)
    (a_payload_released a) (a_pending_stop a) (a_input_progress a) (a_runtime_binding a)
    (a_outcome a) (a_recovery a).

Definition set_engine_released (a : attempt) : attempt :=
  mkAttempt (a_plan a) (a_digest a) (a_slot a) (a_binding a) (a_state a) (a_cleanup a)
    (a_sequence a) (a_expires_at a) (a_timing a) (a_created_at a) (a_reason a) (a_exit_code a)
    (a_output_bytes a) (a_error_bytes a) (a_rejection a) (a_prepared_runtime a) true
    (a_payload_released a) (a_pending_stop a) (a_input_progress a) (a_runtime_binding a)
    (a_outcome a) (a_recovery a).

Definition set_payload_released (a : attempt) : attempt :=
  mkAttempt (a_plan a) (a_digest a) (a_slot a) (a_binding a) (a_state a) (a_cleanup a)
    (a_sequence a) (a_expires_at a) (a_timing a) (a_created_at a) (a_reason a) (a_exit_code a)
    (a_output_bytes a) (a_error_bytes a) (a_rejection a) (a_prepared_runtime a)
    (a_engine_released a) true (a_pending_stop a) (a_input_progress a) (a_runtime_binding a)
    (a_outcome a) (a_recovery a).

Definition set_pending_stop (reason : string) (a : attempt) : attempt :=
  mkAttempt (a_plan a) (a_digest a) (a_slot a) (a_binding a) (a_state a) (a_cleanup a)
    (a_sequence a) (a_expires_at a) (a_timing a) (a_created_at a) (a_reason a) (a_exit_code a)
    (a_output_bytes a) (a_error_bytes a) (a_rejection a) (a_prepared_runtime a)
    (a_engine_released a) (a_payload_released a) (Some reason) (a_input_progress a)
    (a_runtime_binding a) (a_outcome a) (a_recovery a).

Definition set_input_progress (progress : gmap string Receipt) (a : attempt) : attempt :=
  mkAttempt (a_plan a) (a_digest a) (a_slot a) (a_binding a) (a_state a) (a_cleanup a)
    (a_sequence a) (a_expires_at a) (a_timing a) (a_created_at a) (a_reason a) (a_exit_code a)
    (a_output_bytes a) (a_error_bytes a) (a_rejection a) (a_prepared_runtime a)
    (a_engine_released a) (a_payload_released a) (a_pending_stop a) (Some progress)
    (a_runtime_binding a) (a_outcome a) (a_recovery a).

#[global] Instance Receipt_eq_dec : EqDecision Receipt. Proof. solve_decision. Defined.
#[global] Instance Rejection_eq_dec : EqDecision Rejection. Proof. solve_decision. Defined.
#[global] Instance Recovery_eq_dec : EqDecision Recovery. Proof. solve_decision. Defined.
#[global] Instance attempt_eq_dec : EqDecision attempt. Proof. solve_decision. Defined.

Record ledger := mkLedger {
  l_identity : string;
  l_offer : option Offer;
  l_attempts : gmap string attempt;
  l_devices : gmap string string }.

(** [Ledger.__init__] on the stored rows: the installation is pinned, the random
    ledger identity ([token]) is chosen once, and the tables are the stored ones
    (empty in a new database). *)
Definition open_ledger (previous_installation stored_identity : option string)
    (stored_offer : option Offer) (stored_attempts : gmap string attempt)
    (stored_devices : gmap string string) (installation token : string)
    : res (string * ledger) :=
  raise_if (match previous_installation with
            | Some p => negb (bool_decide (p = installation))
            | None => false
            end)
    (ValueError "The execution state belongs to another installation.") ;;
  let chosen := match stored_identity with Some i => i | None => token end in
  raise_if (negb (identity chosen))
    (ValueError "The durable execution ledger identity is invalid.") ;;
  Ok (installation, mkLedger chosen stored_offer stored_attempts stored_devices).

Definition set_offer_row (o : Offer) (l : ledger) : ledger :=
  mkLedger (l_identity l) (Some o) (l_attempts l) (l_devices l).

(** ** Rows *)

(** [get]. *)
Definition get (l : ledger) (i : string) : option attempt := l_attempts l !! i.

(** [all], in identity order. *)
Definition all (l : ledger) : list attempt := row_values (l_attempts l).

Definition held (a : attempt) : bool :=
  match a_slot a with Some _ => true | None => false end.

(** [retained]: the rows with a storage slot. *)
Definition retained (l : ledger) : list attempt := List.filter held (all l).

(** [page (after, limit)]. *)
Definition page (l : ledger) (after : option string) (limit : nat) : list attempt * bool :=
  let start := match after with Some s => s | None => "" end in
  let found := List.filter (fun r => negb (String.leb r.1 start)) (rows (l_attempts l)) in
  let fetched := take (limit + 1) found in
  (take limit (map snd fetched), (limit <? length fetched)%nat).

Definition with_attempts (l : ledger) (m : gmap string attempt) : ledger :=
  mkLedger (l_identity l) (l_offer l) m (l_devices l).
Definition with_devices (l : ledger) (m : gmap string string) : ledger :=
  mkLedger (l_identity l) (l_offer l) (l_attempts l) m.

Definition row_id (a : attempt) : string := attempt_id (a_plan a).

(** Another row already holds this storage slot. *)
Definition slot_taken (l : ledger) (i : string) (slot : option string) : bool :=
  match slot with
  | None => false
  | Some s => existsb (fun r => negb (bool_decide (r.1 = i))
                                && bool_decide (a_slot r.2 = Some s)) (rows (l_attempts l))
  end.

Definition unique_failure : exn := StorageError "UNIQUE constraint failed".

(** [save]: [UPDATE attempts ... WHERE id]. *)
Definition save (l : ledger) (a : attempt) : res ledger :=
  match get l (row_id a) with
  | None => Ok l
  | Some _ =>
      raise_if (slot_taken l (row_id a) (a_slot a)) unique_failure ;;
      Ok (with_attempts l (<[row_id a := a]> (l_attempts l)))
  end.

(** [INSERT INTO attempts]: primary key, [UNIQUE (job_id, generation)] and
    [slot UNIQUE]. *)
Definition insert_attempt (l : ledger) (a : attempt) : res ledger :=
  raise_if (match get l (row_id a) with Some _ => true | None => false end) unique_failure ;;
  raise_if (existsb (fun b => bool_decide (job_id (a_plan b) = job_id (a_plan a))
                              && (generation (a_plan b) =? generation (a_plan a))%Z) (all l))
    unique_failure ;;
  raise_if (slot_taken l (row_id a) (a_slot a)) unique_failure ;;
  Ok (with_attempts l (<[row_id a := a]> (l_attempts l))).

(** [INSERT INTO devices]: primary key and [REFERENCES attempts (id)]. *)
Definition insert_device (i : string) (l : ledger) (d : string) : res ledger :=
  raise_if (match l_devices l !! d with Some _ => true | None => false end) unique_failure ;;
  raise_if (match get l i with Some _ => false | None => true end)
    (StorageError "FOREIGN KEY constraint failed") ;;
  Ok (with_devices l (<[d := i]> (l_devices l))).

(** [DELETE FROM devices WHERE attempt_id]. *)
Definition free_devices (l : ledger) (i : string) : ledger :=
  with_devices l (filter (fun p => p.2 ≠ i) (l_devices l)).

(** [fenced]. *)
Definition fenced (l : ledger) (f : Fence) : res attempt :=
  match get l (f_attempt_id f) with
  | Some a =>
      raise_if (negb (generation (a_plan a) =? f_generation f)%Z
                || negb (bool_decide (a_digest a = f_plan_digest f)))
        (Conflict "The operation does not name the current immutable attempt.") ;;
      Ok a
  | None => Err (Conflict "The operation does not name the current immutable attempt.")
  end.

(** ** Offers *)

(** [save_offer]. *)
Definition save_offer (l : ledger) (o : Offer) (expected : Z) : res ledger :=
  raise_if (negb ((match l_offer l with Some b => revision b | None => 0%Z end) =? expected)%Z
            || negb (revision o =? expected + 1)%Z)
    (Conflict "The local offer changed. Reload it before saving.") ;;
  raise_if (match l_offer l with
            | Some b => negb (bool_decide (offer_mode b = offer_mode o))
            | None => false
            end)
    (Conflict "Only the machine administrator can change the installed contribution mode.") ;;
  Ok (set_offer_row o l).

(** ** Annotations *)

(** The keyword arguments of [annotate]. *)
Inductive annotation :=
| PreparedRuntime (j : json)
| EngineReleased
| PayloadReleased
| PendingStop (reason : string)
| InputProgress (progress : gmap string Receipt)
| OtherField (field : string).

Definition apply_annotation (n : annotation) (a : attempt) : res attempt :=
  match n with
  | PreparedRuntime j => Ok (set_prepared_runtime j a)
  | EngineReleased => Ok (set_engine_released a)
  | PayloadReleased => Ok (set_payload_released a)
  | PendingStop reason => Ok (set_pending_stop reason a)
  | InputProgress progress => Ok (set_input_progress progress a)
  | OtherField _ => Err (ValueError "The local executor annotation is not supported.")
  end.

Definition annotate (l : ledger) (f : Fence) (n : annotation) : res (ledger * attempt) :=
  a ← fenced l f;
  a' ← apply_annotation n a;
  l' ← save l a';
  Ok (l', a').

(** ** Admission *)

Definition same_job (l : ledger) (p : Plan) : list attempt :=
  List.filter (fun a => bool_decide (job_id (a_plan a) = job_id p)) (all l).

(** A previous generation is still unreleased, or this one is not newer. *)
Definition stale_generation (l : ledger) (p : Plan) : bool :=
  existsb (fun a => negb (bool_decide (a_state a = Released))
                    || (generation p <=? generation (a_plan a))%Z) (same_job l p).

Definition stale_conflict : exn :=
  Conflict "A previous job generation remains reserved or the new generation is stale.".

(** [reject]: a refused plan is recorded as an attempt that never held a slot. *)
Definition rejected_attempt (l : ledger) (p : Plan) (now : float) (observation : option json)
    : attempt :=
  let state := match observation with Some _ => Unknown | None => Failed end in
  let reason := match observation with
                | Some _ => "legacy_absence_acknowledged"
                | None => "admission_rejected"
                end in
  mkAttempt p (plan_digest p) None None state true 0 f_zero None now (Some reason) None 0 0
    (Some (mkRejection (l_identity l) observation)) None false false None None None None [].

Definition reject (l : ledger) (p : Plan) (now : float) (observation : option json)
    : res (ledger * attempt) :=
  match get l (attempt_id p) with
  | Some _ => a ← fenced l (plan_fence p); Ok (l, a)
  | None =>
      raise_if (stale_generation l p) stale_conflict ;;
      let a := rejected_attempt l p now observation in
      l' ← insert_attempt l a;
      Ok (l', a)
  end.

Definition running (a : attempt) : bool := held a && negb (a_cleanup a).

Definition used (r : resource) (l : list attempt) : Z :=
  sumZ (fun a => amount (limits (job (a_plan a))) r) l.

(** [amount > getattr (offer.limits, name)] for some name. *)
Definition exceeds (p : Plan) (taken : list attempt) (ceiling : Limits) (names : list resource)
    : bool :=
  existsb (fun r => amount ceiling r <? amount (limits (job p)) r + used r taken)%Z names.

Definition fresh_attempt (p : Plan) (slot : string) (binding : json) (now : float) : attempt :=
  mkAttempt p (plan_digest p) (Some slot) (Some binding) Prepared false 0 f_zero None now
    None None 0 0 None None false false None None None None [].

Definition offer_conflict : exn := Conflict "The local offer is absent or changed.".

(** [reserve]. *)
Definition reserve (l : ledger) (p : Plan) (slot : string) (binding : json) (now : float)
    : res (ledger * attempt) :=
  match get l (attempt_id p) with
  | Some before =>
      raise_if (negb (bool_decide (a_digest before = plan_digest p)))
        (Conflict "The attempt identity belongs to another immutable plan.") ;;
      Ok (l, before)
  | None =>
      o ← some_or (l_offer l) offer_conflict;
      raise_if (negb (revision o =? offer_revision p)%Z) offer_conflict ;;
      reason ← refusal o (project_id p) (job p) now false;
      match reason with
      | Some reason => Err (Conflict reason)
      | None =>
          raise_if (stale_generation l p) stale_conflict ;;
          let kept := retained l in
          raise_if (existsb (fun a => bool_decide (a_slot a = Some slot)) kept)
            (Conflict "The storage slot is reserved or awaits confirmed cleanup.") ;;
          raise_if (exceeds p (List.filter running kept) (o_limits (settings o)) compute_resources)
            (Conflict "The local offer has insufficient available resources.") ;;
          raise_if (exceeds p kept (o_limits (settings o)) storage_resources)
            (Conflict "The local offer has insufficient unreserved storage.") ;;
          raise_if (existsb (fun d => match l_devices l !! d with Some _ => true | None => false end)
                            (gpu_devices (limits (job p))))
            (Conflict "A selected GPU is reserved or awaits confirmed cleanup.") ;;
          let a := fresh_attempt p slot binding now in
          l' ← insert_attempt l a;
          l'' ← foldM (insert_device (attempt_id p)) l' (gpu_devices (limits (job p)));
          Ok (l'', a)
      end
  end.

(** ** Starting *)

(** [start_requested]: the flag says whether this call recorded the intent. *)
Definition start_requested (l : ledger) (f : Fence) (now : Reading)
    : res (ledger * (attempt * bool)) :=
  a ← fenced l f;
  if negb (bool_decide (a_state a = Prepared)) then Ok (l, (a, false))
  else
    raise_if (negb (active (a_sequence a) (a_expires_at a) (a_timing a) now))
      (Conflict "A current local execution lease is required before start.") ;;
    let p := a_plan a in
    o ← some_or (l_offer l) (Conflict "The local offer changed before start.");
    raise_if (negb (revision o =? offer_revision p)%Z)
      (Conflict "The local offer changed before start.") ;;
    reason ← refusal o (project_id p) (job p) (wall now) false;
    match reason with
    | Some reason => Err (Conflict reason)
    | None =>
        let a' := set_state Starting a in
        l' ← save l a';
        Ok (l', (a', true))
    end.

(** [started]. *)
Definition started (l : ledger) (f : Fence) (binding : json) : res ledger :=
  a ← fenced l f;
  raise_if (negb (bool_decide (a_state a = Starting)))
    (Conflict "The attempt is not awaiting its first observed start.") ;;
  save l (set_running binding a).

(** ** Leases *)

Definition renewable (s : astate) : bool :=
  match s with Prepared | Starting | Running => true | _ => false end.

(** [except ValueError as exc: raise Conflict (str (exc))]. *)
Definition as_conflict {A} (m : res A) : res A :=
  match m with
  | Err e => if is_value_error e then Err (Conflict (exn_message e)) else Err e
  | Ok a => Ok a
  end.

(** [renew]. *)
Definition renew (l : ledger) (n : Renewal) (now : Reading) (maximum_seconds : Z)
    : res (ledger * attempt) :=
  a ← fenced l (n_fence n);
  raise_if (negb (renewable (a_state a)))
    (Conflict "A completed or uncertain attempt cannot receive a new lease.") ;;
  raise_if (negb (a_sequence a =? 0)%Z
            && negb (active (a_sequence a) (a_expires_at a) (a_timing a) now))
    (Conflict "The previous execution lease has expired.") ;;
  let p := a_plan a in
  o ← some_or (l_offer l) (Conflict "The local offer is absent.");
  reason ← refusal o (project_id p) (job p) (wall now) true;
  match reason with
  | Some reason => Err (Conflict reason)
  | None =>
      raise_if (existsb (fun r => amount (o_limits (settings o)) r
                                  <? used r (List.filter running (all l)))%Z compute_resources)
        (Conflict "The current attempts exceed the reduced local offer.") ;;
      if (n_sequence n <=? a_sequence a)%Z then
        if (n_sequence n =? a_sequence a)%Z && f_eq (n_expires_at n) (a_expires_at a)
        then Ok (l, a)
        else Err (Conflict "The execution lease sequence is stale or changed.")
      else
        timing ← as_conflict (deadline (n_expires_at n) now maximum_seconds);
        let a' := set_lease (n_sequence n) (n_expires_at n) timing a in
        l' ← save l a';
        Ok (l', a')
  end.

(** [admit]: a reservation and, when it is new, its first lease. *)
Definition admit_ (l : ledger) (adm : Admission) (slot : string) (binding : json) (now : Reading)
    (maximum_seconds : Z) : res (ledger * (attempt * bool)) :=
  let before := get l (attempt_id (adm_plan adm)) in
  '(l', a) ← reserve l (adm_plan adm) slot binding (wall now);
  match before with
  | Some _ => Ok (l', (a, false))
  | None =>
      '(l'', a') ← renew l' (adm_lease adm) now maximum_seconds;
      Ok (l'', (a', true))
  end.

(** ** Outcomes and release *)

(** [finish]. *)
Definition finish (l : ledger) (r : AttemptResult) : res ledger :=
  a ← fenced l (r_fence r);
  raise_if (bool_decide (a_state a = Released))
    (Conflict "The attempt has already been released.") ;;
  raise_if (negb (terminal (r_state r) || bool_decide (r_state r = Unknown)))
    (Conflict "Record an observed terminal or uncertain outcome.") ;;
  raise_if (terminal (r_state r) && negb (r_cleanup_confirmed r))
    (Conflict "A terminal result requires confirmed workload cleanup.") ;;
  raise_if (terminal (a_state a) && negb (bool_decide (a_state a = r_state r)))
    (Conflict "The observed terminal outcome cannot be replaced.") ;;
  l' ← save l (set_result r a);
  Ok (if r_cleanup_confirmed r then free_devices l' (f_attempt_id (r_fence r)) else l').

(** [release]. *)
Definition release (l : ledger) (f : Fence) : res (ledger * attempt) :=
  a ← fenced l f;
  if bool_decide (a_state a = Released) then Ok (l, a)
  else
    raise_if (negb (terminal (a_state a) || bool_decide (a_state a = Unknown))
              || negb (a_cleanup a))
      (Conflict "The attempt outcome or cleanup remains unconfirmed.") ;;
    let a' := set_released a in
    l' ← save l a';
    Ok (free_devices l' (f_attempt_id f), a').

(** [recover_storage]. *)
Definition recover_storage (l : ledger) (f : Fence) (before : option json) (binding : json)
    (observed_at : float)
    : res (ledger * attempt) :=
  a ← fenced l f;
  raise_if (bool_decide (a_state a = Released) || negb (bool_decide (a_binding a = before)))
    (Conflict "The retained storage binding changed before recovery.") ;;
  raise_if (64 <=? length (a_recovery a))%nat
    (Conflict "This attempt has reached its storage recovery record limit.") ;;
  let records := a_recovery a ++ [mkRecovery before binding observed_at] in
  let a' := set_recovered binding records a in
  let a'' := if terminal (a_state a') then a'
             else set_unknown "storage_recovered_outcome_unknown" a' in
  l' ← save l a'';
  Ok (free_devices l' (f_attempt_id f), a'').
