(* ===== verification/LedgerStep.v ===== *)
(** * The ledger as a transition system

    Every successful operation of [Ledger] is one [step]: an offer change, the
    evolution of one attempt, or the insertion of one attempt.  [wf] is the
    well-formedness invariant of the tables; the operations preserve it, and
    under it no operation ever hits a uniqueness or foreign-key violation. *)

From Stdlib Require Import SpecFloat.
From S2P Require Import Prelude Float64 Json Clock Spec Offer Ledger.

(** ** One attempt *)

(** [evolves t a a' freed]: what one operation may do to a stored attempt, and
    whether it also deletes the attempt's device rows.  [t] is the clock reading
    the operation used, when it used one. *)
Inductive evolves (t : option Reading) : attempt → attempt → bool → Prop :=
| ev_annotate n a a' :
    apply_annotation n a = Ok a' → evolves t a a' false
| ev_start a now :
    t = Some now →
    a_state a = Prepared →
    active (a_sequence a) (a_expires_at a) (a_timing a) now = true →
    evolves t a (set_state Starting a) false
| ev_started a binding :
    a_state a = Starting → evolves t a (set_running binding a) false
| ev_renew a sequence expires_at timing now maximum :
    t = Some now →
    renewable (a_state a) = true →
    (a_sequence a = 0%Z ∨ active (a_sequence a) (a_expires_at a) (a_timing a) now = true) →
    (a_sequence a < sequence)%Z →
    deadline expires_at now maximum = Ok timing →
    evolves t a (set_lease sequence expires_at timing a) false
| ev_finish a r :
    a_state a ≠ Released →
    terminal (r_state r) = true ∨ r_state r = Unknown →
    (terminal (r_state r) = true → r_cleanup_confirmed r = true) →
    (terminal (a_state a) = true → r_state r = a_state a) →
    evolves t a (set_result r a) (r_cleanup_confirmed r)
| ev_release a :
    terminal (a_state a) = true ∨ a_state a = Unknown →
    a_cleanup a = true →
    evolves t a (set_released a) true
| ev_recover a before binding at_ :
    a_state a ≠ Released →
    a_binding a = before →
    let a' := set_recovered binding (a_recovery a ++ [mkRecovery before binding at_]) a in
    evolves t a (if terminal (a_state a) then a'
               else set_unknown "storage_recovered_outcome_unknown" a') true.

Lemma apply_annotation_core n a a' :
  apply_annotation n a = Ok a' →
  a_plan a' = a_plan a ∧ a_digest a' = a_digest a ∧ a_slot a' = a_slot a
  ∧ a_state a' = a_state a ∧ a_cleanup a' = a_cleanup a ∧ a_rejection a' = a_rejection a
  ∧ a_outcome a' = a_outcome a ∧ a_sequence a' = a_sequence a ∧ a_expires_at a' = a_expires_at a
  ∧ a_timing a' = a_timing a ∧ a_binding a' = a_binding a.
Proof. destruct n; simpl; intros H; inv_ok; done. Qed.

(** What never changes after insertion. *)
Lemma evolves_identity {t} a a' freed :
  evolves t a a' freed →
  a_plan a' = a_plan a ∧ a_digest a' = a_digest a ∧ a_rejection a' = a_rejection a.
Proof.
  destruct 1 as [n a a' (?&?&?&?&?&?&?)%apply_annotation_core| | | | | |a ???]; try done.
  by destruct (terminal (a_state a)).
Qed.

(** A slot is kept until release. *)
Lemma evolves_slot {t} a a' freed :
  evolves t a a' freed →
  a_slot a' = a_slot a
  ∨ a_slot a' = None ∧ a_state a' = Released ∧ a_outcome a' = Some (a_state a)
    ∧ (terminal (a_state a) = true ∨ a_state a = Unknown) ∧ a_cleanup a = true.
Proof.
  destruct 1 as [n a a' (?&?&?&?&?&?&?)%apply_annotation_core| | | | | |a ???]; auto 10.
  by destruct (terminal (a_state a)); left.
Qed.

(** Progress of an attempt: no operation moves it back to an earlier phase, and
    nothing leaves [Prepared] except once. *)
Definition phase (s : astate) : nat :=
  match s with
  | Prepared => 0 | Starting => 1 | Running => 2 | Unknown => 3
  | Succeeded | Failed | Cancelled | Expired => 4
  | Released => 5
  end.

Lemma evolves_phase {t} a a' freed :
  evolves t a a' freed → phase (a_state a) ≤ phase (a_state a').
Proof.
  destruct 1 as [n a a' (_&_&_&Hst&_)%apply_annotation_core|a now _ Hs|a b Hs|a sq e tm now mx _ Hs
                |a r Hs Hr Hc Ht|a Hs|a b b' at_ Hs]; simpl.
  - by rewrite Hst.
  - rewrite Hs. simpl. lia.
  - rewrite Hs. simpl. lia.
  - done.
  - destruct (r_state r), (a_state a); simpl in *;
      first [ lia | by destruct Hr | by specialize (Ht eq_refl) | done ].
  - destruct (a_state a); simpl; lia.
  - destruct (a_state a) eqn:He; simpl; rewrite ?He; simpl; first [lia|done].
Qed.

(** Internal consistency of one record. *)
Record life (a : attempt) : Prop := {
  life_active : phase (a_state a) ≤ 2 → is_Some (a_slot a) ∧ a_cleanup a = false;
  life_terminal : terminal (a_state a) = true → a_cleanup a = true;
  life_released : a_state a = Released →
    a_slot a = None ∧ a_cleanup a = true
    ∧ ∃ s, a_outcome a = Some s ∧ (terminal s = true ∨ s = Unknown);
  life_outcome : a_state a ≠ Released → a_outcome a = None;
  life_slot : a_slot a = None → a_state a = Released ∨ is_Some (a_rejection a);
  life_rejection : is_Some (a_rejection a) → a_slot a = None ∧ 3 ≤ phase (a_state a) }.

(** A lease has timing exactly after its first renewal. *)
Definition lease_ok (a : attempt) : Prop :=
  match a_timing a with Some _ => (0 < a_sequence a)%Z | None => a_sequence a = 0%Z end.

Lemma fresh_life p slot binding now : life (fresh_attempt p slot binding now).
Proof. split; simpl; try done; try lia; eauto. Qed.

Lemma rejected_life l p now obs : life (rejected_attempt l p now obs).
Proof. split; destruct obs; simpl; try done; try lia; eauto. Qed.

Lemma life_active_facts a :
  life a → phase (a_state a) ≤ 2 →
  (∃ s, a_slot a = Some s) ∧ a_cleanup a = false ∧ a_rejection a = None ∧ a_outcome a = None.
Proof.
  intros [La Lt Lr Lo Ls Lj] Hph. destruct (La Hph) as [Hs Hc]. repeat split; try done.
  - destruct (a_rejection a) eqn:Hj; [|done]. destruct Lj as [_ ?]; [done|lia].
  - apply Lo. intros Hr. rewrite Hr in Hph. simpl in Hph. lia.
Qed.

(** A record still in an active phase, described directly. *)
Lemma life_of_active a s :
  phase (a_state a) ≤ 2 → a_slot a = Some s → a_cleanup a = false →
  a_rejection a = None → a_outcome a = None → life a.
Proof.
  intros Hph Hs Hc Hj Ho. split; rewrite ?Hs, ?Hc, ?Hj, ?Ho; try done; eauto.
  - destruct (a_state a); simpl in *; done || lia.
  - intros Hr. rewrite Hr in Hph. simpl in Hph. lia.
Qed.

Lemma evolves_life {t} a a' freed : evolves t a a' freed → life a → life a'.
Proof.
  intros Hev Hlife. pose proof (evolves_phase _ _ _ Hev) as Hphase.
  pose proof (life_active_facts a Hlife) as Hact.
  destruct Hev as [n a a' (Hp&Hd&Hsl&Hst&Hcl&Hrj&Ho&_)%apply_annotation_core|a now _ Hs|a b Hs
                  |a sq e tm now mx _ Hs|a r Hs Hr Hc Ht|a Hs Hc|a b b' at_ Hs Hb].
  - destruct Hlife. split; rewrite ?Hsl, ?Hst, ?Hcl, ?Hrj, ?Ho; done.
  - destruct Hact as ([s ?]&?&?&?); [rewrite Hs; simpl; lia|]. by eapply life_of_active; simpl; eauto.
  - destruct Hact as ([s ?]&?&?&?); [rewrite Hs; simpl; lia|]. by eapply life_of_active; simpl; eauto.
  - destruct Hlife. split; simpl; auto.
  - destruct Hlife as [La Lt Lr Lo Ls Lj]. split; simpl; auto.
    + intros Hph. destruct Hr as [Hr|Hr]; destruct (r_state r); simpl in *; done || lia.
    + intros Hrel. destruct Hr as [Hr|Hr]; rewrite Hrel in Hr; done.
    + intros Hn. destruct (Ls Hn) as [?|?]; [done|by right].
    + intros Hj. destruct (Lj Hj) as [Hn Hph]. split; [done|]. simpl in Hphase. lia.
  - destruct Hlife as [La Lt Lr Lo Ls Lj]. split; simpl; try done; try lia; eauto.
  - destruct Hlife as [La Lt Lr Lo Ls Lj].
    destruct (terminal (a_state a)) eqn:Ht; split; simpl in *; auto; try done; try lia.
    + intros Hph. destruct (a_state a); simpl in *; done || lia.
    + intros Hn. right. by destruct (Ls Hn).
    + intros Hj. destruct (Lj Hj) as [Hn _]. split; [done|lia].
Qed.

Lemma evolves_lease {t} a a' freed : evolves t a a' freed → lease_ok a → lease_ok a'.
Proof.
  unfold lease_ok.
  destruct 1 as [n a a' (_&_&_&_&_&_&_&->&_&->&_)%apply_annotation_core| | |a sq e tm now mx| | |];
    simpl; try done.
  - destruct (a_timing a); lia.
  - by destruct (terminal (a_state a)).
Qed.

(** ** The tables *)

(** Two rows of the same job. *)
Definition same_job_rows (a b : attempt) : Prop := job_id (a_plan a) = job_id (a_plan b).

Record wf (l : ledger) : Prop := {
  wf_key i a : get l i = Some a → row_id a = i;
  wf_digest i a : get l i = Some a → a_digest a = plan_digest (a_plan a);
  wf_generation i j a b : get l i = Some a → get l j = Some b → same_job_rows a b →
    generation (a_plan a) = generation (a_plan b) → i = j;
  wf_slot i j a b s : get l i = Some a → get l j = Some b →
    a_slot a = Some s → a_slot b = Some s → i = j;
  wf_single i j a b : get l i = Some a → get l j = Some b → same_job_rows a b → i ≠ j →
    a_state a ≠ Released →
    a_state b = Released ∧ (generation (a_plan b) < generation (a_plan a))%Z;
  wf_life i a : get l i = Some a → life a;
  wf_lease i a : get l i = Some a → lease_ok a;
  wf_device d i : l_devices l !! d = Some i →
    ∃ a, get l i = Some a ∧ d ∈ gpu_devices (limits (job (a_plan a))) ∧ held a = true }.

(** [UPDATE ... WHERE id], without the uniqueness check. *)
Definition put (l : ledger) (i : string) (a : attempt) : ledger :=
  with_attempts l (<[i := a]> (l_attempts l)).

Definition assign (l : ledger) (i : string) (ds : list string) : ledger :=
  with_devices l (list_to_map ((fun d => (d, i)) <$> ds) ∪ l_devices l).

Definition evolved (l : ledger) (i : string) (a : attempt) (freed : bool) : ledger :=
  if freed then free_devices (put l i a) i else put l i a.

(** A row that may be inserted. *)
Record insertable (l : ledger) (a : attempt) (ds : list string) : Prop := {
  ins_fresh : get l (row_id a) = None;
  ins_digest : a_digest a = plan_digest (a_plan a);
  ins_life : life a;
  ins_lease : lease_ok a;
  ins_new i b : get l i = Some b → same_job_rows b a →
    a_state b = Released ∧ (generation (a_plan b) < generation (a_plan a))%Z;
  ins_slot i b s : get l i = Some b → a_slot a = Some s → a_slot b ≠ Some s;
  ins_free d : d ∈ ds → l_devices l !! d = None;
  ins_devices d : d ∈ ds → d ∈ gpu_devices (limits (job (a_plan a))) ∧ held a = true }.

Inductive step (t : option Reading) (l : ledger) : ledger → Prop :=
| step_none : step t l l
| step_offer o : step t l (set_offer_row o l)
| step_evolve i a a' freed :
    get l i = Some a → evolves t a a' freed → step t l (evolved l i a' freed)
| step_insert a ds :
    insertable l a ds → step t l (assign (put l (row_id a) a) (row_id a) ds).

Lemma get_put l i a j : get (put l i a) j = if decide (i = j) then Some a else get l j.
Proof.
  unfold get, put. simpl. case_decide; subst; [apply lookup_insert_eq|by apply lookup_insert_ne].
Qed.

Lemma get_evolved l i a freed j :
  get (evolved l i a freed) j = if decide (i = j) then Some a else get l j.
Proof. rewrite <- get_put. by destruct freed. Qed.

Lemma get_assign l i ds j : get (assign l i ds) j = get l j.
Proof. done. Qed.

Lemma devices_free l i d j :
  l_devices (free_devices l i) !! d = Some j ↔ l_devices l !! d = Some j ∧ j ≠ i.
Proof. unfold free_devices. simpl. by rewrite map_lookup_filter_Some. Qed.

Lemma devices_evolved l i a freed d j :
  l_devices (evolved l i a freed) !! d = Some j →
  l_devices l !! d = Some j ∧ (freed = true → j ≠ i).
Proof. destruct freed; simpl; [by intros [? ?]%devices_free|done]. Qed.

Lemma devices_assign l i ds d j :
  l_devices (assign l i ds) !! d = Some j ↔ ((d ∈ ds ∧ j = i) ∨ (¬ (d ∈ ds) ∧ l_devices l !! d = Some j)).
Proof.
  unfold assign. simpl.
  rewrite lookup_union_Some_raw, <- not_elem_of_list_to_map, <- list_fmap_compose.
  unfold compose. simpl. rewrite list_fmap_id.
  split.
  - intros [H|H]; [left|by right].
    apply elem_of_list_to_map_2, list_elem_of_fmap in H as (d' & [= -> ->] & ?). done.
  - intros [[Hd ->]|H]; [left|by right].
    destruct (list_to_map ((fun d => (d, i)) <$> ds) !! d) as [k|] eqn:Hk.
    + apply elem_of_list_to_map_2, list_elem_of_fmap in Hk as (d' & [= -> ->] & ?). done.
    + apply not_elem_of_list_to_map in Hk. exfalso. apply Hk.
      apply list_elem_of_fmap. exists (d, i). split; [done|].
      apply list_elem_of_fmap. by exists d.
Qed.

Lemma evolves_same_job {t} a a' freed b :
  evolves t a a' freed → same_job_rows a' b ↔ same_job_rows a b.
Proof. intros (Hp & _)%evolves_identity. unfold same_job_rows. by rewrite Hp. Qed.

Lemma evolves_unreleased {t} a a' freed :
  evolves t a a' freed → a_state a' ≠ Released → a_state a ≠ Released.
Proof.
  intros Hph%evolves_phase Hne Hr. rewrite Hr in Hph. simpl in Hph.
  destruct (a_state a'); simpl in *; lia || done.
Qed.

Lemma evolves_held {t} a a' : evolves t a a' false → held a' = held a.
Proof.
  intros Hev. destruct (evolves_slot _ _ _ Hev) as [He|(_ & Hr & Ho & _)]; unfold held;
    [by rewrite He|].
  inversion Hev as [n ? ? Hn| | | | | |]; subst; simpl in *; try done; try congruence.
  apply apply_annotation_core in Hn as (_&_&He&_). by rewrite He.
Qed.

(** Split a statement about two rows of an updated table. *)
Ltac two_rows :=
  let Hb := fresh "Hrow" in
  let Hc := fresh "Hrow" in
  repeat case_decide; intros Hb Hc; try (injection Hb as <-); try (injection Hc as <-); subst.

Lemma wf_evolved {t} l i a a' freed :
  wf l → get l i = Some a → evolves t a a' freed → wf (evolved l i a' freed).
Proof.
  intros [Wk Wd Wg Ws W1 Wl Wt Wv] Hget Hev.
  pose proof (evolves_identity _ _ _ Hev) as (Hplan & Hdig & Hrej).
  pose proof (evolves_same_job _ _ _ a' Hev) as Hjob.
  split.
  - intros j b. rewrite get_evolved. case_decide; [intros [= <-]; subst|by apply Wk].
    unfold row_id. rewrite Hplan. by apply Wk.
  - intros j b. rewrite get_evolved. case_decide; [intros [= <-]; subst|by apply Wd].
    rewrite Hplan, Hdig. by eapply Wd.
  - intros j k b c. rewrite !get_evolved. unfold same_job_rows.
    two_rows; rewrite ?Hplan; eauto.
  - assert (Hsame : ∀ s, a_slot a' = Some s → a_slot a = Some s).
    { intros s Hs. destruct (evolves_slot _ _ _ Hev) as [<-|[Hn _]]; congruence. }
    intros j k b c s. rewrite !get_evolved.
    two_rows; eauto.
  - pose proof (evolves_unreleased _ _ _ Hev) as Hrel.
    pose proof (evolves_phase _ _ _ Hev) as Hph.
    intros j k b c. rewrite !get_evolved. unfold same_job_rows.
    two_rows; try done; rewrite ?Hplan; eauto.
    intros Hj Hne Hb. destruct (W1 j k b a) as [Hr Hg]; try done. split; [|done].
    rewrite Hr in Hph. simpl in Hph. destruct (a_state a'); simpl in *; lia || done.
  - intros j b. rewrite get_evolved. case_decide; [intros [= <-]; subst|by apply Wl].
    eapply evolves_life; eauto.
  - intros j b. rewrite get_evolved. case_decide; [intros [= <-]; subst|by apply Wt].
    eapply evolves_lease; eauto.
  - intros d j (Hd & Hfree)%devices_evolved. rewrite get_evolved.
    destruct (Wv _ _ Hd) as (b & Hb & Hin & Hh).
    case_decide; [subst j|by exists b]. simplify_eq.
    destruct freed; [by destruct Hfree|].
    exists a'. rewrite Hplan, (evolves_held _ _ Hev). done.
Qed.

Lemma wf_insert l a ds :
  wf l → insertable l a ds → wf (assign (put l (row_id a) a) (row_id a) ds).
Proof.
  intros [Wk Wd Wg Ws W1 Wl Wt Wv] [If Ig Il It In Is Ifr Id].
  split.
  - intros j b. rewrite get_assign, get_put. case_decide; [by intros [= <-]|apply Wk].
  - intros j b. rewrite get_assign, get_put. case_decide; [by intros [= <-]|apply Wd].
  - intros j k b c. rewrite !get_assign, !get_put. unfold same_job_rows.
    two_rows; try done; eauto.
    + intros Hj Hg. destruct (In k c) as [_ ?]; [done..|lia].
    + intros Hj Hg. destruct (In j b) as [_ ?]; [done..|lia].
  - intros j k b c s. rewrite !get_assign, !get_put.
    two_rows; try done; eauto.
    + intros Hs Hc. by destruct (Is k c s).
    + intros Hs Hc. by destruct (Is j b s).
  - intros j k b c. rewrite !get_assign, !get_put. unfold same_job_rows.
    two_rows; try done; eauto.
    + intros Hj _ _. by apply (In k c).
    + intros Hj _ Hb. by destruct (In j b).
  - intros j b. rewrite get_assign, get_put. case_decide; [by intros [= <-]|apply Wl].
  - intros j b. rewrite get_assign, get_put. case_decide; [by intros [= <-]|apply Wt].
  - intros d j Hd. apply devices_assign in Hd as [[Hd ->]|[_ Hd]].
    + exists a. rewrite get_assign, get_put, decide_True by done. split; [done|by apply Id].
    + destruct (Wv _ _ Hd) as (b & Hb & Hin). exists b. rewrite get_assign, get_put.
      rewrite decide_False; [done|]. intros <-. unfold get in *. congruence.
Qed.

Theorem step_wf {t} l l' : step t l l' → wf l → wf l'.
Proof.
  destruct 1 as [|o|i a a' freed Ha Hev|a ds Hins]; intros Hwf; [done| | |].
  - destruct Hwf. split; eauto.
  - by eapply wf_evolved.
  - by apply wf_insert.
Qed.

Lemma wf_empty identity offer : wf (mkLedger identity offer ∅ ∅).
Proof. split; unfold get; simpl; intros *; rewrite ?lookup_empty; done. Qed.

(** ** The operations are steps *)

Lemma fenced_Ok l f a :
  fenced l f = Ok a ↔
  get l (f_attempt_id f) = Some a ∧ generation (a_plan a) = f_generation f
  ∧ a_digest a = f_plan_digest f.
Proof.
  unfold fenced. destruct (get l (f_attempt_id f)) as [b|]; [|split; [done|by intros [? _]]].
  split.
  - intros H. by inv_ok.
  - intros ([= ->] & -> & ->). rewrite Z.eqb_refl, bool_decide_true by done. done.
Qed.

(** The only exception [fenced] raises. *)
Lemma fenced_Err l f e : fenced l f = Err e → is_conflict e = true.
Proof.
  unfold fenced. destruct (get l (f_attempt_id f)) as [b|]; [|by intros [= <-]].
  destruct (_ || _); simpl; [by intros [= <-]|done].
Qed.

Lemma slot_taken_true l i s :
  slot_taken l i s = true → ∃ j a t, s = Some t ∧ get l j = Some a ∧ j ≠ i ∧ a_slot a = Some t.
Proof.
  unfold slot_taken. destruct s as [s|]; [|done].
  intros ([j a] & Hin%elem_of_rows & H)%existsb_true. simpl in H. bool_inv. eauto 10.
Qed.

(** Under [wf] the update of an evolving row never violates a constraint. *)
Lemma save_evolves {t} l i a a' freed :
  wf l → get l i = Some a → evolves t a a' freed → save l a' = Ok (put l i a').
Proof.
  intros Hwf Hget Hev.
  pose proof (evolves_identity _ _ _ Hev) as (Hplan & _).
  assert (row_id a' = i) as Hid by (unfold row_id; rewrite Hplan; by apply (wf_key _ Hwf)).
  unfold save. rewrite Hid, Hget.
  destruct (slot_taken l i (a_slot a')) eqn:Ht; [|done]. exfalso.
  apply slot_taken_true in Ht as (j & b & u & Hs & Hb & Hne & Hbt).
  destruct (evolves_slot _ _ _ Hev) as [He|[Hn _]]; [|congruence].
  apply Hne. eapply (wf_slot _ Hwf j i b a u); congruence.
Qed.

(** Saving an evolved row, with or without freeing its devices, is a step. *)
Lemma save_step {t} l i a a' l' freed :
  wf l → get l i = Some a → evolves t a a' freed → save l a' = Ok l' →
  step t l (if freed then free_devices l' i else l').
Proof.
  intros Hwf Hget Hev Hs. rewrite (save_evolves l i a a' freed) in Hs by done.
  injection Hs as <-. exact (step_evolve t l i a a' freed Hget Hev).
Qed.

Lemma all_elem l a : a ∈ all l ↔ ∃ i, get l i = Some a.
Proof. apply elem_of_row_values. Qed.

(** A plan that passes the generation check is newer than every other row of
    its job, and those are released. *)
Lemma stale_generation_false l p :
  stale_generation l p = false ↔
  ∀ i b, get l i = Some b → job_id (a_plan b) = job_id p →
    a_state b = Released ∧ (generation (a_plan b) < generation p)%Z.
Proof.
  unfold stale_generation, same_job. rewrite existsb_false. split.
  - intros H i b Hb Hj.
    assert (Hin : b ∈ List.filter (fun a => bool_decide (job_id (a_plan a) = job_id p)) (all l)).
    { apply elem_of_List_filter. split; [by apply bool_decide_eq_true|]. apply all_elem. eauto. }
    specialize (H b Hin). by bool_inv.
  - intros H b [Hj Hin]%elem_of_List_filter. bool_inv. apply all_elem in Hin as [i Hi].
    destruct (H i b Hi Hj) as [-> Hg]. simpl. by apply Z.leb_gt.
Qed.

Lemma insert_attempt_Ok l a l' :
  insert_attempt l a = Ok l' → l' = put l (row_id a) a ∧ get l (row_id a) = None
    ∧ slot_taken l (row_id a) (a_slot a) = false.
Proof. unfold insert_attempt. intros H. inv_ok. destruct (get l (row_id a)); done. Qed.

Lemma slot_taken_false l i s :
  slot_taken l i (Some s) = false ↔
  ∀ j b, get l j = Some b → j ≠ i → a_slot b ≠ Some s.
Proof.
  simpl. rewrite existsb_false. split.
  - intros H j b Hb Hne Hs. specialize (H (j, b) (proj2 (elem_of_rows _ _ _) Hb)).
    simpl in H. rewrite bool_decide_false, bool_decide_true in H; done.
  - intros H [j b] Hin%elem_of_rows. simpl. apply andb_false_iff.
    destruct (decide (j = i)) as [->|Hne]; [left; by rewrite bool_decide_true|right].
    apply bool_decide_eq_false. eauto.
Qed.

(** Conversely the insertion of a new generation in a free slot succeeds. *)
Lemma insert_attempt_new l a :
  wf l → get l (row_id a) = None → stale_generation l (a_plan a) = false →
  slot_taken l (row_id a) (a_slot a) = false →
  insert_attempt l a = Ok (put l (row_id a) a).
Proof.
  intros Hwf Hnew Hgen Hslot. unfold insert_attempt. rewrite Hnew, Hslot. simpl.
  destruct (existsb _ (all l)) eqn:He; [exfalso|done].
  apply existsb_true in He as (b & [i Hb]%all_elem & H). bool_inv.
  rewrite stale_generation_false in Hgen. destruct (Hgen i b) as [_ ?]; [done..|lia].
Qed.

(** Inserting device rows one by one is the assignment of the whole list. *)
Lemma assign_cons l i d ds :
  assign (with_devices l (<[d := i]> (l_devices l))) i ds = assign l i (d :: ds).
Proof.
  unfold assign, with_devices. simpl. f_equal. apply map_eq. intros k.
  rewrite <- insert_union_l. rewrite (lookup_union (list_to_map _) (<[d := i]> _)).
  destruct (decide (d = k)) as [->|Hne].
  - rewrite !lookup_insert_eq.
    destruct (list_to_map _ !! k) as [j|] eqn:Hj; [|done].
    apply elem_of_list_to_map_2, list_elem_of_fmap in Hj as (? & [= -> ->] & _). done.
  - rewrite !lookup_insert_ne, lookup_union by done. done.
Qed.

Lemma insert_devices_Ok l i ds l' :
  is_Some (get l i) → foldM (insert_device i) l ds = Ok l' →
  l' = assign l i ds ∧ (∀ d, d ∈ ds → l_devices l !! d = None) ∧ NoDup ds.
Proof.
  revert l. induction ds as [|d ds IH]; intros l Hi H; simpl in H.
  { injection H as <-. split; [|split; [set_solver|constructor]].
    unfold assign. simpl. rewrite (left_id_L ∅ (∪)). by destruct l. }
  apply bind_Ok in H as (l1 & Hd & H). unfold insert_device in Hd. inv_ok.
  destruct (l_devices l !! d) eqn:Hfree; [done|].
  apply IH in H as (-> & Hds & Hnd); [|done].
  split; [apply assign_cons|]. simpl in Hds. split.
  - intros k [->|Hk]%elem_of_cons; [done|]. specialize (Hds k Hk).
    destruct (decide (d = k)) as [->|]; [done|by rewrite lookup_insert_ne in Hds].
  - constructor; [|done]. intros Hin. specialize (Hds d Hin). by rewrite lookup_insert_eq in Hds.
Qed.

Lemma insert_devices_free l i ds :
  is_Some (get l i) → NoDup ds → (∀ d, d ∈ ds → l_devices l !! d = None) →
  foldM (insert_device i) l ds = Ok (assign l i ds).
Proof.
  intros Hi Hnd. revert l Hi. induction Hnd as [|d ds Hd Hnd IH]; intros l Hi Hfree; simpl.
  { unfold assign. simpl. rewrite (left_id_L ∅ (∪)). by destruct l. }
  unfold insert_device. rewrite (Hfree d) by set_solver.
  destruct Hi as [a Ha]. rewrite Ha. simpl.
  rewrite IH, assign_cons; [done|eauto|].
  intros k Hk. simpl. rewrite lookup_insert_ne by (intros ->; done). apply Hfree. set_solver.
Qed.

(** *** Each operation *)

Lemma annotate_step {t} l f n l' a :
  wf l → annotate l f n = Ok (l', a) → step t l l'.
Proof.
  unfold annotate. intros Hwf H. apply bind_Ok in H as (a0 & (Ha & _)%fenced_Ok & H).
  apply bind_Ok in H as (a1 & Hn & H). inv_ok.
  by apply (save_step l (f_attempt_id f) a0 a _ false); [..|econstructor|].
Qed.

Lemma insertable_fresh l p slot binding now :
  get l (attempt_id p) = None → stale_generation l p = false →
  existsb (fun a => bool_decide (a_slot a = Some slot)) (retained l) = false →
  existsb (fun d => match l_devices l !! d with Some _ => true | None => false end)
    (gpu_devices (limits (job p))) = false →
  insertable l (fresh_attempt p slot binding now) (gpu_devices (limits (job p))).
Proof.
  intros Hnew Hgen Hslot Hdev. rewrite existsb_false in Hslot. rewrite existsb_false in Hdev. split.
  - done.
  - done.
  - apply fresh_life.
  - done.
  - by apply stale_generation_false.
  - intros i b s Hb [= <-] Hs.
    specialize (Hslot b). rewrite bool_decide_true in Hslot by done.
    enough (b ∈ retained l) by (discriminate Hslot; done).
    apply elem_of_List_filter. unfold held. rewrite Hs. split; [done|]. apply all_elem. eauto.
  - intros d Hd. specialize (Hdev d Hd). by destruct (l_devices l !! d).
  - done.
Qed.

Lemma insertable_rejected l p now observation :
  get l (attempt_id p) = None → stale_generation l p = false →
  insertable l (rejected_attempt l p now observation) [].
Proof.
  intros Hnew Hgen. split; try done.
  - apply rejected_life.
  - by apply stale_generation_false.
  - intros d []%elem_of_nil.
  - intros d []%elem_of_nil.
Qed.

Lemma reject_step {t} l p now observation l' a :
  wf l → reject l p now observation = Ok (l', a) → step t l l'.
Proof.
  unfold reject. intros Hwf. destruct (get l (attempt_id p)) eqn:Hnew; intros H.
  { apply bind_Ok in H as (? & _ & [= <- _]). constructor. }
  apply raise_if_bind_Ok in H as [Hgen H]. apply bind_Ok in H as (l1 & Hins & [= <- <-]).
  apply insert_attempt_Ok in Hins as (-> & _).
  pose proof (step_insert t l _ [] (insertable_rejected l p now observation Hnew Hgen)) as Hs.
  unfold assign in Hs. simpl in Hs. by rewrite (left_id_L ∅ (∪)) in Hs.
Qed.

(** Everything [reserve] checks before it inserts a new attempt. *)
Record reservable (l : ledger) (p : Plan) (slot : string) (now : float) (o : Offer) : Prop := {
  rsv_new : get l (attempt_id p) = None;
  rsv_offer : l_offer l = Some o;
  rsv_revision : revision o = offer_revision p;
  rsv_allowed : refusal o (project_id p) (job p) now false = Ok None;
  rsv_generation : stale_generation l p = false;
  rsv_slot : existsb (fun a => bool_decide (a_slot a = Some slot)) (retained l) = false;
  rsv_compute :
    exceeds p (List.filter running (retained l)) (o_limits (settings o)) compute_resources = false;
  rsv_storage : exceeds p (retained l) (o_limits (settings o)) storage_resources = false;
  rsv_devices :
    existsb (fun d => match l_devices l !! d with Some _ => true | None => false end)
      (gpu_devices (limits (job p))) = false }.

Definition reserved (l : ledger) (p : Plan) (slot : string) (binding : json) (now : float)
    : ledger :=
  assign (put l (attempt_id p) (fresh_attempt p slot binding now)) (attempt_id p)
    (gpu_devices (limits (job p))).

Lemma reserve_Ok l p slot binding now l' a :
  reserve l p slot binding now = Ok (l', a) →
  (get l (attempt_id p) = Some a ∧ a_digest a = plan_digest p ∧ l' = l)
  ∨ (a = fresh_attempt p slot binding now ∧ l' = reserved l p slot binding now
     ∧ NoDup (gpu_devices (limits (job p))) ∧ ∃ o, reservable l p slot now o).
Proof.
  unfold reserve. destruct (get l (attempt_id p)) as [b|] eqn:Hnew.
  { intros H. inv_ok. by left. }
  intros H. right.
  apply bind_Ok in H as (o & Ho%some_or_Ok & H).
  apply raise_if_bind_Ok in H as [Hrev H]. apply bind_Ok in H as (reason & Hreason & H).
  destruct reason; [done|].
  do 5 (apply raise_if_bind_Ok in H as [? H]).
  apply bind_Ok in H as (l1 & Hins & H). apply bind_Ok in H as (l2 & Hdev & [= <- <-]).
  apply insert_attempt_Ok in Hins as (-> & _). change (row_id _) with (attempt_id p) in Hdev.
  apply insert_devices_Ok in Hdev as (-> & _ & Hnd).
  - split; [done|]. split; [done|]. split; [done|]. exists o. bool_inv. by split.
  - rewrite get_put, decide_True by done. done.
Qed.

Lemma reserve_step {t} l p slot binding now l' a :
  wf l → reserve l p slot binding now = Ok (l', a) → step t l l'.
Proof.
  intros Hwf [(_ & _ & ->)|(_ & -> & _ & o & [])]%reserve_Ok; [constructor|].
  apply (step_insert t l (fresh_attempt p slot binding now) (gpu_devices (limits (job p)))).
  by apply insertable_fresh.
Qed.

(** Conversely a plan that passes the checks is reserved: no constraint of the
    tables can fail. *)
Lemma reserve_reservable l p slot binding now o :
  wf l → NoDup (gpu_devices (limits (job p))) → reservable l p slot now o →
  reserve l p slot binding now = Ok (reserved l p slot binding now, fresh_attempt p slot binding now).
Proof.
  intros Hwf Hnd [Hnew Ho Hrev Hall Hgen Hslot Hc Hs Hd].
  unfold reserve. rewrite Hnew, Ho. run. rewrite Hrev, Z.eqb_refl. run.
  rewrite Hall. run. rewrite Hgen, Hslot, Hc, Hs, Hd. run.
  destruct (insertable_fresh l p slot binding now Hnew Hgen Hslot Hd) as [_ _ _ _ _ Is Ifr _].
  rewrite insert_attempt_new; try done.
  - run. rewrite insert_devices_free; try done.
    rewrite get_put, decide_True by done. done.
  - apply slot_taken_false. intros j b Hb Hne. by eapply Is.
Qed.

Lemma start_requested_Ok l f now l' a flag :
  start_requested l f now = Ok (l', (a, flag)) →
  ∃ a0, get l (f_attempt_id f) = Some a0 ∧
  ((flag = false ∧ l' = l ∧ a = a0 ∧ a_state a0 ≠ Prepared)
   ∨ (flag = true ∧ a = set_state Starting a0 ∧ a_state a0 = Prepared
      ∧ active (a_sequence a0) (a_expires_at a0) (a_timing a0) now = true
      ∧ save l a = Ok l'
      ∧ ∃ o, l_offer l = Some o ∧ revision o = offer_revision (a_plan a0)
         ∧ refusal o (project_id (a_plan a0)) (job (a_plan a0)) (wall now) false = Ok None)).
Proof.
  unfold start_requested. intros H. apply bind_Ok in H as (a0 & (Ha & _)%fenced_Ok & H).
  exists a0. split; [done|].
  destruct (bool_decide (a_state a0 = Prepared)) eqn:Hst; bool_inv; simpl in H.
  - right. apply raise_if_bind_Ok in H as [Hact H]. apply bind_Ok in H as (o & Ho%some_or_Ok & H).
    apply raise_if_bind_Ok in H as [Hrev H]. apply bind_Ok in H as (reason & Hreason & H).
    destruct reason; [done|]. apply bind_Ok in H as (l1 & Hs & H).
    injection H as <- <- <-. bool_inv. repeat split; try done. eauto.
  - left. by injection H as <- <- <-.
Qed.

Lemma start_requested_step l f now l' r :
  wf l → start_requested l f now = Ok (l', r) → step (Some now) l l'.
Proof.
  destruct r as [a flag]. intros Hwf H.
  apply start_requested_Ok in H as (a0 & Ha & [(_ & -> & _)|(_ & -> & Hst & Hact & Hs & _)]);
    [constructor|].
  by apply (save_step l (f_attempt_id f) a0 (set_state Starting a0) _ false); [..|econstructor|].
Qed.

Lemma started_step {t} l f binding l' : wf l → started l f binding = Ok l' → step t l l'.
Proof.
  unfold started. intros Hwf H. apply bind_Ok in H as (a & (Ha & _)%fenced_Ok & H).
  apply raise_if_bind_Ok in H as [Hst H]. bool_inv.
  by apply (save_step l (f_attempt_id f) a (set_running binding a) _ false); [..|constructor|].
Qed.

Lemma as_conflict_Ok {A} (m : res A) a : as_conflict m = Ok a ↔ m = Ok a.
Proof. destruct m as [|e]; simpl; [done|]. by destruct (is_value_error e). Qed.

(** Everything [renew] checks. *)
Record renewable_by (l : ledger) (n : Renewal) (now : Reading) (a : attempt) : Prop := {
  rnw_row : get l (f_attempt_id (n_fence n)) = Some a;
  rnw_fence : fenced l (n_fence n) = Ok a;
  rnw_state : renewable (a_state a) = true;
  rnw_active : a_sequence a = 0%Z
    ∨ active (a_sequence a) (a_expires_at a) (a_timing a) now = true;
  rnw_offer : ∃ o, l_offer l = Some o
    ∧ refusal o (project_id (a_plan a)) (job (a_plan a)) (wall now) true = Ok None
    ∧ (∀ r, r ∈ compute_resources →
        used r (List.filter running (all l)) <= amount (o_limits (settings o)) r)%Z }.

Lemma renew_Ok l n now maximum l' a :
  renew l n now maximum = Ok (l', a) →
  ∃ a0, renewable_by l n now a0 ∧
  ((l' = l ∧ a = a0 ∧ n_sequence n = a_sequence a0)
   ∨ ∃ timing, (a_sequence a0 < n_sequence n)%Z
       ∧ deadline (n_expires_at n) now maximum = Ok timing
       ∧ a = set_lease (n_sequence n) (n_expires_at n) timing a0
       ∧ save l a = Ok l').
Proof.
  unfold renew. intros H. apply bind_Ok in H as (a0 & Hf & H).
  pose proof (proj1 (fenced_Ok _ _ _) Hf) as (Ha & _).
  do 2 (apply raise_if_bind_Ok in H as [? H]).
  apply bind_Ok in H as (o & Ho%some_or_Ok & H). apply bind_Ok in H as (reason & Hr & H).
  destruct reason; [done|]. apply raise_if_bind_Ok in H as [Hcap H].
  exists a0. split.
  - split; try done; bool_inv; [done| |].
    + destruct (a_sequence a0 =? 0)%Z eqn:Hz; bool_inv; [by left|right].
      by destruct (active _ _ _ _).
    + exists o. repeat split; try done. intros r Hin.
      rewrite existsb_false in Hcap. specialize (Hcap r Hin). by bool_inv.
  - destruct (n_sequence n <=? a_sequence a0)%Z eqn:Hle; bool_inv.
    + left. destruct ((n_sequence n =? a_sequence a0)%Z && _) eqn:He; [|done]. bool_inv.
      by injection H as <- <-.
    + right. apply bind_Ok in H as (timing & Ht & H). rewrite as_conflict_Ok in Ht.
      apply bind_Ok in H as (l1 & Hs & [= <- <-]). exists timing. done.
Qed.

Lemma renew_step l n now maximum l' a :
  wf l → renew l n now maximum = Ok (l', a) → step (Some now) l l'.
Proof.
  intros Hwf H.
  apply renew_Ok in H as (a0 & [Ha _ Hst Hact _] & [(-> & _)|(tm & Hlt & Ht & -> & Hs)]);
    [constructor|].
  apply (save_step l (f_attempt_id (n_fence n)) a0 (set_lease (n_sequence n) (n_expires_at n) tm a0) _ false);
    [done|done| |done].
  by eapply ev_renew.
Qed.

Lemma finish_Ok l r l' :
  finish l r = Ok l' →
  ∃ a, get l (f_attempt_id (r_fence r)) = Some a ∧ a_state a ≠ Released
    ∧ (terminal (r_state r) = true ∨ r_state r = Unknown)
    ∧ (terminal (r_state r) = true → r_cleanup_confirmed r = true)
    ∧ (terminal (a_state a) = true → r_state r = a_state a)
    ∧ ∃ l1, save l (set_result r a) = Ok l1
       ∧ l' = if r_cleanup_confirmed r then free_devices l1 (f_attempt_id (r_fence r)) else l1.
Proof.
  unfold finish. intros H. apply bind_Ok in H as (a & (Ha & _)%fenced_Ok & H).
  do 4 (apply raise_if_bind_Ok in H as [? H]). apply bind_Ok in H as (l1 & Hs & [= <-]).
  exists a. bool_inv. repeat split; try done; [| | |by exists l1].
  - destruct (terminal (r_state r)); [by left|right]. simpl in *. by bool_inv.
  - intros Ht. rewrite Ht in *. simpl in *. by bool_inv.
  - intros Ht. rewrite Ht in *. simpl in *. bool_inv. done.
Qed.

Lemma finish_step {t} l r l' : wf l → finish l r = Ok l' → step t l l'.
Proof.
  intros Hwf H. apply finish_Ok in H as (a & Ha & Hr & Hs & Hc & Ht & l1 & Hsave & ->).
  apply (save_step l (f_attempt_id (r_fence r)) a (set_result r a)); [done..| |done]. by constructor.
Qed.

Lemma release_Ok l f l' a :
  release l f = Ok (l', a) →
  ∃ a0, get l (f_attempt_id f) = Some a0 ∧
  ((a_state a0 = Released ∧ l' = l ∧ a = a0)
   ∨ ((terminal (a_state a0) = true ∨ a_state a0 = Unknown) ∧ a_cleanup a0 = true
      ∧ a = set_released a0
      ∧ ∃ l1, save l a = Ok l1 ∧ l' = free_devices l1 (f_attempt_id f))).
Proof.
  unfold release. intros H. apply bind_Ok in H as (a0 & (Ha & _)%fenced_Ok & H).
  exists a0. split; [done|]. destruct (bool_decide (a_state a0 = Released)) eqn:Hr; bool_inv.
  { left. by injection H as <- <-. }
  right. apply raise_if_bind_Ok in H as [Hc H]. apply bind_Ok in H as (l1 & Hs & [= <- <-]).
  bool_inv. repeat split; try done; [|eauto].
  destruct (terminal (a_state a0)); [by left|right]. simpl in *. by bool_inv.
Qed.

Lemma release_step {t} l f l' a : wf l → release l f = Ok (l', a) → step t l l'.
Proof.
  intros Hwf H.
  apply release_Ok in H as (a0 & Ha & [(_ & -> & _)|(Hst & Hc & -> & l1 & Hs & ->)]);
    [constructor|].
  by apply (save_step l (f_attempt_id f) a0 (set_released a0) _ true); [..|constructor|].
Qed.

Lemma recover_storage_step {t} l f before binding at_ l' a :
  wf l → recover_storage l f before binding at_ = Ok (l', a) → step t l l'.
Proof.
  unfold recover_storage. intros Hwf H. apply bind_Ok in H as (a0 & (Ha & _)%fenced_Ok & H).
  do 2 (apply raise_if_bind_Ok in H as [? H]). apply bind_Ok in H as (l1 & Hs & [= <- _]).
  bool_inv. eapply (save_step l (f_attempt_id f) a0 _ l1 true); [done..| |exact Hs].
  by apply (ev_recover t a0 before binding at_).
Qed.

Lemma save_offer_step {t} l o expected l' : save_offer l o expected = Ok l' → step t l l'.
Proof. unfold save_offer. intros H. inv_ok. constructor. Qed.

(** ** Operations as data *)

(** Every method that writes the tables, with its arguments. *)
Inductive lop :=
| DoSaveOffer (o : Offer) (expected : Z)
| DoAnnotate (f : Fence) (n : annotation)
| DoAdmit (adm : Admission) (slot : string) (binding : json) (now : Reading) (maximum : Z)
| DoReject (p : Plan) (now : float) (observation : option json)
| DoReserve (p : Plan) (slot : string) (binding : json) (now : float)
| DoStartRequested (f : Fence) (now : Reading)
| DoStarted (f : Fence) (binding : json)
| DoRenew (n : Renewal) (now : Reading) (maximum : Z)
| DoFinish (r : AttemptResult)
| DoRelease (f : Fence)
| DoRecover (f : Fence) (before : option json) (binding : json) (at_ : float).

(** The tables an operation commits. *)
Definition execute (l : ledger) (op : lop) : res ledger :=
  match op with
  | DoSaveOffer o expected => save_offer l o expected
  | DoAnnotate f n => fst <$> annotate l f n
  | DoAdmit adm slot binding now maximum => fst <$> admit_ l adm slot binding now maximum
  | DoReject p now observation => fst <$> reject l p now observation
  | DoReserve p slot binding now => fst <$> reserve l p slot binding now
  | DoStartRequested f now => fst <$> start_requested l f now
  | DoStarted f binding => started l f binding
  | DoRenew n now maximum => fst <$> renew l n now maximum
  | DoFinish r => finish l r
  | DoRelease f => fst <$> release l f
  | DoRecover f before binding at_ => fst <$> recover_storage l f before binding at_
  end.

(** A method that raises rolls its transaction back. *)
Definition apply (l : ledger) (op : lop) : ledger :=
  match execute l op with Ok l' => l' | Err _ => l end.

Definition run_ops (l : ledger) (ops : list lop) : ledger := fold_left apply ops l.

(** One or two steps: [admit] reserves and renews in one transaction. *)
Inductive steps (t : option Reading) (l : ledger) : ledger → Prop :=
| steps_refl : steps t l l
| steps_more l1 l2 : step t l l1 → steps t l1 l2 → steps t l l2.

Lemma steps_one {t} l l' : step t l l' → steps t l l'.
Proof. intros H. eapply steps_more; [exact H|constructor]. Qed.

Lemma steps_trans {t} l1 l2 l3 : steps t l1 l2 → steps t l2 l3 → steps t l1 l3.
Proof. induction 1; [done|]. intros. eapply steps_more; eauto. Qed.

Lemma steps_preserve {t} (P : ledger → Prop) :
  (∀ l l', step t l l' → P l → P l') → ∀ l l', steps t l l' → P l → P l'.
Proof. intros HP l l' Hs. induction Hs; eauto. Qed.

Lemma steps_wf {t} l l' : steps t l l' → wf l → wf l'.
Proof. apply steps_preserve. apply step_wf. Qed.

Lemma fmap_Ok {A B} (f : A → B) (m : res A) b : f <$> m = Ok b ↔ ∃ a, m = Ok a ∧ b = f a.
Proof.
  destruct m as [a|e]; simpl; (split; [intros H|intros (a' & H & ->)]); simplify_eq; eauto.
Qed.

(** The clock reading an operation uses for leases. *)
Definition op_reading (op : lop) : option Reading :=
  match op with
  | DoAdmit _ _ _ now _ | DoStartRequested _ now | DoRenew _ now _ => Some now
  | _ => None
  end.

Lemma execute_steps l op l' : wf l → execute l op = Ok l' → steps (op_reading op) l l'.
Proof.
  intros Hwf. destruct op; simpl; try (intros ([? ?] & H & ->)%fmap_Ok; simpl).
  - intros H. by eapply steps_one, save_offer_step.
  - by eapply steps_one, annotate_step.
  - destruct p as [a flag]. unfold admit_ in H. apply bind_Ok in H as ([l1 b] & Hr & H).
    pose proof (reserve_step (t := Some now) _ _ _ _ _ _ _ Hwf Hr) as Hs.
    destruct (get l (attempt_id (adm_plan adm))).
    + injection H as <- _ _. by apply steps_one.
    + apply bind_Ok in H as ([l2 c] & Hn & [= <- _ _]).
      eapply steps_more; [exact Hs|]. eapply steps_one, renew_step; [|exact Hn].
      by eapply step_wf.
  - by eapply steps_one, reject_step.
  - by eapply steps_one, reserve_step.
  - by eapply steps_one, start_requested_step.
  - intros H. by eapply steps_one, started_step.
  - by eapply steps_one, renew_step.
  - intros H. by eapply steps_one, finish_step.
  - by eapply steps_one, release_step.
  - by eapply steps_one, recover_storage_step.
Qed.

Lemma apply_steps l op : wf l → steps (op_reading op) l (apply l op).
Proof.
  intros Hwf. unfold apply. destruct (execute l op) as [l'|e] eqn:He; [|constructor].
  by eapply execute_steps.
Qed.

Lemma apply_wf l op : wf l → wf (apply l op).
Proof. intros Hwf. eapply steps_wf; [by apply apply_steps|done]. Qed.

Lemma run_ops_wf l ops : wf l → wf (run_ops l ops).
Proof. revert l. induction ops as [|op ops IH]; intros l Hwf; [done|]. by apply IH, apply_wf. Qed.

(** A property of well-formed tables that every step keeps holds after any
    sequence of operations. *)
Lemma steps_preserve_wf {t} (P : ledger → Prop) :
  (∀ l l', step t l l' → wf l → P l → P l') → ∀ l l', steps t l l' → wf l → P l → P l'.
Proof.
  intros HP l l' Hs. induction Hs as [|l l1 l2 Hst Hs IH]; [done|].
  intros Hwf H. apply IH; [by eapply step_wf|]. by eapply HP.
Qed.

Lemma run_ops_preserve (P : ledger → Prop) :
  (∀ t l l', step t l l' → wf l → P l → P l') →
  ∀ l ops, wf l → P l → P (run_ops l ops).
Proof.
  intros HP l ops. revert l. induction ops as [|op ops IH]; intros l Hwf H; [done|].
  apply IH; [by apply apply_wf|].
  eapply (steps_preserve_wf P); [apply HP|by apply apply_steps|done|done].
Qed.
