(* ===== verification/Samples.v ===== *)
(** * Concrete inputs

    The fixtures of [tests/python/test_execution_ledger.py], used by the
    witnesses that instantiate the theorems of the development. *)

From Stdlib Require Import SpecFloat.
From S2P Require Import Prelude Float64 Json Clock Spec Offer Ledger LedgerStep.

Definition id_of (c : ascii) : string := String.concat "" (repeat (String c EmptyString) 32).

Definition sample_now : float := f_of_Z 1700000000.
Definition sample_reading (seconds : Z) : Reading :=
  mkReading (f_of_Z (1700000000 + seconds)) (1000000000000 + seconds * 1000000000)
    "aaaaaaaa-bbbb-cccc-dddd-eeeeeeeeeeee".

Definition sample_runtime : Runtime :=
  mkRuntime "example" ("sha256:" +:+ id_of "a" +:+ id_of "a") ("sha256:" +:+ id_of "b" +:+ id_of "b")
    "shared-kernel" "none".

Definition sample_limits (k : Z) (gpus : list string) : Limits :=
  mkLimits (k * 1000) (k * 1048576) 0 (k * 4) (k * 268435456) (k * 16384) gpus.

Definition sample_job (gpus : list string) : Job :=
  mkJob "Work" sample_runtime (mkPayload ["/compute"; "0"] {["ITEM" := "0"]})
    (sample_limits 1 gpus) [] [] false None.

(** A plan whose job and attempt identities are built from one character. *)
Definition sample_plan (j a : ascii) (gen : Z) (gpus : list string) : Plan :=
  mkPlan (id_of "1") (id_of "2") (id_of "3") (id_of "4") (id_of j) (id_of a) gen 1 0
    (sample_job gpus).

Definition plan_a : Plan := sample_plan "5" "a" 1 ["GPU-0"].
Definition plan_b : Plan := sample_plan "6" "b" 1 ["GPU-1"].
(** The next generation of [plan_a]'s job. *)
Definition plan_a2 : Plan := sample_plan "5" "c" 2 ["GPU-0"].

Definition sample_settings : OfferSettings :=
  mkSettings [id_of "3"] [sample_runtime] (sample_limits 2 ["GPU-0"; "GPU-1"]) [] false.

Definition sample_offer : Offer := mkOffer sample_settings 1 Voluntary Active.

Definition sample_lease (p : Plan) (sequence seconds : Z) : Renewal :=
  mkRenewal (plan_fence p) sequence (f_of_Z (1700000000 + seconds)).

Definition sample_result (p : Plan) (s : astate) (cleanup : bool) : AttemptResult :=
  mkResult (plan_fence p) s None
    (match s with Succeeded => Some 0%Z | _ => None end) 17 0 cleanup.

Definition empty_ledger : ledger := mkLedger (id_of "e") None ∅ ∅.

Definition sample_binding : json := JObj [("filesystem", JStr "fs-0")].

(** Reserve, lease and start [plan_a], and reserve [plan_b]. *)
Definition sample_ops : list lop :=
  [DoSaveOffer sample_offer 0;
   DoAdmit (mkAdmission plan_a (sample_lease plan_a 1 30)) "slot-a" sample_binding
     (sample_reading 0) 30;
   DoReserve plan_b "slot-b" sample_binding sample_now;
   DoStartRequested (plan_fence plan_a) (sample_reading 1)].

Definition sample_ledger : ledger := run_ops empty_ledger sample_ops.

Lemma empty_ledger_wf : wf empty_ledger.
Proof. apply wf_empty. Qed.

Lemma sample_ledger_wf : wf sample_ledger.
Proof. apply run_ops_wf, wf_empty. Qed.

Example sample_plan_ok : plan_ok plan_a = true.
Proof. vm_compute. reflexivity. Qed.

Example sample_states :
  map (fun a => (row_id a, a_state a, a_sequence a)) (all sample_ledger)
  = [(id_of "a", Starting, 1%Z); (id_of "b", Prepared, 0%Z)].
Proof. vm_compute. reflexivity. Qed.

Example sample_devices :
  rows (l_devices sample_ledger) = [("GPU-0", id_of "a"); ("GPU-1", id_of "b")].
Proof. vm_compute. reflexivity. Qed.
