(* ===== verification/LedgerProps.v ===== *)
(** * What the execution ledger guarantees

    Consequences of the transition system of [LedgerStep] for every sequence of
    operations: exclusive use of slots and devices, capacity, the single start,
    durable plans and outcomes, dead leases, and the refinement of an abstract
    table of exclusive locks. *)

From Stdlib Require Import SpecFloat.
From S2P Require Import Prelude Float64 Json Clock Spec Offer Ledger LedgerStep Samples.

(** ** Storage errors are unreachable *)

(** A computation that never reports a violated table constraint. *)
Definition no_storage {A} (m : res A) : Prop := ∀ msg, m ≠ Err (StorageError msg).

Lemma no_storage_Ok {A} (a : A) : no_storage (Ok a).
Proof. by intros msg. Qed.

Lemma no_storage_bind {A B} (m : res A) (f : A → res B) :
  no_storage m → (∀ a, m = Ok a → no_storage (f a)) → no_storage (m ≫= f).
Proof. intros Hm Hf msg. destruct m as [a|e]; simpl; [by apply Hf|]. intros [= ->]. by eapply Hm. Qed.

Lemma no_storage_fmap {A B} (m : res A) (f : A → B) : no_storage m → no_storage (f <$> m).
Proof. intros Hm msg. destruct m; simpl; [done|]. intros [= ->]. by eapply Hm. Qed.

Lemma no_storage_raise_if c e :
  (∀ msg, e ≠ StorageError msg) → no_storage (raise_if c e).
Proof. intros He msg. destruct c; simpl; [intros [= ?]; by eapply He|done]. Qed.

Lemma no_storage_some_or {A} (o : option A) e :
  (∀ msg, e ≠ StorageError msg) → no_storage (some_or o e).
Proof. intros He msg. destruct o; simpl; [done|intros [= ?]; by eapply He]. Qed.

Lemma no_storage_fenced l f : no_storage (fenced l f).
Proof. intros msg H. apply fenced_Err in H. done. Qed.

Create HintDb no_storage discriminated.
#[export] Hint Resolve no_storage_Ok no_storage_raise_if no_storage_some_or no_storage_fenced
  no_storage_fmap : no_storage.
#[export] Hint Extern 1 (∀ msg, _ ≠ StorageError msg) => (intros ? ?; discriminate) : no_storage.
#[export] Hint Extern 3 (no_storage (_ ≫= _)) => (apply no_storage_bind; [|intros ? ?]) : no_storage.
#[export] Hint Extern 3 (no_storage (match ?x with _ => _ end)) => (destruct x) : no_storage.
#[export] Hint Extern 3 (no_storage (Err _)) => (intros ? ?; discriminate) : no_storage.

Lemma no_storage_contains ws now : no_storage (any_contains ws now).
Proof.
  induction ws as [|w ws IH]; simpl; [auto with no_storage|].
  apply no_storage_bind; [|by intros []; auto with no_storage].
  unfold contains. apply no_storage_bind; [|auto with no_storage].
  unfold utc_seconds. destruct now; auto with no_storage.
Qed.

Lemma no_storage_refusal o project j now continuing :
  no_storage (refusal o project j now continuing).
Proof.
  unfold refusal, schedule_allows.
  pose proof (no_storage_contains (o_schedule_utc (settings o)) now).
  repeat (case_match; auto with no_storage).
Qed.

Lemma no_storage_deadline expires now maximum : no_storage (deadline expires now maximum).
Proof.
  unfold deadline. apply no_storage_bind; [auto with no_storage|intros _ _].
  apply no_storage_bind; [|auto with no_storage].
  intros msg. unfold f_trunc. by destruct (f_mul _ _).
Qed.

Lemma no_storage_as_conflict {A} (m : res A) : no_storage m → no_storage (as_conflict m).
Proof.
  intros Hm msg. destruct m as [|e]; simpl; [done|].
  destruct (is_value_error e); [done|]. intros [= ->]. by eapply Hm.
Qed.
#[export] Hint Resolve no_storage_refusal no_storage_deadline no_storage_as_conflict : no_storage.

(** An update that keeps the slot or clears it never collides. *)
Lemma no_storage_save l f a a' :
  wf l → fenced l f = Ok a → a_plan a' = a_plan a →
  a_slot a' = a_slot a ∨ a_slot a' = None → no_storage (save l a').
Proof.
  intros Hwf (Hget & _)%fenced_Ok Hplan Hslot msg H. unfold save in H.
  destruct (get l (row_id a')) as [b|]; [|done].
  destruct (slot_taken l (row_id a') (a_slot a')) eqn:Ht; [|done].
  apply slot_taken_true in Ht as (j & c & s & Hs & Hc & Hne & Hcs).
  destruct Hslot as [He|He]; [|congruence]. apply Hne.
  rewrite (wf_slot _ Hwf j (f_attempt_id f) c a s) by congruence.
  unfold row_id. rewrite Hplan. symmetry. by apply (wf_key _ Hwf).
Qed.
#[export] Hint Extern 2 (no_storage (save _ _)) =>
  (eapply no_storage_save; [eassumption|eassumption|reflexivity|simpl; tauto]) : no_storage.

Ltac no_storage_op := repeat first
  [ progress (auto 4 with no_storage)
  | apply no_storage_fmap
  | apply no_storage_bind; [|intros ? ?]
  | case_match ].

Lemma no_storage_annotate l f n : wf l → no_storage (annotate l f n).
Proof.
  intros Hwf. unfold annotate. no_storage_op.
  - destruct n; simpl; auto with no_storage.
  - destruct n; simpl in *; simplify_eq; auto with no_storage.
Qed.

Lemma no_storage_start_requested l f now : wf l → no_storage (start_requested l f now).
Proof. intros Hwf. unfold start_requested. no_storage_op. Qed.

Lemma no_storage_started l f b : wf l → no_storage (started l f b).
Proof. intros Hwf. unfold started. no_storage_op. Qed.

Lemma no_storage_renew l n now maximum : wf l → no_storage (renew l n now maximum).
Proof. intros Hwf. unfold renew. no_storage_op. Qed.

Lemma no_storage_finish l r : wf l → no_storage (finish l r).
Proof. intros Hwf. unfold finish. no_storage_op. Qed.

Lemma no_storage_release l f : wf l → no_storage (release l f).
Proof. intros Hwf. unfold release. no_storage_op. Qed.

Lemma no_storage_recover l f before b at_ : wf l → no_storage (recover_storage l f before b at_).
Proof. intros Hwf. unfold recover_storage. no_storage_op. Qed.

Lemma no_storage_reject l p now observation : wf l → no_storage (reject l p now observation).
Proof.
  intros Hwf. unfold reject. destruct (get l (attempt_id p)) eqn:Hnew; [no_storage_op|].
  apply no_storage_bind; [auto with no_storage|intros u Hgen%raise_if_Ok].
  by rewrite insert_attempt_new.
Qed.

Lemma no_storage_reserve l p slot binding now :
  wf l → NoDup (gpu_devices (limits (job p))) → no_storage (reserve l p slot binding now).
Proof.
  intros Hwf Hnd. unfold reserve.
  destruct (get l (attempt_id p)) as [b|] eqn:Hnew; [no_storage_op|].
  apply no_storage_bind; [auto with no_storage|intros o Ho%some_or_Ok].
  apply no_storage_bind; [auto with no_storage|intros _ _].
  apply no_storage_bind; [auto with no_storage|intros [reason|] _; [auto with no_storage|]].
  apply no_storage_bind; [auto with no_storage|intros ? Hgen%raise_if_Ok].
  apply no_storage_bind; [auto with no_storage|intros ? Hslot%raise_if_Ok].
  do 2 (apply no_storage_bind; [auto with no_storage|intros _ _]).
  apply no_storage_bind; [auto with no_storage|intros ? Hd%raise_if_Ok].
  destruct (insertable_fresh l p slot binding now Hnew Hgen Hslot Hd) as [_ _ _ _ _ Is Ifr _].
  rewrite insert_attempt_new; [|done..|].
  - run. rewrite insert_devices_free; [auto with no_storage| |done|done].
    rewrite get_put, decide_True by done. done.
  - apply slot_taken_false. intros j b Hb Hne. by eapply Is.
Qed.

Lemma no_storage_admit l adm slot binding now maximum :
  wf l → NoDup (gpu_devices (limits (job (adm_plan adm)))) →
  no_storage (admit_ l adm slot binding now maximum).
Proof.
  intros Hwf Hnd. unfold admit_.
  apply no_storage_bind; [by apply no_storage_reserve|intros [l' a] Hr].
  pose proof (step_wf _ _ (reserve_step (t := None) _ _ _ _ _ _ _ Hwf Hr) Hwf) as Hwf'.
  destruct (get l _); [auto with no_storage|].
  apply no_storage_bind; [by apply no_storage_renew|intros [] _; auto with no_storage].
Qed.

(** The plan an operation would insert, if any, lists distinct GPUs
    ([Limits.unique_devices]). *)
Definition op_ok (op : lop) : Prop :=
  match op with
  | DoAdmit adm _ _ _ _ => limits_ok (limits (job (adm_plan adm))) = true
  | DoReserve p _ _ _ => limits_ok (limits (job p)) = true
  | _ => True
  end.

Lemma limits_ok_NoDup l : limits_ok l = true → NoDup (gpu_devices l).
Proof. unfold limits_ok, distinct. intros H. by bool_inv. Qed.

(** ** Reachable tables *)

(** The tables of a new database. *)
Definition new_ledger (identity : string) : ledger := mkLedger identity None ∅ ∅.

Lemma reachable_wf identity ops : wf (run_ops (new_ledger identity) ops).
Proof. apply run_ops_wf, wf_empty. Qed.

(** C1: Every sequence of ledger operations, with any arguments and any mixture
    of successes and refusals, leaves the tables well formed: rows are keyed by
    their attempt, digests are those of the stored plans, a storage slot has one
    holder, a job has at most one unreleased attempt and it is the newest
    generation, and a device row belongs to a held attempt that asked for it. *)
Theorem ledger_invariant identity ops : wf (run_ops (new_ledger identity) ops).
Proof. apply run_ops_wf, wf_empty. Qed.

(** C9: No sequence of operations on valid plans reaches a violation of the
    tables' primary-key, uniqueness or foreign-key constraints: the checks made
    in Python always come first. *)
Theorem ledger_no_storage_error identity ops op :
  op_ok op → no_storage (execute (run_ops (new_ledger identity) ops) op).
Proof.
  intros Hop. pose proof (reachable_wf identity ops) as Hwf.
  destruct op; simpl in *; auto using limits_ok_NoDup, no_storage_fmap, no_storage_annotate,
    no_storage_admit, no_storage_reject, no_storage_reserve, no_storage_start_requested,
    no_storage_started, no_storage_renew, no_storage_finish, no_storage_release,
    no_storage_recover.
  unfold save_offer. no_storage_op.
Qed.

Lemma ledger_no_storage_error_witness :
  no_storage (execute (run_ops (new_ledger (id_of "e")) sample_ops)
    (DoReserve plan_a2 "slot-a" sample_binding sample_now)).
Proof. apply ledger_no_storage_error. vm_compute. reflexivity. Defined.

(** ** Capacity *)

Lemma used_filter r p l :
  used r (List.filter p l)
  = sumZ (fun a => if p a then amount (limits (job (a_plan a))) r else 0)%Z l.
Proof.
  unfold used. induction l as [|a l IH]; [done|]. simpl. destruct (p a); simpl; lia.
Qed.

Lemma used_put r p l a :
  get l (row_id a) = None →
  used r (List.filter p (all (put l (row_id a) a)))
  = ((if p a then amount (limits (job (a_plan a))) r else 0) + used r (List.filter p (all l)))%Z.
Proof. intros Hnew. rewrite !used_filter. unfold all. simpl. by rewrite sumZ_rows_insert. Qed.

Lemma filter_filter_and {A} (p q : A → bool) l :
  (∀ a, p a = true → q a = true) → List.filter p (List.filter q l) = List.filter p l.
Proof.
  intros Hpq. induction l as [|a l IH]; [done|]. simpl. destruct (q a) eqn:Hq; simpl.
  - by rewrite IH.
  - destruct (p a) eqn:Hp; [|done]. apply Hpq in Hp. congruence.
Qed.

Lemma running_held a : running a = true → held a = true.
Proof. unfold running. intros H. by bool_inv. Qed.

Lemma exceeds_false p taken ceiling names :
  exceeds p taken ceiling names = false ↔
  ∀ r, r ∈ names → (amount (limits (job p)) r + used r taken <= amount ceiling r)%Z.
Proof.
  unfold exceeds. rewrite existsb_false. split; intros H r Hr; specialize (H r Hr); lia.
Qed.

(** What a successful reservation of a new attempt establishes. *)
Record reserved_within (l l' : ledger) (p : Plan) (slot : string) (now : float) (o : Offer)
    (a : attempt) : Prop := {
  rw_offer : l_offer l = Some o ∧ revision o = offer_revision p;
  rw_admissible : admissible o (project_id p) (job p) false ∧ in_schedule o now;
  rw_compute r : r ∈ compute_resources →
    (used r (List.filter running (all l')) <= amount (o_limits (settings o)) r)%Z;
  rw_storage r : r ∈ storage_resources →
    (used r (retained l') <= amount (o_limits (settings o)) r)%Z;
  rw_devices d : d ∈ gpu_devices (limits (job p)) →
    d ∈ gpu_devices (o_limits (settings o)) ∧ l_devices l !! d = None
    ∧ l_devices l' !! d = Some (attempt_id p);
  rw_slot i b : get l i = Some b → a_slot b ≠ Some slot;
  rw_row : get l' (attempt_id p) = Some a ∧ a_state a = Prepared ∧ a_plan a = p
    ∧ a_slot a = Some slot;
  rw_others i : i ≠ attempt_id p → get l' i = get l i }.

Lemma fits_devices l c d :
  fits l c = true → d ∈ gpu_devices l → d ∈ gpu_devices c.
Proof. unfold fits. rewrite andb_true_iff, !forallb_true. intros [_ H] Hd. specialize (H d Hd). by bool_inv. Qed.

(** C3: A new reservation succeeds only inside the current local offer: the
    offer has the plan's revision and admits it, the compute resources of all
    unfinished attempts and the storage of all retained ones, the new one
    included, stay within the offer's limits, its GPUs are offered, were free
    and are now its own, and its storage slot had no holder. *)
Theorem reserve_within_offer l p slot binding now l' a :
  get l (attempt_id p) = None →
  reserve l p slot binding now = Ok (l', a) →
  ∃ o, reserved_within l l' p slot now o a.
Proof.
  intros Hnew [(Hget & _)|(-> & -> & _ & o & Hrsv)]%reserve_Ok; [congruence|].
  exists o. destruct Hrsv as [_ Ho Hrev Hallow Hgen Hslot Hc Hs Hd].
  pose proof (insertable_fresh l p slot binding now Hnew Hgen Hslot Hd) as [_ _ _ _ _ Is Ifr _].
  apply refusal_None in Hallow as [Hadm Hsch].
  rewrite exceeds_false in Hc. rewrite exceeds_false in Hs.
  split; try done.
  - intros r Hr. specialize (Hc r Hr). unfold retained in Hc.
    rewrite filter_filter_and in Hc by apply running_held.
    change (all (reserved _ _ _ _ _))
      with (all (put l (row_id (fresh_attempt p slot binding now)) (fresh_attempt p slot binding now))).
    rewrite used_put by done. done.
  - intros r Hr. specialize (Hs r Hr). unfold retained in Hs |- *.
    change (all (reserved _ _ _ _ _))
      with (all (put l (row_id (fresh_attempt p slot binding now)) (fresh_attempt p slot binding now))).
    rewrite used_put by done. done.
  - intros d Hd'. split; [|split; [by apply Ifr|]].
    + destruct Hadm as (_ & _ & _ & _ & Hfits & _). by eapply fits_devices.
    + apply devices_assign. by left.
  - intros i b Hb. by eapply Is.
  - unfold reserved. rewrite get_assign, get_put, decide_True by done. done.
  - intros i Hi. unfold reserved. rewrite get_assign, get_put, decide_False by done. done.
Qed.

Lemma reserve_within_offer_witness :
  ∃ o l' a, l_offer sample_ledger = Some sample_offer ∧
    reserved_within (run_ops empty_ledger (take 2 sample_ops)) l' plan_b "slot-b" sample_now o a.
Proof.
  set (l := run_ops empty_ledger (take 2 sample_ops)).
  assert (Hok : is_ok (reserve l plan_b "slot-b" sample_binding sample_now) = true)
    by (vm_compute; reflexivity).
  destruct (reserve l plan_b "slot-b" sample_binding sample_now) as [[l' a]|e] eqn:Hr;
    [|discriminate Hok].
  destruct (reserve_within_offer l plan_b "slot-b" sample_binding sample_now l' a) as [o Ho];
    [vm_compute; reflexivity|exact Hr|].
  exists o, l', a. split; [vm_compute; reflexivity|exact Ho].
Defined.

(** ** Runs of operations *)

(** A relation between the row of one attempt before and after. *)
Lemma run_ops_row (R : attempt → Prop) i l ops :
  wf l →
  (∀ t a a' freed, evolves t a a' freed → R a → R a') →
  (∃ a, get l i = Some a ∧ R a) → ∃ a, get (run_ops l ops) i = Some a ∧ R a.
Proof.
  intros Hwf HR. apply (run_ops_preserve (fun l => ∃ a, get l i = Some a ∧ R a)); [|done].
  clear l Hwf. intros t l l' Hst Hwf (a & Ha & Hr). destruct Hst as [|o|j b b' freed Hb Hev|b ds Hins].
  - by exists a.
  - by exists a.
  - rewrite get_evolved. case_decide; [|by exists a]. subst. simplify_eq. eauto.
  - destruct Hins as [Hnew _ _ _ _ _ _ _]. rewrite get_assign, get_put.
    case_decide; [subst; congruence|by exists a].
Qed.

(** An admitted or refused plan is durable and immutable: after any further
    operations the ledger still holds the attempt with the same plan, digest and
    refusal record, and its state never returns to an earlier phase. *)
Theorem attempt_durable l ops i a :
  wf l → get l i = Some a →
  ∃ a', get (run_ops l ops) i = Some a' ∧ a_plan a' = a_plan a ∧ a_digest a' = a_digest a
    ∧ a_rejection a' = a_rejection a ∧ phase (a_state a) ≤ phase (a_state a').
Proof.
  intros Hwf Ha.
  apply (run_ops_row (fun a' => a_plan a' = a_plan a ∧ a_digest a' = a_digest a
    ∧ a_rejection a' = a_rejection a ∧ phase (a_state a) ≤ phase (a_state a'))); [done| |by exists a].
  intros t b b' freed Hev (H1 & H2 & H3 & Hph).
  pose proof (evolves_identity _ _ _ Hev) as (-> & -> & ->).
  apply evolves_phase in Hev. repeat split; try done. lia.
Qed.

Definition sample_attempt (l : ledger) (p : Plan) : attempt :=
  match get l (attempt_id p) with
  | Some a => a
  | None => fresh_attempt p "" JNull sample_now
  end.

Lemma attempt_durable_witness :
  ∃ a', get (run_ops sample_ledger [DoFinish (sample_result plan_a Succeeded true)])
          (attempt_id plan_a) = Some a'
    ∧ a_plan a' = plan_a ∧ phase Starting ≤ phase (a_state a').
Proof.
  destruct (attempt_durable sample_ledger [DoFinish (sample_result plan_a Succeeded true)]
    (attempt_id plan_a) (sample_attempt sample_ledger plan_a)) as (a' & Ha & Hp & _ & _ & Hph);
    [apply sample_ledger_wf|vm_compute; reflexivity|].
  exists a'. split; [exact Ha|]. split; [rewrite Hp; vm_compute; reflexivity|].
  revert Hph. vm_compute (a_state (sample_attempt _ _)). done.
Defined.

(** The outcome an attempt has reached, before or after its release. *)
Definition recorded_outcome (a : attempt) : option astate :=
  if bool_decide (a_state a = Released) then a_outcome a
  else if terminal (a_state a) then Some (a_state a) else None.

Lemma evolves_outcome {t} a a' freed s :
  evolves t a a' freed → recorded_outcome a = Some s → recorded_outcome a' = Some s.
Proof.
  unfold recorded_outcome.
  destruct 1 as [n a a' (_&_&_&->&_&_&->&_)%apply_annotation_core|a now _ Hs|a b Hs
    |a sq e tm now mx _ Hs|a r Hs Hr Hc Ht|a Hs Hc|a b b' at_ Hs Hb]; simpl; try done.
  - by rewrite Hs.
  - by rewrite Hs.
  - rewrite (bool_decide_false (a_state a = Released)) by done.
    destruct (terminal (a_state a)) eqn:Hterm; [|done]. intros [= <-].
    rewrite Ht by done. rewrite Hterm. by rewrite bool_decide_false.
  - rewrite (bool_decide_false (a_state a = Released)) by (intros He; rewrite He in Hs; by destruct Hs).
    by destruct (terminal (a_state a)).
  - rewrite (bool_decide_false (a_state a = Released)) by done.
    destruct (terminal (a_state a)) eqn:Hterm; [|done]. simpl.
    by rewrite bool_decide_false, Hterm.
Qed.

(** C6: A recorded outcome is final: once an attempt is succeeded, failed,
    cancelled or expired, or released with a recorded outcome, no later
    operation changes that outcome, whether it annotates, finishes, recovers or
    releases. *)
Theorem outcome_final l ops i a s :
  wf l → get l i = Some a → recorded_outcome a = Some s →
  ∃ a', get (run_ops l ops) i = Some a' ∧ recorded_outcome a' = Some s.
Proof.
  intros Hwf Ha Hs. apply (run_ops_row (fun a => recorded_outcome a = Some s)); [done| |eauto].
  intros t b b' freed Hev. by eapply evolves_outcome.
Qed.

Definition finished_ledger : ledger :=
  apply sample_ledger (DoFinish (sample_result plan_a Succeeded true)).

Lemma finished_ledger_wf : wf finished_ledger.
Proof. apply apply_wf, sample_ledger_wf. Qed.

Lemma outcome_final_witness :
  ∃ a', get (run_ops finished_ledger
              [DoFinish (sample_result plan_a Failed true); DoRelease (plan_fence plan_a)])
          (attempt_id plan_a) = Some a' ∧ recorded_outcome a' = Some Succeeded.
Proof.
  apply (outcome_final finished_ledger _ _ (sample_attempt finished_ledger plan_a));
    [apply finished_ledger_wf|vm_compute; reflexivity|vm_compute; reflexivity].
Defined.

(** C7: A storage slot, once reserved, is given up only by a release that
    follows confirmed cleanup of a terminal or acknowledged-unknown outcome. *)
Theorem slot_kept_until_cleanup l ops i a slot :
  wf l → get l i = Some a → a_slot a = Some slot →
  ∃ a', get (run_ops l ops) i = Some a'
    ∧ (a_slot a' = Some slot
       ∨ a_slot a' = None ∧ a_state a' = Released ∧ a_cleanup a' = true
         ∧ ∃ s, a_outcome a' = Some s ∧ (terminal s = true ∨ s = Unknown)).
Proof.
  intros Hwf Ha Hs.
  destruct (run_ops_row (fun a' => life a' ∧ (a_slot a' = Some slot ∨ a_state a' = Released)) i l ops)
    as (a' & Ha' & Hlife & Hc); [done| |exists a; split; [done|]|].
  - intros t b b' freed Hev [Hl Hcase]. split; [by eapply evolves_life|].
    destruct Hcase as [Hc|Hc].
    + destruct (evolves_slot _ _ _ Hev) as [->|(_ & ? & _)]; auto.
    + right. pose proof (evolves_phase _ _ _ Hev) as Hph. rewrite Hc in Hph. simpl in Hph.
      destruct (a_state b'); simpl in *; done || lia.
  - split; [by eapply (wf_life _ Hwf)|by left].
  - exists a'. split; [done|]. destruct Hc as [|Hr]; [by left|right].
    destruct (life_released _ Hlife Hr) as (? & ? & ?). done.
Qed.

Lemma slot_kept_until_cleanup_witness :
  ∃ a', get (run_ops finished_ledger [DoRelease (plan_fence plan_a)]) (attempt_id plan_a) = Some a'
    ∧ (a_slot a' = Some "slot-a"
       ∨ a_slot a' = None ∧ a_state a' = Released ∧ a_cleanup a' = true
         ∧ ∃ s, a_outcome a' = Some s ∧ (terminal s = true ∨ s = Unknown)).
Proof.
  apply (slot_kept_until_cleanup finished_ledger _ _ (sample_attempt finished_ledger plan_a));
    [apply finished_ledger_wf|vm_compute; reflexivity|vm_compute; reflexivity].
Defined.

(** ** Starting *)

(** This call records the one durable start intent of attempt [i]. *)
Definition starts_now (i : string) (l : ledger) (op : lop) : bool :=
  match op with
  | DoStartRequested f now =>
      bool_decide (f_attempt_id f = i)
      && match start_requested l f now with Ok (_, (_, flag)) => flag | Err _ => false end
  | _ => false
  end.

Fixpoint starts (i : string) (l : ledger) (ops : list lop) : nat :=
  match ops with
  | [] => 0
  | op :: ops => (if starts_now i l op then 1 else 0) + starts i (apply l op) ops
  end.

Lemma starts_now_true i l op :
  wf l → starts_now i l op = true →
  ∃ a now, get l i = Some a ∧ op_reading op = Some now ∧ a_state a = Prepared
    ∧ active (a_sequence a) (a_expires_at a) (a_timing a) now = true
    ∧ get (apply l op) i = Some (set_state Starting a).
Proof.
  intros Hwf. unfold starts_now. destruct op as [| | | | |f now| | | | |]; try done.
  intros [Hf Hs]%andb_true_iff. bool_inv. subst i.
  destruct (start_requested l f now) as [[l' [a flag]]|e] eqn:Hr; [|done]. subst flag.
  pose proof Hr as Hok.
  apply start_requested_Ok in Hok as (a0 & Ha & [(? & _)|(_ & -> & Hst & Hact & Hsave & _)]);
    [done|].
  exists a0, now. repeat split; try done.
  unfold apply. simpl. rewrite Hr. simpl.
  rewrite (save_evolves (t := Some now) l (f_attempt_id f) a0 _ false) in Hsave;
    [|done|done|by econstructor].
  injection Hsave as <-. rewrite get_put, decide_True by done. done.
Qed.

Lemma phase_step {t} i n l l' :
  step t l l' → wf l → (∃ a, get l i = Some a ∧ n ≤ phase (a_state a)) →
  ∃ a, get l' i = Some a ∧ n ≤ phase (a_state a).
Proof.
  intros Hst Hwf (a & Ha & Hn). destruct Hst as [|o|j b b' freed Hb Hev|b ds Hins]; eauto.
  - rewrite get_evolved. case_decide; [|by exists a]. subst. simplify_eq.
    apply evolves_phase in Hev. exists b'. split; [done|lia].
  - destruct Hins as [Hnew _ _ _ _ _ _ _]. rewrite get_assign, get_put.
    case_decide; [subst; congruence|by exists a].
Qed.

Lemma starts_later i l ops :
  wf l → (∃ a, get l i = Some a ∧ 1 ≤ phase (a_state a)) → starts i l ops = 0.
Proof.
  revert l. induction ops as [|op ops IH]; intros l Hwf Ha; [done|]. simpl.
  rewrite IH; [|by apply apply_wf|].
  - destruct (starts_now i l op) eqn:Hs; [|done].
    apply starts_now_true in Hs as (b & now & Hb & _ & Hst & _); [|done].
    destruct Ha as (a & Ha & Hph). simplify_eq. rewrite Hst in Hph. simpl in Hph. lia.
  - eapply (steps_preserve_wf (fun l => ∃ a, get l i = Some a ∧ 1 ≤ phase (a_state a)));
      [|by apply apply_steps|done|done].
    intros l1 l2. apply phase_step.
Qed.

(** C4: The durable start intent of an attempt is granted at most once over any
    sequence of operations, restarts included: a repeated, concurrent-in-order
    or replayed [start_requested] never returns [True] a second time. *)
Theorem start_at_most_once identity i ops : starts i (new_ledger identity) ops ≤ 1.
Proof.
  assert (Hwf : wf (new_ledger identity)) by apply wf_empty.
  revert Hwf. generalize (new_ledger identity) as l.
  induction ops as [|op ops IH]; intros l Hwf; simpl; [lia|].
  destruct (starts_now i l op) eqn:Hs; [|apply IH, apply_wf; done].
  rewrite starts_later; [lia|by apply apply_wf|].
  apply starts_now_true in Hs as (a & now & _ & _ & _ & _ & Hg); [|done].
  exists (set_state Starting a). split; [done|simpl; lia].
Qed.

(** The guards [start_requested] applies to a prepared attempt. *)
Definition may_start (l : ledger) (a : attempt) (now : Reading) : Prop :=
  a_state a = Prepared ∧ active (a_sequence a) (a_expires_at a) (a_timing a) now = true
  ∧ ∃ o, l_offer l = Some o ∧ revision o = offer_revision (a_plan a)
     ∧ admissible o (project_id (a_plan a)) (job (a_plan a)) false ∧ in_schedule o (wall now).

(** [start_requested] grants the start exactly when the fence names the
    stored attempt, the attempt is prepared, its lease is active now, and the
    offer still has the admitted revision and admits the job; it then changes
    only that attempt's state. *)
Theorem start_requested_granted l f now l' a' :
  wf l →
  start_requested l f now = Ok (l', (a', true)) ↔
  ∃ a, fenced l f = Ok a ∧ may_start l a now ∧ a' = set_state Starting a
    ∧ l' = put l (f_attempt_id f) a'.
Proof.
  intros Hwf. split.
  - intros H. pose proof H as Hok. unfold start_requested in H.
    apply bind_Ok in H as (a & Hf & _). exists a. split; [done|].
    apply start_requested_Ok in Hok as (a0 & Ha & [(? & _)|(_ & -> & Hst & Hact & Hs & Ho)]); [done|].
    apply fenced_Ok in Hf as (Hget & _). simplify_eq.
    destruct Ho as (o & Ho & Hrev & [? ?]%refusal_None).
    rewrite (save_evolves (t := Some now) l (f_attempt_id f) a _ false) in Hs;
      [|done|done|by econstructor].
    injection Hs as <-. repeat split; try done. by exists o.
  - intros (a & Hf & (Hst & Hact & o & Ho & Hrev & Hadm & Hsch) & -> & ->).
    assert (Hr : refusal o (project_id (a_plan a)) (job (a_plan a)) (wall now) false = Ok None)
      by by apply refusal_None.
    unfold start_requested. rewrite Hf. run. rewrite bool_decide_true by done. run.
    rewrite Hact. run. rewrite Ho. run. rewrite Hrev, Z.eqb_refl. run. rewrite Hr. run.
    apply fenced_Ok in Hf as (Hget & _).
    by rewrite (save_evolves (t := Some now) l (f_attempt_id f) a _ false) by (done || by econstructor).
Qed.

Definition prepared_ledger : ledger := run_ops empty_ledger (take 2 sample_ops).

Lemma prepared_ledger_wf : wf prepared_ledger.
Proof. apply run_ops_wf, wf_empty. Qed.

Lemma start_requested_granted_witness :
  ∃ a, fenced prepared_ledger (plan_fence plan_a) = Ok a
       ∧ may_start prepared_ledger a (sample_reading 1).
Proof.
  assert (Hok : starts_now (attempt_id plan_a) prepared_ledger
                  (DoStartRequested (plan_fence plan_a) (sample_reading 1)) = true)
    by (vm_compute; reflexivity).
  unfold starts_now in Hok. apply andb_true_iff in Hok as [_ Hok].
  destruct (start_requested prepared_ledger (plan_fence plan_a) (sample_reading 1))
    as [[l' [a' flag]]|e] eqn:Hr; [|discriminate Hok]. subst flag.
  destruct (proj1 (start_requested_granted prepared_ledger (plan_fence plan_a) (sample_reading 1)
    l' a' prepared_ledger_wf) Hr) as (a & Hf & Hm & _).
  exists a. split; [exact Hf|exact Hm].
Defined.

(** ** Dead leases *)

Lemma evolves_dead {t} a a' freed :
  evolves t a a' freed → lease_ok a → (∀ r, t = Some r → lease_dead (a_timing a) r = true) →
  a_timing a' = a_timing a ∧ a_sequence a' = a_sequence a ∧ a_expires_at a' = a_expires_at a.
Proof.
  intros Hev Hok Hdead.
  destruct Hev as [n a a' (_&_&_&_&_&_&_&?&?&?&_)%apply_annotation_core| | |a sq e tm now mx Ht _ Hact| | |];
    simpl; try done.
  - specialize (Hdead _ Ht). exfalso. unfold lease_ok in Hok.
    destruct (a_timing a) as [x|] eqn:Hx; [|done].
    destruct Hact as [Hz|Hact]; [lia|].
    by rewrite (lease_dead_inactive _ _ _ _ Hdead) in Hact.
  - by destruct (terminal (a_state a)).
Qed.

(** C5: A lease that has run out stays out: once the boot-time counter has
    passed an attempt's lease deadline, or the machine has restarted, no later
    operation on the same machine renews that lease or grants a start, however
    the wall clock is set. *)
Theorem dead_lease_final l ops i a now :
  wf l → get l i = Some a → lease_dead (a_timing a) now = true →
  (∀ op r, op ∈ ops → op_reading op = Some r → later (a_timing a) now r) →
  starts i l ops = 0 ∧
  ∃ a', get (run_ops l ops) i = Some a' ∧ a_timing a' = a_timing a
    ∧ a_sequence a' = a_sequence a ∧ a_expires_at a' = a_expires_at a.
Proof.
  intros Hwf Ha Hdead Hlater. remember (a_timing a) as tm eqn:Htm. symmetry in Htm.
  set (P := fun l => ∃ b, get l i = Some b ∧ a_timing b = tm ∧ a_sequence b = a_sequence a
                          ∧ a_expires_at b = a_expires_at a).
  assert (HP : P l) by by exists a. clear Ha. revert l Hwf HP.
  induction ops as [|op ops IH]; intros l Hwf HP; [done|].
  assert (Hop : ∀ r, op_reading op = Some r → lease_dead tm r = true).
  { intros r Hr. eapply lease_dead_later; [|exact Hdead]. by apply (Hlater op); [left|]. }
  assert (Hnext : P (apply l op)).
  { eapply (steps_preserve_wf P); [|by apply apply_steps|done|done].
    clear dependent l. intros l l' Hst Hwf (b & Hb & Hbt & Hbs & Hbe).
    destruct Hst as [|o|j c c' freed Hc Hev|c ds Hins]; [by exists b|by exists b| |].
    - unfold P. rewrite get_evolved. case_decide; [|by exists b]. subst j. simplify_eq.
      destruct (evolves_dead _ _ _ Hev) as (H1 & H2 & H3);
        [by apply (wf_lease _ Hwf i)|by rewrite Hbt|].
      exists c'. repeat split; congruence.
    - destruct Hins as [Hnew _ _ _ _ _ _ _]. unfold P. rewrite get_assign, get_put.
      case_decide; [subst; congruence|by exists b]. }
  destruct (IH (fun op' r Hin => Hlater op' r (list_elem_of_further _ _ _ Hin)) (apply l op))
    as [Hs Hrest]; [by apply apply_wf|done|].
  split; [|done]. simpl. rewrite Hs. destruct (starts_now i l op) eqn:Hn; [exfalso|done].
  apply starts_now_true in Hn as (b & r & Hb & Hr & _ & Hact & _); [|done].
  destruct HP as (b' & Hb' & Hbt & _). simplify_eq.
  rewrite Hbt in Hact.
  by rewrite (lease_dead_inactive _ _ _ _ (Hop _ Hr)) in Hact.
Qed.

Lemma dead_lease_final_witness :
  starts (attempt_id plan_a) prepared_ledger
    [DoRenew (sample_lease plan_a 2 90) (sample_reading 60) 60;
     DoStartRequested (plan_fence plan_a) (sample_reading 61)] = 0.
Proof.
  apply (dead_lease_final prepared_ledger _ (attempt_id plan_a)
           (sample_attempt prepared_ledger plan_a) (sample_reading 31)).
  - apply prepared_ledger_wf.
  - vm_compute. reflexivity.
  - vm_compute. reflexivity.
  - intros op r Hin Hr.
    apply elem_of_cons in Hin as [->|[->|[]%elem_of_nil]%elem_of_cons]; injection Hr as <-;
      (split; [intros _; vm_compute; discriminate|intros x _ Hne; by destruct Hne]).
Defined.

(** ** Refused plans *)

Lemma evolves_rejected {t} a a' freed :
  evolves t a a' freed → is_Some (a_rejection a) → life a →
  is_Some (a_rejection a') ∧ life a'.
Proof.
  intros Hev Hj Hl. split; [|by eapply evolves_life].
  by apply evolves_identity in Hev as (_ & _ & ->).
Qed.

(** C8: A plan the node has refused is fenced for good: after any further
    operations, its attempt (admission included) holds no slot and no device and
    has never been started; replaying the admission returns the refusal. *)
Theorem rejected_never_runs l p now observation l' a ops :
  wf l → get l (attempt_id p) = None →
  reject l p now observation = Ok (l', a) →
  starts (attempt_id p) l' ops = 0 ∧
  ∃ a', get (run_ops l' ops) (attempt_id p) = Some a' ∧ a_plan a' = p ∧ a_slot a' = None
    ∧ 3 ≤ phase (a_state a')
    ∧ (∀ d, l_devices (run_ops l' ops) !! d ≠ Some (attempt_id p))
    ∧ ∀ slot binding later_now,
        reserve (run_ops l' ops) p slot binding later_now = Ok (run_ops l' ops, a').
Proof.
  intros Hwf Hnew Hrej.
  pose proof (step_wf _ _ (reject_step (t := None) _ _ _ _ _ _ Hwf Hrej) Hwf) as Hwf'.
  unfold reject in Hrej. rewrite Hnew in Hrej.
  apply raise_if_bind_Ok in Hrej as [Hgen H]. apply bind_Ok in H as (l1 & Hins & [= <- <-]).
  apply insert_attempt_Ok in Hins as (-> & _).
  set (a := rejected_attempt l p now observation) in *.
  assert (Hget : get (put l (row_id a) a) (attempt_id p) = Some a)
    by (rewrite get_put; by rewrite decide_True).
  assert (Hlife : life a) by apply rejected_life.
  split.
  { apply starts_later; [done|]. exists a. split; [done|].
    destruct (life_rejection _ Hlife); [by unfold a; destruct observation|lia]. }
  destruct (run_ops_row (fun b => a_plan b = p ∧ is_Some (a_rejection b) ∧ life b)
              (attempt_id p) (put l (row_id a) a) ops) as (b & Hb & Hp & Hj & Hl); [done| | |].
  - intros t b b' freed Hev (Hp & Hj & Hl).
    destruct (evolves_rejected _ _ _ Hev Hj Hl). apply evolves_identity in Hev as (-> & _). done.
  - exists a. split; [done|]. split; [done|]. split; [by destruct observation|done].
  - destruct (life_rejection _ Hl Hj) as [Hs Hph].
    pose proof (run_ops_wf _ ops Hwf') as Hwf2.
    exists b. repeat split; try done.
    + intros d Hd. apply (wf_device _ Hwf2) in Hd as (c & Hc & _ & Hh). simplify_eq.
      unfold held in Hh. by rewrite Hs in Hh.
    + intros slot binding later_now. unfold reserve. rewrite Hb.
      rewrite (wf_digest _ Hwf2 _ _ Hb), Hp, bool_decide_true by done. done.
Qed.

Lemma rejected_never_runs_witness :
  starts (attempt_id plan_b)
    (match reject prepared_ledger plan_b sample_now None with Ok (l, _) => l | Err _ => prepared_ledger end)
    [DoStartRequested (plan_fence plan_b) (sample_reading 1)] = 0.
Proof.
  assert (Hok : is_ok (reject prepared_ledger plan_b sample_now None) = true)
    by (vm_compute; reflexivity).
  destruct (reject prepared_ledger plan_b sample_now None) as [[l' a]|e] eqn:Hr; [|discriminate Hok].
  apply (rejected_never_runs prepared_ledger plan_b sample_now None l' a);
    [apply prepared_ledger_wf|vm_compute; reflexivity|exact Hr].
Defined.

(** ** Admission *)

Lemma renew_row l n now maximum l' a i b :
  wf l → renew l n now maximum = Ok (l', a) → get l i = Some b → f_attempt_id (n_fence n) = i →
  get l' i = Some a ∧ a_plan a = a_plan b ∧ a_slot a = a_slot b.
Proof.
  intros Hwf H Hb <-.
  apply renew_Ok in H as (a0 & [Ha _ Hst Hact _] & [(-> & -> & _)|(tm & Hlt & Ht & -> & Hs)]);
    rewrite Ha in Hb; injection Hb as <-; [done|].
  rewrite (save_evolves (t := Some now) l (f_attempt_id (n_fence n)) a0 _ false) in Hs; [|done|done|].
  - injection Hs as <-. rewrite get_put, decide_True by done. done.
  - by eapply ev_renew.
Qed.

(** A granted admission is atomic and idempotent: it leaves one prepared
    attempt of exactly the admitted plan with an active first lease, repeating
    it with any slot, binding, reading or lease limit returns that attempt
    without changing the tables, and a different plan under the same attempt
    identity is refused (unless SHA-256 collides on the two plans). *)
Theorem admit_replay l adm slot binding now maximum l' a :
  wf l → admission_ok adm = true →
  admit_ l adm slot binding now maximum = Ok (l', (a, true)) →
  get l' (attempt_id (adm_plan adm)) = Some a
  ∧ a_plan a = adm_plan adm ∧ a_state a = Prepared ∧ a_slot a = Some slot
  ∧ active (a_sequence a) (a_expires_at a) (a_timing a) now = true
  ∧ (∀ slot2 binding2 now2 maximum2,
      admit_ l' adm slot2 binding2 now2 maximum2 = Ok (l', (a, false)))
  ∧ (∀ q slot2 binding2 now2,
      attempt_id q = attempt_id (adm_plan adm) → q ≠ adm_plan adm →
      reserve l' q slot2 binding2 now2
        = Err (Conflict "The attempt identity belongs to another immutable plan.")
      ∨ sha256_collision (encoded (plan_dump (adm_plan adm))) (encoded (plan_dump q))).
Proof.
  intros Hwf Hadm H. unfold admission_ok in Hadm. bool_inv.
  unfold admit_ in H. apply bind_Ok in H as ([l1 b] & Hr & H).
  pose proof (reserve_Ok _ _ _ _ _ _ _ Hr) as [(Hget & _)|(-> & -> & _ & o & Hrsv)].
  { rewrite Hget in H. done. }
  pose proof (step_wf _ _ (reserve_step (t := None) _ _ _ _ _ _ _ Hwf Hr) Hwf) as Hwf1.
  rewrite (rsv_new _ _ _ _ _ Hrsv) in H.
  apply bind_Ok in H as ([l2 c] & Hn & [= <- <-]).
  pose proof (step_wf _ _ (renew_step _ _ _ _ _ _ Hwf1 Hn) Hwf1) as Hwf2.
  assert (Hfresh : get (reserved l (adm_plan adm) slot binding (wall now)) (attempt_id (adm_plan adm))
            = Some (fresh_attempt (adm_plan adm) slot binding (wall now))).
  { unfold reserved. by rewrite get_assign, get_put, decide_True. }
  destruct (renew_row _ _ _ _ _ _ _ _ Hwf1 Hn Hfresh) as (Hc & Hcp & Hcs); [done|].
  assert (Hdig : a_digest c = plan_digest (adm_plan adm))
    by (rewrite (wf_digest _ Hwf2 _ _ Hc), Hcp; done).
  assert (Hact : active (a_sequence c) (a_expires_at c) (a_timing c) now = true
                 ∧ a_state c = Prepared).
  { apply renew_Ok in Hn as (a0 & [Ha _ _ _ _] & Hcase).
    replace (f_attempt_id (n_fence (adm_lease adm))) with (attempt_id (adm_plan adm)) in Ha by done.
    simplify_eq. destruct Hcase as [(_ & -> & Hz)|(tm & Hlt & Ht & -> & _)].
    - simpl in Hz. lia.
    - simpl. split; [|done]. eapply deadline_active; [exact Ht|lia]. }
  destruct Hact as [Hact Hst].
  repeat split; try done.
  - intros s2 b2 n2 m2. unfold admit_, reserve. rewrite Hc. run.
    rewrite Hdig, bool_decide_true by done. done.
  - intros q s2 b2 n2 Hid Hne. unfold reserve. rewrite Hid, Hc, Hdig.
    destruct (decide (plan_digest (adm_plan adm) = plan_digest q)) as [Heq|Hneq].
    + right. by destruct (plan_digest_inj _ _ Heq) as [He|Hc2]; [destruct Hne|].
    + left. by rewrite bool_decide_false.
Qed.

Definition admission_a : Admission := mkAdmission plan_a (sample_lease plan_a 1 30).
Definition offered_ledger : ledger := run_ops empty_ledger (take 1 sample_ops).

Lemma admit_replay_witness :
  ∃ l' a, admit_ offered_ledger admission_a "slot-a" sample_binding (sample_reading 0) 30
            = Ok (l', (a, true))
    ∧ admit_ l' admission_a "slot-z" JNull (sample_reading 7) 60 = Ok (l', (a, false)).
Proof.
  assert (Hok : match admit_ offered_ledger admission_a "slot-a" sample_binding (sample_reading 0) 30
                with Ok (_, (_, b)) => b | Err _ => false end = true) by (vm_compute; reflexivity).
  destruct (admit_ offered_ledger admission_a "slot-a" sample_binding (sample_reading 0) 30)
    as [[l' [a b]]|e] eqn:Hr; [|discriminate Hok]. subst b.
  exists l', a. split; [reflexivity|].
  apply (admit_replay offered_ledger admission_a "slot-a" sample_binding (sample_reading 0) 30 l' a);
    [apply run_ops_wf, wf_empty|vm_compute; reflexivity|exact Hr].
Defined.

(** ** Plans and offers *)

(** The digest in a fence binds the whole plan: two plans with the same
    digest agree in every field, limits, payload, inputs and endpoint included,
    unless their canonical texts are a SHA-256 collision. *)
Theorem plan_digest_binds p q :
  plan_digest p = plan_digest q →
  p = q ∨ sha256_collision (encoded (plan_dump p)) (encoded (plan_dump q)).
Proof. apply plan_digest_inj. Qed.

Lemma plan_digest_binds_witness :
  plan_a = sample_plan "5" "a" 1 ["GPU-0"]
  ∨ sha256_collision (encoded (plan_dump plan_a)) (encoded (plan_dump plan_a)).
Proof. apply (plan_digest_binds plan_a (sample_plan "5" "a" 1 ["GPU-0"])). reflexivity. Defined.

(** An owner's offer can only narrow the administrator's ceiling: if
    [validate_offer] accepts the settings, then every job an offer with those
    settings admits at a moment would be admitted by the ceiling itself, in
    project, runtime, resources, devices, schedule and sensitivity. *)
Theorem offer_within_ceiling s ceiling r m c project j now continuing :
  validate_offer s ceiling = Ok tt →
  (∃ seconds, utc_seconds now = Ok seconds) →
  refusal (mkOffer s r m c) project j now continuing = Ok None →
  refusal (mkOffer ceiling r m c) project j now continuing = Ok None.
Proof.
  intros Hv Hnow. rewrite !refusal_None. intros [Ha Hs].
  split; [by eapply admissible_within|by eapply in_schedule_within].
Qed.

(** Business hours inside a ceiling that allows whole working days. *)
Definition window_settings (k : Z) (ws : list Window) : OfferSettings :=
  mkSettings [id_of "3"] [sample_runtime] (sample_limits k ["GPU-0"; "GPU-1"]) ws false.

Lemma offer_within_ceiling_witness :
  refusal (mkOffer (window_settings 4 [mkWindow [0; 1; 2; 3; 4]%Z 0 1440]) 1 Voluntary Active)
    (project_id plan_a) (job plan_a) sample_now false = Ok None.
Proof.
  apply (offer_within_ceiling (window_settings 2 [mkWindow [1; 2]%Z 1320 1400])).
  - vm_compute. reflexivity.
  - eexists. vm_compute. reflexivity.
  - vm_compute. reflexivity.
Defined.
