(* ===== verification/Locks.v ===== *)
(** * The ledger as a table of exclusive locks

    An abstract specification of what [execution/ledger.py] promises to the rest
    of the executor: storage slots and GPUs are exclusive locks held by attempts.
    [ledger_refines_locks] shows that each operation of the concrete tables is
    either invisible or exactly one lock event that its arguments allow. *)

From Stdlib Require Import SpecFloat.
From S2P Require Import Prelude Float64 Json Clock Spec Offer Ledger LedgerStep Samples.

(** ** The specification *)

(** Owners of slots and of devices. *)
Record locks := mkLocks { lk_slots : gmap string string; lk_devices : gmap string string }.

Inductive lock_event :=
| Acquire (i slot : string) (ds : list string)
| Yield (i : string)
| FreeAll (i : string).

Inductive lock_step : lock_event → locks → locks → Prop :=
| lock_acquire L i slot ds :
    lk_slots L !! slot = None → (∀ s, lk_slots L !! s ≠ Some i) →
    (∀ d, d ∈ ds → lk_devices L !! d = None) →
    lock_step (Acquire i slot ds) L
      (mkLocks (<[slot := i]> (lk_slots L))
               (list_to_map ((fun d => (d, i)) <$> ds) ∪ lk_devices L))
| lock_yield L i :
    lock_step (Yield i) L (mkLocks (lk_slots L) (filter (fun p => p.2 ≠ i) (lk_devices L)))
| lock_free L i :
    lock_step (FreeAll i) L
      (mkLocks (filter (fun p => p.2 ≠ i) (lk_slots L))
               (filter (fun p => p.2 ≠ i) (lk_devices L))).

(** The lock events an operation may cause. *)
Definition allowed (op : lop) (ev : lock_event) : Prop :=
  match op, ev with
  | DoAdmit adm slot _ _ _, Acquire i s ds =>
      i = attempt_id (adm_plan adm) ∧ s = slot ∧ ds = gpu_devices (limits (job (adm_plan adm)))
  | DoReserve p slot _ _, Acquire i s ds =>
      i = attempt_id p ∧ s = slot ∧ ds = gpu_devices (limits (job p))
  | DoFinish r, Yield i => i = f_attempt_id (r_fence r) ∧ r_cleanup_confirmed r = true
  | DoRecover f _ _ _, Yield i => i = f_attempt_id f
  | DoRelease f, FreeAll i => i = f_attempt_id f
  | _, _ => False
  end.

(** ** The abstraction *)

Definition implements (l : ledger) (L : locks) : Prop :=
  (∀ s i, lk_slots L !! s = Some i ↔ ∃ a, get l i = Some a ∧ a_slot a = Some s)
  ∧ lk_devices L = l_devices l.

Lemma implements_put l L i a a' :
  get l i = Some a → a_slot a' = a_slot a → implements l L → implements (put l i a') L.
Proof.
  intros Ha Hs [Hslots Hdev]. split; [|done]. intros s j. rewrite Hslots, get_put.
  case_decide; [subst|done]. rewrite Ha.
  split; intros (b & [= <-] & Hb); eexists; (split; [done|congruence]).
Qed.

Lemma implements_save {t} l L f a a' freed l' :
  wf l → fenced l f = Ok a → save l a' = Ok l' → implements l L →
  evolves t a a' freed → a_slot a' = a_slot a → implements l' L.
Proof.
  intros Hwf (Ha & _)%fenced_Ok Hsave HL Hev Hs.
  rewrite (save_evolves l (f_attempt_id f) a a' freed) in Hsave by done. injection Hsave as <-.
  by eapply implements_put.
Qed.

Lemma implements_free_devices l L i :
  implements l L →
  implements (free_devices l i) (mkLocks (lk_slots L) (filter (fun p => p.2 ≠ i) (lk_devices L))).
Proof. intros [Hs Hd]. split; [done|]. simpl. by rewrite Hd. Qed.

Lemma implements_reserved l L p slot binding now o :
  implements l L → reservable l p slot now o →
  let ev := Acquire (attempt_id p) slot (gpu_devices (limits (job p))) in
  ∃ L', lock_step ev L L' ∧ implements (reserved l p slot binding now) L'.
Proof.
  intros [Hslots Hdev] [Hnew _ _ _ Hgen Hsl _ _ Hd].
  destruct (insertable_fresh l p slot binding now Hnew Hgen Hsl Hd) as [_ _ _ _ _ Is Ifr _].
  eexists. split.
  - constructor.
    + destruct (lk_slots L !! slot) as [j|] eqn:Hj; [|done].
      apply Hslots in Hj as (b & Hb & Hbs). by destruct (Is j b slot).
    + intros s (b & Hb & _)%Hslots. congruence.
    + intros d Hin. rewrite Hdev. by apply Ifr.
  - split; simpl.
    + intros s j. unfold reserved. rewrite get_assign, get_put.
      destruct (decide (slot = s)) as [<-|Hne].
      * rewrite lookup_insert_eq. case_decide.
        -- subst. split; [intros _; by eexists|done].
        -- split; [by intros [= ?]|]. intros (b & Hb & Hbs). by destruct (Is j b slot).
      * rewrite lookup_insert_ne by done. rewrite Hslots. case_decide; [subst|done].
        rewrite Hnew. split; intros (b & [= <-] & Hbs). simpl in Hbs. congruence.
    + by rewrite Hdev.
Qed.

Lemma implements_reserve l L p slot binding now l' a :
  implements l L → reserve l p slot binding now = Ok (l', a) →
  (l' = l ∧ is_Some (get l (attempt_id p)))
  ∨ (get l (attempt_id p) = None ∧
     ∃ L', lock_step (Acquire (attempt_id p) slot (gpu_devices (limits (job p)))) L L'
           ∧ implements l' L').
Proof.
  intros HL [(Hg & _ & ->)|(_ & -> & _ & o & Hrsv)]%reserve_Ok; [by left; eauto|right].
  split; [by apply Hrsv|]. by eapply implements_reserved.
Qed.

Lemma implements_released l L i a :
  wf l → get l i = Some a → implements l L →
  implements (free_devices (put l i (set_released a)) i)
    (mkLocks (filter (fun p => p.2 ≠ i) (lk_slots L)) (filter (fun p => p.2 ≠ i) (lk_devices L))).
Proof.
  intros Hwf Ha [Hslots Hdev]. split; [|simpl; by rewrite Hdev].
  intros s j. simpl. rewrite map_lookup_filter_Some, Hslots.
  change (get (free_devices (put l i (set_released a)) i) j) with (get (put l i (set_released a)) j).
  rewrite get_put. simpl. case_decide as Hij.
  - subst. split; [by intros [_ []]|]. by intros (b & [= <-] & ?).
  - split; [by intros [? _]|]. intros H. split; [done|]. by intros ->.
Qed.

(** ** Refinement *)

Lemma implements_renew l L n now maximum l' a :
  wf l → implements l L → renew l n now maximum = Ok (l', a) → implements l' L.
Proof.
  intros Hwf HL H.
  apply renew_Ok in H as (a0 & [_ Hf Hst Hact _] & [(-> & _)|(tm & Hlt & Ht & -> & Hs)]); [done|].
  eapply (implements_save (t := Some now)); [exact Hwf|exact Hf|exact Hs|exact HL| |done].
  by eapply ev_renew.
Qed.

(** The operations that cause no lock event. *)
Lemma implements_silent l L op l' :
  wf l → implements l L → execute l op = Ok l' →
  match op with
  | DoSaveOffer _ _ | DoAnnotate _ _ | DoReject _ _ _ | DoStartRequested _ _ | DoStarted _ _
  | DoRenew _ _ _ => implements l' L
  | _ => True
  end.
Proof.
  intros Hwf HL H. destruct op; simpl in H; try done.
  - unfold save_offer in H. by inv_ok.
  - apply fmap_Ok in H as ([l1 a] & H & ->). unfold annotate in H.
    apply bind_Ok in H as (a0 & Hf & H). apply bind_Ok in H as (a1 & Hn & H).
    apply bind_Ok in H as (l2 & Hs & [= <- <-]).
    eapply (implements_save (t := None)); [exact Hwf|exact Hf|exact Hs|exact HL|by econstructor|].
    by apply apply_annotation_core in Hn as (_ & _ & -> & _).
  - apply fmap_Ok in H as ([l1 a] & H & ->). unfold reject in H.
    destruct (get l (attempt_id p)) eqn:Hnew.
    { apply bind_Ok in H as (? & _ & [= <- _]). done. }
    apply raise_if_bind_Ok in H as [_ H]. apply bind_Ok in H as (l2 & Hins & [= <- <-]).
    apply insert_attempt_Ok in Hins as (-> & _). destruct HL as [Hslots Hdev]. split; [|done].
    intros s j. simpl. rewrite Hslots, get_put. case_decide as Hj; [|done].
    change (row_id _) with (attempt_id p) in Hj. subst j. rewrite Hnew.
    split; intros (b & [= <-] & ?). done.
  - apply fmap_Ok in H as ([l1 [a flag]] & H & ->). simpl.
    pose proof H as Hf. unfold start_requested in Hf. apply bind_Ok in Hf as (a1 & Hf & _).
    apply start_requested_Ok in H as (a0 & Ha & [(_ & -> & _)|(_ & -> & Hst & Hact & Hs & _)]); [done|].
    apply fenced_Ok in Hf as Hget. destruct Hget as (Hget & _). simplify_eq.
    eapply (implements_save (t := Some now));
      [exact Hwf|exact Hf|exact Hs|exact HL|by econstructor|done].
  - unfold started in H. apply bind_Ok in H as (a0 & Hf & H).
    apply raise_if_bind_Ok in H as [Hst Hs]. bool_inv.
    eapply (implements_save (t := None));
      [exact Hwf|exact Hf|exact Hs|exact HL|by constructor|done].
  - apply fmap_Ok in H as ([l1 a] & H & ->). by eapply implements_renew.
Qed.

(** C2: The ledger refines a table of exclusive locks: from tables that
    implement a lock table, each operation either leaves the lock table as it is
    or performs exactly one event allowed by its arguments, namely an admission
    or reservation acquires a free slot and free devices for its attempt, a
    confirmed outcome or a storage recovery yields the devices, and a release
    frees everything. *)
Theorem ledger_refines_locks l L op :
  wf l → implements l L →
  implements (apply l op) L
  ∨ ∃ ev L', allowed op ev ∧ lock_step ev L L' ∧ implements (apply l op) L'.
Proof.
  intros Hwf HL. unfold apply. destruct (execute l op) as [l'|e] eqn:H; [|by left].
  pose proof (implements_silent l L op l' Hwf HL H) as Hsilent.
  destruct op; try (by left); clear Hsilent; simpl in H.
  - apply fmap_Ok in H as ([l1 [a flag]] & H & ->). simpl. unfold admit_ in H.
    apply bind_Ok in H as ([l2 b] & Hr & H).
    pose proof (step_wf _ _ (reserve_step (t := None) _ _ _ _ _ _ _ Hwf Hr) Hwf) as Hwf2.
    destruct (implements_reserve _ _ _ _ _ _ _ _ HL Hr) as [(-> & c & Hc)|(Hnew & L' & Hev & HL')].
    + rewrite Hc in H. injection H as <- _ _. by left.
    + rewrite Hnew in H. apply bind_Ok in H as ([l3 c] & Hn & [= <- _ _]). right.
      eexists _, L'. split; [|split; [exact Hev|by eapply implements_renew]]. done.
  - apply fmap_Ok in H as ([l1 a] & Hr & ->). simpl.
    destruct (implements_reserve _ _ _ _ _ _ _ _ HL Hr) as [(-> & _)|(_ & L' & Hev & HL')];
      [by left|right]. eexists _, L'. split; [|by split]. done.
  - apply finish_Ok in H as (a & Ha & Hr & Hs & Hc & Ht & l1 & Hsave & ->).
    rewrite (save_evolves (t := None) l (f_attempt_id (r_fence r)) a _ _) in Hsave
      by (done || by constructor). injection Hsave as <-.
    assert (HL1 : implements (put l (f_attempt_id (r_fence r)) (set_result r a)) L)
      by by eapply implements_put.
    destruct (r_cleanup_confirmed r) eqn:Hcl; [right|by left].
    exists (Yield (f_attempt_id (r_fence r))). eexists. repeat split; try done.
    + by constructor.
    + apply HL1.
    + apply HL1.
    + simpl. by rewrite (proj2 HL1).
  - apply fmap_Ok in H as ([l1 a] & H & ->). simpl.
    apply release_Ok in H as (a0 & Ha & [(_ & -> & _)|(Hst & Hc & -> & l2 & Hs & ->)]); [by left|right].
    rewrite (save_evolves (t := None) l (f_attempt_id f) a0 _ true) in Hs
      by (done || by constructor). injection Hs as <-.
    exists (FreeAll (f_attempt_id f)). eexists. split; [done|].
    split; [constructor|by apply implements_released].
  - apply fmap_Ok in H as ([l1 a] & H & ->). simpl. right. unfold recover_storage in H.
    apply bind_Ok in H as (a0 & Hf & H). do 2 (apply raise_if_bind_Ok in H as [? H]).
    apply bind_Ok in H as (l2 & Hs & [= <- _]). bool_inv.
    exists (Yield (f_attempt_id f)). eexists. split; [done|]. split; [constructor|].
    apply implements_free_devices.
    eapply (implements_save (t := None)); [exact Hwf|exact Hf|exact Hs|exact HL|
      by apply (ev_recover None a0 before binding at_)|].
    simpl. by destruct (terminal (a_state a0)).
Qed.

(** The lock table of a ledger that only holds an offer. *)
Definition open_for_work : ledger := set_offer_row sample_offer empty_ledger.

Lemma open_for_work_wf : wf open_for_work.
Proof. exact (step_wf (t := None) _ _ (step_offer _ _ sample_offer) empty_ledger_wf). Qed.

Lemma implements_open_for_work : implements open_for_work (mkLocks ∅ ∅).
Proof.
  split; [|done]. intros s i. unfold get. simpl. rewrite lookup_empty.
  split; [done|]. intros (a & Ha & _). by rewrite lookup_empty in Ha.
Qed.

Lemma ledger_refines_locks_witness :
  let op := DoReserve plan_a "slot-a" sample_binding sample_now in
  is_ok (execute open_for_work op) = true ∧
  (implements (apply open_for_work op) (mkLocks ∅ ∅)
   ∨ ∃ ev L', allowed op ev ∧ lock_step ev (mkLocks ∅ ∅) L'
              ∧ implements (apply open_for_work op) L').
Proof.
  split; [vm_compute; reflexivity|].
  apply (ledger_refines_locks open_for_work (mkLocks ∅ ∅));
    [apply open_for_work_wf|apply implements_open_for_work].
Defined.
