(* ===== verification/Scheduler.v ===== *)
(** * The fair scheduler and the scheduler interface

    [scheduler-providers/fair/src/ficc_scheduler_fair/__init__.py] and
    [workloads/provider.py].  The round-robin loop of [Scheduler.select] runs on
    an explicit state: the [ready] deque, the job queues, the [Counter] of active
    jobs, the last served project and the chosen identities. *)

From Stdlib Require Import SpecFloat.
From S2P Require Import Prelude Float64.

Module Fair.

(** ** Requests *)

Record PendingJob := mkPending { pj_id : string; pj_project : string; pj_created : float }.
Record ActiveAttempt := mkActive { aa_id : string; aa_job : string; aa_project : string }.

Record Request := mkRequest {
  rq_version : Z; rq_pending : list PendingJob; rq_active : list ActiveAttempt }.

(** The key order [(created_at, id)]. *)
Definition job_le (a b : PendingJob) : bool :=
  f_lt (pj_created a) (pj_created b)
  || f_eq (pj_created a) (pj_created b) && String.leb (pj_id a) (pj_id b).

(** [sorted]: a stable sort. *)
Fixpoint insert_job (a : PendingJob) (l : list PendingJob) : list PendingJob :=
  match l with
  | [] => [a]
  | b :: l' => if job_le a b then a :: l else b :: insert_job a l'
  end.
Definition sorted_jobs (l : list PendingJob) : list PendingJob := foldr insert_job [] l.

(** [Counter (item["project_id"] for item in active)]. *)
Definition count_of (m : gmap string Z) (p : string) : Z := default 0%Z (m !! p).
Definition increment (m : gmap string Z) (p : string) : gmap string Z :=
  <[p := (count_of m p + 1)%Z]> m.
Definition counter (l : list string) : gmap string Z := foldl increment ∅ l.

(** [defaultdict (deque)]. *)
Definition queue_of (m : gmap string (list string)) (p : string) : list string :=
  default [] (m !! p).
Definition append_job (m : gmap string (list string)) (j : PendingJob) : gmap string (list string) :=
  <[pj_project j := queue_of m (pj_project j) ++ [pj_id j]]> m.
Definition queues_of (pending : list PendingJob) : gmap string (list string) :=
  foldl append_job ∅ (sorted_jobs pending).

(** ** The scheduler *)

Record Scheduler := mkScheduler {
  global_active : Z; project_active : Z; last_project : option string }.

(** [create (configuration)]. *)
Definition create (global project : Z) : res Scheduler :=
  raise_if (negb ((1 <=? global) && (global <=? 8192) && (1 <=? project) && (project <=? 8192))%Z)
    (ValueError "Scheduling concurrency must be an integer from one to 8192.") ;;
  raise_if (global <? project)%Z
    (ValueError "The project concurrency cannot exceed the global concurrency.") ;;
  Ok (mkScheduler global project None).

(** Projects after the last served one come first. *)
Definition rotate (last : option string) (projects : list string) : list string :=
  match last with
  | None => projects
  | Some last => List.filter (fun p => String.ltb last p) projects
                 ++ List.filter (fun p => negb (String.ltb last p)) projects
  end.

Record state := mkState {
  ready : list string; queues : gmap string (list string); active : gmap string Z;
  last : option string; chosen : list string }.

(** One iteration of the [while] loop on a non-empty [ready]. *)
Definition iterate (limit : Z) (s : state) : res state :=
  match ready s with
  | [] => Ok s
  | p :: rest =>
      if (limit <=? count_of (active s) p)%Z then
        Ok (mkState rest (queues s) (active s) (last s) (chosen s))
      else
        match queue_of (queues s) p with
        | [] => Err (OtherError "IndexError")
        | j :: q =>
            Ok (mkState (match q with [] => rest | _ => rest ++ [p] end)
                  (<[p := q]> (queues s)) (increment (active s) p) (Some p) (chosen s ++ [j]))
        end
  end.

Fixpoint loop (fuel : nat) (limit capacity : Z) (s : state) : res state :=
  if match ready s with [] => true | _ => false end
     || (capacity <=? Z.of_nat (length (chosen s)))%Z then Ok s
  else
    match fuel with
    | O => Err (OtherError "out of fuel")
    | S fuel => s' ← iterate limit s; loop fuel limit capacity s'
    end.

Definition initial (last : option string) (r : Request) : state :=
  let q := queues_of (rq_pending r) in
  mkState (rotate last (rows q).*1) q (counter (map aa_project (rq_active r))) last [].

Definition capacity_of (s : Scheduler) (r : Request) : Z :=
  Z.min 64 (Z.max 0 (global_active s - Z.of_nat (length (rq_active r)))).

(** Each iteration removes a project or a job. *)
Definition fuel_of (r : Request) : nat := 2 * length (rq_pending r).

(** [Scheduler.select]: the chosen identities and the updated scheduler. *)
Definition select (s : Scheduler) (r : Request) : res (list string * Scheduler) :=
  raise_if (negb (rq_version r =? 1)%Z) (ValueError "The scheduling request is invalid.") ;;
  out ← loop (fuel_of r) (project_active s) (capacity_of s r) (initial (last_project s) r);
  Ok (chosen out, mkScheduler (global_active s) (project_active s) (last out)).

Definition job_at (i p : string) (t : Z) : PendingJob := mkPending i p (f_of_Z t).

Example select_round_robin :
  let pending := [job_at "j1" "p" 1; job_at "j2" "p" 2; job_at "j3" "q" 3; job_at "j4" "r" 0;
                  job_at "j5" "p" 0] in
  let run_twice :=
    '(first, s) ← select (mkScheduler 3 2 None) (mkRequest 1 pending []);
    '(second, _) ← select s (mkRequest 1 pending []);
    Ok (first, second) in
  run_twice = Ok (["j5"; "j3"; "j4"], ["j5"; "j3"; "j4"]).
Proof. vm_compute. reflexivity. Qed.

Example select_limits :
  select (mkScheduler 5 2 (Some "p"))
    (mkRequest 1 [job_at "j1" "p" 1; job_at "j2" "p" 2; job_at "j3" "q" 3; job_at "j4" "q" 4;
                  job_at "j5" "q" 5] [mkActive "a" "j0" "p"])
  = Ok (["j3"; "j1"; "j4"], mkScheduler 5 2 (Some "q")).
Proof. vm_compute. reflexivity. Qed.

(** ** The loop invariant *)

Section invariant.
Context (projects : list string) (q0 : string → list string) (a0 : string → Z).
Context (limit : Z) (last0 : option string) (ready0 : list string).

  (** [taken p] jobs of each project have been chosen, in queue order.  In round
      [n] the projects of [r1] wait for their turn and those of [r2] had it. *)
Record inv (s : state) (taken : string → nat) (n : nat) (r1 r2 : list string) : Prop := {
    inv_queue p : queue_of (queues s) p = drop (taken p) (q0 p);
    inv_taken p : taken p ≤ length (q0 p);
    inv_active p : count_of (active s) p = (a0 p + Z.of_nat (taken p))%Z;
    inv_limit p : 0 < taken p → (a0 p + Z.of_nat (taken p) <= limit)%Z;
    inv_chosen : chosen s ≡ₚ projects ≫= (fun p => take (taken p) (q0 p));
    inv_nodup : NoDup (ready s);
    inv_ready p : p ∈ ready s → p ∈ projects ∧ taken p < length (q0 p);
    inv_blocked p : p ∈ projects → p ∉ ready s →
      taken p = length (q0 p) ∨ (limit <= a0 p + Z.of_nat (taken p))%Z;
    inv_parts : ready s = r1 ++ r2;
    inv_waiting p : p ∈ r1 → taken p = n;
    inv_served p : p ∈ r2 → taken p = S n;
    inv_round p : taken p ≤ S n;
    inv_first : n = 0 → ∃ before, ready0 = before ++ r1 ∧
      (chosen s = [] ∨ ∃ p, p ∈ before ∧ last s = Some p) }.

Definition invariant (s : state) : Prop := ∃ taken n r1 r2, inv s taken n r1 r2.

Definition serve (taken : string → nat) (p : string) : string → nat :=
    fun x => if decide (x = p) then S (taken x) else taken x.

Lemma serve_eq taken p : serve taken p p = S (taken p).
Proof. unfold serve. by rewrite decide_True. Qed.
Lemma serve_ne taken p x : x ≠ p → serve taken p x = taken x.
Proof. intros. unfold serve. by rewrite decide_False. Qed.

Lemma take_serve taken p j q ps :
    NoDup ps → p ∈ ps → drop (taken p) (q0 p) = j :: q →
    (ps ≫= fun x => take (serve taken p x) (q0 x))
      ≡ₚ (ps ≫= fun x => take (taken x) (q0 x)) ++ [j].
Proof.
    intros Hnd Hp Hj. rewrite <- Permutation_cons_append.
    apply (bind_update_Permutation _ _ _ p); [done|done| |].
    - assert (taken p < length (q0 p)).
      { destruct (decide (taken p < length (q0 p))); [done|]. by rewrite drop_ge in Hj by lia. }
      rewrite serve_eq, Permutation_cons_append. apply reflexive_eq.
      rewrite <- (take_drop (taken p) (q0 p)) at 1. rewrite Hj, take_app, length_take.
      rewrite Nat.min_l, (take_ge (take _ _)) by (rewrite ?length_take; lia).
      by replace (S (taken p) - taken p) with 1 by lia.
    - intros x Hx. by rewrite serve_ne.
Qed.

Lemma chosen_length s taken n r1 r2 :
    inv s taken n r1 r2 → length (chosen s) ≤ length (projects ≫= q0).
Proof.
    intros H. rewrite (Permutation_length (inv_chosen _ _ _ _ _ H)). clear.
    induction projects as [|p ps IH]; [done|]. rewrite !bind_cons, !length_app, length_take. lia.
Qed.

  (** With nobody left waiting, the next round begins. *)
Lemma next_round s taken n r1 r2 :
    inv s taken n r1 r2 → ready s ≠ [] → ∃ n' p r1' r2', inv s taken n' (p :: r1') r2'.
Proof.
    intros H Hr. destruct r1 as [|p r1]; [|by eauto].
    destruct r2 as [|p r2]; [by destruct Hr; rewrite (inv_parts _ _ _ _ _ H)|].
    exists (S n), p, r2, []. destruct H as [H1 H2 H3 H4 H5 H6 H7 H8 H9 Hw Hs Hn Hf].
    split; try done.
    - by rewrite H9, app_nil_r.
    - by intros x Hx%elem_of_nil.
    - intros x. specialize (Hn x). lia.
Qed.

  (** The project at the front is at its limit: it leaves the round. *)
Lemma inv_skip s taken n p r1 r2 :
    inv s taken n (p :: r1) r2 → (limit <= count_of (active s) p)%Z →
    inv (mkState (r1 ++ r2) (queues s) (active s) (last s) (chosen s)) taken n r1 r2.
Proof.
    intros [H1 H2 H3 H4 H5 H6 H7 H8 H9 Hw Hs Hn Hf] Hlim. rewrite H9 in H6, H7, H8.
    apply NoDup_cons in H6 as [Hp H6]. split; simpl; try done.
    - intros x Hx. apply H7. by right.
    - intros x Hx Hnot. destruct (decide (x = p)) as [->|Hne].
      + right. by rewrite <- H3.
      + apply H8; [done|]. simpl. rewrite not_elem_of_cons. done.
    - intros x Hx. apply Hw. by right.
    - intros Hn0. destruct (Hf Hn0) as (before & Hb & Hc). exists (before ++ [p]). split.
      + by rewrite Hb, <- (assoc_L (++)).
      + destruct Hc as [?|(x & Hx & ?)]; [by left|right]. exists x. split; [set_solver|done].
Qed.

Context (Hprojects : NoDup projects).

Lemma inv_serve s taken n p r1 r2 j q :
    inv s taken n (p :: r1) r2 → (count_of (active s) p < limit)%Z →
    queue_of (queues s) p = j :: q →
    inv (mkState (match q with [] => r1 ++ r2 | _ => (r1 ++ r2) ++ [p] end)
           (<[p := q]> (queues s)) (increment (active s) p) (Some p) (chosen s ++ [j]))
        (serve taken p) n r1 (match q with [] => r2 | _ => r2 ++ [p] end).
Proof.
    intros [H1 H2 H3 H4 H5 H6 H7 H8 H9 Hw Hs Hn Hf] Hlim Hq. rewrite H9 in H6, H7, H8.
    apply NoDup_cons in H6 as [Hp H6]. simpl in Hp.
    destruct (H7 p) as [Hin Hlen]; [by left|].
    assert (Hdrop : drop (taken p) (q0 p) = j :: q) by by rewrite <- H1.
    assert (Hq' : q = drop (S (taken p)) (q0 p)).
    { by rewrite <- (Nat.add_1_r (taken p)), <- drop_drop, Hdrop. }
    assert (Hlen' : length q = length (q0 p) - S (taken p)) by by rewrite Hq', length_drop.
    assert (Hready : ∀ x, x ∈ match q with [] => r1 ++ r2 | _ => (r1 ++ r2) ++ [p] end ↔
                          x ∈ r1 ++ r2 ∨ x = p ∧ q ≠ []).
    { intros x. destruct q; [naive_solver|]. rewrite elem_of_app, list_elem_of_singleton. naive_solver. }
    split; simpl.
    - intros x. unfold queue_of. destruct (decide (x = p)) as [->|Hne].
      + by rewrite lookup_insert_eq, serve_eq.
      + rewrite lookup_insert_ne, serve_ne by done. apply H1.
    - intros x. destruct (decide (x = p)) as [->|Hne]; [rewrite serve_eq; lia|by rewrite serve_ne].
    - intros x. unfold increment, count_of. destruct (decide (x = p)) as [->|Hne].
      + rewrite lookup_insert_eq, serve_eq. simpl. fold (count_of (active s) p). rewrite H3. lia.
      + rewrite lookup_insert_ne, serve_ne by done. apply H3.
    - intros x. destruct (decide (x = p)) as [->|Hne]; [|by rewrite serve_ne; auto].
      rewrite serve_eq. rewrite H3 in Hlim. lia.
    - rewrite (take_serve taken p j q projects), H5; done.
    - destruct q; [done|]. apply NoDup_app. split; [done|]. split; [|apply NoDup_singleton].
      intros x Hx ->%list_elem_of_singleton. done.
    - intros x [Hx|[-> Hne]]%Hready.
      + destruct (H7 x) as [? ?]; [by right|]. rewrite serve_ne; [done|]. by intros ->.
      + split; [done|]. rewrite serve_eq. destruct q; [done|]. simpl in Hlen'. lia.
    - intros x Hx Hnot. rewrite Hready in Hnot. destruct (decide (x = p)) as [->|Hne].
      + rewrite serve_eq. left. destruct q; [simpl in Hlen'; lia|]. naive_solver.
      + rewrite serve_ne by done. apply H8; [done|]. simpl. rewrite not_elem_of_cons. naive_solver.
    - destruct q; [done|]. by rewrite (assoc_L (++)).
    - intros x Hx. rewrite serve_ne; [apply Hw; by right|]. intros ->. set_solver.
    - intros x Hx. assert (x ∈ r2 ∨ x = p) as [Hx2| ->] by (destruct q; set_solver).
      + rewrite serve_ne; [by apply Hs|]. intros ->. set_solver.
      + rewrite serve_eq. f_equal. apply Hw. by left.
    - intros x. destruct (decide (x = p)) as [->|Hne]; [|by rewrite serve_ne].
      rewrite serve_eq, Hw; [done|by left].
    - intros Hn0. destruct (Hf Hn0) as (before & Hb & Hc). exists (before ++ [p]). split.
      + by rewrite Hb, <- (assoc_L (++)).
      + right. exists p. split; [set_solver|done].
Qed.

  (** One iteration succeeds, keeps the invariant and makes progress. *)
Definition measure (s : state) : nat :=
    length (ready s) + (length (projects ≫= q0) - length (chosen s)).

Lemma iterate_inv s :
    invariant s → ready s ≠ [] →
    ∃ s', iterate limit s = Ok s' ∧ invariant s' ∧ measure s' < measure s
          ∧ length (chosen s') ≤ S (length (chosen s)).
Proof.
    intros (taken & n0 & ra & rb & H) Hr.
    destruct (next_round _ _ _ _ _ H Hr) as (n & p & r1 & r2 & Hinv). clear H n0 ra rb.
    unfold iterate, measure. rewrite (inv_parts _ _ _ _ _ Hinv). cbn [app].
    destruct (limit <=? count_of (active s) p)%Z eqn:Hlim; bool_inv.
    - eexists. split; [done|]. split; [by exists taken, n, r1, r2; apply (inv_skip _ _ _ p)|].
      simpl. lia.
    - destruct (inv_ready _ _ _ _ _ Hinv p) as [Hin Hlen].
      { rewrite (inv_parts _ _ _ _ _ Hinv). by left. }
      destruct (queue_of (queues s) p) as [|j q] eqn:Hq.
      { rewrite (inv_queue _ _ _ _ _ Hinv) in Hq.
        apply (f_equal length) in Hq. rewrite length_drop in Hq. simpl in Hq. lia. }
      pose proof (inv_serve _ _ _ _ _ _ _ _ Hinv Hlim Hq) as Hnext.
      pose proof (chosen_length _ _ _ _ _ Hnext) as Hbound. simpl in Hbound.
      rewrite length_app in Hbound. simpl in Hbound.
      eexists. split; [done|]. split; [by do 4 eexists|]. simpl.
      rewrite length_app. simpl. destruct q; rewrite ?length_app; simpl; lia.
Qed.

Lemma loop_run capacity fuel s :
    invariant s → measure s ≤ fuel →
    ∃ s', loop fuel limit capacity s = Ok s' ∧ invariant s'
      ∧ (ready s' = [] ∨ (capacity <= Z.of_nat (length (chosen s')))%Z)
      ∧ (Z.of_nat (length (chosen s')) <= Z.max capacity (Z.of_nat (length (chosen s))))%Z.
Proof.
    revert s. induction fuel as [|fuel IH]; intros s Hinv Hm.
    - destruct (ready s) as [|p r] eqn:Hr; [|unfold measure in Hm; rewrite Hr in Hm; simpl in Hm; lia].
      exists s. simpl. rewrite Hr. simpl. repeat split; try done; [by left|lia].
    - simpl. destruct (match ready s with [] => true | _ => false end) eqn:Hr.
      { exists s. destruct (ready s); [|done]. repeat split; try done; [by left|lia]. }
      destruct (capacity <=? Z.of_nat (length (chosen s)))%Z eqn:Hc; bool_inv; simpl.
      { exists s. repeat split; try done; [by right|lia]. }
      destruct (iterate_inv s) as (s1 & -> & Hs1 & Hlt & Hlen); [done|by intros He; rewrite He in Hr|].
      run. destruct (IH s1) as (s' & -> & Hs' & Hend & Hmax); [done|lia|].
      exists s'. repeat split; try done. lia.
Qed.
End invariant.

(** ** Queues *)

Lemma insert_job_Permutation a l : insert_job a l ≡ₚ a :: l.
Proof.
  induction l as [|b l IH]; simpl; [done|]. destruct (job_le a b); [done|].
  rewrite IH. constructor.
Qed.

Lemma sorted_jobs_Permutation l : sorted_jobs l ≡ₚ l.
Proof. induction l as [|a l IH]; simpl; [done|]. by rewrite insert_job_Permutation, IH. Qed.

Definition of_project (p : string) (j : PendingJob) : bool := bool_decide (pj_project j = p).

(** The pending jobs of a project in scheduling order. *)
Definition project_queue (pending : list PendingJob) (p : string) : list string :=
  map pj_id (List.filter (of_project p) (sorted_jobs pending)).

Lemma queue_append m j p :
  queue_of (append_job m j) p = queue_of m p ++ (if of_project p j then [pj_id j] else []).
Proof.
  unfold append_job, of_project, queue_of. case_bool_decide as Hp.
  - subst p. by rewrite lookup_insert_eq.
  - by rewrite lookup_insert_ne, app_nil_r.
Qed.

Lemma queue_foldl l m p :
  queue_of (foldl append_job m l) p = queue_of m p ++ map pj_id (List.filter (of_project p) l).
Proof.
  revert m. induction l as [|j l IH]; intros m; simpl; [by rewrite app_nil_r|].
  rewrite IH, queue_append. destruct (of_project p j); simpl; by rewrite <- (assoc_L (++)).
Qed.

Lemma queues_of_queue pending p : queue_of (queues_of pending) p = project_queue pending p.
Proof. unfold queues_of. by rewrite queue_foldl. Qed.

Lemma queues_of_nonempty pending p q : queues_of pending !! p = Some q → q ≠ [].
Proof.
  unfold queues_of. generalize (sorted_jobs pending) as l. intros l. revert q.
  assert (H : ∀ m : gmap string (list string),
    (∀ q, m !! p = Some q → q ≠ []) → ∀ q, foldl append_job m l !! p = Some q → q ≠ []).
  { induction l as [|j l IH]; intros m Hm; simpl; [done|]. apply IH. intros q.
    unfold append_job. destruct (decide (pj_project j = p)) as [->|Hne].
    - rewrite lookup_insert_eq. intros [= <-] Hnil. by apply app_eq_nil in Hnil as [_ ?].
    - rewrite lookup_insert_ne by done. apply Hm. }
  apply H. by intros q Hq.
Qed.

(** [sorted (queues)]. *)
Definition projects_of (pending : list PendingJob) : list string := (rows (queues_of pending)).*1.

Lemma projects_of_elem pending p : p ∈ projects_of pending ↔ project_queue pending p ≠ [].
Proof.
  unfold projects_of. rewrite list_elem_of_fmap, <- queues_of_queue. unfold queue_of. split.
  - intros ([k q] & -> & Hq%elem_of_rows). simpl. rewrite Hq. by eapply queues_of_nonempty.
  - intros Hne. destruct (queues_of pending !! p) as [q|] eqn:Hq; [|done].
    exists (p, q). by rewrite elem_of_rows.
Qed.

Lemma projects_of_NoDup pending : NoDup (projects_of pending).
Proof. apply rows_keys_NoDup. Qed.

Lemma project_queue_elem pending p i :
  i ∈ project_queue pending p ↔ ∃ j, j ∈ pending ∧ pj_project j = p ∧ pj_id j = i.
Proof.
  unfold project_queue. rewrite list_elem_of_fmap. split.
  - intros (j & -> & [Hp Hj]%elem_of_List_filter). exists j.
    apply bool_decide_eq_true in Hp. by rewrite <- (sorted_jobs_Permutation pending).
  - intros (j & Hj & Hp & <-). exists j. split; [done|]. apply elem_of_List_filter.
    rewrite sorted_jobs_Permutation. split; [by apply bool_decide_eq_true|done].
Qed.

Lemma split_by_project ps l :
  NoDup ps → (∀ j, j ∈ l → pj_project j ∈ ps) →
  (ps ≫= fun p => List.filter (of_project p) l) ≡ₚ l.
Proof.
  intros Hnd. induction l as [|j l IH]; intros Hl.
  - apply reflexive_eq. clear. induction ps as [|p ps IH]; [done|]. by rewrite bind_cons, IH.
  - rewrite (bind_update_Permutation _ (fun p => List.filter (of_project p) l) ps (pj_project j) j);
      [rewrite IH; [done|]|done| | |].
    + intros k Hk. apply Hl. by right.
    + apply Hl. by left.
    + simpl. unfold of_project at 1. by rewrite bool_decide_true.
    + intros x Hx. simpl. unfold of_project at 1. by rewrite bool_decide_false.
Qed.

(** The queues hold exactly the pending jobs. *)
Lemma project_queues_Permutation pending :
  (projects_of pending ≫= project_queue pending) ≡ₚ map pj_id pending.
Proof.
  transitivity (map pj_id (projects_of pending ≫= fun p => List.filter (of_project p) (sorted_jobs pending))).
  - apply reflexive_eq. generalize (projects_of pending) as ps. intros ps.
    induction ps as [|p ps IH]; [done|]. by rewrite !bind_cons, map_app, IH.
  - apply fmap_Permutation. rewrite split_by_project; [apply sorted_jobs_Permutation|apply projects_of_NoDup|].
    intros j Hj. apply projects_of_elem. intros Hnil.
    assert (pj_id j ∈ project_queue pending (pj_project j)) as Hin.
    { apply project_queue_elem. exists j. by rewrite <- (sorted_jobs_Permutation pending). }
    rewrite Hnil in Hin. by apply elem_of_nil in Hin.
Qed.

(** ** Rotation *)

Lemma rotate_parts last ps :
  StronglySorted String.le ps → ∃ a b, ps = a ++ b ∧ rotate last ps = b ++ a.
Proof.
  intros Hs. destruct last as [x|]; [|by exists [], ps; rewrite app_nil_r].
  exists (List.filter (fun p => negb (String.ltb x p)) ps), (List.filter (String.ltb x) ps).
  split; [|done]. induction Hs as [|p ps Hs IH Hp]; [done|]. simpl.
  destruct (String.ltb x p) eqn:Hx; simpl; [|by f_equal].
  assert (Hall : ∀ y, y ∈ ps → String.ltb x y = true).
  { intros y Hy. rewrite Forall_forall in Hp. specialize (Hp y Hy).
    rewrite ltb_leb in Hx |- *. apply negb_true_iff in Hx. apply negb_true_iff.
    destruct (String.leb y x) eqn:Hyx; [|done].
    assert (Hpx : String.le p x) by (etrans; [exact Hp|]; unfold String.le; by rewrite Hyx).
    unfold String.le in Hpx. by rewrite Hx in Hpx. }
  rewrite filter_none, filter_all; [done|done|]. intros y Hy. by rewrite Hall.
Qed.

(** After serving [p], everything that followed it comes first and [p] is last. *)
Lemma rotate_at l p r :
  StronglySorted String.le (l ++ p :: r) → NoDup (l ++ p :: r) →
  rotate (Some p) (l ++ p :: r) = r ++ l ++ [p].
Proof.
  intros Hs Hnd. apply StronglySorted_app in Hs as (Hlr & _ & Hr).
  apply StronglySorted_inv in Hr as [_ Hr]. rewrite Forall_forall in Hr.
  apply NoDup_app in Hnd as (_ & _ & Hnd). apply NoDup_cons in Hnd as [Hp _].
  assert (Hl : ∀ y, y ∈ l ++ [p] → String.ltb p y = false).
  { intros y Hy. rewrite ltb_leb. apply negb_false_iff, Is_true_true.
    apply elem_of_app in Hy as [Hy| ->%list_elem_of_singleton]; [|by change (String.le p p)].
    apply (Hlr y p); [done|by left]. }
  assert (Hgt : ∀ y, y ∈ r → String.ltb p y = true).
  { intros y Hy. rewrite ltb_leb. apply negb_true_iff.
    destruct (String.leb y p) eqn:Hle; [|done]. exfalso. apply Hp.
    by rewrite (anti_symm String.le p y (Hr y Hy) (Is_true_true_2 _ Hle)). }
  replace (l ++ p :: r) with ((l ++ [p]) ++ r) by by rewrite <- (assoc_L (++)).
  unfold rotate. rewrite !(List.filter_app _ (l ++ [p]) r).
  rewrite (filter_none _ (l ++ [p])), (filter_all _ r), (filter_all _ (l ++ [p])), (filter_none _ r).
  - by rewrite app_nil_r.
  - intros y Hy. by rewrite Hgt.
  - intros y Hy. by rewrite Hl.
  - done.
  - done.
Qed.

Lemma rotate_Permutation last ps : rotate last ps ≡ₚ ps.
Proof.
  destruct last as [x|]; [|done]. unfold rotate.
  induction ps as [|p ps IH]; [done|]. simpl. destruct (String.ltb x p); simpl.
  - by rewrite IH.
  - by rewrite <- Permutation_middle, IH.
Qed.

(** Serving [p] moves what followed it in the current order to the front. *)
Lemma rotate_next last ps p before after :
  StronglySorted String.le ps → NoDup ps →
  rotate last ps = before ++ p :: after → rotate (Some p) ps = after ++ before ++ [p].
Proof.
  intros Hs Hnd Hr. destruct (rotate_parts last ps Hs) as (a & b & -> & Hab).
  rewrite Hab in Hr.
  assert (Hsplit : ∀ l k, NoDup (l ++ p :: k) → l ++ p :: k = before ++ p :: after →
                          l = before ∧ k = after).
  { intros l k Hlk He. pose proof Hlk as Hba. rewrite He in Hba.
    apply NoDup_app in Hlk as (_ & H1 & _). apply NoDup_app in Hba as (_ & H2 & _).
    assert (p ∉ l) by (intros Hin; apply (H1 p Hin); by left).
    assert (p ∉ before) by (intros Hin; apply (H2 p Hin); by left).
    by destruct (not_elem_of_app_cons_inv_l p p l k before after) as (? & _ & ?). }
  assert (Hin : p ∈ b ++ a) by (rewrite Hr; set_solver).
  assert (Hnd' : NoDup (b ++ a)) by by rewrite (Permutation_app_comm b a).
  apply elem_of_app in Hin as [Hin|Hin]; apply list_elem_of_split in Hin as (l & k & ->).
  - rewrite <- (assoc_L (++)) in Hr, Hnd'. simpl in Hr, Hnd'.
    destruct (Hsplit _ _ Hnd' Hr) as [-> <-].
    rewrite (assoc_L (++) a before) in Hs, Hnd |- *. rewrite rotate_at by done. by rewrite <- !(assoc_L (++)).
  - rewrite (assoc_L (++)) in Hr, Hnd'. destruct (Hsplit _ _ Hnd' Hr) as [<- <-].
    rewrite <- (assoc_L (++) l) in Hs, Hnd |- *. cbn [app] in Hs, Hnd |- *.
    rewrite rotate_at by done. by rewrite <- !(assoc_L (++)).
Qed.

Lemma projects_of_sorted pending : StronglySorted String.le (projects_of pending).
Proof.
  unfold projects_of. pose proof (rows_StronglySorted (queues_of pending)) as H.
  induction H as [|[k v] l H IH Hall]; simpl; constructor; [done|].
  apply Forall_forall. intros x ([k' v'] & -> & Hx)%list_elem_of_fmap.
  rewrite Forall_forall in Hall. by apply (Hall (k', v')).
Qed.

(** ** What [select] returns *)

Definition active_count (r : Request) (p : string) : Z :=
  count_of (counter (map aa_project (rq_active r))) p.

Lemma initial_inv s r :
  let last0 := last_project s in
  invariant (projects_of (rq_pending r)) (project_queue (rq_pending r)) (active_count r)
    (project_active s) (rotate last0 (projects_of (rq_pending r))) (initial last0 r).
Proof.
  intros last0. set (ps := projects_of (rq_pending r)).
  assert (Hp : rotate last0 ps ≡ₚ ps) by apply rotate_Permutation.
  exists (fun _ => 0), 0, (rotate last0 ps), []. split; simpl; try done; try lia.
  - intros p. apply queues_of_queue.
  - intros p. unfold active_count. lia.
  - apply reflexive_eq. clear Hp. clearbody ps. induction ps as [|p ps IH]; [done|].
    by rewrite bind_cons, <- IH.
  - fold (projects_of (rq_pending r)) ps. rewrite Hp. apply projects_of_NoDup.
  - intros p. fold (projects_of (rq_pending r)) ps. rewrite Hp. intros Hin. split; [done|].
    apply projects_of_elem in Hin. destruct (project_queue _ p); [done|simpl; lia].
  - intros p Hin Hnot. destruct Hnot. fold (projects_of (rq_pending r)) ps. by rewrite Hp.
  - by rewrite app_nil_r.
  - by intros p Hin%elem_of_nil.
  - intros _. exists []. split; [done|by left].
Qed.

(** The contract of a fair selection: [taken p] counts the jobs chosen from
    project [p]. *)
Record fair_choice (s : Scheduler) (r : Request) (chosen : list string)
    (taken : string → nat) : Prop := {
  fc_capacity : (Z.of_nat (length chosen) <= capacity_of s r)%Z;
  fc_fifo : chosen ≡ₚ
    projects_of (rq_pending r) ≫= (fun p => take (taken p) (project_queue (rq_pending r) p));
  fc_bound p : taken p ≤ length (project_queue (rq_pending r) p);
  fc_limit p : 0 < taken p → (active_count r p + Z.of_nat (taken p) <= project_active s)%Z;
  fc_conserving p : (Z.of_nat (length chosen) < capacity_of s r)%Z →
    taken p = length (project_queue (rq_pending r) p)
    ∨ (project_active s <= active_count r p + Z.of_nat (taken p))%Z;
  fc_fair p q : taken p < length (project_queue (rq_pending r) p) →
    (active_count r p + Z.of_nat (taken p) < project_active s)%Z → taken q ≤ S (taken p) }.

Lemma capacity_nonneg s r : (0 <= capacity_of s r)%Z.
Proof. unfold capacity_of. lia. Qed.

(** The loop ends within its fuel, in a state that satisfies the invariant. *)
Lemma select_run s r :
  rq_version r = 1%Z →
  ∃ out,
    select s r = Ok (chosen out, mkScheduler (global_active s) (project_active s) (last out))
    ∧ invariant (projects_of (rq_pending r)) (project_queue (rq_pending r)) (active_count r)
        (project_active s) (rotate (last_project s) (projects_of (rq_pending r))) out
    ∧ (ready out = [] ∨ (capacity_of s r <= Z.of_nat (length (chosen out)))%Z)
    ∧ (Z.of_nat (length (chosen out)) <= capacity_of s r)%Z.
Proof.
  intros Hv. pose proof (capacity_nonneg s r) as Hcap.
  destruct (loop_run (projects_of (rq_pending r)) (project_queue (rq_pending r)) (active_count r)
    (project_active s) (rotate (last_project s) (projects_of (rq_pending r)))
    (projects_of_NoDup _) (capacity_of s r) (fuel_of r) (initial (last_project s) r))
    as (out & Hout & Hinv & Hend & Hmax).
  - apply initial_inv.
  - unfold measure, fuel_of. simpl. fold (projects_of (rq_pending r)).
    rewrite (Permutation_length (rotate_Permutation _ _)), (Permutation_length (project_queues_Permutation _)).
    rewrite length_map. pose proof (Permutation_length (project_queues_Permutation (rq_pending r))) as Hl.
    rewrite length_map in Hl.
    assert (length (projects_of (rq_pending r)) ≤ length (rq_pending r)); [|lia].
    rewrite <- Hl. clear Hl. assert (Hne : ∀ p, p ∈ projects_of (rq_pending r) →
      project_queue (rq_pending r) p ≠ []) by (intros p; apply projects_of_elem).
    induction (projects_of (rq_pending r)) as [|p ps IH]; [done|].
    rewrite bind_cons, length_app. simpl. specialize (IH (fun q Hq => Hne q (list_elem_of_further _ _ _ Hq))).
    specialize (Hne p (list_elem_of_here _ _)). destruct (project_queue _ p); [done|simpl; lia].
  - exists out. unfold select. rewrite Hv, Hout. run.
    simpl in Hmax. repeat split; try done. lia.
Qed.

(** The end of the loop is a fair choice. *)
Lemma run_choice s r out :
  invariant (projects_of (rq_pending r)) (project_queue (rq_pending r)) (active_count r)
    (project_active s) (rotate (last_project s) (projects_of (rq_pending r))) out →
  (ready out = [] ∨ (capacity_of s r <= Z.of_nat (length (chosen out)))%Z) →
  (Z.of_nat (length (chosen out)) <= capacity_of s r)%Z →
  ∃ taken, fair_choice s r (chosen out) taken.
Proof.
  intros (taken & n0 & ra & rb & H0) Hend Hcap. exists taken. split.
  - done.
  - by apply H0.
  - by apply H0.
  - by apply H0.
  - intros p Hlt. destruct Hend as [Hr|]; [|lia].
    destruct (decide (p ∈ projects_of (rq_pending r))) as [Hin|Hout].
    + apply (inv_blocked _ _ _ _ _ _ _ _ _ _ H0); [done|]. rewrite Hr. by apply not_elem_of_nil.
    + left. pose proof (inv_taken _ _ _ _ _ _ _ _ _ _ H0 p) as Ht.
      rewrite projects_of_elem in Hout. apply dec_stable in Hout. rewrite Hout in *. simpl in *. lia.
  - intros p q Hlen Hlim.
    assert (Hin : p ∈ ready out).
    { destruct (decide (p ∈ ready out)) as [|Hnot]; [done|exfalso].
      destruct (inv_blocked _ _ _ _ _ _ _ _ _ _ H0 p) as [?|?]; [|done|lia|lia].
      apply projects_of_elem. intros He. rewrite He in Hlen. simpl in Hlen. lia. }
    assert (n0 ≤ taken p).
    { rewrite (inv_parts _ _ _ _ _ _ _ _ _ _ H0) in Hin. apply elem_of_app in Hin as [Hin|Hin].
      - by rewrite (inv_waiting _ _ _ _ _ _ _ _ _ _ H0).
      - rewrite (inv_served _ _ _ _ _ _ _ _ _ _ H0) by done. lia. }
    pose proof (inv_round _ _ _ _ _ _ _ _ _ _ H0 q). lia.
Qed.

(** C16: [select] always terminates with a fair choice: never more jobs than the
    capacity, a prefix of each project's queue in order of creation, never past
    a project's concurrency limit, no idle capacity while some project could
    still use it, and no project more than one job ahead of a project that was
    still waiting for its turn. *)
Theorem select_fair s r :
  rq_version r = 1%Z →
  ∃ ids s' taken, select s r = Ok (ids, s') ∧ fair_choice s r ids taken.
Proof.
  intros Hv. destruct (select_run s r Hv) as (out & Hsel & Hinv & Hend & Hcap).
  destruct (run_choice s r out Hinv Hend Hcap) as [taken H]. by do 3 eexists.
Qed.

(** ** No starvation *)

Definition served (r : Request) (q : string) (ids : list string) : Prop :=
  ∃ i, i ∈ ids ∧ i ∈ project_queue (rq_pending r) q.

(** A call that leaves an eligible project out has served one ahead of it. *)
Lemma select_unserved s r q :
  rq_version r = 1%Z → (1 <= capacity_of s r)%Z →
  q ∈ projects_of (rq_pending r) → (active_count r q < project_active s)%Z →
  ∃ ids s', select s r = Ok (ids, s')
    ∧ global_active s' = global_active s ∧ project_active s' = project_active s
    ∧ (served r q ids ∨
       ∃ before p after, rotate (last_project s) (projects_of (rq_pending r)) = before ++ p :: after
         ∧ q ∈ after ∧ last_project s' = Some p).
Proof.
  intros Hv Hcap Hq Hact.
  destruct (select_run s r Hv) as (out & Hsel & (taken & n & r1 & r2 & H) & Hend & _).
  do 2 eexists. split; [exact Hsel|]. split; [done|]. split; [done|].
  destruct (taken q) as [|t] eqn:Ht.
  - right. assert (Hready : q ∈ ready out).
    { destruct (decide (q ∈ ready out)) as [|Hnot]; [done|exfalso].
      destruct (inv_blocked _ _ _ _ _ _ _ _ _ _ H q Hq Hnot) as [Hl|Hl]; rewrite Ht in Hl; [|lia].
      apply projects_of_elem in Hq. by destruct (project_queue _ q). }
    rewrite (inv_parts _ _ _ _ _ _ _ _ _ _ H) in Hready. apply elem_of_app in Hready as [Hin|Hin];
      [|by apply (inv_served _ _ _ _ _ _ _ _ _ _ H) in Hin; lia].
    assert (n = 0) as -> by (apply (inv_waiting _ _ _ _ _ _ _ _ _ _ H) in Hin; lia).
    destruct (inv_first _ _ _ _ _ _ _ _ _ _ H eq_refl) as (before & Hb & [Hnil|(p & Hp & Hlast)]).
    + exfalso. destruct Hend as [He|He].
      * rewrite (inv_parts _ _ _ _ _ _ _ _ _ _ H) in He. apply app_eq_nil in He as [-> _].
        by apply elem_of_nil in Hin.
      * rewrite Hnil in He. simpl in He. lia.
    + apply list_elem_of_split in Hp as (b1 & b2 & ->).
      exists b1, p, (b2 ++ r1). rewrite Hb, <- (assoc_L (++)). split; [done|]. split; [set_solver|done].
  - left. destruct (project_queue (rq_pending r) q) as [|i rest] eqn:Hqueue.
    { pose proof (inv_taken _ _ _ _ _ _ _ _ _ _ H q) as Hle. rewrite Hqueue, Ht in Hle. simpl in Hle. lia. }
    exists i. split; [|rewrite Hqueue; by left].
    rewrite (inv_chosen _ _ _ _ _ _ _ _ _ _ H). apply list_elem_of_bind. exists q. split; [|done].
    rewrite Ht, Hqueue. by left.
Qed.

(** Consecutive calls. *)
Fixpoint select_all (s : Scheduler) (rs : list Request) : res (list (list string)) :=
  match rs with
  | [] => Ok []
  | r :: rs =>
      '(ids, s') ← select s r;
      rest ← select_all s' rs;
      Ok (ids :: rest)
  end.

(** Project [q] can be served by this call. *)
Definition eligible (s : Scheduler) (ps : list string) (q : string) (r : Request) : Prop :=
  rq_version r = 1%Z ∧ (1 <= capacity_of s r)%Z ∧ projects_of (rq_pending r) = ps
  ∧ (active_count r q < project_active s)%Z.

Lemma select_all_Ok s rs : Forall (fun r => rq_version r = 1%Z) rs → is_ok (select_all s rs) = true.
Proof.
  intros H. revert s. induction H as [|r rs Hv H IH]; intros s; [done|]. simpl.
  destruct (select_run s r Hv) as (out & -> & _). run. 
  match goal with |- context [select_all ?s' rs] => specialize (IH s'); destruct (select_all s' rs) end; done.
Qed.

Lemma eligible_same s s' ps q r :
  global_active s' = global_active s → project_active s' = project_active s →
  eligible s ps q r → eligible s' ps q r.
Proof. unfold eligible, capacity_of. intros -> ->. done. Qed.

Lemma starvation_bound rs : ∀ s ps q before after,
  StronglySorted String.le ps → NoDup ps → Forall (eligible s ps q) rs →
  rotate (last_project s) ps = before ++ q :: after → length before < length rs →
  ∃ outs n r ids, select_all s rs = Ok outs ∧ rs !! n = Some r ∧ outs !! n = Some ids ∧ served r q ids.
Proof.
  induction rs as [|r rs IH]; intros s ps q before after Hsort Hnd Hall Hrot Hlen; [simpl in Hlen; lia|].
  apply Forall_cons in Hall as [(Hv & Hcap & Hps & Hact) Hall].
  destruct (select_unserved s r q) as (ids & s' & Hsel & Hg & Hp & Hcase); try done.
  { rewrite Hps, <- (rotate_Permutation (last_project s)), Hrot. set_solver. }
  simpl. rewrite Hsel. run.
  assert (Hall' : Forall (eligible s' ps q) rs)
    by (eapply Forall_impl; [exact Hall|]; intros x; by apply eligible_same).
  destruct Hcase as [Hserved|(b1 & p & b2 & Hb & Hq & Hlast)].
  - pose proof (select_all_Ok s' rs) as Hok.
    destruct (select_all s' rs) as [outs|e]; [|discriminate Hok; eapply Forall_impl; [exact Hall'|by intros x []]].
    by exists (ids :: outs), 0, r, ids.
  - rewrite Hps in Hb. pose proof (rotate_next _ _ _ _ _ Hsort Hnd Hb) as Hnext.
    apply list_elem_of_split in Hq as (c1 & c2 & ->).
    assert (before = b1 ++ p :: c1) as ->.
    { rewrite Hrot in Hb. assert (NoDup (before ++ q :: after)) as Hn
        by (rewrite <- Hrot, rotate_Permutation; done).
      replace (b1 ++ p :: c1 ++ q :: c2) with ((b1 ++ p :: c1) ++ q :: c2) in Hb
        by by rewrite <- (assoc_L (++)).
      pose proof Hn as Hn2. rewrite Hb in Hn2.
      apply NoDup_app in Hn as (_ & H1 & _). apply NoDup_app in Hn2 as (_ & H2 & _).
      assert (q ∉ before) by (intros Hin; apply (H1 q Hin); by left).
      assert (q ∉ b1 ++ p :: c1) by (intros Hin; apply (H2 q Hin); by left).
      by destruct (not_elem_of_app_cons_inv_l q q before after (b1 ++ p :: c1) c2). }
    rewrite length_app in Hlen. simpl in Hlen.
    destruct (IH s' ps q c1 (c2 ++ b1 ++ [p])) as (outs & n & r' & ids' & Hs & Hr & Ho & Hserved);
      [done|done|done|by rewrite Hlast, Hnext, <- (assoc_L (++))|lia|].
    rewrite Hs. run. by exists (ids :: outs), (S n), r', ids'.
Qed.


Definition sample_request : Request :=
  mkRequest 1 [job_at "j1" "p" 1; job_at "j2" "p" 2; job_at "j3" "q" 3] [mkActive "a" "j0" "r"].

Lemma select_fair_witness :
  ∃ ids s' taken, select (mkScheduler 3 2 (Some "p")) sample_request = Ok (ids, s')
    ∧ fair_choice (mkScheduler 3 2 (Some "p")) sample_request ids taken.
Proof. apply (select_fair (mkScheduler 3 2 (Some "p")) sample_request). reflexivity. Defined.


End Fair.
