(* ===== verification/Settings.v ===== *)
(** * Administrator-owned executor settings

    [execution/settings.py]: slots, providers and the consistency rules that
    keep accounts and directories apart.  A [pathlib] path is its root and its
    parts; POSIX keeps exactly two leading slashes as a root of its own. *)

From Stdlib Require Import SpecFloat.
From S2P Require Import Prelude Float64 Json Clock Spec Offer Ledger LedgerStep Samples.

(** ** Paths *)

Record path := mkPath { p_root : string; p_parts : list string }.
#[global] Instance path_eq_dec : EqDecision path. Proof. solve_decision. Defined.

(** [Path (value)] of an absolute text: the root, and the parts without empty
    and ["."] components. *)
Definition parse_path (value : string) : path :=
  let '(root, rest) :=
    match strip_prefix "//" value with
    | Some rest => if starts_with "/" rest then ("/", rest) else ("//", rest)
    | None => match strip_prefix "/" value with
              | Some rest => ("/", rest)
              | None => (EmptyString, value)
              end
    end in
  mkPath root (List.filter (fun part => negb (bool_decide (part = "")) && negb (bool_decide (part = ".")))
                 (split_on "/" rest)).

(** [str (path)] of an absolute path. *)
Definition path_text (p : path) : string := p_root p +:+ String.concat "/" (p_parts p).

(** [a in b.parents]. *)
Fixpoint proper_prefix (a b : list string) : bool :=
  match a, b with
  | [], _ :: _ => true
  | x :: a, y :: b => bool_decide (x = y) && proper_prefix a b
  | _, [] => false
  end.
Definition is_parent (a b : path) : bool :=
  bool_decide (p_root a = p_root b) && proper_prefix (p_parts a) (p_parts b).

Definition overlaps (a b : path) : bool :=
  bool_decide (a = b) || is_parent a b || is_parent b a.

Definition plain_char (c : ascii) : bool :=
  negb (N_of_ascii c <=? 32)%N && negb (N_of_ascii c =? 127)%N && negb (one_of ":,\" c).

(** [absolute (value)] with the length bounds of [Absolute]. *)
Definition absolute (value : string) : bool :=
  let p := parse_path value in
  negb (bool_decide (p_root p = "")) && bool_decide (path_text p = value)
  && negb (bool_decide (".." ∈ p_parts p)) && all_chars plain_char value
  && length_between 2 4096 value.

(** ** Models *)

Definition account (s : string) : bool :=
  leading (fun c => is_lower c || Ascii.eqb c "_")
          (fun c => is_lower c || is_digit c || one_of "_-" c) 30 s.
Definition user_id (z : Z) : bool := (1 <=? z)%Z && (z <=? 2 ^ 31 - 1)%Z.
Definition filesystem_id (s : string) : bool :=
  all_chars (fun c => is_upper c || is_lower c || is_digit c || Ascii.eqb c "-") s
  && length_between 8 80 s.

Record Slot := mkSlot {
  slot_id : string; slot_generation : Z; mount : string; filesystem_uuid : string;
  slot_account : string; slot_uid : Z; slot_gid : Z; slot_bytes : Z; slot_inodes : Z }.

#[global] Instance Slot_eq_dec : EqDecision Slot. Proof. solve_decision. Defined.

Definition slot_ok (s : Slot) : bool :=
  name (slot_id s) && revision_number (slot_generation s) && absolute (mount s)
  && filesystem_id (filesystem_uuid s) && account (slot_account s)
  && user_id (slot_uid s) && user_id (slot_gid s)
  && positive_count (slot_bytes s) && positive_count (slot_inodes s).

Record Provider := mkProvider {
  provider_id : string; provider_digest : string; configuration : json }.

Definition provider_ok (p : Provider) : bool :=
  name (provider_id p) && digest_text (provider_digest p)
  && (Z.of_nat (String.length (encoded (configuration p))) <=? 65536)%Z.

Record CacheSettings := mkCache {
  cache_directory : string; cache_uuid : string; maximum_bytes : Z; maximum_files : Z }.

Definition cache_ok (c : CacheSettings) : bool :=
  absolute (cache_directory c) && filesystem_id (cache_uuid c)
  && positive_count (maximum_bytes c) && (1 <=? maximum_files c)%Z && (maximum_files c <=? 4096)%Z.

Record Settings := mkExecutor {
  installation_id : string; s_deployment_id : string; s_node_id : string; s_mode : mode;
  transport_uid : Z; local_owner_uids : list Z; maximum_lease_seconds : Z; service : string;
  state_path : string; sockets_path : string; ceiling : OfferSettings; initial_offer : Offer;
  slots : list Slot; providers : list Provider; model_cache : option CacheSettings }.

(** [any (overlap (a, b) for index, a in enumerate (paths) for b in paths[index + 1:])]. *)
Fixpoint any_overlap (paths : list path) : bool :=
  match paths with
  | [] => false
  | a :: rest => existsb (overlaps a) rest || any_overlap rest
  end.

(** Duplicate identities in [{item.id: item.package_digest for item in providers}]
    keep the last package; [consistent] has already made them distinct. *)
Definition package_of (ps : list Provider) (i : string) : option string :=
  foldl (fun found p => if bool_decide (provider_id p = i) then Some (provider_digest p) else found)
    None ps.

Definition paths_of (s : Settings) : list path :=
  map parse_path
    ([state_path s; sockets_path s] ++ map mount (slots s)
     ++ match model_cache s with Some c => [cache_directory c] | None => [] end).

Definition distinct_error : exn := ValueError "Select distinct values.".

(** [Settings.consistent]. *)
Definition consistent (s : Settings) : res unit :=
  raise_if (negb (bool_decide (service s = "ficc-executor-" +:+ installation_id s +:+ ".service")))
    (ValueError "The supervisor service must bind the installation identity.") ;;
  raise_if (negb (bool_decide (offer_mode (initial_offer s) = s_mode s))
            || negb (revision (initial_offer s) =? 1)%Z)
    (ValueError "The initial offer must bind the installed mode and first revision.") ;;
  raise_if (bool_decide (s_mode s = Managed) && negb (bool_decide (local_owner_uids s = [])))
    (ValueError "Managed offers can be changed only by the machine administrator.") ;;
  validate_offer (settings (initial_offer s)) (ceiling s) ;;
  raise_if (negb (distinct (map slot_id (slots s)) && distinct (map mount (slots s))
                  && distinct (map slot_uid (slots s)) && distinct (map slot_account (slots s))
                  && distinct (map slot_gid (slots s)) && distinct (map provider_id (providers s))))
    distinct_error ;;
  let workload_uids := map slot_uid (slots s) in
  raise_if (bool_decide (transport_uid s ∈ workload_uids)
            || existsb (fun u => bool_decide (u ∈ workload_uids) || (u =? transport_uid s)%Z)
                 (local_owner_uids s))
    (ValueError "Transport, workload, and local owner accounts must be separate.") ;;
  raise_if (any_overlap (paths_of s))
    (ValueError "State, sockets, and storage slots must use separate directories.") ;;
  raise_if (existsb (fun r => negb (bool_decide (package_of (providers s) (provider r)
                                                 = Some (package_digest r))))
              (o_runtimes (ceiling s)))
    (ValueError "Approved runtimes must bind an installed provider package.").

(** Field constraints of [Settings]. *)
Definition settings_fields_ok (s : Settings) : bool :=
  identity (installation_id s) && identity (s_deployment_id s) && identity (s_node_id s)
  && user_id (transport_uid s) && forallb user_id (local_owner_uids s)
  && (length (local_owner_uids s) <=? 64)%nat && distinct (local_owner_uids s)
  && (5 <=? maximum_lease_seconds s)%Z && (maximum_lease_seconds s <=? 30)%Z
  && absolute (state_path s) && absolute (sockets_path s)
  && offer_settings_ok (ceiling s) && offer_settings_ok (settings (initial_offer s))
  && forallb slot_ok (slots s) && (1 <=? length (slots s))%nat && (length (slots s) <=? 64)%nat
  && forallb provider_ok (providers s) && (1 <=? length (providers s))%nat
  && (length (providers s) <=? 64)%nat
  && match model_cache s with Some c => cache_ok c | None => true end.

Definition settings_ok (s : Settings) : bool :=
  settings_fields_ok s && is_ok (consistent s).

(** [Settings.check_identity]. *)
Definition check_identity (s : Settings) (p : Plan) : res unit :=
  raise_if (negb (bool_decide (deployment_id p = s_deployment_id s))
            || negb (bool_decide (node_id p = s_node_id s)))
    (ValueError "The attempt belongs to another deployment or contributor.").

(** ** Facts *)

Lemma proper_prefix_irrefl l : proper_prefix l l = false.
Proof. induction l as [|x l IH]; simpl; [done|]. by rewrite bool_decide_true. Qed.

Lemma overlaps_sym a b : overlaps a b = overlaps b a.
Proof.
  unfold overlaps. rewrite (bool_decide_ext (a = b) (b = a)) by done.
  destruct (bool_decide (b = a)), (is_parent a b), (is_parent b a); done.
Qed.

Lemma any_overlap_false l i j a b :
  any_overlap l = false → l !! i = Some a → l !! j = Some b → i ≠ j → overlaps a b = false.
Proof.
  assert (Hlt : ∀ l i j a b, any_overlap l = false → l !! i = Some a → l !! j = Some b → i < j →
                             overlaps a b = false).
  { clear. induction l as [|x l IH]; intros i j a b Hl Hi Hj Hlt; [done|].
    simpl in Hl. bool_inv. destruct j as [|j]; [lia|]. simpl in Hj.
    destruct i as [|i]; simpl in Hi.
    - injection Hi as ->. match goal with H : existsb _ _ = false |- _ => rewrite existsb_false in H; apply H end.
      by eapply list_elem_of_lookup_2.
    - apply (IH i j); try done. lia. }
  intros Hl Hi Hj Hne. destruct (decide (i < j)); [by eapply Hlt|].
  rewrite overlaps_sym. eapply Hlt; [done|done|done|lia].
Qed.

(** [consistent] as the conjunction of its rules. *)
Record separated (s : Settings) : Prop := {
  sp_service : service s = "ficc-executor-" +:+ installation_id s +:+ ".service";
  sp_mode : offer_mode (initial_offer s) = s_mode s ∧ revision (initial_offer s) = 1%Z;
  sp_managed : s_mode s = Managed → local_owner_uids s = [];
  sp_offer : validate_offer (settings (initial_offer s)) (ceiling s) = Ok tt;
  sp_ids : NoDup (map slot_id (slots s));
  sp_mounts : NoDup (map mount (slots s));
  sp_uids : NoDup (map slot_uid (slots s));
  sp_accounts : NoDup (map slot_account (slots s));
  sp_gids : NoDup (map slot_gid (slots s));
  sp_providers : NoDup (map provider_id (providers s));
  sp_transport : transport_uid s ∉ map slot_uid (slots s);
  sp_owners u : u ∈ local_owner_uids s → u ∉ map slot_uid (slots s) ∧ u ≠ transport_uid s;
  sp_paths : any_overlap (paths_of s) = false;
  sp_packages r : r ∈ o_runtimes (ceiling s) →
    package_of (providers s) (provider r) = Some (package_digest r) }.

Lemma consistent_Ok s : consistent s = Ok tt → separated s.
Proof.
  unfold consistent. intros H. do 3 (apply raise_if_bind_Ok in H as [? H]).
  apply bind_Ok in H as ([] & Hv & H). do 3 (apply raise_if_bind_Ok in H as [? H]).
  apply raise_if_Ok in H. unfold distinct in *. bool_inv.
  split; try done.
  - intros Hm. match goal with H : bool_decide (_ = Managed) && _ = false |- _ =>
      rewrite bool_decide_true in H by done end. simpl in *. by bool_inv.
  - intros u Hu. match goal with H : existsb _ (local_owner_uids s) = false |- _ =>
      rewrite existsb_false in H; specialize (H u Hu) end. by bool_inv.
  - intros r Hr. rewrite existsb_false in H. specialize (H r Hr). by bool_inv.
Qed.

Lemma NoDup_map_neq {A B} (f : A → B) (l : list A) i j a b :
  NoDup (map f l) → l !! i = Some a → l !! j = Some b → i ≠ j → f a ≠ f b.
Proof.
  intros Hnd Hi Hj Hne Heq. apply Hne. eapply (NoDup_lookup (map f l)); [done| |].
  - change (map f l) with (f <$> l). by rewrite list_lookup_fmap, Hi.
  - change (map f l) with (f <$> l). by rewrite list_lookup_fmap, Hj, Heq.
Qed.


(** ** A concrete installation *)

Definition sample_slot (i m : string) (acct : string) (uid : Z) : Slot :=
  mkSlot i 1 m "0123-abcd" acct uid uid 268435456 16384.

Definition sample_executor (state sockets : string) : Settings :=
  mkExecutor (id_of "9") (id_of "1") (id_of "2") Voluntary 900 [1000%Z] 30
    ("ficc-executor-" +:+ id_of "9" +:+ ".service") state sockets
    sample_settings sample_offer
    [sample_slot "slot-a" "/srv/slot-a" "ficc-a" 901; sample_slot "slot-b" "/srv/slot-b" "ficc-b" 902]
    [mkProvider "example" (package_digest sample_runtime) (JObj [])] None.

Definition sample_host : Settings := sample_executor "/var/lib/ficc/state" "/run/ficc".


(** Two spellings of one Linux directory pass as separate: [pathlib] keeps two
    leading slashes as a root of its own, so ["//srv/ficc"] is not compared with
    ["/srv/ficc"], although [absolute] means to exclude aliases. *)
Lemma double_slash_alias :
  settings_ok (sample_executor "/srv/ficc" "//srv/ficc") = true
  ∧ p_parts (parse_path "/srv/ficc") = p_parts (parse_path "//srv/ficc").
Proof. split; vm_compute; reflexivity. Qed.
