(* ===== verification/Protocol.v ===== *)
(** * Local executor requests

    [execution/protocol.py]: the batched messages of the executor sockets, their
    validators, the canonical base64 input chunks and the authority of a peer.
    The JSON reader and the union dispatch belong to [pydantic]; [decode] takes
    it as an argument. *)

From Stdlib Require Import SpecFloat ZifyN.
From S2P Require Import Prelude Float64 Sha256 Json Clock Spec Offer Ledger LedgerStep Samples Settings.

(** ** Base64 *)

Definition sextet_char (n : N) : ascii :=
  if (n <? 26)%N then ascii_of_N (65 + n)
  else if (n <? 52)%N then ascii_of_N (71 + n)
  else if (n <? 62)%N then ascii_of_N (n - 4)
  else if (n =? 62)%N then "+" else "/".

Definition sextet_value (c : ascii) : option N :=
  let n := N_of_ascii c in
  if is_upper c then Some (n - 65)%N
  else if is_lower c then Some (n - 71)%N
  else if is_digit c then Some (n + 4)%N
  else if Ascii.eqb c "+" then Some 62%N
  else if Ascii.eqb c "/" then Some 63%N
  else None.

(** [base64.b64encode]. *)
Fixpoint b64encode (s : string) : string :=
  match s with
  | EmptyString => EmptyString
  | String a EmptyString =>
      let x := N_of_ascii a in
      String (sextet_char (x / 4)) (String (sextet_char (x mod 4 * 16)) "==")
  | String a (String b EmptyString) =>
      let x := N_of_ascii a in let y := N_of_ascii b in
      String (sextet_char (x / 4))
        (String (sextet_char (x mod 4 * 16 + y / 16)) (String (sextet_char (y mod 16 * 4)) "="))
  | String a (String b (String c s)) =>
      let x := N_of_ascii a in let y := N_of_ascii b in let z := N_of_ascii c in
      String (sextet_char (x / 4))
        (String (sextet_char (x mod 4 * 16 + y / 16))
          (String (sextet_char (y mod 16 * 4 + z / 64))
            (String (sextet_char (z mod 64)) (b64encode s))))
  end.

Definition byte_of (n : N) : ascii := ascii_of_N (n mod 256).

(** [base64.b64decode (validate=True)]: groups of four, padding only at the end;
    the spare bits of a padded group are ignored. *)
Fixpoint b64decode (s : string) : option string :=
  match s with
  | EmptyString => Some EmptyString
  | String c1 (String c2 (String c3 (String c4 s))) =>
      match sextet_value c1, sextet_value c2 with
      | Some v1, Some v2 =>
          let a := byte_of (v1 * 4 + v2 / 16) in
          if Ascii.eqb c3 "=" then
            if Ascii.eqb c4 "=" && match s with EmptyString => true | _ => false end
            then Some (String a EmptyString) else None
          else
            match sextet_value c3 with
            | Some v3 =>
                let b := byte_of (v2 mod 16 * 16 + v3 / 4) in
                if Ascii.eqb c4 "=" then
                  match s with EmptyString => Some (String a (String b EmptyString)) | _ => None end
                else
                  match sextet_value c4, b64decode s with
                  | Some v4, Some rest => Some (String a (String b (String (byte_of (v3 mod 4 * 64 + v4)) rest)))
                  | _, _ => None
                  end
            | None => None
            end
      | _, _ => None
      end
  | _ => None
  end.

(** ** Messages *)

Definition INPUT_CHUNK : Z := 8 * 1024 * 1024.
Definition MAX_MESSAGE : Z := 12 * 1024 * 1024.

Record Read := mkRead { rd_fence : Fence; rd_object : string; rd_offset : Z; rd_length : Z }.
Record InputObject := mkInputObject { io_fence : Fence; io_object : string }.
Record InputChunk := mkInputChunk {
  ic_fence : Fence; ic_object : string; ic_offset : Z; ic_data : string; ic_digest : string }.

Inductive stream_operation := OpenStream | ReadStream | CancelStream.
Inductive http_method := GET | POST.

Record EndpointCall := mkEndpointCall {
  ec_fence : Fence; ec_stream : string; ec_operation : stream_operation; ec_path : string;
  ec_method : http_method; ec_body : string; ec_input : option string; ec_deadline : Z }.

Inductive control_action := StartAction | ObserveAction | StopAction | ReleaseAction.

(** [BoundRequest]: the admission contract a request was built for. *)
Record Bound := mkBound { b_installation : string; b_ledger : string; b_version : Z }.

Inductive Message :=
| Prepare (b : Bound) (attempts : list Admission)
| RejectAbsent (b : Bound) (plans : list Plan)
| ReconcileAbsent (b : Bound) (plans : list Plan)
| Renew (leases : list Renewal)
| Control (action : control_action) (attempts : list Fence)
| Collect (reads : list Read)
| InputStatus (objects : list InputObject)
| InputWrite (writes : list InputChunk)
| EndpointExchange (calls : list EndpointCall)
| SnapshotRequest (after : option string)
| SetOffer (expected_revision : Z) (proposed : OfferSettings) (c : control).

(** [Request]: the identity of a message. *)
Record Envelope := mkEnvelope { m_id : string; m_body : Message }.

(** ** Validators *)

Definition fence_ok (f : Fence) : bool :=
  identity (f_attempt_id f) && revision_number (f_generation f) && digest_text (f_plan_digest f).

(** [^(stdout|stderr|output:[a-z][a-z0-9_.-]{0,79})$]. *)
Definition readable (s : string) : bool :=
  bool_decide (s = "stdout") || bool_decide (s = "stderr")
  || match strip_prefix "output:" s with Some n => name n | None => false end.

Definition read_ok (r : Read) : bool :=
  fence_ok (rd_fence r) && readable (rd_object r) && count (rd_offset r)
  && (1 <=? rd_length r)%Z && (rd_length r <=? 1024 * 1024)%Z.

(** [InputChunk.decoded]. *)
Definition chunk_decoded (c : InputChunk) : res string :=
  data ← some_or (b64decode (ic_data c)) (ValueError "The input chunk must use valid base64.");
  raise_if ((INPUT_CHUNK <? Z.of_nat (String.length data))%Z
            || negb (bool_decide (b64encode data = ic_data c)))
    (ValueError "Use canonical base64 for at most 8 MiB of input bytes.") ;;
  raise_if (negb (bool_decide (content_hash data = ic_digest c)))
    (ValueError "The input chunk digest does not match its bytes.") ;;
  Ok data.

Definition input_object_ok (o : InputObject) : bool := fence_ok (io_fence o) && identity (io_object o).

Definition chunk_ok (c : InputChunk) : bool :=
  fence_ok (ic_fence c) && identity (ic_object c) && count (ic_offset c)
  && (Z.of_nat (String.length (ic_data c)) <=? 11184812)%Z && digest_text (ic_digest c)
  && is_ok (chunk_decoded c).

Definition endpoint_call_ok (c : EndpointCall) : bool :=
  fence_ok (ec_fence c) && identity (ec_stream c)
  && (Z.of_nat (String.length (ec_path c)) <=? 128)%Z
  && (Z.of_nat (String.length (ec_body c)) <=? 1048576)%Z
  && match ec_input c with Some i => identity i | None => true end
  && (1 <=? ec_deadline c)%Z && (ec_deadline c <=? 600)%Z.

Definition bound_ok (b : Bound) : bool :=
  identity (b_installation b) && identity (b_ledger b) && (b_version b =? 1)%Z.

Definition batch_size {A} (l : list A) : bool := (1 <=? length l)%nat && (length l <=? 64)%nat.

Definition chunk_bytes (c : InputChunk) : Z :=
  match chunk_decoded c with Ok data => Z.of_nat (String.length data) | Err _ => 0 end.

Definition message_ok (m : Message) : bool :=
  match m with
  | Prepare b l =>
      bound_ok b && batch_size l && forallb admission_ok l
      && distinct (map (fun a => attempt_id (adm_plan a)) l)
  | RejectAbsent b l | ReconcileAbsent b l =>
      bound_ok b && batch_size l && forallb plan_ok l && distinct (map attempt_id l)
  | Renew l =>
      batch_size l && forallb renewal_ok l && distinct (map (fun n => f_attempt_id (n_fence n)) l)
  | Control _ l => batch_size l && forallb fence_ok l && distinct (map f_attempt_id l)
  | Collect l =>
      batch_size l && forallb read_ok l
      && distinct (map (fun r => (f_attempt_id (rd_fence r), rd_object r, rd_offset r)) l)
      && (sumZ rd_length l <=? 1024 * 1024)%Z
  | InputStatus l =>
      batch_size l && forallb input_object_ok l
      && distinct (map (fun o => (f_attempt_id (io_fence o), io_object o)) l)
  | InputWrite l =>
      batch_size l && forallb chunk_ok l
      && distinct (map (fun c => (f_attempt_id (ic_fence c), ic_object c)) l)
      && (sumZ chunk_bytes l <=? INPUT_CHUNK)%Z
  | EndpointExchange l =>
      (1 <=? length l)%nat && (length l <=? 16)%nat && forallb endpoint_call_ok l
  | SnapshotRequest after => match after with Some i => identity i | None => true end
  | SetOffer expected proposed _ => revision_number expected && offer_settings_ok proposed
  end.

Definition envelope_ok (e : Envelope) : bool := identity (m_id e) && message_ok (m_body e).

(** [decode (data)]; [validate_json] is [MESSAGE.validate_json]. *)
Definition decode (validate_json : string → res Envelope) (data : string) : res Envelope :=
  raise_if (MAX_MESSAGE <? Z.of_nat (String.length data))%Z
    (ValueError "The executor control message exceeds 12 MiB. Split the batch.") ;;
  validate_json data.

(** ** Authority *)

(** [authorize (request, peer_uid, settings)]. *)
Definition authorize (m : Message) (peer_uid : Z) (s : Settings) : res unit :=
  if (peer_uid =? 0)%Z then Ok tt
  else
    let local_owner := bool_decide (s_mode s = Voluntary)
                       && bool_decide (peer_uid ∈ local_owner_uids s) in
    match m with
    | ReconcileAbsent _ _ =>
        Err (ValueError "Only the machine administrator can acknowledge an absent legacy attempt.")
    | SetOffer _ _ _ =>
        raise_if (negb local_owner)
          (ValueError "Only the local owner can change voluntary contribution settings.")
    | SnapshotRequest _ =>
        raise_if (negb (peer_uid =? transport_uid s)%Z && negb local_owner)
          (ValueError "This account cannot read the contributor execution state.")
    | _ =>
        raise_if (negb (peer_uid =? transport_uid s)%Z)
          (ValueError "Only the contributor transport can request controller job operations.")
    end.

(** ** Facts about base64 *)

Lemma sextet_table (P : N → bool) :
  forallb (fun i => P (N.of_nat i)) (seq 0 64) = true → ∀ n, (n < 64)%N → P n = true.
Proof.
  rewrite forallb_true. intros H n Hn. rewrite <- (N2Nat.id n). apply H, elem_of_seq. lia.
Qed.

Lemma sextet_value_char n : (n < 64)%N → sextet_value (sextet_char n) = Some n.
Proof.
  intros Hn.
  pose proof (sextet_table (fun n => bool_decide (sextet_value (sextet_char n) = Some n))
    eq_refl n Hn) as H. cbv beta in H. by bool_inv.
Qed.

Lemma sextet_not_pad n : (n < 64)%N → Ascii.eqb (sextet_char n) "=" = false.
Proof.
  intros Hn. apply negb_true_iff.
  exact (sextet_table (fun n => negb (Ascii.eqb (sextet_char n) "=")) eq_refl n Hn).
Qed.

Lemma byte_below c : (N_of_ascii c < 256)%N.
Proof. apply N_ascii_bounded. Qed.

Lemma byte_of_split n c : (n mod 256 = N_of_ascii c)%N → byte_of n = c.
Proof. unfold byte_of. intros ->. apply ascii_N_embedding. Qed.

(** Linear arithmetic with the quotients and remainders of [N]. *)
Ltac n_lia := zify; Z.div_mod_to_equations; lia.

Lemma b64_roundtrip_bound k s : String.length s < k → b64decode (b64encode s) = Some s.
Proof.
  revert s. induction k as [|k IH]; intros s Hk; [lia|].
  assert (Hb : ∀ c, (N_of_ascii c < 256)%N) by apply byte_below.
  destruct s as [|a [|b [|c s]]]; [done|..].
  - pose proof (Hb a). cbn [b64encode b64decode].
    rewrite !sextet_value_char by (n_lia). simpl. do 2 f_equal.
    apply byte_of_split. n_lia.
  - pose proof (Hb a). pose proof (Hb b). cbn [b64encode b64decode].
    rewrite !sextet_value_char by (n_lia).
    rewrite sextet_not_pad by (n_lia). simpl.
    do 3 f_equal; apply byte_of_split; n_lia.
  - pose proof (Hb a). pose proof (Hb b). pose proof (Hb c). cbn [b64encode b64decode].
    rewrite !sextet_value_char by (n_lia).
    rewrite !sextet_not_pad by (n_lia). rewrite IH by (simpl in Hk; lia).
    f_equal. f_equal; [|f_equal; [|f_equal]]; apply byte_of_split; n_lia.
Qed.

Lemma b64_decode_encode s : b64decode (b64encode s) = Some s.
Proof. by apply (b64_roundtrip_bound (S (String.length s))); auto with arith. Qed.

(** ** What an input chunk carries *)

(** C19: An input chunk that validates carries exactly one byte string: its text
    is the canonical base64 of those bytes, they fit the chunk limit and hash to
    the declared digest; and any bytes within the limit can be sent that way. *)
Theorem chunk_roundtrip c data :
  chunk_decoded c = Ok data ↔
  ic_data c = b64encode data ∧ (Z.of_nat (String.length data) <= INPUT_CHUNK)%Z
  ∧ ic_digest c = content_hash data.
Proof.
  unfold chunk_decoded. split.
  - intros H. apply bind_Ok in H as (d & Hd & H). apply some_or_Ok in Hd.
    do 2 (apply raise_if_bind_Ok in H as [? H]). injection H as <-. bool_inv. auto.
  - intros (Hdata & Hlen & Hdig). rewrite Hdata, b64_decode_encode. run.
    rewrite (proj2 (Z.ltb_ge _ _)) by done. by rewrite !bool_decide_true.
Qed.

(** ** Who may ask for what *)

(** The powers each kind of peer has over messages. *)
Inductive permitted (s : Settings) (uid : Z) : Message → Prop :=
| permit_administrator m : uid = 0%Z → permitted s uid m
| permit_transport m :
    uid = transport_uid s →
    match m with ReconcileAbsent _ _ | SetOffer _ _ _ => False | _ => True end →
    permitted s uid m
| permit_owner m :
    s_mode s = Voluntary → uid ∈ local_owner_uids s →
    match m with SnapshotRequest _ | SetOffer _ _ _ => True | _ => False end →
    permitted s uid m.

Lemma owner_guard s uid :
  bool_decide (s_mode s = Voluntary) && bool_decide (uid ∈ local_owner_uids s) = true ↔
  s_mode s = Voluntary ∧ uid ∈ local_owner_uids s.
Proof. by rewrite andb_true_iff, !bool_decide_eq_true. Qed.

(** Socket credentials decide authority, not message contents: under
    accepted settings a peer's request is authorized exactly when the peer is
    the administrator, or the transport asking for anything but offers and
    legacy acknowledgements, or the owner of a voluntary machine reading the
    snapshot or setting the offer; a workload account is authorized nothing. *)
Theorem authorize_exact s m uid :
  settings_ok s = true →
  (authorize m uid s = Ok tt ↔ permitted s uid m)
  ∧ (uid ∈ map slot_uid (slots s) → authorize m uid s ≠ Ok tt).
Proof.
  intros Hok.
  assert (Hexact : authorize m uid s = Ok tt ↔ permitted s uid m).
  { unfold authorize. destruct (uid =? 0)%Z eqn:H0; bool_inv.
    { split; [intros _; by apply permit_administrator|done]. }
    destruct (bool_decide (s_mode s = Voluntary) && _) eqn:Ho.
    - apply owner_guard in Ho as [Hv Hu]. split.
      + intros H. destruct m; first
          [ by apply permit_owner
          | apply permit_transport; [|exact I]; apply raise_if_Ok in H; by bool_inv
          | done ].
      + intros [m' ?|m' -> Hm|m' _ _ Hm]; [done|..]; destruct m'; try done; simpl;
          by rewrite ?Z.eqb_refl, ?andb_false_r.
    - split.
      + intros H. destruct m; try done; apply raise_if_Ok in H; simpl in H;
          rewrite ?andb_true_r in H; try done; apply permit_transport; [|exact I|..]; bool_inv; done.
      + intros [m' ?|m' -> Hm|m' Hv Hu Hm]; [done|..].
        * destruct m'; try done; simpl; by rewrite ?Z.eqb_refl.
        * by rewrite (proj2 (owner_guard s uid) (conj Hv Hu)) in Ho. }
  split; [exact Hexact|]. rewrite Hexact. unfold settings_ok in Hok. bool_inv.
  destruct (consistent s) as [[]|] eqn:Hc; [|done]. apply consistent_Ok in Hc.
  intros Hw [m' ->|m' -> _|m' _ Hu _].
  - match goal with H : settings_fields_ok s = true |- _ => unfold settings_fields_ok in H end.
    bool_inv. apply list_elem_of_fmap in Hw as (a & Ha & Hin).
    match goal with H : forallb slot_ok _ = true |- _ => rewrite forallb_true in H; specialize (H a Hin) end.
    unfold slot_ok, user_id in *. bool_inv. lia.
  - by apply (sp_transport _ Hc).
  - by apply (sp_owners _ Hc) in Hu as [? _].
Qed.

Lemma authorize_exact_witness :
  authorize (Control StartAction [plan_fence plan_a]) 900 sample_host = Ok tt
  ∧ authorize (SetOffer 1 sample_settings Paused) 1000 sample_host = Ok tt
  ∧ authorize (Control StartAction [plan_fence plan_a]) 901 sample_host ≠ Ok tt.
Proof.
  assert (Hok : settings_ok sample_host = true) by (vm_compute; reflexivity).
  split; [|split].
  - apply (authorize_exact sample_host _ 900 Hok). apply permit_transport; [reflexivity|exact I].
  - apply (authorize_exact sample_host _ 1000 Hok).
    apply permit_owner; [reflexivity|left|exact I].
  - apply (authorize_exact sample_host _ 901 Hok). left.
Defined.
