(* ===== verification/FileAccess.v ===== *)
(** * The helper's file access

    [node/ficc_node/file_access.py], [file_manifest.py], [file_state.py]: names and
    references, the acquisition of registered objects, whole-file digests, and the
    receipts under the namespace lock.  An operation is a program of calls to the kernel
    and to the receipt directory; anything may happen between two calls. *)

From S2P Require Import Prelude Sha256 Json Protocol Posix.

#[local] Open Scope Z_scope.

Definition CHUNK : Z := 262144.
Definition MAX_FILE : Z := 2 ^ 63 - 1.
Definition RESERVED : string := ".ficc-".

(** ** Data *)

Record identity := mkIdentity {
  id_dev : Z; id_ino : Z; id_type : kind; id_size : Z; id_mtime_ns : Z; id_ctime_ns : Z }.
#[global] Instance identity_eq_dec : EqDecision identity.
Proof. solve_decision. Defined.

(** [identity]. *)
Definition identity_of (s : stat) : identity :=
  mkIdentity (st_object s).1 (st_object s).2 (st_kind s) (st_size s) (st_mtime_ns s) (st_ctime_ns s).
Definition object_of (i : identity) : object := (id_dev i, id_ino i).

(** [same]; [directory] leaves out the size and the times. *)
Definition same (current expected : identity) (directory : bool) : bool :=
  bool_decide (object_of current = object_of expected) && bool_decide (id_type current = id_type expected)
  && (directory || bool_decide (current = expected)).

Record reference := mkReference { rf_parts : list string; rf_identity : identity; rf_parent : option identity }.

(** A registered root as a request carries it; [rt_rest] are the fields this code ignores. *)
Record root := mkRoot {
  rt_id : string; rt_path : string; rt_identity : option identity; rt_read_only : option bool;
  rt_export : option bool; rt_rest : list (string * json) }.

Record manifest_value := mkManifest { mf_algorithm : string; mf_digest : string }.
#[global] Instance manifest_eq_dec : EqDecision manifest_value.
Proof. solve_decision. Defined.

Record spec := mkSpec {
  sp_parent : reference; sp_name : string; sp_name_b64 : option string; sp_size : Z;
  sp_expected : option identity; sp_source_manifest : option manifest_value; sp_source_identity : json }.

(** The states of a transfer on its destination. *)
Inductive state := Preparing | Running | Interrupted | Committing | Succeeded | Cancelled | Discarding.
#[global] Instance state_eq_dec : EqDecision state.
Proof. solve_decision. Defined.

(** The receipt of a transfer; [option] fields may be missing from an older receipt. *)
Record transfer := mkTransfer {
  tr_id : string; tr_digest : string; tr_root_id : string; tr_parent : reference; tr_name : string;
  tr_name_b64 : option string; tr_export : bool; tr_cleanup_pending : option bool; tr_prepared : option bool;
  tr_expected : option identity; tr_size : Z; tr_offset : Z; tr_sha256 : option string;
  tr_prefix_sha256 : option string; tr_source_manifest : option manifest_value; tr_source_identity : json;
  tr_free_bytes : option Z; tr_state : state; tr_stage : string; tr_committed_identity : option identity;
  tr_published_identity : option identity; tr_reserved_bytes : option Z }.

(** Other file actions keep receipts in the same directory. *)
Inductive receipt := OfTransfer (t : transfer) | OfAction (digest : string).

(** ** Programs *)

Inductive call :=
| System (s : syscall)
| Exists (id : string)
| Count
| Fetch (id : string)
| Write (id : string) (r : receipt)
| Scan
| IsCancelled.

Definition reply (c : call) : Type :=
  match c with
  | System s => errno + result s
  | Exists _ | IsCancelled => bool
  | Count => Z
  | Fetch _ => res receipt
  | Write _ _ => res unit
  | Scan => res (list receipt)
  end.

Inductive prog (A : Type) : Type :=
| Return (r : res A)
| Call (c : call) (k : reply c → prog A).
Arguments Return {A} r.
Arguments Call {A} c k.

Fixpoint prog_then {A B} (f : A → prog B) (p : prog A) : prog B :=
  match p with
  | Return (Ok a) => f a
  | Return (Err e) => Return (Err e)
  | Call c k => Call c (fun a => prog_then f (k a))
  end.
#[global] Instance prog_ret : MRet prog := fun A a => Return (Ok a).
#[global] Instance prog_bind : MBind prog := fun A B => prog_then.

(** [try: p except ...: h]; a handler that does not match raises the exception again. *)
Fixpoint catch {A} (p : prog A) (h : exn → prog A) : prog A :=
  match p with
  | Return (Ok a) => Return (Ok a)
  | Return (Err e) => h e
  | Call c k => Call c (fun a => catch (k a) h)
  end.

Definition raise {A} (e : exn) : prog A := Return (Err e).
Definition lift {A} (r : res A) : prog A := Return r.
Definition os_error (e : errno) : exn := OSError (strerror e).
Definition is_not_found (e : exn) : bool := bool_decide (e = os_error ENOENT).
Definition is_exists (e : exn) : bool := bool_decide (e = os_error EEXIST).

(** A system call that raises [OSError]. *)
Definition kernel (s : syscall) : prog (result s) :=
  Call (System s) (fun a => match a with inl e => raise (os_error e) | inr v => mret v end).
Definition known (id : string) : prog bool := Call (Exists id) (fun a => Return (Ok a)).
Definition count : prog Z := Call Count (fun a => Return (Ok a)).
Definition fetch (id : string) : prog receipt := Call (Fetch id) (fun a => Return a).
Definition write (id : string) (r : receipt) : prog unit := Call (Write id r) (fun a => Return a).
Definition scan : prog (list receipt) := Call Scan (fun a => Return a).
Definition is_cancelled : prog bool := Call IsCancelled (fun a => Return (Ok a)).

(** ** Names *)

(** [str.encode ("utf-8")] of code points below 256. *)
Fixpoint utf8_bytes (s : string) : string :=
  match s with
  | EmptyString => EmptyString
  | String c s =>
      let n := N_of_ascii c in
      if (n <? 128)%N then String c (utf8_bytes s)
      else String (ascii_of_N (192 + n / 64)) (String (ascii_of_N (128 + n mod 64)) (utf8_bytes s))
  end.

Definition map_chars (f : ascii → ascii) : string → string :=
  fix go s := match s with EmptyString => EmptyString | String c s => String (f c) (go s) end.
Definition to_url (c : ascii) : ascii := if Ascii.eqb c "+" then "-" else if Ascii.eqb c "/" then "_" else c.
Definition of_url (c : ascii) : ascii := if Ascii.eqb c "-" then "+" else if Ascii.eqb c "_" then "/" else c.

Definition encode (name : string) : string := map_chars to_url (b64encode name).

Definition invalid_entry : exn := FileError "invalid_entry" "The entry name is invalid.".
Definition decode (name : string) : res string :=
  raise_if (340 <? String.length name)%nat invalid_entry ;;
  value ← some_or (b64decode (map_chars of_url name)) invalid_entry;
  raise_if (bool_decide (value = EmptyString) || (255 <? String.length value)%nat || bool_decide (value = ".")
            || bool_decide (value = "..") || contains_char "/" value || contains_char "000" value) invalid_entry ;;
  Ok value.

Definition reserved_name : exn := FileError "invalid_name" "This name is reserved for transfer state.".
Definition new_name (value : string) : res string :=
  let raw := utf8_bytes value in
  decode (encode raw) ;;
  raise_if (starts_with RESERVED raw) reserved_name ;;
  Ok raw.

Definition transfer_name (name : string) (name_b64 : option string) : res string :=
  raw ← (match name_b64 with
         | Some b => if bool_decide (b = EmptyString) then new_name name else decode b
         | None => new_name name
         end);
  raise_if (starts_with RESERVED raw) reserved_name ;;
  Ok raw.

Definition parts (r : reference) : res (list string) :=
  raise_if (64 <? length (rf_parts r))%nat (FileError "invalid_entry" "The entry reference is invalid.") ;;
  result ← mapM decode (rf_parts r);
  raise_if (existsb (starts_with RESERVED) result
            || (4096 <? list_sum (map String.length result) + length result)%nat)
    (FileError "invalid_entry" "The entry path is invalid.") ;;
  Ok result.

(** ** Acquisition *)

Definition unsupported_lookup : exn := FileError "files_unavailable" "The kernel does not support safe file lookup.".
Definition lookup_error (e : errno) : exn :=
  if bool_decide (e = ENOSYS) || bool_decide (e = EINVAL) then unsupported_lookup else os_error e.

(** [opened] beneath a directory, and of an absolute path. *)
Definition opened (parent : object) (path : list string) (how : access) : prog object :=
  Call (System (Walk parent path how)) (fun a => match a with inl e => raise (lookup_error e) | inr o => mret o end).
Definition opened_root (path : string) : prog object :=
  Call (System (Resolve path)) (fun a => match a with inl e => raise (lookup_error e) | inr o => mret o end).

Definition fstat (o : object) : prog stat := kernel (Fstat o).
Definition stat_at (dir : object) (name : string) : prog stat := kernel (StatAt dir name).

Definition root_fd (r : root) : prog object :=
  lift (raise_if (negb (starts_with "/" (rt_path r)) || contains_char "000" (rt_path r))
          (FileError "invalid_root" "The registered root is invalid.")) ;;
  fd ← opened_root (rt_path r);
  match rt_identity r with
  | Some i =>
      s ← fstat fd;
      lift (raise_if (negb (same (identity_of s) i true)) (FileError "root_changed" "The registered directory was replaced.")) ;;
      mret fd
  | None => mret fd
  end.

Definition is_directory (i : identity) : bool := bool_decide (id_type i = Directory).

Definition entry_fd (r : root) (ref : reference) (how : access) : prog object :=
  path ← lift (parts ref);
  parent ← root_fd r;
  fd ← opened parent path how;
  s ← fstat fd;
  let current := identity_of s in
  lift (raise_if (negb (same current (rf_identity ref) (is_directory current)))
          (FileError "stale_entry" "The selected entry changed. Refresh the directory.")) ;;
  mret fd.

Definition checked_at (parent : object) (name : string) (expected : identity) : prog identity :=
  s ← stat_at parent name;
  lift (raise_if (negb (same (identity_of s) expected false))
          (FileError "stale_entry" "The selected entry changed. Refresh the directory.")) ;;
  mret (identity_of s).

Definition regular (s : stat) : res unit :=
  raise_if (negb (bool_decide (st_kind s = Regular))) (FileError "unsupported_file" "Select a regular file.").

Definition check_cancel : prog unit :=
  cancelled ← is_cancelled;
  lift (raise_if cancelled (FileError "interrupted" "File verification was interrupted.")).

(** The loop of [file_hash]: what was read so far. *)
Fixpoint read_all (fuel : nat) (fd : object) (size : Z) (value : list Z) : prog (list Z) :=
  let offset := Z.of_nat (length value) in
  match fuel with
  | O => mret value
  | S fuel =>
      if offset <? size then
        check_cancel ;;
        data ← kernel (Pread fd (Z.min CHUNK (size - offset)) offset);
        if bool_decide (data = []) then mret value else read_all fuel fd size (value ++ data)
      else mret value
  end.

Definition file_hash (fd : object) (expected : option identity) : prog string :=
  s ← fstat fd;
  let before := identity_of s in
  again ← fstat fd;
  lift (regular again) ;;
  lift (match expected with
        | Some e => raise_if (negb (same before e false)) (FileError "source_changed" "The source file changed.")
        | None => Ok tt
        end) ;;
  value ← read_all (Z.to_nat (id_size before)) fd (id_size before) [];
  after ← fstat fd;
  lift (raise_if (negb (same before (identity_of after) false)
                  || negb (Z.of_nat (length value) =? id_size before))
          (FileError "source_changed" "The source file changed during verification.")) ;;
  mret (hex (sha256 value)).

(** ** Manifests and reservations *)

Definition lower_hex (n : nat) (s : string) : bool := (String.length s =? n)%nat && all_chars is_hex s.

Definition manifest (m : manifest_value) : res unit :=
  raise_if (negb ((bool_decide (mf_algorithm m = "sha256") || bool_decide (mf_algorithm m = "sha256-chain-v1"))
                  && lower_hex 64 (mf_digest m)))
    (FileError "invalid_manifest" "Supply a supported source digest manifest.").

Definition chain_seed (size : Z) : list Z :=
  sha256 (bytes_of ("ficc-upload-v1:" +:+ print_int size +:+ ":" +:+ print_int CHUNK)).
Definition chain_next (previous chunk_digest : list Z) : list Z := sha256 (previous ++ chunk_digest).
Definition journal_bytes (size : Z) : Z := (size + CHUNK - 1) / CHUNK * 32.

Definition reserve_error (e : errno) : exn :=
  match e with
  | ENOSYS | EOPNOTSUPP | EINVAL => FileError "reservation_unavailable" "The destination cannot reserve file blocks safely."
  | ENOSPC | EDQUOT | EFBIG => FileError "disk_capacity" "The destination cannot reserve the requested capacity."
  | e => os_error e
  end.
Definition reserve (fd : object) (size : Z) : prog unit :=
  if size =? 0 then mret tt
  else Call (System (Allocate fd size)) (fun a => match a with inl e => raise (reserve_error e) | inr _ => mret tt end).

(** ** Receipts *)

Definition identifier (value : string) : res unit :=
  raise_if (negb (lower_hex 32 value)) (FileError "invalid_identity" "The operation identity is invalid.").

(** [load], [save]; the caller holds the namespace lock. *)
Definition load (id : string) : prog (option receipt) :=
  lift (identifier id) ;;
  known id ≫= fun there : bool => if there then r ← fetch id; mret (Some r) else mret None.

Definition save (id : string) (r : receipt) : prog unit :=
  lift (identifier id) ;;
  known id ≫= (fun there : bool =>
    if there then mret tt
    else n ← count;
         lift (raise_if (4096 <=? n) (FileError "capacity" "The retained file operation limit was reached."))) ;;
  write id r.
