(* ===== verification/FileTransfer.v ===== *)
(** * Transfers on their destination

    [node/ficc_node/file_transfer.py]: a transfer's bytes are kept in a private directory
    beside their destination, each chunk synced before the receipt counts it; the whole
    file is verified and then put in place by one atomic renaming. *)

From S2P Require Import Prelude Sha256 Json Posix FileAccess.

#[local] Open Scope Z_scope.

Definition set_state (t : transfer) (state : state) : transfer :=
  mkTransfer (tr_id t) (tr_digest t) (tr_root_id t) (tr_parent t) (tr_name t) (tr_name_b64 t) (tr_export t)
    (tr_cleanup_pending t) (tr_prepared t) (tr_expected t) (tr_size t) (tr_offset t) (tr_sha256 t)
    (tr_prefix_sha256 t) (tr_source_manifest t) (tr_source_identity t) (tr_free_bytes t) state (tr_stage t)
    (tr_committed_identity t) (tr_published_identity t) (tr_reserved_bytes t).

Definition set_prepared (t : transfer) (prepared : option bool) : transfer :=
  mkTransfer (tr_id t) (tr_digest t) (tr_root_id t) (tr_parent t) (tr_name t) (tr_name_b64 t) (tr_export t)
    (tr_cleanup_pending t) prepared (tr_expected t) (tr_size t) (tr_offset t) (tr_sha256 t) (tr_prefix_sha256 t)
    (tr_source_manifest t) (tr_source_identity t) (tr_free_bytes t) (tr_state t) (tr_stage t)
    (tr_committed_identity t) (tr_published_identity t) (tr_reserved_bytes t).

Definition set_reserved (t : transfer) (reserved : option Z) : transfer :=
  mkTransfer (tr_id t) (tr_digest t) (tr_root_id t) (tr_parent t) (tr_name t) (tr_name_b64 t) (tr_export t)
    (tr_cleanup_pending t) (tr_prepared t) (tr_expected t) (tr_size t) (tr_offset t) (tr_sha256 t)
    (tr_prefix_sha256 t) (tr_source_manifest t) (tr_source_identity t) (tr_free_bytes t) (tr_state t)
    (tr_stage t) (tr_committed_identity t) (tr_published_identity t) reserved.

Definition set_offset (t : transfer) (offset : Z) : transfer :=
  mkTransfer (tr_id t) (tr_digest t) (tr_root_id t) (tr_parent t) (tr_name t) (tr_name_b64 t) (tr_export t)
    (tr_cleanup_pending t) (tr_prepared t) (tr_expected t) (tr_size t) offset (tr_sha256 t) (tr_prefix_sha256 t)
    (tr_source_manifest t) (tr_source_identity t) (tr_free_bytes t) (tr_state t) (tr_stage t)
    (tr_committed_identity t) (tr_published_identity t) (tr_reserved_bytes t).

Definition set_prefix (t : transfer) (prefix : option string) : transfer :=
  mkTransfer (tr_id t) (tr_digest t) (tr_root_id t) (tr_parent t) (tr_name t) (tr_name_b64 t) (tr_export t)
    (tr_cleanup_pending t) (tr_prepared t) (tr_expected t) (tr_size t) (tr_offset t) (tr_sha256 t) prefix
    (tr_source_manifest t) (tr_source_identity t) (tr_free_bytes t) (tr_state t) (tr_stage t)
    (tr_committed_identity t) (tr_published_identity t) (tr_reserved_bytes t).

Definition set_sha256 (t : transfer) (sha : option string) : transfer :=
  mkTransfer (tr_id t) (tr_digest t) (tr_root_id t) (tr_parent t) (tr_name t) (tr_name_b64 t) (tr_export t)
    (tr_cleanup_pending t) (tr_prepared t) (tr_expected t) (tr_size t) (tr_offset t) sha (tr_prefix_sha256 t)
    (tr_source_manifest t) (tr_source_identity t) (tr_free_bytes t) (tr_state t) (tr_stage t)
    (tr_committed_identity t) (tr_published_identity t) (tr_reserved_bytes t).

Definition set_committed (t : transfer) (committed : option identity) : transfer :=
  mkTransfer (tr_id t) (tr_digest t) (tr_root_id t) (tr_parent t) (tr_name t) (tr_name_b64 t) (tr_export t)
    (tr_cleanup_pending t) (tr_prepared t) (tr_expected t) (tr_size t) (tr_offset t) (tr_sha256 t)
    (tr_prefix_sha256 t) (tr_source_manifest t) (tr_source_identity t) (tr_free_bytes t) (tr_state t)
    (tr_stage t) committed (tr_published_identity t) (tr_reserved_bytes t).

Definition set_published (t : transfer) (published : option identity) : transfer :=
  mkTransfer (tr_id t) (tr_digest t) (tr_root_id t) (tr_parent t) (tr_name t) (tr_name_b64 t) (tr_export t)
    (tr_cleanup_pending t) (tr_prepared t) (tr_expected t) (tr_size t) (tr_offset t) (tr_sha256 t)
    (tr_prefix_sha256 t) (tr_source_manifest t) (tr_source_identity t) (tr_free_bytes t) (tr_state t)
    (tr_stage t) (tr_committed_identity t) published (tr_reserved_bytes t).

Definition set_cleanup (t : transfer) (pending : option bool) : transfer :=
  mkTransfer (tr_id t) (tr_digest t) (tr_root_id t) (tr_parent t) (tr_name t) (tr_name_b64 t) (tr_export t)
    pending (tr_prepared t) (tr_expected t) (tr_size t) (tr_offset t) (tr_sha256 t) (tr_prefix_sha256 t)
    (tr_source_manifest t) (tr_source_identity t) (tr_free_bytes t) (tr_state t) (tr_stage t)
    (tr_committed_identity t) (tr_published_identity t) (tr_reserved_bytes t).

Definition TERMINAL (s : state) : bool := bool_decide (s = Succeeded) || bool_decide (s = Cancelled).

(** [job_state.digest] of the request's root and specification. *)
Definition kind_format (k : kind) : Z :=
  match k with Regular => 32768 | Directory => 16384 | Symlink => 40960 | Special f => f end.
Definition identity_json (i : identity) : json :=
  JObj [("dev", JInt (id_dev i)); ("ino", JInt (id_ino i)); ("type", JInt (kind_format (id_type i)));
        ("size", JInt (id_size i)); ("mtime_ns", JInt (id_mtime_ns i)); ("ctime_ns", JInt (id_ctime_ns i))].
Definition opt_json {A} (f : A → json) (o : option A) : json := match o with Some a => f a | None => JNull end.
Definition opt_field {A} (key : string) (f : A → json) (o : option A) : list (string * json) :=
  match o with Some a => [(key, f a)] | None => [] end.
Definition reference_json (r : reference) : json :=
  JObj ([("parts", JArr (map JStr (rf_parts r))); ("identity", identity_json (rf_identity r))]
        ++ opt_field "parent" identity_json (rf_parent r)).
Definition root_json (r : root) : json :=
  JObj ([("id", JStr (rt_id r)); ("path", JStr (rt_path r))] ++ opt_field "identity" identity_json (rt_identity r)
        ++ opt_field "read_only" JBool (rt_read_only r) ++ opt_field "export" JBool (rt_export r) ++ rt_rest r).
Definition manifest_json (m : manifest_value) : json :=
  JObj [("algorithm", JStr (mf_algorithm m)); ("digest", JStr (mf_digest m))].
Definition spec_json (s : spec) : json :=
  JObj [("parent", reference_json (sp_parent s)); ("name", JStr (sp_name s));
        ("name_b64", opt_json JStr (sp_name_b64 s)); ("size", JInt (sp_size s));
        ("expected", opt_json identity_json (sp_expected s));
        ("source_manifest", opt_json manifest_json (sp_source_manifest s));
        ("source_identity", sp_source_identity s)].
Definition signature (r : root) (s : spec) : string :=
  hex (sha256 (bytes_of (encoded (JObj [("root", root_json r); ("spec", spec_json s)])))).

(** [request.get ("limits", {})]: a field may be missing; [retained_bytes] may be null. *)
Record limits := mkLimits { lm_retained_bytes : option (option Z); lm_free_bytes : option Z }.

Inductive action :=
| Begin (s : spec) (l : limits) (prepare : bool)
| WriteChunk (offset : Z) (sha256 : option string)
| Resume
| Commit (sha256 : option string)
| Cancel (discard_partial : bool)
| Status
| Verify
| Unsupported.

Record request := mkRequest { rq_controller_id : string; rq_root : root; rq_transfer_id : string; rq_action : action }.

(** [summary]. *)
Record Summary := mkSummary {
  sm_id : string; sm_state : state; sm_size : Z; sm_offset : Z; sm_sha256 : option string;
  sm_prefix_sha256 : option string; sm_cleanup_pending : option bool; sm_published_identity : option identity;
  sm_reserved_bytes : option Z }.
Definition summary (t : transfer) : Summary :=
  mkSummary (tr_id t) (tr_state t) (tr_size t) (tr_offset t) (tr_sha256 t) (tr_prefix_sha256 t) (tr_cleanup_pending t)
    (tr_published_identity t) (tr_reserved_bytes t).

Definition keep (t : transfer) : prog unit := save (tr_id t) (OfTransfer t).

(** [with stage (root, record) as (parent, folder)]. *)
Definition stage (r : root) (t : transfer) : prog (object * object) :=
  parent ← entry_fd r (tr_parent t) ForDirectory;
  fd ← opened parent [tr_stage t] ForDirectory;
  info ← fstat fd;
  lift (raise_if (negb (st_owned info) || negb (st_mode info =? 448))
          (FileError "invalid_partial" "The partial directory is not private.")) ;;
  mret (parent, fd).

(** ** Preparation *)

Definition is_prepared (t : transfer) : bool :=
  default (negb (bool_decide (tr_state t = Preparing))) (tr_prepared t).

Definition unprepared_changed : exn := FileError "invalid_partial" "The unprepared partial file changed.".

(** One file of the stage: created, or found empty and private; reserved and synced. *)
Definition reserve_file (t : transfer) (name : string) (fd : object) : prog unit :=
  info ← fstat fd;
  lift (regular info) ;;
  lift (raise_if (negb (st_size info =? 0) || negb (st_owned info) || negb (st_nlink info =? 1)
                  || negb (st_mode info =? 384)) unprepared_changed) ;;
  let required := if bool_decide (name = "data") then tr_size t else journal_bytes (tr_size t) in
  available ← kernel (Space fd);
  lift (raise_if (available <? Z.max 0 (required - st_blocks info * 512) + default (256 * 1024 ^ 2) (tr_free_bytes t))
          (FileError "disk_capacity" "The destination lacks reserved free space.")) ;;
  reserve fd required ;;
  kernel (Fsync fd).

Definition prepare_file (t : transfer) (folder : object) (name : string) : prog unit :=
  fd ← catch (kernel (Create folder name))
             (fun e => if is_exists e then opened folder [name] ForWrite else raise e);
  reserve_file t name fd.

Definition prepare (r : root) (t : transfer) : prog transfer :=
  if is_prepared t || TERMINAL (tr_state t) || bool_decide (tr_state t = Discarding) then mret t
  else
    parent ← entry_fd r (tr_parent t) ForDirectory;
    catch (kernel (Mkdir parent (tr_stage t))) (fun e => if is_exists e then mret tt else raise e) ;;
    kernel (Fsync parent) ;;
    '(_, folder) ← stage r t;
    prepare_file t folder "data" ;;
    prepare_file t folder "chunks" ;;
    kernel (Fsync folder) ;;
    let t := set_reserved (set_prepared (set_state t Running) (Some true))
               (Some (tr_size t + journal_bytes (tr_size t))) in
    keep t ;;
    mret t.

(** ** Discarding *)

Definition discard_file (folder : object) (name : string) : prog unit :=
  info ← catch (s ← stat_at folder name; mret (Some s))
               (fun e => if is_not_found e then mret None else raise e);
  match info with
  | None => mret tt
  | Some info =>
      lift (regular info) ;;
      lift (raise_if (negb (st_owned info) || negb (st_nlink info =? 1))
              (FileError "invalid_partial" "The retained partial file changed.")) ;;
      kernel (Unlink folder name)
  end.

Definition discard (r : root) (t : transfer) : prog transfer :=
  let t := set_state t Discarding in
  keep t ;;
  catch ('(parent, folder) ← stage r t;
         discard_file folder "data" ;;
         discard_file folder "chunks" ;;
         kernel (Fsync folder) ;;
         kernel (Rmdir parent (tr_stage t)) ;;
         kernel (Fsync parent))
        (fun e => if is_not_found e then mret tt else raise e) ;;
  let t := set_state t Cancelled in
  keep t ;;
  mret t.

(** ** Admission *)

Definition truthy (b : option bool) : bool := default false b.

(** What a receipt counts against the quota: the file and what it is to replace. *)
Definition replaced_size (i : option identity) : Z := match i with Some i => id_size i | None => 0 end.
Definition active (r : receipt) : bool :=
  match r with
  | OfTransfer t => negb (TERMINAL (tr_state t)) || truthy (tr_cleanup_pending t)
                    || (tr_export t && bool_decide (tr_state t = Succeeded))
  | OfAction _ => false
  end.
Definition charge (r : receipt) : Z :=
  match r with OfTransfer t => tr_size t + replaced_size (tr_expected t) | OfAction _ => 0 end.

Definition retained_quota (l : limits) : option Z := default (Some (64 * 1024 ^ 3)) (lm_retained_bytes l).
Definition free_margin (l : limits) : Z := default (256 * 1024 ^ 2) (lm_free_bytes l).

Definition begin_capacity (s : spec) (l : limits) (items : list receipt) : res unit :=
  let counted := List.filter active items in
  let reserved := sumZ charge counted in
  let quota := retained_quota l in
  raise_if (match quota with Some q => q <? 0 | None => false end || (free_margin l <? 0))
    (FileError "invalid_limits" "The transfer capacity settings are invalid.") ;;
  raise_if ((64 <=? length counted)%nat
            || match quota with Some q => q <? reserved + sp_size s + replaced_size (sp_expected s) | None => false end)
    (FileError "capacity" "The retained partial-file quota is full.").

Definition destination_changed : exn := FileError "destination_changed" "The destination changed. Create a new preview.".

(** A new transfer: its receipt is kept before anything is made. *)
Definition begin_new (q : request) (s : spec) (l : limits) : prog transfer :=
  let r := rq_root q in
  items ← scan;
  lift (begin_capacity s l items) ;;
  lift (raise_if (truthy (rt_read_only r)) (FileError "read_only" "This root is read-only.")) ;;
  parent ← entry_fd r (sp_parent s) ForDirectory;
  available ← kernel (Space parent);
  lift (raise_if (available <? sp_size s + journal_bytes (sp_size s) + free_margin l)
          (FileError "disk_capacity" "The destination lacks reserved free space.")) ;;
  name ← lift (transfer_name (sp_name s) (sp_name_b64 s));
  destination ← catch (i ← stat_at parent name; mret (Some (identity_of i)))
                      (fun e => if is_not_found e then mret None else raise e);
  lift (raise_if (negb (bool_decide (destination = sp_expected s))
                  || match destination with Some d => negb (bool_decide (id_type d = Regular)) | None => false end)
          destination_changed) ;;
  let t := mkTransfer (rq_transfer_id q) (signature r s) (rt_id r) (sp_parent s) (sp_name s) (sp_name_b64 s)
             (truthy (rt_export r)) (Some false) (Some false) destination (sp_size s) 0 None None
             (sp_source_manifest s) (sp_source_identity s) (Some (free_margin l)) Preparing
             (".ficc-transfer-" +:+ rq_transfer_id q) None None None in
  keep t ;;
  mret t.

Definition conflict : exn := FileError "idempotency_conflict" "The transfer identity is already in use.".

Definition begin (q : request) (s : spec) (l : limits) (prepared : bool) : prog transfer :=
  lift (raise_if (negb ((0 <=? sp_size s) && (sp_size s <=? MAX_FILE)))
          (FileError "file_limit" "The file size is outside the filesystem offset range.")) ;;
  lift (match sp_source_manifest s with Some m => manifest m | None => Ok tt end) ;;
  previous ← load (rq_transfer_id q);
  t ← (match previous with
       | Some (OfTransfer t) => if bool_decide (tr_digest t = signature (rq_root q) s) then mret t else raise conflict
       | Some (OfAction _) => raise conflict
       | None => begin_new q s l
       end);
  if prepared then prepare (rq_root q) t else mret t.

(** ** Chunks *)

(** [while written < len (data): written += os.pwrite (fd, data[written:], offset + written)]. *)
Fixpoint write_all (fuel : nat) (fd : object) (data : list Z) (offset : Z) : prog unit :=
  match fuel, data with
  | _, [] => mret tt
  | O, _ => mret tt
  | S fuel, _ =>
      n ← kernel (Pwrite fd data offset);
      write_all fuel fd (drop (Z.to_nat n) data) (offset + n)
  end.

Definition reservation (t : transfer) : bool := match tr_reserved_bytes t with Some n => negb (n =? 0) | None => false end.

Definition write_chunk (q : request) (offset : Z) (sha : option string) (data : list Z) (t : transfer) : prog transfer :=
  lift (raise_if ((offset <? 0) || negb (offset mod CHUNK =? 0) || (tr_offset t <? offset))
          (FileError "invalid_offset" "The chunk offset is invalid.")) ;;
  lift (raise_if (negb (Z.of_nat (length data) =? Z.min CHUNK (tr_size t - offset)) || bool_decide (data = []))
          (FileError "invalid_chunk" "The chunk length is invalid.")) ;;
  let hashed := sha256 data in
  lift (raise_if (negb (bool_decide (sha = Some (hex hashed))))
          (FileError "digest_mismatch" "The chunk digest does not match.")) ;;
  lift (raise_if (negb (bool_decide (tr_state t = Running)))
          (FileError "transfer_state" "This transfer does not accept chunks.")) ;;
  '(_, folder) ← stage (rq_root q) t;
  fd ← opened folder ["data"] ForWrite;
  journal ← opened folder ["chunks"] ForWrite;
  if offset <? tr_offset t then
    there ← kernel (Pread fd (Z.of_nat (length data)) offset);
    known ← (if bool_decide (there = data) then kernel (Pread journal 32 (offset / CHUNK * 32)) else mret []);
    lift (raise_if (negb (bool_decide (there = data)) || negb (bool_decide (known = hashed)))
            (FileError "source_changed" "The selected source does not match the accepted prefix.")) ;;
    mret t
  else
    (if reservation t then mret tt
     else kernel (Truncate fd offset) ;; kernel (Truncate journal (offset / CHUNK * 32))) ;;
    write_all (length data) fd data offset ;;
    kernel (Fsync fd) ;;
    n ← kernel (Pwrite journal hashed (offset / CHUNK * 32));
    lift (raise_if (negb (n =? 32)) (OSError "Incomplete chunk journal write.")) ;;
    kernel (Fsync journal) ;;
    let t := set_offset t (tr_offset t + Z.of_nat (length data)) in
    keep t ;;
    mret t.

(** ** Verification *)

(** [range (0, expected, CHUNK)]. *)
Definition offsets (expected : Z) : list Z :=
  map (fun i => Z.of_nat i * CHUNK) (seq 0 (Z.to_nat ((expected + CHUNK - 1) / CHUNK))).

Definition partial_changed : exn := FileError "partial_changed" "The retained partial file failed verification.".

Fixpoint verify_chunks (fd journal : object) (expected : Z) (positions : list Z) (read chained : list Z)
    : prog (list Z * list Z) :=
  match positions with
  | [] => mret (read, chained)
  | offset :: positions =>
      check_cancel ;;
      let size := Z.min CHUNK (expected - offset) in
      data ← kernel (Pread fd size offset);
      let chunk_digest := sha256 data in
      known ← (if Z.of_nat (length data) =? size then kernel (Pread journal 32 (offset / CHUNK * 32)) else mret []);
      lift (raise_if (negb (Z.of_nat (length data) =? size) || negb (bool_decide (chunk_digest = known))) partial_changed) ;;
      verify_chunks fd journal expected positions (read ++ data) (chain_next chained chunk_digest)
  end.

Definition source_differs : exn := FileError "source_changed" "The received file differs from the original source digest.".

(** [source["digest"] != (hashed if source["algorithm"] == "sha256" else chained)]. *)
Definition matches_manifest (m : option manifest_value) (read chained : list Z) : bool :=
  match m with
  | None => true
  | Some m => bool_decide (mf_digest m = (if bool_decide (mf_algorithm m = "sha256") then hex (sha256 read) else hex chained))
  end.

Definition verify_prefix (r : root) (t : transfer) : prog string :=
  check_cancel ;;
  '(_, folder) ← stage r t;
  fd ← opened folder ["data"] ForWrite;
  journal ← opened folder ["chunks"] ForWrite;
  let expected := tr_offset t in
  '(read, chained) ← verify_chunks fd journal expected (offsets expected) [] (chain_seed (tr_size t));
  lift (raise_if ((expected =? tr_size t) && negb (matches_manifest (tr_source_manifest t) read chained)) source_differs) ;;
  (if negb (reservation t) || (expected =? tr_size t)
   then kernel (Truncate fd expected) ;; kernel (Truncate journal (journal_bytes expected))
   else mret tt) ;;
  kernel (Fsync fd) ;;
  kernel (Fsync journal) ;;
  mret (hex (sha256 read)).

(** ** Publication *)

Definition rename_into (folder parent : object) (name : string) (exchange : bool) : prog unit :=
  kernel (Rename folder "data" parent name exchange).

(** The part of [commit] that is done once, from the running state. *)
Definition publish (q : request) (sha : option string) (t : transfer) (parent folder : object) (name : string)
    : prog transfer :=
  hashed ← verify_prefix (rq_root q) t;
  lift (raise_if (negb (bool_decide (sha = Some hashed)))
          (FileError "digest_mismatch" "Source and destination digests do not match.")) ;;
  fd ← opened folder ["data"] ForRead;
  info ← fstat fd;
  lift (regular info) ;;
  again ← fstat fd;
  let t := set_committed t (Some (identity_of again)) in
  kernel (Fsync fd) ;;
  (match tr_expected t with
   | Some expected => checked_at parent name expected ;; mret tt
   | None =>
       there ← catch (stat_at parent name ;; mret true) (fun e => if is_not_found e then mret false else raise e);
       lift (raise_if there (FileError "destination_changed" "A file now occupies the destination."))
   end) ;;
  check_cancel ;;
  let t := set_sha256 (set_state t Committing) (Some hashed) in
  keep t ;;
  rename_into folder parent name (match tr_expected t with Some _ => true | None => false end) ;;
  kernel (Fsync parent) ;;
  kernel (Fsync folder) ;;
  mret t.

Definition manual_recovery : exn := FileError "outcome_unknown" "The committed destination requires manual recovery.".
Definition displaced_retained : exn := FileError "outcome_unknown" "A displaced object was retained for recovery.".

Definition cleanup_stage (r : root) (t : transfer) : prog unit :=
  catch ('(parent, folder) ← stage r t;
         old ← catch (s ← stat_at folder "data"; mret (Some (identity_of s)))
                     (fun e => if is_not_found e then mret None else raise e);
         (match old with
          | None => mret tt
          | Some old =>
              lift (raise_if (match tr_expected t with Some e => negb (same old e true) | None => true end)
                      displaced_retained) ;;
              kernel (Unlink folder "data")
          end) ;;
         catch (kernel (Unlink folder "chunks")) (fun e => if is_not_found e then mret tt else raise e) ;;
         kernel (Fsync folder) ;;
         kernel (Rmdir parent (tr_stage t)) ;;
         kernel (Fsync parent))
        (fun e => if is_not_found e then mret tt else raise e).

Definition cleanup (r : root) (t : transfer) : prog transfer :=
  if truthy (tr_cleanup_pending t) then
    cleanup_stage r t ;;
    let t := set_cleanup t (Some false) in
    keep t ;;
    mret t
  else mret t.

(** [try: cleanup (...) except (OSError, FileError): pass]: the record in memory says that
    nothing is left once the files are gone, also when it could not be kept. *)
Definition is_file_error (e : exn) : bool :=
  match e with OSError _ | FileError _ _ => true | _ => false end.
Definition attempt {A} (p : prog A) (a : A) : prog A := catch p (fun e => if is_file_error e then mret a else raise e).

Definition cleanup_quietly (r : root) (t : transfer) : prog transfer :=
  if truthy (tr_cleanup_pending t) then
    attempt (cleanup_stage r t ;;
             let t := set_cleanup t (Some false) in
             attempt (keep t ;; mret t) t) t
  else mret t.

Definition identity_matches (i : identity) (o : option identity) : bool :=
  match o with Some e => same i e true | None => false end.

Definition confirm (q : request) (t : transfer) (parent folder : object) (name : string) : prog transfer :=
  fd ← opened parent [name] ForRead;
  info ← fstat fd;
  (if identity_matches (identity_of info) (tr_committed_identity t) then
     value ← file_hash fd None;
     lift (raise_if (negb (bool_decide (Some value = tr_sha256 t))) manual_recovery)
   else raise manual_recovery) ;;
  now ← fstat fd;
  let t := set_published t (Some (identity_of now)) in
  (match tr_expected t with
   | Some expected =>
       old ← stat_at folder "data";
       lift (raise_if (negb (same (identity_of old) expected true)) displaced_retained)
   | None => mret tt
   end) ;;
  let t := set_cleanup (set_state t Succeeded) (Some true) in
  keep t ;;
  mret t.

Definition commit (q : request) (sha : option string) (t : transfer) : prog transfer :=
  if bool_decide (tr_state t = Succeeded) then mret t
  else
    lift (raise_if (negb (tr_offset t =? tr_size t)
                    || negb (bool_decide (tr_state t = Running) || bool_decide (tr_state t = Committing)))
            (FileError "incomplete_transfer" "Receive and verify every chunk before commit.")) ;;
    '(parent, folder) ← stage (rq_root q) t;
    name ← lift (transfer_name (tr_name t) (tr_name_b64 t));
    t ← (if bool_decide (tr_state t = Running) then publish q sha t parent folder name else mret t);
    t ← confirm q t parent folder name;
    cleanup_quietly (rq_root q) t.

(** ** Dispatch *)

(** The discarding of a finished download. *)
Definition discard_export (r : root) (t : transfer) : prog transfer :=
  parent ← entry_fd r (tr_parent t) ForDirectory;
  name ← lift (transfer_name (tr_name t) (tr_name_b64 t));
  current ← stat_at parent name;
  lift (raise_if (negb (identity_matches (identity_of current) (tr_committed_identity t)))
          (FileError "source_changed" "The prepared download changed.")) ;;
  kernel (Unlink parent name) ;;
  kernel (Fsync parent) ;;
  let t := set_state t Cancelled in
  keep t ;;
  mret t.

Definition cancel (r : root) (discard_partial : bool) (t : transfer) : prog transfer :=
  if bool_decide (tr_state t = Committing) then
    raise (FileError "outcome_unknown" "Reconcile the commit before cleanup.")
  else if bool_decide (tr_state t = Succeeded) then
    t ← cleanup r t;
    if discard_partial && tr_export t then discard_export r t else mret t
  else if TERMINAL (tr_state t) then mret t
  else if discard_partial then discard r t
  else if bool_decide (tr_state t = Discarding) then mret t
  else
    let t := set_state (set_prepared t (Some (is_prepared t))) Interrupted in
    keep t ;;
    mret t.

Definition resume (r : root) (t : transfer) : prog transfer :=
  t ← prepare r t;
  lift (raise_if (negb (bool_decide (tr_state t = Running) || bool_decide (tr_state t = Interrupted)))
          (FileError "transfer_state" "The transfer cannot be resumed.")) ;;
  prefix ← verify_prefix r t;
  let t := set_state (set_prefix t (Some prefix)) Running in
  keep t ;;
  mret t.

Definition missing : exn := FileError "transfer_missing" "The transfer receipt is unavailable.".

(** [record.get ("root_id") != request["root"]["id"]]. *)
Definition own_record (q : request) (o : option receipt) : res transfer :=
  match o with
  | Some (OfTransfer t) => if bool_decide (tr_root_id t = rt_id (rq_root q)) then Ok t else Err missing
  | _ => Err missing
  end.

Definition perform (q : request) (data : list Z) (t : transfer) : prog transfer :=
  match rq_action q with
  | WriteChunk offset sha => write_chunk q offset sha data t
  | Resume => resume (rq_root q) t
  | Commit sha => commit q sha t
  | Cancel discard_partial => cancel (rq_root q) discard_partial t
  | Status => mret t
  | Verify => prefix ← verify_prefix (rq_root q) t; mret (set_prefix t (Some prefix))
  | Begin _ _ _ | Unsupported => raise (FileError "invalid_action" "The transfer action is unsupported.")
  end.

(** [dispatch], under the lock of the controller's namespace. *)
Definition dispatch (q : request) (data : list Z) : prog Summary :=
  lift (identifier (rq_controller_id q)) ;;
  lift (identifier (rt_id (rq_root q))) ;;
  match rq_action q with
  | Begin s l prepared => t ← begin q s l prepared; mret (summary t)
  | _ =>
      previous ← load (rq_transfer_id q);
      t ← lift (own_record q previous);
      t ← perform q data t;
      mret (summary t)
  end.
