(* ===== verification/TransferSystem.v ===== *)
(** * The destination of transfers as a whole

    The files and receipts of one controller's namespace, the request that holds its lock,
    and what may happen to them: requests in any order with any contents, calls that fail or
    write less than they were given, other programs, a killed helper and a loss of power. *)

From S2P Require Import Prelude Sha256 Json Posix FileAccess FileTransfer.

#[local] Open Scope Z_scope.

(** [w_older]: the receipt directories a loss of power may bring back, because a
    replacement was done but not synced. *)
Record world := mkWorld {
  w_files : files; w_receipts : gmap string receipt; w_older : list (gmap string receipt) }.

Definition with_files (w : world) (f : files) : world := mkWorld f (w_receipts w) (w_older w).

Definition unreadable : exn := ValueError "Job record exceeds the limit.".

(** [job_state.write]: the receipt is replaced and its directory synced; a failure leaves
    the old receipt, or, when only the sync failed, the new one. *)
Definition written (id : string) (r : receipt) (ch : choice) (w : world) : world * res unit :=
  let m := <[id := r]> (w_receipts w) in
  match ch_fault ch with
  | None => (mkWorld (w_files w) m [], Ok tt)
  | Some e => (if ch_late ch then mkWorld (w_files w) m (w_receipts w :: w_older w) else w, Err (os_error e))
  end.

Definition answer (c : call) (ch : choice) (w : world) : world * reply c :=
  match c return world * reply c with
  | System s => let r := sys s ch (w_files w) in (with_files w r.1, r.2)
  | Exists id => (w, bool_decide (is_Some (w_receipts w !! id)))
  | Count => (w, Z.of_nat (size (w_receipts w)))
  | Fetch id => (w, match ch_fault ch with
                    | Some _ => Err unreadable
                    | None => some_or (w_receipts w !! id) (os_error ENOENT)
                    end)
  | Write id r => written id r ch w
  | Scan => (w, match ch_fault ch with Some _ => Err unreadable | None => Ok (row_values (w_receipts w)) end)
  | IsCancelled => (w, negb (ch_number ch =? 0))
  end.

(** ** The system *)

(** [y_quota]: the administrators' bound on what a new transfer may find retained;
    [y_acked]: the chunks acknowledged while every receipt was on the disk. *)
Record system := mkSystem {
  y_world : world; y_quota : Z; y_running : option (request * list Z * prog Summary);
  y_acked : list (string * Z * list Z) }.

Definition with_world (y : system) (w : world) : system := mkSystem w (y_quota y) (y_running y) (y_acked y).

Definition acknowledgement (q : request) (data : list Z) (r : res Summary) (w : world) : list (string * Z * list Z) :=
  match rq_action q, r, w_older w with
  | WriteChunk offset _, Ok _, [] => [(rq_transfer_id q, offset, data)]
  | _, _, _ => []
  end.

Definition within_quota (y : system) (q : request) : Prop :=
  match rq_action q with
  | Begin _ l _ => ∃ n, retained_quota l = Some n ∧ n <= y_quota y
  | _ => True
  end.

Inductive moves : system → system → Prop :=
| moves_start y q data :
    y_running y = None → Forall is_byte data → within_quota y q →
    moves y (mkSystem (y_world y) (y_quota y) (Some (q, data, dispatch q data)) (y_acked y))
| moves_call y q data c k ch :
    y_running y = Some (q, data, Call c k) →
    let a := answer c ch (y_world y) in
    moves y (mkSystem a.1 (y_quota y) (Some (q, data, k a.2)) (y_acked y))
| moves_return y q data r :
    y_running y = Some (q, data, Return r) →
    moves y (mkSystem (y_world y) (y_quota y) None (y_acked y ++ acknowledgement q data r (y_world y)))
| moves_killed y : moves y (mkSystem (y_world y) (y_quota y) None (y_acked y))
| moves_others y f :
    others (w_files (y_world y)) f → moves y (with_world y (with_files (y_world y) f))
| moves_action y id digest :
    y_running y = None → w_receipts (y_world y) !! id = None →
    moves y (with_world y (mkWorld (w_files (y_world y)) (<[id := OfAction digest]> (w_receipts (y_world y)))
                             (w_receipts (y_world y) :: w_older (y_world y))))
| moves_power y f m :
    blackout (w_files (y_world y)) f → m ∈ w_receipts (y_world y) :: w_older (y_world y) →
    moves y (mkSystem (mkWorld f m []) (y_quota y) None (y_acked y)).

(** Before the first transfer: no receipts, and nobody uses the reserved names. *)
Record installed (y : system) : Prop := {
  in_receipts : w_receipts (y_world y) = ∅;
  in_older : w_older (y_world y) = [];
  in_quota : 0 <= y_quota y;
  in_running : y_running y = None;
  in_acked : y_acked y = [];
  in_private : f_private (w_files (y_world y)) = ∅;
  in_effects : f_effects (w_files (y_world y)) = [];
  in_names : ∀ d name o, reserved name = true → ¬ bound (w_files (y_world y)) d name o;
  in_there : ∀ d name o, bound (w_files (y_world y)) d name o → is_Some (f_inodes (w_files (y_world y)) !! o);
  in_roots : ∀ path o, f_roots (w_files (y_world y)) !! path = Some o → is_Some (f_inodes (w_files (y_world y)) !! o) }.

(** ** Running a request *)

(** The calls of a program with the kernel's choices, as far as they go. *)
Fixpoint play {A} (p : prog A) (chs : list choice) (w : world) : world * prog A :=
  match p, chs with
  | Call c k, ch :: chs => let a := answer c ch w in play (k a.2) chs a.1
  | p, _ => (w, p)
  end.

Lemma play_moves y q data p chs w' p' :
  y_running y = Some (q, data, p) → play p chs (y_world y) = (w', p') →
  rtc moves y (mkSystem w' (y_quota y) (Some (q, data, p')) (y_acked y)).
Proof.
  revert y p. induction chs as [|ch chs IH]; intros y p Hy H.
  { assert (H' : (y_world y, p) = (w', p')) by (destruct p; exact H). injection H' as <- <-.
    destruct y as [w qt r a]. cbn in *. subst r. reflexivity. }
  destruct p as [r|c k].
  { cbn [play] in H. injection H as <- <-. destruct y as [w qt r' a]. cbn in *. subst r'. reflexivity. }
  cbn [play] in H. eapply rtc_l; [eapply (moves_call y q data c k ch Hy)|].
  by apply (IH (mkSystem _ _ _ _) (k (answer c ch (y_world y)).2)).
Qed.
