(* ===== verification/TransferInv.v ===== *)
(** * What every moment of a transfer's destination satisfies

    The invariant of the files and receipts of [TransferSystem]: private objects stay where
    they were made; each transfer is before its stage, has the bytes its receipts count on
    the disk, or was put in place; every change others can see belongs to a transfer that
    had reached its commit.  And that a step of one transfer, of another program, or a loss
    of power keeps what it says of all the others. *)

From S2P Require Import Prelude Sha256 Json Posix FileAccess FileTransfer TransferSystem.

#[local] Open Scope Z_scope.

Definition stage_name (id : string) : string := ".ficc-transfer-" +:+ id.

(** ** Private objects *)

Record tidy (f : files) : Prop := {
  td_dom : ∀ o l, f_private f !! o = Some l → is_Some (f_inodes f !! o);
  td_public : ∀ d n o, f_private f !! d = None → reserved n = false → bound f d n o → f_private f !! o = None;
  td_top : ∀ d n o, f_private f !! d = None → reserved n = true → bound f d n o → f_private f !! o = Some n;
  td_inside : ∀ d l n o, f_private f !! d = Some l → bound f d n o → f_private f !! o = Some l ∨ f_private f !! o = None;
  td_home : ∀ o l d n d' n', f_private f !! o = Some l → bound f d n o → bound f d' n' o → d = d' ∧ n = n';
  td_there : ∀ d n o, bound f d n o → is_Some (f_inodes f !! o);
  td_roots : ∀ path o, f_roots f !! path = Some o → f_private f !! o = None ∧ is_Some (f_inodes f !! o);
  td_shape : ∀ o l i, f_private f !! o = Some l → f_inodes f !! o = Some i →
    i_owned i = true ∧ (i_kind i = Directory ∧ i_mode i = 448 ∨ i_kind i = Regular ∧ i_mode i = 384);
  td_plain : ∀ o l n x, f_private f !! o = Some l → i_kind <$> f_inodes f !! o = Some Regular → ¬ bound f o n x }.

(** Nothing public is named in the directories of a reserved name. *)
Definition clean (f : files) (s : string) : Prop :=
  ∀ d n o, f_private f !! d = Some s → bound f d n o → f_private f !! o = Some s.

(** The object that a file displaced may be named there. *)
Definition clean_but (f : files) (s : string) : Prop :=
  ∀ d n o, f_private f !! d = Some s → bound f d n o → f_private f !! o = Some s ∨ n = "data".

(** ** The bytes of a transfer *)

Definition zlen {A} (l : list A) : Z := Z.of_nat (length l).

(** The digests of the chunks of [c]. *)
Definition journal_of (c : list Z) : list Z :=
  flat_map (fun offset => sha256 (slice c offset (Z.min CHUNK (zlen c - offset)))) (offsets (zlen c)).

(** [verify_prefix]'s chained digest. *)
Definition chain_of (size : Z) (c : list Z) : list Z :=
  fold_left chain_next
    (map (fun offset => sha256 (slice c offset (Z.min CHUNK (zlen c - offset)))) (offsets (zlen c))) (chain_seed size).

(** A file whose first bytes are [c], also after a loss of power. *)
Definition holds (f : files) (o : object) (c : list Z) : Prop :=
  ∃ i, f_inodes f !! o = Some i ∧ i_kind i = Regular ∧ c `prefix_of` i_data i ∧ c `prefix_of` i_disk i.

Record staged (f : files) (s : string) (P F D J : object) : Prop := {
  sg_top : names_of f P !! s = Some F ∧ disk_names_of f P !! s = Some F;
  sg_device : F.1 = P.1 ∧ D.1 = F.1 ∧ J.1 = F.1;
  sg_parent : f_private f !! P ≠ Some s;
  sg_folder : f_private f !! F = Some s;
  sg_kind : i_kind <$> f_inodes f !! F = Some Directory;
  sg_data : names_of f F !! "data" = Some D ∧ disk_names_of f F !! "data" = Some D;
  sg_chunks : names_of f F !! "chunks" = Some J ∧ disk_names_of f F !! "chunks" = Some J;
  sg_private : f_private f !! D = Some s ∧ f_private f !! J = Some s }.

Definition stored (f : files) (s : string) (P : object) (c : list Z) : Prop :=
  ∃ F D J, staged f s P F D J ∧ holds f D c ∧ holds f J (journal_of c).

(** [Stored P n c]: beneath [P], of the [n] bytes of the file the first are [c]. *)
Inductive phase := Fresh | Stored (P : object) (n : Z) (c : list Z) | Published (c : list Z).

Definition physical (f : files) (s : string) (ph : phase) : Prop :=
  match ph with
  | Fresh => clean f s
  | Stored P _ c => clean f s ∧ stored f s P c
  | Published c => clean_but f s ∧ ∃ d n o x, Renamed (Some s) d n o c x ∈ f_effects f
  end.

(** ** Receipts *)

Definition parent_of (t : transfer) : object := object_of (rf_identity (tr_parent t)).
Definition name_of (t : transfer) : res string := transfer_name (tr_name t) (tr_name_b64 t).

Record wf_transfer (id : string) (t : transfer) : Prop := {
  wt_id : tr_id t = id;
  wt_stage : tr_stage t = stage_name id;
  wt_offset : 0 <= tr_offset t <= tr_size t;
  wt_aligned : tr_offset t = tr_size t ∨ tr_offset t mod CHUNK = 0;
  wt_charge : 0 <= replaced_size (tr_expected t);
  wt_prepared : ∃ b, tr_prepared t = Some b;
  wt_state : tr_state t = Preparing → tr_prepared t = Some false;
  wt_prepared_state : tr_state t = Running ∨ tr_state t = Committing ∨ tr_state t = Succeeded → tr_prepared t = Some true }.

(** The acknowledged chunks of a transfer. *)
Definition acks (A : list (string * Z * list Z)) (id : string) : list (Z * list Z) :=
  map (fun x => (x.1.2, x.2)) (List.filter (fun x => bool_decide (x.1.1 = id)) A).

Definition acked_in (A : list (Z * list Z)) (size : Z) (c : list Z) : Prop :=
  ∀ o d, (o, d) ∈ A → 0 <= o ∧ o + zlen d <= size ∧ slice c o (zlen d) = d.

Record complete (A : list (Z * list Z)) (t : transfer) (c : list Z) : Prop := {
  cp_length : zlen c = tr_size t;
  cp_offset : tr_offset t = tr_size t;
  cp_sha : tr_sha256 t = Some (hex (sha256 c));
  cp_source : matches_manifest (tr_source_manifest t) c (chain_of (tr_size t) c) = true;
  cp_acked : acked_in A (tr_size t) c }.

(** The renaming that put a transfer's file in place. *)
Definition placed (f : files) (id : string) (t : transfer) (c : list Z) : Prop :=
  ∃ i n x, tr_committed_identity t = Some i ∧ name_of t = Ok n
    ∧ Renamed (Some (stage_name id)) (parent_of t) n (object_of i) c x ∈ f_effects f.

Definition fits (f : files) (id : string) (A : list (Z * list Z)) (ph : phase) (t : transfer) : Prop :=
  match tr_state t with
  | Cancelled => True
  | Discarding => match ph with Published _ => False | _ => True end
  | Preparing => tr_offset t = 0 ∧ A = [] ∧ match ph with Published _ => False | _ => True end
  | Running | Interrupted =>
      match tr_prepared t, ph with
      | Some true, Stored P n c =>
          parent_of t = P ∧ tr_size t = n ∧ tr_offset t <= zlen c <= n ∧ acked_in A (tr_offset t) c
      | Some false, Published _ => False
      | Some false, _ => tr_offset t = 0 ∧ A = []
      | _, _ => False
      end
  | Committing =>
      match ph with
      | Fresh => False
      | Stored P n c => parent_of t = P ∧ tr_size t = n ∧ complete A t c
          ∧ ∃ i, tr_committed_identity t = Some i ∧ f_private f !! object_of i = Some (stage_name id)
      | Published c => complete A t c ∧ placed f id t c
      end
  | Succeeded => match ph with Published c => complete A t c ∧ placed f id t c | _ => False end
  end.

(** The receipt readers see counts all the bytes that are kept. *)
Definition exact (ph : phase) (t : transfer) : Prop :=
  match ph with
  | Stored P n c => tr_state t ≠ Cancelled ∧ tr_prepared t = Some true ∧ tr_offset t = zlen c ∧ parent_of t = P ∧ tr_size t = n
  | _ => True
  end.

Definition versions (w : world) : list (gmap string receipt) := w_receipts w :: w_older w.

Lemma versions_here w : w_receipts w ∈ versions w.
Proof. left. Qed.

(** What never changes in a transfer's receipts. *)
Record alike (t t' : transfer) : Prop := {
  al_parent : tr_parent t' = tr_parent t;
  al_name : name_of t' = name_of t;
  al_export : tr_export t' = tr_export t;
  al_expected : tr_expected t' = tr_expected t;
  al_size : tr_size t' = tr_size t;
  al_manifest : tr_source_manifest t' = tr_source_manifest t }.

Lemma alike_refl t : alike t t.
Proof. by split. Qed.

Lemma alike_sym t t' : alike t t' → alike t' t.
Proof. intros []. by split. Qed.

Lemma alike_trans t t' u : alike t t' → alike t' u → alike t u.
Proof. intros [] []. split; congruence. Qed.

Record id_at (A : list (Z * list Z)) (id : string) (w : world) (ph : phase) : Prop := {
  ia_physical : physical (w_files w) (stage_name id) ph;
  ia_fits : ∀ m t, m ∈ versions w → m !! id = Some (OfTransfer t) → wf_transfer id t ∧ fits (w_files w) id A ph t;
  ia_exact : ∀ t, w_receipts w !! id = Some (OfTransfer t) → exact ph t;
  ia_alike : ∀ m m' t t', m ∈ versions w → m' ∈ versions w →
    m !! id = Some (OfTransfer t) → m' !! id = Some (OfTransfer t') → alike t t' }.

(** ** Effects *)

Definition past (t : transfer) : Prop := tr_state t = Committing ∨ tr_state t = Succeeded ∨ tr_state t = Cancelled.

(** A receipt that explains an effect. *)
Definition explains (A : list (Z * list Z)) (id : string) (e : effect) (t : transfer) : Prop :=
  past t ∧
  match e with
  | Renamed _ d n _ c x =>
      parent_of t = d ∧ name_of t = Ok n ∧ complete A t c ∧ (is_Some x ↔ is_Some (tr_expected t))
  | Removed l d n o =>
      (n = "data" ∧ l = Some (stage_name id) ∧ object_of <$> tr_expected t = Some o)
      ∨ (tr_export t = true ∧ parent_of t = d ∧ name_of t = Ok n)
  | Truncated _ => True
  | Wrote _ | Made _ _ => False
  end.

Definition of_stage (e : effect) (id : string) : Prop :=
  match e with Renamed l _ _ _ _ _ => l = Some (stage_name id) | _ => True end.

Definition justified (A : list (string * Z * list Z)) (w : world) (e : effect) : Prop :=
  ∃ id, of_stage e id ∧
    ∀ m, m ∈ versions w → ∃ t, m !! id = Some (OfTransfer t) ∧ explains (acks A id) id e t.

(** ** The invariant *)

Definition counted (m : gmap string receipt) : list receipt := List.filter active (row_values m).

Record inv (Q : Z) (A : list (string * Z * list Z)) (w : world) : Prop := {
  iv_tidy : tidy (w_files w);
  iv_id : ∀ id, ∃ ph, id_at (acks A id) id w ph;
  iv_grow : ∀ id m, m ∈ versions w → is_Some (m !! id) → is_Some (w_receipts w !! id);
  iv_acked : ∀ id m, acks A id ≠ [] → m ∈ versions w → ∃ t, m !! id = Some (OfTransfer t);
  iv_effects : ∀ e, e ∈ f_effects (w_files w) → justified A w e;
  iv_quota : ∀ m, m ∈ versions w → (length (counted m) <= 64)%nat ∧ sumZ charge (counted m) <= Q }.

(** ** Chunks *)

Lemma CHUNK_pos : 0 < CHUNK.
Proof. reflexivity. Qed.

Lemma slice_length l o n : 0 <= o → 0 <= n → o + n <= zlen l → zlen (slice l o n) = n.
Proof. unfold slice, zlen. intros. rewrite length_take, length_drop. lia. Qed.

Lemma slice_app l l' o n : 0 <= o → o + n <= zlen l → slice (l ++ l') o n = slice l o n.
Proof.
  unfold slice, zlen. intros. destruct (Z.le_gt_cases n 0) as [?|?].
  { replace (Z.to_nat n) with 0%nat by lia. done. }
  rewrite drop_app_le by lia. rewrite take_app_le; [done|]. rewrite length_drop. lia.
Qed.

Lemma slice_prefix c l o n : c `prefix_of` l → 0 <= o → o + n <= zlen c → slice l o n = slice c o n.
Proof. intros [k ->]. apply slice_app. Qed.

Lemma slice_app_r l l' o n : o = zlen l → slice (l ++ l') o n = take (Z.to_nat n) l'.
Proof. intros ->. unfold slice, zlen. rewrite Nat2Z.id, drop_app_length. done. Qed.

Definition chunk_digest (c : list Z) (offset : Z) : list Z :=
  sha256 (slice c offset (Z.min CHUNK (zlen c - offset))).

Lemma journal_of_eq c : journal_of c = flat_map (chunk_digest c) (offsets (zlen c)).
Proof. reflexivity. Qed.

Definition nchunks (n : Z) : nat := Z.to_nat ((n + CHUNK - 1) / CHUNK).

Lemma nchunks_aligned n : 0 <= n → n mod CHUNK = 0 → Z.of_nat (nchunks n) = n / CHUNK.
Proof.
  pose proof CHUNK_pos. intros. unfold nchunks. rewrite Z2Nat.id by (apply Z.div_pos; lia).
  rewrite (Z.div_mod n CHUNK) at 1 by lia. rewrite H1, Z.add_0_r.
  replace (CHUNK * (n / CHUNK) + CHUNK - 1) with ((CHUNK - 1) + (n / CHUNK) * CHUNK) by lia.
  rewrite Z.div_add by lia. rewrite (Z.div_small (CHUNK - 1)) by lia. lia.
Qed.

Lemma nchunks_bound n i : 0 <= n → (i < nchunks n)%nat → Z.of_nat i * CHUNK < n.
Proof.
  pose proof CHUNK_pos. unfold nchunks. intros. assert (Z.of_nat i < (n + CHUNK - 1) / CHUNK) by lia.
  assert ((n + CHUNK - 1) / CHUNK * CHUNK <= n + CHUNK - 1) by (rewrite Z.mul_comm; apply Z.mul_div_le; lia). nia.
Qed.

Lemma offsets_eq n : offsets n = map (fun i => Z.of_nat i * CHUNK) (seq 0 (nchunks n)).
Proof. reflexivity. Qed.

(** The journal of the beginning of a file, up to a chunk's boundary. *)
Lemma chunk_digest_app c d i : 0 <= i → i + CHUNK <= zlen c → chunk_digest (c ++ d) i = chunk_digest c i.
Proof.
  pose proof CHUNK_pos. intros. unfold chunk_digest. f_equal. unfold zlen in *. rewrite length_app.
  rewrite !Z.min_l by lia. by apply slice_app.
Qed.

Lemma aligned_digests c d n : zlen c mod CHUNK = 0 → (n <= nchunks (zlen c))%nat →
  flat_map (chunk_digest (c ++ d)) (map (fun i => Z.of_nat i * CHUNK) (seq 0 n))
  = flat_map (chunk_digest c) (map (fun i => Z.of_nat i * CHUNK) (seq 0 n)).
Proof.
  pose proof CHUNK_pos as HC. intros Ha Hn. rewrite !flat_map_concat_map, !map_map. f_equal. apply map_ext_in. intros i Hi.
  apply in_seq in Hi. apply chunk_digest_app; [lia|].
  pose proof (nchunks_aligned (zlen c) ltac:(unfold zlen; lia) Ha). pose proof (Z.mul_div_le (zlen c) CHUNK HC). nia.
Qed.

Lemma journal_prefix c d : zlen c mod CHUNK = 0 → journal_of c `prefix_of` journal_of (c ++ d).
Proof.
  pose proof CHUNK_pos as HC. intros Ha. rewrite !journal_of_eq, !offsets_eq.
  assert (Hn : (nchunks (zlen c) <= nchunks (zlen (c ++ d)))%nat).
  { unfold nchunks, zlen. rewrite length_app. apply Z2Nat.inj_le; [apply Z.div_pos; lia..|apply Z.div_le_mono; lia]. }
  rewrite <- (aligned_digests c d) by (done || lia).
  replace (nchunks (zlen (c ++ d))) with (nchunks (zlen c) + (nchunks (zlen (c ++ d)) - nchunks (zlen c)))%nat by lia.
  rewrite seq_app, map_app, flat_map_app. by apply prefix_app_r.
Qed.

Lemma journal_take c k : zlen (take k c) mod CHUNK = 0 ∨ (length c ≤ k)%nat → journal_of (take k c) `prefix_of` journal_of c.
Proof.
  intros [H|H]; [|by rewrite take_ge]. rewrite <- (take_drop k c) at 2. by apply journal_prefix.
Qed.

(** One more chunk. *)
Lemma journal_snoc c d : zlen c mod CHUNK = 0 → 0 < zlen d <= CHUNK → journal_of (c ++ d) = journal_of c ++ sha256 d.
Proof.
  pose proof CHUNK_pos as HC. intros Ha Hd. rewrite !journal_of_eq, !offsets_eq.
  pose proof (nchunks_aligned (zlen c) ltac:(unfold zlen; lia) Ha) as Hc.
  assert (Hl : zlen (c ++ d) = zlen c + zlen d) by (unfold zlen; rewrite length_app; lia).
  assert (Hn : nchunks (zlen (c ++ d)) = S (nchunks (zlen c))).
  { unfold nchunks at 1. rewrite Hl. rewrite (Z.div_mod (zlen c) CHUNK) at 1 by lia. rewrite Ha, Z.add_0_r.
    replace (CHUNK * (zlen c / CHUNK) + zlen d + CHUNK - 1) with ((zlen d - 1) + (zlen c / CHUNK + 1) * CHUNK) by lia.
    rewrite Z.div_add, Z.div_small by lia. lia. }
  rewrite Hn, seq_S, map_app, flat_map_app, (aligned_digests c d) by (done || lia). f_equal.
  cbn [map flat_map app]. rewrite app_nil_r. unfold chunk_digest. f_equal. rewrite Nat.add_0_l, Hc, Hl.
  assert (E : zlen c / CHUNK * CHUNK = zlen c) by (pose proof (Z.div_mod (zlen c) CHUNK); lia).
  rewrite E, slice_app_r by done. apply take_ge. unfold zlen in *. lia.
Qed.

(** ** Stage names *)

Lemma stage_name_inj id id' : stage_name id = stage_name id' → id = id'.
Proof. unfold stage_name. cbn. intros [= H]. exact H. Qed.

(** ** Other programs *)

Lemma names_of_eq f f' d : f_inodes f' !! d = f_inodes f !! d →
  names_of f' d = names_of f d ∧ disk_names_of f' d = disk_names_of f d.
Proof. unfold names_of, disk_names_of. by intros ->. Qed.

Lemma bound_eq f f' d n o : f_inodes f' !! d = f_inodes f !! d → bound f' d n o ↔ bound f d n o.
Proof. intros H. unfold bound. by destruct (names_of_eq _ _ _ H) as [-> ->]. Qed.

(** Where a name of [f'] comes from when reserved names and private objects are kept. *)
Record kept (f f' : files) : Prop := {
  kp_discreet : discreet f f';
  kp_inside : ∀ d l n o, f_private f !! d = Some l → bound f' d n o → bound f d n o;
  kp_reserved : ∀ d n o, reserved n = true → bound f' d n o → bound f d n o;
  kp_shape : ∀ o l i', f_private f !! o = Some l → f_inodes f' !! o = Some i' →
    ∃ i, f_inodes f !! o = Some i ∧ i_kind i' = i_kind i ∧ i_owned i' = i_owned i ∧ i_mode i' = i_mode i }.

Lemma kept_bound f f' d n o l : tidy f → kept f f' → f_private f !! o = Some l → bound f' d n o → bound f d n o.
Proof.
  intros T K Ho Hb. destruct (f_private f !! d) as [l'|] eqn:Hd; [by eapply kp_inside|].
  destruct (reserved n) eqn:Hn; [by eapply kp_reserved|].
  pose proof (dc_public _ _ (kp_discreet _ _ K) d n o Hd Hn Hb). congruence.
Qed.

Lemma tidy_kept f f' : tidy f → kept f f' → tidy f'.
Proof.
  intros T K. pose proof (kp_discreet _ _ K) as C. split.
  - intros o l. rewrite (dc_private _ _ C). intros H. apply (dc_kept _ _ C), (td_dom _ T _ _ H).
  - intros d n o. rewrite (dc_private _ _ C). apply (dc_public _ _ C).
  - intros d n o. rewrite (dc_private _ _ C). intros Hd Hn Hb. apply (td_top _ T d n o Hd Hn), (kp_reserved _ _ K), Hb. done.
  - intros d l n o. rewrite (dc_private _ _ C). intros Hd Hb. apply (td_inside _ T d l n o Hd), (kp_inside _ _ K d l n o Hd Hb).
  - intros o l d n d' n'. rewrite (dc_private _ _ C). intros Ho H1 H2.
    apply (td_home _ T o l); [done|by apply (kept_bound f f' d n o l)|by apply (kept_bound f f' d' n' o l)].
  - apply (dc_there _ _ C).
  - intros path o. rewrite (dc_private _ _ C). apply (dc_roots _ _ C).
  - intros o l i'. rewrite (dc_private _ _ C). intros Ho Hi.
    destruct (kp_shape _ _ K o l i' Ho Hi) as (i & E & -> & -> & ->). by apply (td_shape _ T o l i).
  - intros o l n x. rewrite (dc_private _ _ C). intros Ho Hk Hb.
    destruct (f_inodes f' !! o) as [i'|] eqn:Hi; [|done]. destruct (kp_shape _ _ K o l i' Ho Hi) as (i & E & K1 & _ & _).
    apply (td_plain _ T o l n x Ho); [|by apply (kp_inside _ _ K o l n x Ho Hb)]. rewrite E. cbn in *. congruence.
Qed.

Lemma others_kept f f' : tidy f → others f f' → kept f f'.
Proof.
  intros T O. split; [apply O| | |].
  - intros d l n o Hd Hb. by apply (bound_eq f f' d n o (ot_objects _ _ O d l Hd)).
  - intros d n o Hn [Hb|Hb]; destruct (ot_reserved _ _ O d n Hn) as [E1 E2]; [left; by rewrite <- E1|right; by rewrite <- E2].
  - intros o l i' Ho. rewrite (ot_objects _ _ O o l Ho). intros Hi. by exists i'.
Qed.

Lemma torn_names i i' n o : torn i i' →
  i_names i' !! n = Some o ∨ i_disk_names i' !! n = Some o → i_names i !! n = Some o ∨ i_disk_names i !! n = Some o.
Proof. intros T. rewrite (tn_disk_names _ _ T). destruct (tn_names _ _ T n) as [E|E]; rewrite E; tauto. Qed.

Lemma bound_inode f d n o i : f_inodes f !! d = Some i →
  bound f d n o ↔ i_names i !! n = Some o ∨ i_disk_names i !! n = Some o.
Proof. intros H. unfold bound, names_of, disk_names_of. by rewrite H. Qed.

Lemma blackout_kept f f' : tidy f → blackout f f' → kept f f'.
Proof.
  intros T B. split; [apply B| | |].
  - intros d l n o Hd Hb. destruct (td_dom _ T d l Hd) as [i Hi]. destruct (bl_objects _ _ B d l i Hd Hi) as (i' & Hi' & R).
    apply (bound_inode _ _ _ _ _ Hi). apply (bound_inode _ _ _ _ _ Hi') in Hb. by apply (torn_names i i').
  - intros d n o Hn Hb. destruct (bl_reserved _ _ B d n Hn) as [E1 E2].
    assert (H : names_of f' d !! n = Some o) by (destruct Hb as [H|H]; [done|by rewrite <- E2]).
    destruct E1 as [E|E]; rewrite E in H; [by left|by right].
  - intros o l i' Ho Hi'. destruct (td_dom _ T o l Ho) as [i Hi]. destruct (bl_objects _ _ B o l i Ho Hi) as (j & Hj & R).
    rewrite Hi' in Hj. injection Hj as <-. exists i. by rewrite (tn_kind _ _ R), (tn_owned _ _ R), (tn_mode _ _ R).
Qed.

(** ** One state's facts about a reserved name, carried to the next *)

(** [f'] keeps the private objects and the reserved name [s] of [f], and their bytes. *)
Record layout (s : string) (f f' : files) : Prop := {
  cr_private : ∀ o, f_private f' !! o = Some s ↔ f_private f !! o = Some s;
  cr_bound : ∀ d n o, f_private f !! d = Some s → bound f' d n o → bound f d n o;
  cr_name : ∀ d n o, n = s ∨ f_private f !! d = Some s → names_of f d !! n = Some o → disk_names_of f d !! n = Some o →
    names_of f' d !! n = Some o ∧ disk_names_of f' d !! n = Some o;
  cr_kind : ∀ o, f_private f !! o = Some s → i_kind <$> f_inodes f' !! o = i_kind <$> f_inodes f !! o }.

Record carries (s : string) (f f' : files) : Prop := {
  cr_layout : layout s f f';
  cr_holds : ∀ o c, f_private f !! o = Some s → holds f o c → holds f' o c }.

Lemma clean_layout s f f' : layout s f f' → clean f s → clean f' s.
Proof. intros C H d n o Hd Hb. apply (cr_private _ _ _ C), (H d n), (cr_bound _ _ _ C); [by apply C..|done]. Qed.

Lemma clean_but_layout s f f' : layout s f f' → clean_but f s → clean_but f' s.
Proof.
  intros C H d n o Hd Hb. rewrite (cr_private _ _ _ C). apply (H d n); [by apply C|]. apply (cr_bound _ _ _ C); [by apply C|done].
Qed.

Lemma staged_layout s f f' P F D J : layout s f f' → staged f s P F D J → staged f' s P F D J.
Proof.
  intros C [[T1 T2] Dv Pa Fo K [D1 D2] [J1 J2] [PD PJ]]. split.
  - apply (cr_name _ _ _ C); [by left|done|done].
  - done.
  - by rewrite (cr_private _ _ _ C).
  - by apply (cr_private _ _ _ C).
  - by rewrite (cr_kind _ _ _ C).
  - apply (cr_name _ _ _ C); [by right|done|done].
  - apply (cr_name _ _ _ C); [by right|done|done].
  - split; by apply (cr_private _ _ _ C).
Qed.

Lemma stored_carries s f f' P c : carries s f f' → stored f s P c → stored f' s P c.
Proof.
  intros C (F & D & J & S & HD & HJ). exists F, D, J. pose proof (sg_private _ _ _ _ _ _ S) as [PD PJ].
  split; [by apply (staged_layout s f); [apply C|]|]. split; by apply (cr_holds _ _ _ C).
Qed.

Lemma physical_carries s f f' ph : carries s f f' → (∀ e, e ∈ f_effects f → e ∈ f_effects f') →
  physical f s ph → physical f' s ph.
Proof.
  intros C E. destruct ph as [|P n c|c]; cbn; [by apply clean_layout; apply C| |intros (H & d & n & o & x & ?)].
  2: { split; [by apply (clean_but_layout s f); [apply C|]|]. exists d, n, o, x. by apply E. }
  intros [H1 H2]. split; [by apply (clean_layout s f); [apply C|]|by apply (stored_carries s f)].
Qed.

Lemma holds_eq f f' o c : f_inodes f' !! o = f_inodes f !! o → holds f o c → holds f' o c.
Proof. unfold holds. by intros ->. Qed.

Lemma others_carries s f f' : tidy f → reserved s = true → others f f' → carries s f f'.
Proof.
  intros T Hs O. pose proof (dc_private _ _ (ot_discreet _ _ O)) as E. split; [split|].
  - by intros o; rewrite E.
  - intros d n o Hd. apply (kp_inside _ _ (others_kept _ _ T O) d s n o Hd).
  - intros d n o [->|Hd] H1 H2.
    + destruct (ot_reserved _ _ O d s Hs) as [-> ->]. done.
    + destruct (names_of_eq _ _ _ (ot_objects _ _ O d s Hd)) as [-> ->]. done.
  - intros o Ho. by rewrite (ot_objects _ _ O o s Ho).
  - intros o c Ho. apply holds_eq, (ot_objects _ _ O o s Ho).
Qed.

Lemma prefix_survives (c data disk data' : list Z) :
  c `prefix_of` data → c `prefix_of` disk →
  (∀ k b, data !! k = Some b → disk !! k = Some b → data' !! k = Some b) → c `prefix_of` data'.
Proof.
  intros H1 H2 H.
  assert (HL : ∀ k b, c !! k = Some b → data' !! k = Some b).
  { intros k b Hk. apply H; by eapply prefix_lookup_Some. }
  clear H H1 H2. revert data' HL. induction c as [|x c IH]; intros data' HL; [apply prefix_nil|].
  destruct data' as [|y data']; [by pose proof (HL 0%nat x eq_refl)|].
  pose proof (HL 0%nat x eq_refl) as [= ->]. apply prefix_cons, IH. intros k b Hk. apply (HL (S k) b Hk).
Qed.

Lemma blackout_carries s f f' : tidy f → reserved s = true → blackout f f' → carries s f f'.
Proof.
  intros T Hs B. pose proof (dc_private _ _ (bl_discreet _ _ B)) as E.
  assert (HI : ∀ o, f_private f !! o = Some s → ∃ i i', f_inodes f !! o = Some i ∧ f_inodes f' !! o = Some i' ∧ torn i i').
  { intros o Ho. destruct (td_dom _ T o s Ho) as [i Hi]. destruct (bl_objects _ _ B o s i Ho Hi) as (i' & ? & ?). by exists i, i'. }
  split; [split|].
  - by intros o; rewrite E.
  - intros d n o Hd. apply (kp_inside _ _ (blackout_kept _ _ T B) d s n o Hd).
  - intros d n o [->|Hd] H1 H2.
    + destruct (bl_reserved _ _ B d s Hs) as [[E1|E1] E2]; rewrite E2, E1; done.
    + destruct (HI d Hd) as (i & i' & Hi & Hi' & R). unfold names_of, disk_names_of in *. rewrite Hi in H1, H2. rewrite Hi'.
      rewrite (tn_disk_names _ _ R). destruct (tn_names _ _ R n) as [->| ->]; done.
  - intros o Ho. destruct (HI o Ho) as (i & i' & Hi & Hi' & R). rewrite Hi, Hi'. cbn. f_equal. apply R.
  - intros o c Ho (j & Hj & K & D1 & D2). destruct (HI o Ho) as (i & i' & Hi & Hi' & R). rewrite Hj in Hi. injection Hi as <-.
    exists i'. rewrite (tn_disk _ _ R), (tn_kind _ _ R).
    assert (c `prefix_of` i_data i') by (apply (prefix_survives c (i_data j) (i_disk j)); [done..|apply R]). done.
Qed.

(** ** Receipts under carried facts *)

Lemma fits_private f f' id A ph t :
  (∀ o, f_private f !! o = Some (stage_name id) → f_private f' !! o = Some (stage_name id)) →
  (∀ e, e ∈ f_effects f → e ∈ f_effects f') → fits f id A ph t → fits f' id A ph t.
Proof.
  intros C E. assert (HP : ∀ c, placed f id t c → placed f' id t c).
  { intros c (i & n & x & ? & ? & ?). exists i, n, x. eauto. }
  unfold fits. destruct (tr_state t), ph as [|P n c|c]; try done.
  - intros (? & ? & ? & i & ? & ?). split; [done|]. split; [done|]. split; [done|]. exists i. split; [done|]. by apply C.
  - intros [? ?]. eauto.
  - intros [? ?]. eauto.
Qed.

Lemma id_at_carries A id w f' ph : carries (stage_name id) (w_files w) f' →
  (∀ e, e ∈ f_effects (w_files w) → e ∈ f_effects f') → id_at A id w ph → id_at A id (with_files w f') ph.
Proof.
  intros C E [HP HF HX HL]. split; cbn [with_files w_files w_receipts].
  - by apply (physical_carries _ (w_files w)).
  - intros m t Hm Ht. destruct (HF m t Hm Ht) as [? ?]. split; [done|].
    apply (fits_private (w_files w)); [|done|done]. intros o. apply (cr_private _ _ _ (cr_layout _ _ _ C)).
  - done.
  - done.
Qed.

Lemma inv_others Q A w f' : inv Q A w → others (w_files w) f' → inv Q A (with_files w f').
Proof.
  intros [T HI HG HA HE HQ] O. pose proof (ot_discreet _ _ O) as C. split; cbn [with_files w_files w_receipts].
  - by apply (tidy_kept (w_files w)), (others_kept _ _ T).
  - intros id. destruct (HI id) as [ph H]. exists ph. apply id_at_carries; [by apply others_carries| |done].
    intros e. by rewrite (dc_effects _ _ C).
  - done.
  - done.
  - intros e. rewrite (dc_effects _ _ C). intros He. apply (HE e He).
  - done.
Qed.

(** ** A loss of power *)

Lemma stored_take f s P c k : zlen (take k c) mod CHUNK = 0 ∨ (length c ≤ k)%nat → stored f s P c → stored f s P (take k c).
Proof.
  intros Hk (F & D & J & S & (i & ? & ? & ? & ?) & (j & ? & ? & ? & ?)). exists F, D, J. split; [done|]. split.
  - exists i. split; [done|]. split; [done|]. split; (etrans; [apply prefix_take|done]).
  - exists j. split; [done|]. split; [done|]. split; (etrans; [by apply journal_take|done]).
Qed.

Lemma zlen_take (c : list Z) n : 0 <= n <= zlen c → zlen (take (Z.to_nat n) c) = n.
Proof. unfold zlen. intros. rewrite length_take. lia. Qed.

Lemma acked_in_take A n c : n <= zlen c → acked_in A n c → acked_in A n (take (Z.to_nat n) c).
Proof.
  intros Hn H o d Hd. destruct (H o d Hd) as (H0 & H1 & H2). split; [done|]. split; [done|].
  assert (0 <= zlen d) by (unfold zlen; lia).
  rewrite <- (slice_app (take (Z.to_nat n) c) (drop (Z.to_nat n) c)) by (try rewrite zlen_take; lia).
  by rewrite take_drop.
Qed.

(** The phase after a loss of power that leaves the receipt [t]. *)
Lemma stored_settles f id A P n c t : clean f (stage_name id) → stored f (stage_name id) P c →
  wf_transfer id t → fits f id A (Stored P n c) t →
  ∃ ph, physical f (stage_name id) ph ∧ fits f id A ph t ∧ exact ph t.
Proof.
  intros HC HS W HF. destruct (wt_prepared _ _ W) as [b Hb].
  destruct (decide (tr_state t = Cancelled)) as [Hc|Hc].
  { exists Fresh. unfold fits. by rewrite Hc. }
  destruct (decide (tr_state t = Discarding)) as [Hd|Hd].
  { exists Fresh. unfold fits. by rewrite Hd. }
  destruct b; last first.
  { exists Fresh. pose proof (wt_prepared_state _ _ W) as HP. unfold fits in *. rewrite Hb in *.
    destruct (tr_state t) eqn:Es; try done; try (assert (Some false = Some true) by auto; done).
    all: split; [done|]; split; [|done]; tauto. }
  exists (Stored P n (take (Z.to_nat (tr_offset t)) c)). pose proof (wt_offset _ _ W) as HO.
  assert (Hl : tr_size t = n ∧ tr_offset t <= zlen c <= n ∧ parent_of t = P).
  { unfold fits in HF. rewrite Hb in HF. destruct (tr_state t) eqn:Es; try tauto.
    - pose proof (wt_state _ _ W Es). congruence.
    - destruct HF as (? & ? & [? ?] & _). split; [done|]. split; [lia|done]. }
  destruct Hl as (Hn & Hl & HP).
  assert (Ht : zlen (take (Z.to_nat (tr_offset t)) c) = tr_offset t) by (apply zlen_take; lia).
  split; [|split].
  - split; [done|]. apply stored_take; [|done]. rewrite Ht. destruct (wt_aligned _ _ W) as [?|?]; [right; unfold zlen in *; lia|by left].
  - unfold fits in *. rewrite Hb in *. destruct (tr_state t) eqn:Es; try done.
    + destruct HF as (? & ? & ? & ?). split; [done|]. split; [done|]. split; [rewrite Ht; lia|]. apply acked_in_take; [lia|done].
    + destruct HF as (? & ? & ? & ?). split; [done|]. split; [done|]. split; [rewrite Ht; lia|]. apply acked_in_take; [lia|done].
    + destruct HF as (? & ? & HC' & ?). rewrite take_ge; [done|]. destruct HC' as [? ?]. unfold zlen in *. lia.
  - unfold exact. by rewrite Ht.
Qed.

Lemma inv_power Q A w f' m : inv Q A w → blackout (w_files w) f' → m ∈ versions w → inv Q A (mkWorld f' m []).
Proof.
  intros [T HI HG HA HE HQ] B Hm. pose proof (bl_discreet _ _ B) as C. split; cbn [w_files w_receipts].
  - by apply (tidy_kept (w_files w)), (blackout_kept _ _ T).
  - intros id. destruct (HI id) as [ph H].
    assert (HB : carries (stage_name id) (w_files w) f') by by apply blackout_carries.
    assert (HE' : ∀ e, e ∈ f_effects (w_files w) → e ∈ f_effects f') by (intros e; by rewrite (dc_effects _ _ C)).
    pose proof (id_at_carries _ _ _ _ _ HB HE' H) as [KP KF KX KA]. cbn [with_files w_files w_receipts] in *. clear H.
    destruct (m !! id) as [[t|]|] eqn:Et.
    + destruct (KF m t Hm Et) as [W F].
      assert (H : ∃ ph', physical f' (stage_name id) ph' ∧ fits f' id (acks A id) ph' t ∧ exact ph' t).
      { destruct ph as [|P n c|c]; [exists Fresh; done| |exists (Published c); done]. destruct KP. by apply (stored_settles f' id _ P n c). }
      destruct H as (ph' & H1 & H2 & H3). exists ph'. split; cbn [w_files w_receipts].
      * done.
      * intros m' t' Hm' Ht'. apply list_elem_of_singleton in Hm' as ->. cbn in *. assert (t' = t) as -> by congruence. done.
      * intros t' Ht'. assert (t' = t) as -> by congruence. done.
      * intros m1 m2 t1 t2 ->%list_elem_of_singleton ->%list_elem_of_singleton. apply (KA m m t1 t2); done.
    + exists ph. split; cbn [w_files w_receipts]; [done| | |].
      * intros m' t' Hm' Ht'. apply list_elem_of_singleton in Hm' as ->. cbn in *. congruence.
      * intros t' Ht'. congruence.
      * intros m1 m2 t1 t2 ->%list_elem_of_singleton ->%list_elem_of_singleton. cbn. congruence.
    + exists ph. split; cbn [w_files w_receipts]; [done| | |].
      * intros m' t' Hm' Ht'. apply list_elem_of_singleton in Hm' as ->. cbn in *. congruence.
      * intros t' Ht'. congruence.
      * intros m1 m2 t1 t2 ->%list_elem_of_singleton ->%list_elem_of_singleton. cbn. congruence.
  - intros id m' Hm'. apply list_elem_of_singleton in Hm' as ->. done.
  - intros id m' Ha Hm'. apply list_elem_of_singleton in Hm' as ->. cbn in *. by apply (HA id).
  - intros e. rewrite (dc_effects _ _ C). intros He. destruct (HE e He) as (id & Hs & H). exists id. split; [done|].
    intros m' Hm'. apply list_elem_of_singleton in Hm' as ->. cbn. destruct (H m Hm) as (t & Ht & X). by exists t.
  - intros m' Hm'. apply list_elem_of_singleton in Hm' as ->. cbn in *. by apply HQ.
Qed.

(** ** A step of one transfer *)

(** The files change only in public, among the private objects of [s], and at that name. *)
Record touches (s : string) (f f' : files) : Prop := {
  tc_private : ∀ o l, l ≠ s → f_private f' !! o = Some l ↔ f_private f !! o = Some l;
  tc_objects : ∀ o l, l ≠ s → f_private f !! o = Some l → f_inodes f' !! o = f_inodes f !! o;
  tc_reserved : ∀ d n, reserved n = true → n ≠ s →
    names_of f' d !! n = names_of f d !! n
    ∧ (disk_names_of f' d !! n = disk_names_of f d !! n ∨ disk_names_of f' d !! n = names_of f d !! n);
  tc_effects : ∀ e, e ∈ f_effects f → e ∈ f_effects f' }.

Lemma touches_carries s s' f f' : touches s f f' → reserved s' = true → s' ≠ s → carries s' f f'.
Proof.
  intros T Hr Hs. split; [split|].
  - intros o. by apply (tc_private _ _ _ T).
  - intros d n o Hd. by apply (bound_eq f f' d n o (tc_objects _ _ _ T d s' Hs Hd)).
  - intros d n o [->|Hd] H1 H2.
    + destruct (tc_reserved _ _ _ T d s' Hr Hs) as [-> [->| ->]]; done.
    + destruct (names_of_eq _ _ _ (tc_objects _ _ _ T d s' Hs Hd)) as [-> ->]. done.
  - intros o Ho. by rewrite (tc_objects _ _ _ T o s').
  - intros o c Ho. by apply holds_eq, (tc_objects _ _ _ T o s').
Qed.

(** The invariant after a step of the transfer [id] that wrote no receipt. *)
Lemma inv_touch Q A w f' id ph : inv Q A w → touches (stage_name id) (w_files w) f' → tidy f' →
  id_at (acks A id) id (with_files w f') ph →
  (∀ e, e ∈ f_effects f' → e ∈ f_effects (w_files w) ∨ justified A (with_files w f') e) →
  inv Q A (with_files w f').
Proof.
  intros [T HI HG HA HE HQ] TC T' HX HE'. split; cbn [with_files w_files w_receipts]; [done| |done|done| |done].
  - intros id'. destruct (decide (id' = id)) as [->|Hne]; [by exists ph|]. destruct (HI id') as [ph' H']. exists ph'.
    apply id_at_carries; [|apply TC|done]. apply (touches_carries (stage_name id)); [done|done|].
    intros E. by apply stage_name_inj in E.
  - intros e He. destruct (HE' e He) as [He'|]; [|done]. by apply (HE e He').
Qed.

(** ** Keeping a receipt *)

Record succeeds (t t' : transfer) : Prop := {
  sc_alike : alike t t';
  sc_active : active (OfTransfer t') = true → active (OfTransfer t) = true;
  sc_past : past t → past t' ∧ tr_sha256 t' = tr_sha256 t ∧ tr_offset t' = tr_offset t }.

Lemma complete_succeeds A t t' c : succeeds t t' → past t → complete A t c → complete A t' c.
Proof.
  intros S P [H1 H2 H3 H4 H5]. destruct (sc_past _ _ S P) as (_ & E1 & E2). split.
  - by rewrite (al_size _ _ (sc_alike _ _ S)).
  - by rewrite E2, (al_size _ _ (sc_alike _ _ S)).
  - by rewrite E1.
  - by rewrite (al_manifest _ _ (sc_alike _ _ S)), (al_size _ _ (sc_alike _ _ S)).
  - by rewrite (al_size _ _ (sc_alike _ _ S)).
Qed.

Lemma explains_succeeds A id e t t' : succeeds t t' → explains A id e t → explains A id e t'.
Proof.
  intros S [P H]. destruct (sc_past _ _ S P) as (P' & _). split; [done|].
  destruct e; try done; unfold parent_of in *; rewrite (al_parent _ _ (sc_alike _ _ S)), (al_name _ _ (sc_alike _ _ S)), (al_expected _ _ (sc_alike _ _ S)).
  - destruct H as (? & ? & ? & ?). split; [done|]. split; [done|]. split; [by apply (complete_succeeds A t)|done].
  - by rewrite (al_export _ _ (sc_alike _ _ S)).
Qed.

Definition weight (r : receipt) : Z := if active r then charge r else 0.
Definition one (r : receipt) : Z := if active r then 1 else 0.

Lemma counted_charge m : sumZ charge (counted m) = sumZ weight (row_values m).
Proof.
  unfold counted. induction (row_values m) as [|r l IH]; [done|]. cbn [List.filter].
  change (sumZ weight (r :: l)) with (weight r + sumZ weight l). rewrite <- IH. unfold weight at 1.
  destruct (active r); [done|lia].
Qed.

Lemma counted_length m : Z.of_nat (length (counted m)) = sumZ one (row_values m).
Proof.
  unfold counted. induction (row_values m) as [|r l IH]; [done|]. cbn [List.filter].
  change (sumZ one (r :: l)) with (one r + sumZ one l). rewrite <- IH. unfold one at 1. destruct (active r); cbn [length]; lia.
Qed.

Lemma counted_update m id t t' : m !! id = Some (OfTransfer t) → succeeds t t' → 0 <= tr_size t + replaced_size (tr_expected t) →
  (length (counted (<[id := OfTransfer t']> m)) <= length (counted m))%nat
  ∧ sumZ charge (counted (<[id := OfTransfer t']> m)) <= sumZ charge (counted m).
Proof.
  intros Hm S Hc. rewrite !counted_charge. rewrite (sumZ_rows_update weight _ _ _ _ Hm).
  pose proof (counted_length m) as L1. pose proof (counted_length (<[id := OfTransfer t']> m)) as L2.
  rewrite (sumZ_rows_update one _ _ _ _ Hm) in L2. pose proof (sc_active _ _ S) as Ha.
  unfold weight, one in *. destruct (active (OfTransfer t')) eqn:E'.
  - rewrite Ha in * by done. unfold charge in *. rewrite (al_size _ _ (sc_alike _ _ S)), (al_expected _ _ (sc_alike _ _ S)). lia.
  - destruct (active (OfTransfer t)); unfold charge in *; lia.
Qed.

(** Where the receipt of [id] was replaced: the new one, or a version there was. *)
Section kept_receipt.
Context (Q : Z) (A : list (string * Z * list Z)) (w : world) (id : string) (old : option transfer) (t' : transfer) (ph : phase)
  (older : list (gmap string receipt)).
Hypotheses (I : inv Q A w) (XP : physical (w_files w) (stage_name id) ph)
  (XF : ∀ m t, m ∈ versions w → m !! id = Some (OfTransfer t) → wf_transfer id t ∧ fits (w_files w) id (acks A id) ph t)
  (Hm : w_receipts w !! id = OfTransfer <$> old)
  (W : wf_transfer id t') (F : fits (w_files w) id (acks A id) ph t') (E : exact ph t')
  (S : match old with
       | Some t => succeeds t t'
       | None => (length (counted (w_receipts w)) < 64)%nat ∧ sumZ charge (counted (w_receipts w)) + charge (OfTransfer t') <= Q
                 ∧ 0 <= charge (OfTransfer t')
       end)
  (Ho : ∀ m, m ∈ older → m ∈ versions w).

Let m' : gmap string receipt := <[id := OfTransfer t']> (w_receipts w).
Let w' : world := mkWorld (w_files w) m' older.

#[local] Lemma replaced_here : m' !! id = Some (OfTransfer t').
Proof using. apply lookup_insert_eq. Qed.

#[local] Lemma replaced_other i : i ≠ id → m' !! i = w_receipts w !! i.
Proof using. intros H. by apply lookup_insert_ne. Qed.

#[local] Lemma replaced_alike m t : m ∈ versions w' → m !! id = Some (OfTransfer t) → alike t t'.
Proof using I Hm S Ho.
  intros [->|Hin]%elem_of_cons Ht; [cbn in Ht; rewrite replaced_here in Ht; injection Ht as <-; apply alike_refl|].
  apply Ho in Hin. destruct old as [t0|].
  - destruct (iv_id _ _ _ I id) as [ph0 X0]. apply (alike_trans _ t0); [|apply S].
    by apply (ia_alike _ _ _ _ X0 m (w_receipts w)); [|apply versions_here|..].
  - destruct (iv_grow _ _ _ I id m Hin) as [x Hx]; [by eexists|]. by rewrite Hm in Hx.
Qed.

#[local] Lemma replaced_id : id_at (acks A id) id w' ph.
Proof using I XP XF Hm W F E S Ho.
  split; cbn [w' w_files w_receipts].
  - done.
  - intros m t [->|Hin]%elem_of_cons Ht; [|by apply (XF m); [apply Ho|]]. cbn in Ht. rewrite replaced_here in Ht. by injection Ht as <-.
  - intros t. rewrite replaced_here. by intros [= <-].
  - intros m1 m2 t1 t2 H1 H2 K1 K2. apply (alike_trans _ t'); [by apply (replaced_alike m1)|]. apply alike_sym. by apply (replaced_alike m2).
Qed.

#[local] Lemma replaced_from i m t : i ≠ id → m ∈ versions w' → m !! i = Some (OfTransfer t) → ∃ v, v ∈ versions w ∧ v !! i = Some (OfTransfer t).
Proof using Ho.
  intros Hne [->|Hin]%elem_of_cons Ht; [|exists m; split; [by apply Ho|done]]. cbn in Ht. rewrite replaced_other in Ht by done.
  exists (w_receipts w). split; [apply versions_here|done].
Qed.

#[local] Lemma replaced_rest i : i ≠ id → ∃ p, id_at (acks A i) i w' p.
Proof using I Ho.
  intros Hne. destruct (iv_id _ _ _ I i) as [p [YP YF YX YA]]. exists p. split; cbn [w' w_files w_receipts].
  - done.
  - intros m t Hv Ht. destruct (replaced_from i m t Hne Hv Ht) as (v & ? & ?). by apply (YF v).
  - intros t. rewrite replaced_other by done. apply YX.
  - intros m1 m2 t1 t2 H1 H2 K1 K2. destruct (replaced_from i m1 t1 Hne H1 K1) as (v1 & ? & ?).
    destruct (replaced_from i m2 t2 Hne H2 K2) as (v2 & ? & ?). by apply (YA v1 v2).
Qed.

(** The new receipt explains what the old one did. *)
#[local] Lemma replaced_explains e i t : w_receipts w !! i = Some (OfTransfer t) → explains (acks A i) i e t →
  ∃ u, m' !! i = Some (OfTransfer u) ∧ explains (acks A i) i e u.
Proof using Hm S.
  intros Ht X. destruct (decide (i = id)) as [->|Hne]; [|exists t; by rewrite replaced_other].
  exists t'. split; [apply replaced_here|]. rewrite Hm in Ht. destruct old as [t0|]; [|done]. injection Ht as ->. by apply (explains_succeeds _ _ _ t).
Qed.

#[local] Lemma replaced_quota : (length (counted m') <= 64)%nat ∧ sumZ charge (counted m') <= Q.
Proof using I XF Hm S.
  destruct (iv_quota _ _ _ I _ (versions_here w)) as [HQ1 HQ2]. destruct old as [t|].
  - destruct (XF (w_receipts w) t (versions_here w) Hm) as [W0 _]. pose proof (wt_offset _ _ W0). pose proof (wt_charge _ _ W0).
    destruct (counted_update _ _ t t' Hm S ltac:(lia)) as [K1 K2]. unfold m'. lia.
  - destruct S as (S1 & S2 & S3). unfold m'. rewrite counted_charge, sumZ_rows_insert by done. rewrite <- counted_charge.
    pose proof (counted_length (<[id := OfTransfer t']> (w_receipts w))) as L.
    rewrite sumZ_rows_insert in L by done. rewrite <- counted_length in L. unfold weight, one in *.
    destruct (active (OfTransfer t')); lia.
Qed.

#[local] Lemma replaced_inv : inv Q A w'.
Proof using I XP XF Hm W F E S Ho.
  pose proof I as [T HI HG HA HE HQ]. split; cbn [w' w_files].
  - done.
  - intros i. destruct (decide (i = id)) as [->|Hne]; [exists ph; apply replaced_id|by apply replaced_rest].
  - intros i m [->|Hin]%elem_of_cons Hs; [done|]. cbn. destruct (decide (i = id)) as [->|Hne]; [rewrite replaced_here; by eexists|].
    rewrite replaced_other by done. apply (HG i m); [by apply Ho|done].
  - intros i m Ha [->|Hin]%elem_of_cons; [|by apply HA; [|apply Ho]]. cbn.
    destruct (decide (i = id)) as [->|Hne]; [exists t'; apply replaced_here|]. rewrite replaced_other by done. by apply HA; [|apply versions_here].
  - intros e He. destruct (HE e He) as (i & Hs & H). exists i. split; [done|]. intros m [->|Hin]%elem_of_cons; [|by apply H, Ho].
    destruct (H (w_receipts w) (versions_here w)) as (t & Ht & Xe). by apply (replaced_explains e i t).
  - intros m [->|Hin]%elem_of_cons; [apply replaced_quota|by apply HQ, Ho].
Qed.

End kept_receipt.

(** A receipt takes the place of the one it succeeds, or is the first of its transfer. *)
Lemma inv_write Q A w id old t' ph ch :
  inv Q A w → physical (w_files w) (stage_name id) ph →
  (∀ m t, m ∈ versions w → m !! id = Some (OfTransfer t) → wf_transfer id t ∧ fits (w_files w) id (acks A id) ph t) →
  w_receipts w !! id = OfTransfer <$> old → wf_transfer id t' → fits (w_files w) id (acks A id) ph t' → exact ph t' →
  match old with
  | Some t => succeeds t t'
  | None => (length (counted (w_receipts w)) < 64)%nat ∧ sumZ charge (counted (w_receipts w)) + charge (OfTransfer t') <= Q
            ∧ 0 <= charge (OfTransfer t')
  end →
  let r := written id (OfTransfer t') ch w in
  inv Q A r.1 ∧ (r.2 = Ok tt → id_at (acks A id) id r.1 ph ∧ w_files r.1 = w_files w
                   ∧ w_receipts r.1 = <[id := OfTransfer t']> (w_receipts w) ∧ w_older r.1 = []).
Proof.
  intros I XP XF Hm W F E S. unfold written. destruct (ch_fault ch) as [e|]; [destruct (ch_late ch)|]; (split; [|try done]).
  - by eapply (replaced_inv _ _ _ _ old _ ph).
  - done.
  - eapply (replaced_inv _ _ _ _ old _ ph); try done. by intros m ?%elem_of_nil.
  - intros _. split; [|done]. eapply (replaced_id Q _ _ _ old); try done. by intros m ?%elem_of_nil.
Qed.
