(* ===== verification/TransferCalls.v ===== *)
(** * What the calls of a transfer change

    Each system call that changes something, at a private object of the transfer's reserved
    name or in public: the files stay tidy, other reserved names are untouched, and what the
    call did. *)

From S2P Require Import Prelude Sha256 Json Posix FileAccess FileTransfer TransferSystem TransferInv.

#[local] Open Scope Z_scope.

(** ** One inode *)

Record similar (i i' : inode) : Prop := {
  sm_kind : i_kind i' = i_kind i;
  sm_owned : i_owned i' = i_owned i;
  sm_mode : i_mode i' = i_mode i;
  sm_names : ∀ n o, i_names i' !! n = Some o ∨ i_disk_names i' !! n = Some o →
    i_names i !! n = Some o ∨ i_disk_names i !! n = Some o }.

(** The names stay, or become those on the disk. *)
Definition still (i i' : inode) : Prop :=
  i_names i' = i_names i ∧ (i_disk_names i' = i_disk_names i ∨ i_disk_names i' = i_names i).

Lemma inodes_put f o i x : f_inodes (put f o i) !! x = if decide (x = o) then Some i else f_inodes f !! x.
Proof. cbn. case_decide as H; [subst; apply lookup_insert_eq|by apply lookup_insert_ne]. Qed.

Lemma bound_put f o i i' d n x : f_inodes f !! o = Some i → similar i i' → bound (put f o i') d n x → bound f d n x.
Proof.
  intros Hi S. unfold bound, names_of, disk_names_of. rewrite inodes_put. case_decide as Hd; [|done]. subst d.
  rewrite Hi. apply (sm_names _ _ S).
Qed.

Lemma tidy_ext f f' : f_inodes f' = f_inodes f → f_roots f' = f_roots f → f_private f' = f_private f → tidy f → tidy f'.
Proof.
  destruct f as [i r p e], f' as [i' r' p' e']. cbn. intros -> -> -> T. split; apply T.
Qed.

Lemma tidy_put f o i i' : tidy f → f_inodes f !! o = Some i → similar i i' → tidy (put f o i').
Proof.
  intros T Hi S. assert (HB := fun d n x => bound_put f o i i' d n x Hi S).
  assert (HK : ∀ x, is_Some (f_inodes f !! x) → is_Some (f_inodes (put f o i') !! x)).
  { intros x Hx. rewrite inodes_put. by case_decide. }
  split; cbn [f_private f_roots put].
  - intros x l Hx. by apply HK, (td_dom _ T x l).
  - intros d n x Hd Hn Hb. by apply (td_public _ T d n x Hd Hn), HB.
  - intros d n x Hd Hn Hb. by apply (td_top _ T d n x Hd Hn), HB.
  - intros d l n x Hd Hb. by apply (td_inside _ T d l n x Hd), HB.
  - intros x l d n d' n' Hx H1 H2. by apply (td_home _ T x l d n d' n' Hx); apply HB.
  - intros d n x Hb. by apply HK, (td_there _ T d n), HB.
  - intros path x Hx. destruct (td_roots _ T path x Hx). split; [done|by apply HK].
  - intros x l j Hx. rewrite inodes_put. case_decide as E; [|by apply (td_shape _ T x l j)]. intros [= <-]. subst x.
    rewrite (sm_kind _ _ S), (sm_owned _ _ S), (sm_mode _ _ S). by apply (td_shape _ T o l i).
  - intros x l n y Hx Hk Hb%HB. apply (td_plain _ T x l n y Hx); [|done]. revert Hk. rewrite inodes_put.
    case_decide as E; [|done]. subst x. rewrite Hi. cbn. by rewrite (sm_kind _ _ S).
Qed.

Lemma tidy_noted f o e : tidy f → tidy (noted f o e).
Proof. unfold noted. destruct (private f o); [done|]. by apply tidy_ext. Qed.

Lemma names_put f o i i' d : f_inodes f !! o = Some i → still i i' →
  names_of (put f o i') d = names_of f d
  ∧ (disk_names_of (put f o i') d = disk_names_of f d ∨ disk_names_of (put f o i') d = names_of f d).
Proof.
  intros Hi [S1 S2]. unfold names_of, disk_names_of. rewrite inodes_put. case_decide as Hd; [|by split; [|left]]. subst d.
  by rewrite Hi.
Qed.

Definition ours (s : string) (f : files) (o : object) : Prop := f_private f !! o = Some s ∨ f_private f !! o = None.

Lemma noted_fields f o e :
  f_inodes (noted f o e) = f_inodes f ∧ f_roots (noted f o e) = f_roots f ∧ f_private (noted f o e) = f_private f
  ∧ (f_private f !! o = None → f_effects (noted f o e) = f_effects f ++ [e])
  ∧ (∀ l, f_private f !! o = Some l → f_effects (noted f o e) = f_effects f).
Proof.
  unfold noted, private. destruct (f_private f !! o) as [l|]; [rewrite bool_decide_eq_true_2 by done|rewrite bool_decide_eq_false_2 by (intros [? ?]; done)].
  all: repeat apply conj; done.
Qed.

Lemma touches_ext s f f' g : f_inodes g = f_inodes f' → f_private g = f_private f' → (∀ e, e ∈ f_effects f → e ∈ f_effects g) →
  touches s f f' → touches s f g.
Proof.
  intros E1 E2 E3 T. split; [rewrite E2; apply T|rewrite E1; apply T| |done]. intros d n.
  unfold names_of at 1, disk_names_of at 1 3. rewrite E1. apply (tc_reserved _ _ _ T).
Qed.

Lemma layout_ext s f f' g : f_inodes g = f_inodes f' → f_private g = f_private f' → layout s f f' → layout s f g.
Proof.
  intros E1 E2 T. split; [rewrite E2; apply T| | |rewrite E1; apply T].
  - intros d n o Hd. rewrite (bound_eq f' g) by by rewrite E1. by apply (cr_bound _ _ _ T).
  - intros d n o Hd H1 H2. destruct (names_of_eq f' g d ltac:(by rewrite E1)) as [-> ->]. by apply (cr_name _ _ _ T).
Qed.

Lemma touches_put s f o i i' : f_inodes f !! o = Some i → still i i' → ours s f o → touches s f (put f o i').
Proof.
  intros Hi S Ho. split; [done| | |done].
  - intros x l Hl Hx. rewrite inodes_put. rewrite decide_False; [done|]. intros ->. destruct Ho; congruence.
  - intros d n _ _. destruct (names_put f o i i' d Hi S) as [-> [->| ->]]; split; auto.
Qed.

Lemma layout_put s f o i i' : f_inodes f !! o = Some i → similar i i' → still i i' → layout s f (put f o i').
Proof.
  intros Hi SM S. split; [done| | |].
  - intros d n x _. by apply (bound_put f o i i').
  - intros d n x _ H1 H2. destruct (names_put f o i i' d Hi S) as [-> [->| ->]]; done.
  - intros x _. rewrite inodes_put. case_decide as E; [|done]. subst x. rewrite Hi. cbn. f_equal. apply SM.
Qed.

(** ** Contents *)

(** The content of one file changes. *)
Lemma data_step s f o i now data e : tidy f → f_inodes f !! o = Some i → ours s f o →
  let f' := noted (put f o (set_data i now data)) o e in
  tidy f' ∧ touches s f f' ∧ layout s f f'
  ∧ f_effects f' = f_effects f ++ (if private f o then [] else [e])
  ∧ (∀ x, f_inodes f' !! x = if decide (x = o) then Some (set_data i now data) else f_inodes f !! x).
Proof.
  intros T Hi Ho. cbn zeta. set (f1 := put f o (set_data i now data)).
  assert (SM : similar i (set_data i now data)) by (split; done).
  assert (ST : still i (set_data i now data)) by (split; [done|by left]).
  destruct (noted_fields f1 o e) as (E1 & E2 & E3 & E4 & E5).
  assert (EE : f_effects (noted f1 o e) = f_effects f ++ (if private f o then [] else [e])).
  { unfold private. destruct (f_private f !! o) as [l|] eqn:Hp.
    - rewrite bool_decide_eq_true_2, app_nil_r by done. by apply (E5 l).
    - rewrite bool_decide_eq_false_2 by (intros [? ?]; done). by apply E4. }
  repeat apply conj.
  - apply tidy_noted. by apply (tidy_put f o i).
  - apply (touches_ext s f f1); [done|done| |by apply (touches_put s f o i)]. rewrite EE. intros x Hx. apply elem_of_app. by left.
  - apply (layout_ext s f f1); [done|done|]. by apply (layout_put s f o i).
  - done.
  - intros x. rewrite E1. apply inodes_put.
Qed.

(** One object is synced. *)
Lemma sync_step s f o i : tidy f → f_inodes f !! o = Some i → ours s f o →
  let f' := put f o (synced i) in
  tidy f' ∧ touches s f f' ∧ carries s f f' ∧ f_effects f' = f_effects f
  ∧ names_of f' o = names_of f o ∧ disk_names_of f' o = names_of f o.
Proof.
  intros T Hi Ho. cbn zeta. assert (SM : similar i (synced i)).
  { split; [done|done|done|]. cbn. intros n x [?|?]; by left. }
  assert (ST : still i (synced i)) by (split; [done|by right]).
  repeat apply conj.
  - by apply (tidy_put f o i).
  - by apply (touches_put s f o i).
  - split; [by apply (layout_put s f o i)|]. intros x c _ (j & Hj & K & D1 & D2). unfold holds. rewrite inodes_put.
    case_decide as E; [|by exists j]. subst x. rewrite Hi in Hj. injection Hj as <-. exists (synced i). done.
  - done.
  - unfold names_of. rewrite inodes_put, decide_True by done. by rewrite Hi.
  - unfold disk_names_of, names_of. rewrite inodes_put, decide_True by done. by rewrite Hi.
Qed.

(** ** A new object *)

(** The directory of a reserved name, or the place of that name in public. *)
Definition place (s : string) (f : files) (dir : object) (name : string) : Prop :=
  (f_private f !! dir = Some s ∧ reserved name = false) ∨ (f_private f !! dir = None ∧ name = s ∧ reserved s = true).

Definition private_kind (i : inode) : Prop :=
  i_owned i = true ∧ (i_kind i = Directory ∧ i_mode i = 448 ∨ i_kind i = Regular ∧ i_mode i = 384).

Record born_facts (s : string) (f f' : files) (dir : object) (name : string) (o : object) (i : inode) : Prop := {
  bf_tidy : tidy f';
  bf_touches : touches s f f';
  bf_private : f_private f' = <[o := s]> (f_private f);
  bf_effects : f_effects f' = f_effects f;
  bf_inode : f_inodes f' !! o = Some i;
  bf_fresh : f_inodes f !! o = None;
  bf_other : ∀ x, x ≠ o → x ≠ dir → f_inodes f' !! x = f_inodes f !! x;
  bf_kind : i_kind <$> f_inodes f' !! dir = i_kind <$> f_inodes f !! dir;
  bf_name : names_of f' dir !! name = Some o;
  bf_names : ∀ d n, d ≠ o → (d, n) ≠ (dir, name) → names_of f' d !! n = names_of f d !! n;
  bf_disk : ∀ d, d ≠ o → disk_names_of f' d = disk_names_of f d;
  bf_bound : ∀ d n x, bound f' d n x → (d = dir ∧ n = name ∧ x = o) ∨ bound f d n x }.

Section born.
Context (s : string) (f : files) (dir : object) (di : inode) (name : string) (o : object) (i : inode) (now : Z).
Hypotheses (T : tidy f) (Hd : f_inodes f !! dir = Some di) (HP : place s f dir name) (HDir : i_kind di = Directory)
  (Ho : f_inodes f !! o = None) (Hn1 : i_names i = ∅) (Hn2 : i_disk_names i = ∅) (HK : private_kind i).

Let g : files := mkFiles (<[o := i]> (<[dir := set_names di now (<[name := o]> (i_names di))]> (f_inodes f))) (f_roots f)
  (<[o := s]> (f_private f)) (f_effects f).

#[local] Lemma born_eq : born f dir di name o i now = g.
Proof using HP.
  unfold born, g. destruct (noted_fields (put f dir (set_names di now (<[name:=o]> (i_names di)))) dir (Made dir name)) as (-> & _ & _ & _ & _).
  destruct HP as [[-> _]|(-> & -> & ->)]; done.
Qed.

#[local] Lemma born_new : f_private f !! o = None ∧ dir ≠ o ∧ ∀ d n, ¬ bound f d n o.
Proof using T Hd Ho.
  clear g HP. split; [|split; [congruence|]].
  - destruct (f_private f !! o) eqn:E; [|done]. destruct (td_dom _ T o _ E). congruence.
  - intros d n K. destruct (td_there _ T d n o K). congruence.
Qed.

#[local] Lemma born_inodes y : f_inodes g !! y = if decide (y = o) then Some i
  else if decide (y = dir) then Some (set_names di now (<[name := o]> (i_names di))) else f_inodes f !! y.
Proof using. clear. cbn. repeat case_decide; subst; simplify_map_eq; done. Qed.

#[local] Lemma born_private y : f_private g !! y = if decide (y = o) then Some s else f_private f !! y.
Proof using. clear. cbn. case_decide; subst; simplify_map_eq; done. Qed.

#[local] Lemma born_names d : names_of g d = (if decide (d = o) then ∅ else if decide (d = dir) then <[name := o]> (names_of f dir) else names_of f d)
  ∧ disk_names_of g d = if decide (d = o) then ∅ else disk_names_of f d.
Proof using Hd Hn1 Hn2.
  unfold names_of, disk_names_of. rewrite born_inodes. destruct (decide (d = o)); [by rewrite Hn1, Hn2|]. destruct (decide (d = dir)); [|done].
  subst d. by rewrite Hd.
Qed.

#[local] Lemma born_bound d n y : bound g d n y → (d = dir ∧ n = name ∧ y = o) ∨ bound f d n y ∧ d ≠ o.
Proof using Hd Hn1 Hn2.
  unfold bound. destruct (born_names d) as [-> ->]. destruct (decide (d = o)); [rewrite !lookup_empty; by intros [?|?]|].
  destruct (decide (d = dir)) as [->|]; [|by right]. destruct (decide (n = name)) as [->|]; [rewrite lookup_insert_eq|rewrite lookup_insert_ne by done; by right].
  intros [[= <-]|?]; [by left|right; split; [by right|done]].
Qed.

#[local] Lemma born_tidy : tidy g.
Proof using T Hd HP HDir Ho Hn1 Hn2 HK.
  destruct born_new as (Hop & Hdo & HNB). split.
  - intros y l. rewrite born_private, born_inodes. case_decide; [done|]. intros Hy. case_decide; [done|]. by apply (td_dom _ T y l).
  - intros d n y. rewrite !born_private. destruct (decide (d = o)); [done|]. intros Hy Hn [(-> & -> & ->)|[Hb _]]%born_bound.
    { destruct HP as [[K ?]|(_ & -> & K)]; congruence. }
    case_decide; [subst; by apply HNB in Hb|]. by apply (td_public _ T d n y).
  - intros d n y. rewrite !born_private. destruct (decide (d = o)); [done|]. intros Hy Hn [(-> & -> & ->)|[Hb _]]%born_bound.
    { rewrite decide_True by done. destruct HP as [[K ?]|(_ & -> & K)]; congruence. }
    case_decide; [subst; by apply HNB in Hb|]. by apply (td_top _ T d n y).
  - intros d l n y. rewrite !born_private. intros Hy [(-> & -> & ->)|[Hb Hdx]]%born_bound.
    { rewrite decide_False in Hy by done. rewrite decide_True by done. left. destruct HP as [[K ?]|(K & _)]; congruence. }
    rewrite decide_False in Hy by done. case_decide; [subst; by apply HNB in Hb|]. by apply (td_inside _ T d l n y).
  - intros y l d n d' n'. rewrite born_private. case_decide as E.
    + subst y. intros _ [(-> & -> & _)|[Hb _]]%born_bound; [|by apply HNB in Hb].
      intros [(-> & -> & _)|[Hb _]]%born_bound; [done|by apply HNB in Hb].
    + intros Hy [(_ & _ & ->)|[H1 _]]%born_bound; [done|]. intros [(_ & _ & ->)|[H2 _]]%born_bound; [done|]. by apply (td_home _ T y l).
  - intros d n y [(-> & -> & ->)|[Hb _]]%born_bound; rewrite born_inodes; [by rewrite decide_True|].
    repeat case_decide; [done..|by apply (td_there _ T d n)].
  - intros path y Hy. destruct (td_roots _ T path y Hy) as [R1 R2]. rewrite born_private, born_inodes. split; [|by repeat case_decide].
    rewrite decide_False; [done|]. intros ->. by destruct R2; congruence.
  - intros y l j. rewrite born_private, born_inodes. case_decide as E; [intros _ [= <-]; exact HK|]. intros Hy. case_decide as E'.
    + intros [= <-]. subst y. by apply (td_shape _ T dir l di).
    + by apply (td_shape _ T y l).
  - intros y l n z Hy Hk Hb. apply born_bound in Hb as [(-> & -> & ->)|[Hb Hyo]].
    + rewrite born_inodes, decide_False, decide_True in Hk by done. cbn in Hk. by rewrite HDir in Hk.
    + rewrite born_private, decide_False in Hy by done. apply (td_plain _ T y l n z Hy); [|done]. revert Hk.
      rewrite born_inodes, decide_False by done. case_decide as E'; [|done]. subst y. by rewrite Hd.
Qed.

#[local] Lemma born_touches : touches s f g.
Proof using T Hd HP Ho Hn1 Hn2.
  destruct born_new as (Hop & Hdo & HNB). split.
  - intros y l Hl. rewrite born_private. case_decide as E; [|done]. subst y. split; [intros [= ->]; done|congruence].
  - intros y l Hl Hy. rewrite born_inodes. rewrite !decide_False; [done| |intros ->; congruence].
    intros ->. destruct HP as [[K ?]|(K & _)]; congruence.
  - intros d n Hn Hl. destruct (born_names d) as [-> ->]. destruct (decide (d = o)) as [->|H1].
    { unfold names_of, disk_names_of. rewrite Ho, !lookup_empty. auto. }
    destruct (decide (d = dir)) as [->|H2]; [|auto]. destruct (decide (n = name)) as [->|H3]; [|rewrite lookup_insert_ne by done; auto].
    destruct HP as [[_ ?]|(_ & ? & _)]; congruence.
  - done.
Qed.

Lemma born_step : born_facts s f (born f dir di name o i now) dir name o i.
Proof using T Hd HP HDir Ho Hn1 Hn2 HK.
  destruct born_new as (Hop & Hdo & HNB). rewrite born_eq. split.
  - apply born_tidy.
  - apply born_touches.
  - done.
  - done.
  - cbn. by rewrite lookup_insert_eq.
  - done.
  - intros y H1 H2. rewrite born_inodes. by rewrite !decide_False.
  - rewrite born_inodes, decide_False, decide_True by done. by rewrite Hd.
  - destruct (born_names dir) as [-> _]. rewrite decide_False, decide_True by done. by rewrite lookup_insert_eq.
  - intros d n H1 H2. destruct (born_names d) as [-> _]. rewrite decide_False by done. case_decide as H3; [|done]. subst d.
    rewrite lookup_insert_ne; [done|]. by intros ->.
  - intros d H1. destruct (born_names d) as [_ ->]. by rewrite decide_False.
  - intros d n y [?|[? _]]%born_bound; [by left|by right].
Qed.
End born.

(** ** Taking a name away *)

Record removal_facts (s : string) (f f' : files) (dir : object) (name : string) (o : object) : Prop := {
  rf_tidy : tidy f';
  rf_touches : touches s f f';
  rf_private : f_private f' = f_private f;
  rf_effects : f_effects f' = f_effects f ++ (if private f o then [] else [Removed (f_private f !! dir) dir name o]);
  rf_bound : ∀ d n x, bound f' d n x → bound f d n x }.

Lemma removal_step s f dir di name o i now : tidy f → f_inodes f !! dir = Some di → f_inodes f !! o = Some i →
  ours s f dir → ours s f o → (reserved name = true → name = s) →
  removal_facts s f (removal f dir di name o i now) dir name o.
Proof.
  intros T Hd Hi HD HO Hs. unfold removal.
  set (i1 := set_links i now (i_links i - 1)). set (f1 := put f o i1).
  set (d1 := set_names di now (delete name (i_names di))). set (f2 := put f1 dir d1).
  assert (SM1 : similar i i1) by (split; done).
  assert (Hdi : ∃ j, f_inodes f1 !! dir = Some j ∧ i_kind j = i_kind di ∧ i_owned j = i_owned di ∧ i_mode j = i_mode di
    ∧ i_names j = i_names di ∧ i_disk_names j = i_disk_names di).
  { unfold f1. rewrite inodes_put. case_decide as E; [|by exists di]. subst dir. rewrite Hi in Hd. injection Hd as <-. by exists i1. }
  destruct Hdi as (j & Hj & J1 & J2 & J3 & J4 & J5).
  assert (SM2 : similar j d1).
  { split; [done..|]. intros n x. cbn. rewrite J4, J5. intros [H|H]; [|by right]. apply lookup_delete_Some in H as [_ H]. by left. }
  assert (T2 : tidy f2) by (apply (tidy_put f1 dir j); [by apply (tidy_put f o i)|done|done]).
  destruct (noted_fields f2 o (Removed (f_private f !! dir) dir name o)) as (E1 & E2 & E3 & E4 & E5).
  assert (EE : f_effects (noted f2 o (Removed (f_private f !! dir) dir name o))
    = f_effects f ++ (if private f o then [] else [Removed (f_private f !! dir) dir name o])).
  { unfold private. destruct (f_private f !! o) as [l|] eqn:Hp.
    - rewrite bool_decide_eq_true_2, app_nil_r by done. by apply (E5 l).
    - rewrite bool_decide_eq_false_2 by (intros [? ?]; done). by apply E4. }
  split.
  - by apply tidy_noted.
  - apply (touches_ext s f f2); [done|done| |].
    { rewrite EE. intros e He. apply elem_of_app. by left. }
    split; [done| | |done].
    + intros x l Hl Hx. unfold f2, f1. rewrite !inodes_put. rewrite !decide_False; [done|intros ->; destruct HO; congruence|].
      intros ->. destruct HD; congruence.
    + intros d n Hn Hl. unfold names_of, disk_names_of, f2, f1. rewrite !inodes_put.
      assert (Hne : name ≠ n) by (intros ->; by apply Hl, Hs).
      case_decide as H1; [subst d; rewrite Hd; cbn; rewrite lookup_delete_ne by done; auto|].
      case_decide as H2; [subst d; rewrite Hi; cbn; auto|auto].
  - by rewrite E3.
  - done.
  - intros d n x. rewrite (bound_eq f2 (noted f2 o (Removed (f_private f !! dir) dir name o))) by by rewrite E1.
    intros Hb. apply (bound_put f1 dir j d1) in Hb; [|done..]. by apply (bound_put f o i i1) in Hb.
Qed.

(** ** Putting a file in place *)

Record moved_facts (s : string) (f f' : files) (dir : object) (name : string) (o : object) (c : list Z) (x : option object) : Prop := {
  mf_tidy : tidy f';
  mf_touches : touches s f f';
  mf_effects : f_effects f' = f_effects f ++ [Renamed (Some s) dir name o c x];
  mf_private : f_private f' = delete o (f_private f);
  mf_there : ∀ y, is_Some (f_inodes f !! y) → is_Some (f_inodes f' !! y);
  mf_bound : ∀ d n y, f_private f !! d = Some s → bound f' d n y → n = "data" ∨ bound f d n y }.

(** The inodes stay, up to names for readers, contents, links and times. *)
Definition congruent (i j : inode) : Prop :=
  i_kind j = i_kind i ∧ i_owned j = i_owned i ∧ i_mode j = i_mode i ∧ i_disk_names j = i_disk_names i.
Definition congruous (f g : files) : Prop :=
  ∀ y, match f_inodes f !! y, f_inodes g !! y with Some i, Some j => congruent i j | None, None => True | _, _ => False end.

Lemma congruous_refl f : congruous f f.
Proof. intros y. by destruct (f_inodes f !! y). Qed.

Lemma congruous_trans f g h : congruous f g → congruous g h → congruous f h.
Proof.
  intros H1 H2 y. specialize (H1 y). specialize (H2 y).
  destruct (f_inodes f !! y), (f_inodes g !! y), (f_inodes h !! y); try done. unfold congruent in *. intuition congruence.
Qed.

Lemma congruous_put f o i j : f_inodes f !! o = Some i → congruent i j → congruous f (put f o j).
Proof.
  intros Hi C y. rewrite inodes_put. case_decide as E; [subst y; by rewrite Hi|]. by destruct (f_inodes f !! y).
Qed.

Lemma congruous_there f g y : congruous f g → is_Some (f_inodes f !! y) → is_Some (f_inodes g !! y).
Proof. intros C [i Hi]. specialize (C y). rewrite Hi in C. by destruct (f_inodes g !! y). Qed.

Lemma congruous_disk f g d : congruous f g → disk_names_of g d = disk_names_of f d.
Proof.
  intros C. specialize (C d). unfold disk_names_of. destruct (f_inodes f !! d), (f_inodes g !! d); try done. apply C.
Qed.

Lemma congruous_shape f g y j : congruous f g → f_inodes g !! y = Some j → ∃ i, f_inodes f !! y = Some i ∧ congruent i j.
Proof. intros C Hj. specialize (C y). rewrite Hj in C. destruct (f_inodes f !! y) as [i|]; [by exists i|done]. Qed.

Lemma names_of_put f o i d : names_of (put f o i) d = if decide (d = o) then i_names i else names_of f d.
Proof. unfold names_of. rewrite inodes_put. by case_decide. Qed.

Section moved.
Context (s : string) (f : files) (F P : object) (name : string) (D : object) (i : inode) (x : option object) (now : Z).
Hypotheses (T : tidy f) (HF : f_private f !! F = Some s) (HP : f_private f !! P = None) (Hn : reserved name = false)
  (HFD : names_of f F !! "data" = Some D) (HD : f_private f !! D = Some s) (Hi : f_inodes f !! D = Some i) (HK : i_kind i = Regular)
  (HPi : is_Some (f_inodes f !! P)) (Hx : match x with Some x => names_of f P !! name = Some x | None => True end).

Let f' : files := moved f F "data" P name D i x now.

#[local] Lemma displaced_public y : x = Some y → f_private f !! y = None ∧ is_Some (f_inodes f !! y).
Proof using T HP Hn Hx.
  clear f'. intros ->. split; [by apply (td_public _ T P name y HP Hn); left|by apply (td_there _ T P name y); left].
Qed.

#[local] Lemma file_names n y : ¬ bound f D n y.
Proof using T HD Hi HK. clear f'. apply (td_plain _ T D s n y HD). by rewrite Hi; cbn; rewrite HK. Qed.

#[local] Lemma apart : F ≠ P ∧ D ≠ P ∧ F ≠ D.
Proof using T HF HP HFD HD Hi HK.
  clear f'. split; [congruence|]. split; [congruence|]. intros E. apply (file_names "data" D). rewrite <- E at 1. by left.
Qed.

(** What the renaming leaves of inodes and names. *)
Record moved_shape (g : files) : Prop := {
  ms_fields : f_roots g = f_roots f ∧ f_private g = delete D (f_private f)
    ∧ f_effects g = f_effects f ++ [Renamed (Some s) P name D (i_data i) x];
  ms_congruous : congruous f g;
  ms_others : ∀ y l, l ≠ s → f_private f !! y = Some l → f_inodes g !! y = f_inodes f !! y;
  ms_names : ∀ d, names_of g d = if decide (d = P) then <[name := D]> (names_of f P)
    else if decide (d = F) then match x with Some y => <["data" := y]> (names_of f F) | None => delete "data" (names_of f F) end
    else names_of f d }.

#[local] Lemma moved_has_shape : moved_shape f'.
Proof using T HF HP Hn HFD HD Hi HK HPi Hx.
  destruct apart as (HFP & HDP & HFx). pose proof displaced_public as HX. destruct (td_dom _ T F s HF) as [fi Hfi]. destruct HPi as [pi Hpi].
  unfold f', moved. set (f0 := put f D (set_links i now (i_links i))).
  set (f1 := match x with Some y => match f_inodes f0 !! y with Some xi => put f0 y (set_links xi now (i_links xi)) | None => f0 end | None => f0 end).
  assert (C0 : congruous f f0) by (by apply (congruous_put f D i)).
  assert (N0 : ∀ d, names_of f0 d = names_of f d).
  { intros d. unfold f0. rewrite names_of_put. case_decide as E; [|done]. subst d. unfold names_of. by rewrite Hi. }
  assert (O0 : ∀ y l, l ≠ s → f_private f !! y = Some l → f_inodes f0 !! y = f_inodes f !! y).
  { intros y l Hl Hy. unfold f0. rewrite inodes_put, decide_False; [done|congruence]. }
  assert (H1 : congruous f f1 ∧ (∀ d, names_of f1 d = names_of f d)
    ∧ (∀ y l, l ≠ s → f_private f !! y = Some l → f_inodes f1 !! y = f_inodes f !! y)
    ∧ f_roots f1 = f_roots f ∧ f_private f1 = f_private f ∧ f_effects f1 = f_effects f).
  { unfold f1. destruct x as [y|]; [|done]. destruct (f_inodes f0 !! y) as [xi|] eqn:Exi; [|done]. destruct (HX y eq_refl) as [Hy _].
    split; [by apply (congruous_trans _ f0), (congruous_put f0 y xi)|]. split; [|split; [|done]].
    - intros d. rewrite names_of_put. case_decide as E; [|done]. subst d. rewrite <- N0. unfold names_of. by rewrite Exi.
    - intros z l Hl Hz. rewrite inodes_put, decide_False; [by apply (O0 z l)|congruence]. }
  clearbody f1. destruct H1 as (C1 & N1 & O1 & R1 & P1 & E1).
  destruct (congruous_there f f1 F C1 ltac:(by eexists)) as [fi1 Hf1]. rewrite Hf1.
  set (without := match x with Some y => _ | None => _ end). set (f2 := put f1 F (set_names fi1 now without)).
  assert (C2 : congruous f f2) by (apply (congruous_trans _ f1); [done|by apply (congruous_put f1 F fi1)]).
  destruct (congruous_there f f2 P C2 ltac:(by eexists)) as [pi2 Hp2]. rewrite Hp2.
  assert (Hpriv : private f P = false) by (unfold private; rewrite HP; by apply bool_decide_eq_false_2; intros [? ?]).
  rewrite Hpriv, HD. split.
  - cbn. by rewrite R1, P1, E1.
  - apply (congruous_trans _ f2); [done|]. by apply (congruous_put f2 P pi2).
  - intros y l Hl Hy. cbn [f_inodes]. unfold f2. rewrite !inodes_put, !decide_False by congruence. by apply (O1 y l).
  - intros d. change (names_of (put f2 P (set_names pi2 now (<[name := D]> (i_names pi2)))) d = if decide (d = P) then <[name := D]> (names_of f P)
      else if decide (d = F) then match x with Some y => <["data" := y]> (names_of f F) | None => delete "data" (names_of f F) end else names_of f d).
    rewrite names_of_put. case_decide as E.
    + cbn. f_equal. assert (E' : names_of f2 P = names_of f P) by (unfold f2; rewrite names_of_put, decide_False by done; apply N1).
      rewrite <- E'. unfold names_of. by rewrite Hp2.
    + unfold f2. rewrite names_of_put. case_decide; [|apply N1]. cbn. unfold without. by rewrite N1.
Qed.

#[local] Lemma moved_bound d n y : bound f' d n y → (d = P ∧ n = name ∧ y = D) ∨ (d = F ∧ n = "data" ∧ x = Some y) ∨ bound f d n y.
Proof using T HF HP Hn HFD HD Hi HK HPi Hx.
  pose proof moved_has_shape as [_ C _ N]. unfold bound. rewrite N, (congruous_disk f f' d C). case_decide as E1; [|case_decide as E2].
  - subst d. destruct (decide (n = name)) as [->|H]; [rewrite lookup_insert_eq|rewrite lookup_insert_ne by done; tauto].
    intros [[= <-]|?]; tauto.
  - subst d. destruct x as [z|].
    + destruct (decide (n = "data")) as [->|H]; [rewrite lookup_insert_eq|rewrite lookup_insert_ne by done; tauto]. intros [[= <-]|?]; tauto.
    + intros [H|?]; [apply lookup_delete_Some in H|]; tauto.
  - tauto.
Qed.

#[local] Lemma moved_private y : f_private f' !! y = if decide (y = D) then None else f_private f !! y.
Proof using T HF HP Hn HFD HD Hi HK HPi Hx.
  destruct (ms_fields _ moved_has_shape) as (_ & -> & _). case_decide as E; [subst y; apply lookup_delete_eq|by apply lookup_delete_ne].
Qed.

(** Names of what stays private are the old ones. *)
#[local] Lemma moved_inner d n y l : f_private f' !! y = Some l → bound f' d n y → bound f d n y.
Proof using T HF HP Hn HFD HD Hi HK HPi Hx.
  rewrite moved_private. case_decide as E; [done|]. intros Hy [(_ & _ & ?)|[(_ & _ & Ex)|?]]%moved_bound; [done| |done].
  destruct (displaced_public y Ex). congruence.
Qed.

#[local] Lemma moved_tidy : tidy f'.
Proof using T HF HP Hn HFD HD Hi HK HPi Hx.
  destruct apart as (HFP & HDP & HFx). pose proof moved_has_shape as [(ER & _ & _) C _ _].
  assert (HDb := file_names). assert (HFD' : bound f F "data" D) by by left.
  split.
  - intros y l Hy. rewrite moved_private in Hy. case_decide; [done|]. by apply (congruous_there f), (td_dom _ T y l).
  - intros d n y Hd Hr Hb. rewrite moved_private in Hd. rewrite moved_private. destruct (decide (y = D)) as [Ey|Ey]; [done|].
    apply moved_bound in Hb as [(_ & _ & ?)|[(_ & _ & Ex)|Hb]]; [done|by apply displaced_public|].
    destruct (decide (d = D)) as [Ed|Ed]; [subst d; by apply HDb in Hb|]. by apply (td_public _ T d n y).
  - intros d n y Hd Hr Hb. rewrite moved_private in Hd. rewrite moved_private. apply moved_bound in Hb as [(_ & -> & _)|[(-> & _ & _)|Hb]]; [congruence| |].
    { rewrite decide_False in Hd by done. congruence. }
    destruct (decide (d = D)) as [Ed|Ed]; [subst d; by apply HDb in Hb|].
    destruct (decide (y = D)) as [Ey|Ey]; [|by apply (td_top _ T d n y)]. subst y. destruct (td_home _ T D s d n F "data" HD Hb HFD'). congruence.
  - intros d l n y Hd Hb. rewrite moved_private in Hd. rewrite moved_private. destruct (decide (d = D)) as [Ed|Ed]; [done|].
    destruct (decide (y = D)) as [Ey|Ey]; [by right|]. apply moved_bound in Hb as [(_ & _ & ?)|[(_ & _ & Ex)|Hb]]; [done|right; by apply displaced_public|].
    by apply (td_inside _ T d l n y).
  - intros y l d n d' n' Hy H1 H2. pose proof (moved_inner _ _ _ _ Hy H1). pose proof (moved_inner _ _ _ _ Hy H2).
    rewrite moved_private in Hy. case_decide; [done|]. by apply (td_home _ T y l).
  - intros d n y Hb. apply (congruous_there f); [done|].
    apply moved_bound in Hb as [(_ & _ & ->)|[(_ & _ & Ex)|Hb]]; [by eexists|by apply displaced_public|by apply (td_there _ T d n)].
  - intros path y. rewrite ER. intros Hy. destruct (td_roots _ T path y Hy) as [Q1 Q2]. split; [|by apply (congruous_there f)].
    rewrite moved_private. by case_decide.
  - intros y l j Hy Hj. rewrite moved_private in Hy. case_decide; [done|]. destruct (congruous_shape f f' y j C Hj) as (i0 & H0 & -> & -> & -> & _).
    by apply (td_shape _ T y l).
  - intros y l n z Hy Hk Hb. rewrite moved_private in Hy. case_decide as Ey; [done|].
    destruct (f_inodes f' !! y) as [j|] eqn:Ej; [|done]. destruct (congruous_shape f f' y j C Ej) as (i0 & H0 & K0 & _).
    assert (Hk0 : i_kind <$> f_inodes f !! y = Some Regular) by (rewrite H0; cbn in *; by rewrite <- K0).
    apply moved_bound in Hb as [(-> & _)|[(-> & _ & Ex)|Hb]]; [congruence| |by apply (td_plain _ T y l n z)].
    by apply (td_plain _ T F s "data" D HF Hk0).
Qed.

Lemma moved_step : moved_facts s f f' P name D (i_data i) x.
Proof using T HF HP Hn HFD HD Hi HK HPi Hx.
  pose proof moved_has_shape as [(ER & EP & EE) C O N]. split; [apply moved_tidy| |done|done|intros y; by apply congruous_there|].
  - split.
    + intros y l Hl. rewrite moved_private. case_decide as Ey; [|done]. subst y. split; [done|congruence].
    + done.
    + intros d n Hr Hs. rewrite N, (congruous_disk f f' d C). split; [|by left]. case_decide as E1; [subst d; rewrite lookup_insert_ne by congruence; done|].
      case_decide as E2; [|done]. subst d. destruct x; [rewrite lookup_insert_ne by by intros <-|rewrite lookup_delete_ne by by intros <-]; done.
    + intros e He. rewrite EE. apply elem_of_app. by left.
  - intros d n y Hd [(-> & _)|[(_ & -> & _)|Hb]]%moved_bound; [congruence|by left|by right].
Qed.
End moved.
