(* ===== verification/TransferLogic.v ===== *)
(** * Reasoning about the helper's programs

    [safe]: a program keeps the invariant of [TransferInv] at every call, whatever the
    kernel answers and whatever other programs do in between, and its result satisfies a
    postcondition.  [reads] is the same for programs that change nothing. *)

From S2P Require Import Prelude Sha256 Json Posix FileAccess FileTransfer TransferSystem TransferInv TransferCalls.

#[local] Open Scope Z_scope.

(** ** Drift *)

Definition drift (f f' : files) : Prop := f' = f ∨ others f f'.

Lemma discreet_trans f g h : discreet f g → discreet g h → discreet f h.
Proof.
  intros C D. pose proof (dc_private _ _ C) as E. split.
  - by rewrite (dc_private _ _ D).
  - by rewrite (dc_effects _ _ D), (dc_effects _ _ C).
  - intros o Ho. by apply (dc_kept _ _ D), (dc_kept _ _ C).
  - intros d n o. rewrite <- E. apply (dc_public _ _ D).
  - apply (dc_there _ _ D).
  - intros path o. rewrite <- E. apply (dc_roots _ _ D).
Qed.

Lemma others_trans f g h : others f g → others g h → others f h.
Proof.
  intros C D. pose proof (dc_private _ _ (ot_discreet _ _ C)) as E. split.
  - eapply discreet_trans; [apply C|apply D].
  - intros o l Ho. rewrite (ot_objects _ _ D o l) by by rewrite E. by apply (ot_objects _ _ C o l).
  - intros d n Hn. destruct (ot_reserved _ _ C d n Hn) as [<- <-]. by apply (ot_reserved _ _ D).
Qed.

Lemma drift_refl f : drift f f.
Proof. by left. Qed.

Lemma drift_trans f g h : drift f g → drift g h → drift f h.
Proof. intros [->|C] [->|D]; [by left|by right|by right|right; by apply (others_trans f g)]. Qed.

Lemma with_files_id w : with_files w (w_files w) = w.
Proof. by destruct w. Qed.

Lemma inv_drift Q A w f' : inv Q A w → drift (w_files w) f' → inv Q A (with_files w f').
Proof. intros I [->|O]; [by rewrite with_files_id|by apply inv_others]. Qed.

Lemma drift_private f f' : drift f f' → f_private f' = f_private f.
Proof. intros [->|O]; [done|]. apply (ot_discreet _ _ O). Qed.

Lemma drift_effects f f' : drift f f' → f_effects f' = f_effects f.
Proof. intros [->|O]; [done|]. apply (ot_discreet _ _ O). Qed.

Lemma drift_object f f' o l : drift f f' → f_private f !! o = Some l → f_inodes f' !! o = f_inodes f !! o.
Proof. intros [->|O]; [done|]. by apply (ot_objects _ _ O). Qed.

Lemma drift_names f f' d : drift f f' → is_Some (f_private f !! d) →
  names_of f' d = names_of f d ∧ disk_names_of f' d = disk_names_of f d.
Proof. intros H [l Hd]. apply names_of_eq, (drift_object f f' d l H Hd). Qed.

Lemma drift_reserved f f' d n : drift f f' → reserved n = true →
  names_of f' d !! n = names_of f d !! n ∧ disk_names_of f' d !! n = disk_names_of f d !! n.
Proof. intros [->|O]; [done|]. apply (ot_reserved _ _ O). Qed.

Lemma drift_there f f' o : drift f f' → is_Some (f_inodes f !! o) → is_Some (f_inodes f' !! o).
Proof. intros [->|O]; [done|]. apply (dc_kept _ _ (ot_discreet _ _ O)). Qed.

Lemma drift_carries s f f' : tidy f → reserved s = true → drift f f' → carries s f f'.
Proof. intros T Hs [->|O]; [split; [split|]; done|by apply others_carries]. Qed.

Lemma id_at_drift Q A id w f' ph : inv Q A w → drift (w_files w) f' → id_at (acks A id) id w ph →
  id_at (acks A id) id (with_files w f') ph.
Proof.
  intros I D. apply id_at_carries; [|by rewrite (drift_effects _ _ D)].
  apply drift_carries; [apply I|done|done].
Qed.

(** ** Safe programs *)

Section safe.
Context (Q : Z) (A : list (string * Z * list Z)).

Fixpoint safe {B} (Φ : res B → world → Prop) (p : prog B) (w : world) : Prop :=
  match p with
  | Return r => inv Q A w ∧ ∀ f, drift (w_files w) f → Φ r (with_files w f)
  | Call c k => inv Q A w ∧ ∀ f ch, drift (w_files w) f →
      let a := answer c ch (with_files w f) in safe Φ (k a.2) a.1
  end.

Lemma safe_inv {B} Φ (p : prog B) w : safe Φ p w → inv Q A w.
Proof. destruct p; by intros [? _]. Qed.

Lemma safe_drift {B} Φ (p : prog B) w f : safe Φ p w → drift (w_files w) f → safe Φ p (with_files w f).
Proof.
  destruct p as [r|c k]; intros [I H] D; (split; [by apply inv_drift|]); cbn [with_files w_files].
  - intros g Hg. apply H. by apply (drift_trans _ f).
  - intros g ch Hg. apply H. by apply (drift_trans _ f).
Qed.

Lemma safe_return {B} (Φ : res B → world → Prop) r w :
  inv Q A w → (∀ f, drift (w_files w) f → inv Q A (with_files w f) → Φ r (with_files w f)) → safe Φ (Return r) w.
Proof. intros I H. split; [done|]. intros f D. apply H; [done|by apply inv_drift]. Qed.

Lemma safe_unit {B} (Φ : res B → world → Prop) (p : prog B) w : safe Φ (p ≫= mret) w → safe Φ p w.
Proof.
  revert w. induction p as [[b|e]|c q IH]; intros w H; [exact H|exact H|]. destruct H as [I S]. split; [done|].
  intros f ch D. apply IH, S, D.
Qed.

(** A handled program, up to what follows it. *)
Lemma safe_catch_bind {B C} (Φ : res C → world → Prop) (p : prog B) (h : exn → prog B) (k : B → prog C) w :
  safe (fun r w' => match r with Ok b => safe Φ (k b) w' | Err e => safe Φ (h e ≫= k) w' end) p w →
  safe Φ (catch p h ≫= k) w.
Proof.
  revert w. induction p as [r|c q IH]; intros w [I S].
  - specialize (S _ (drift_refl _)). rewrite with_files_id in S. by destruct r.
  - cbn. split; [done|]. intros f ch D. apply IH, S, D.
Qed.

(** A call, with what it answers. *)
Lemma safe_call {B} (Φ : res B → world → Prop) c k w :
  inv Q A w →
  (∀ f ch, drift (w_files w) f → inv Q A (with_files w f) →
     let a := answer c ch (with_files w f) in safe Φ (k a.2) a.1) →
  safe Φ (Call c k) w.
Proof. intros I H. split; [done|]. intros f ch D. apply H; [done|by apply inv_drift]. Qed.

(** A system call that raises: it fails without an effect, or is done. *)
Lemma safe_kernel {B} (Φ : res B → world → Prop) s (k : result s → prog B) w :
  inv Q A w →
  (∀ f ch, drift (w_files w) f → inv Q A (with_files w f) → ch_fault ch = None →
     match act s ch f with
     | (f', inr v) => safe Φ (k v) (with_files w f')
     | (f', inl e) => f' = f
     end) →
  (∀ f e, drift (w_files w) f → inv Q A (with_files w f) → safe Φ (Return (Err (os_error e))) (with_files w f)) →
  safe Φ (kernel s ≫= k) w.
Proof.
  intros I H HE. unfold kernel. change (safe Φ (Call (System s) (fun a => match a with inl e => raise (os_error e) | inr v => mret v end ≫= k)) w).
  apply safe_call; [done|]. intros f ch D I'. cbn zeta. cbn [answer]. unfold sys. cbn [with_files w_files].
  destruct (ch_fault ch) as [e|] eqn:Ef; [by apply HE|].
  specialize (H f ch D I' Ef). destruct (act s ch f) as [f' [e|v]]; cbn; [|exact H]. subst f'. by apply HE.
Qed.
End safe.

(** ** Reading programs *)

Definition reads {B} (Pre : files → Prop) (p : prog B) (R : B → files → Prop) : Prop :=
  ∀ Q A C (Φ : res C → world → Prop) (k : B → prog C) w,
    inv Q A w → Pre (w_files w) →
    (∀ f b, drift (w_files w) f → inv Q A (with_files w f) → R b f → safe Q A Φ (k b) (with_files w f)) →
    (∀ f e, drift (w_files w) f → inv Q A (with_files w f) → safe Q A Φ (Return (Err e)) (with_files w f)) →
    safe Q A Φ (p ≫= k) w.

Lemma bind_assoc {B C E} (p : prog B) (q : B → prog C) (k : C → prog E) Q A (Φ : res E → world → Prop) w :
  safe Q A Φ (p ≫= (fun b => q b ≫= k)) w → safe Q A Φ ((p ≫= q) ≫= k) w.
Proof.
  revert w. induction p as [[b|e]|c r IH]; intros w H; [exact H|exact H|]. destruct H as [I S]. split; [done|].
  intros f ch D. apply IH, S, D.
Qed.

Lemma reads_bind {B C} Pre (p : prog B) (q : B → prog C) R S :
  reads Pre p R → (∀ b, reads (R b) (q b) S) → reads Pre (p ≫= q) S.
Proof.
  intros Hp Hq Q A D Φ k w I HP Hk He. apply bind_assoc. apply Hp; [done|done| |done].
  intros f b Df If Rb. apply Hq; [done|done| |]; cbn [with_files w_files].
  - intros g c Dg Ig Sc. apply Hk; [by apply (drift_trans _ f)|done|done].
  - intros g e Dg Ig. apply He; [by apply (drift_trans _ f)|done].
Qed.

Lemma reads_weaken {B} (Pre Pre' : files → Prop) (p : prog B) (R R' : B → files → Prop) :
  (∀ f, Pre' f → Pre f) → (∀ b f, R b f → R' b f) → reads Pre p R → reads Pre' p R'.
Proof. intros H1 H2 Hp Q A C Φ k w I HP Hk He. apply Hp; [done|by apply H1| |done]. intros f b D If Rb. apply Hk; auto. Qed.

(** What still holds after other programs ran. *)
Definition lasting (R : files → Prop) : Prop := ∀ f f', tidy f → drift f f' → R f → R f'.

(** A reading program keeps lasting facts. *)
Lemma reads_frame {B} (Pre F : files → Prop) (p : prog B) R : lasting F → reads Pre p R →
  reads (fun f => Pre f ∧ F f) p (fun b f => R b f ∧ F f).
Proof.
  intros HF Hp Q A C Φ k w I [HP HFw] Hk He. apply Hp; [done|done| |done].
  intros f b D If Rb. apply Hk; [done|done|]. split; [done|]. by apply (HF (w_files w)); [apply I|..].
Qed.

Lemma reads_mret {B} Pre (b : B) : reads Pre (mret b) (fun b' f => b' = b ∧ Pre f).
Proof.
  intros Q A C Φ k w I HP Hk He. rewrite <- (with_files_id w) in I |- *. cbn. apply Hk; [apply drift_refl|done|by split].
Qed.

Lemma reads_raise {B} Pre e (R : B → files → Prop) : reads Pre (raise e) R.
Proof. intros Q A C Φ k w I HP Hk He. rewrite <- (with_files_id w) in I |- *. cbn. apply He; [apply drift_refl|done]. Qed.

(** A call that changes nothing, with any handling of its answer. *)
Lemma reads_call {B} Pre c (h : reply c → prog B) (R : B → files → Prop) :
  (∀ ch w, (answer c ch w).1 = w) →
  (∀ ch w b, tidy (w_files w) → Pre (w_files w) → h (answer c ch w).2 = mret b → R b (w_files w)) →
  (∀ a, (∃ b, h a = mret b) ∨ ∃ e, h a = raise e) →
  lasting Pre →
  reads Pre (Call c h) R.
Proof.
  intros H1 H2 H3 HL Q A C Φ k w I HP Hk He. change (safe Q A Φ (Call c (fun a => h a ≫= k)) w). apply safe_call; [done|].
  intros f ch D If. cbn zeta. rewrite H1. specialize (H2 ch (with_files w f)).
  destruct (H3 (answer c ch (with_files w f)).2) as [[b E]|[e E]]; rewrite E in *; cbn.
  - apply Hk; [done|done|]. apply H2; [apply If| |done]. cbn. by apply (HL (w_files w)); [apply I|..].
  - by apply He.
Qed.

Lemma reads_kernel Pre s (R : result s → files → Prop) :
  (∀ ch f, (act s ch f).1 = f) →
  (∀ ch f v, tidy f → Pre f → (act s ch f).2 = inr v → R v f) → lasting Pre → reads Pre (kernel s) R.
Proof.
  intros H1 H2 HL. apply reads_call; [| | |done].
  - intros ch w. cbn. unfold sys. destruct (ch_fault ch); [apply with_files_id|]. rewrite H1. apply with_files_id.
  - intros ch w b T HP. cbn. unfold sys. destruct (ch_fault ch); [done|]. destruct (act s ch (w_files w)) as [f' [e|v]] eqn:E; [done|].
    cbn. intros [= <-]. apply (H2 ch); [done|done|by rewrite E].
  - intros [e|v]; [right; by eexists|left; by eexists].
Qed.

Lemma reads_catch {B} Pre (p : prog B) (h : exn → prog B) R : lasting Pre → reads Pre p R → (∀ e, reads Pre (h e) R) →
  reads Pre (catch p h) R.
Proof.
  intros HL Hp Hh Q A C Φ k w I HP Hk He. apply safe_catch_bind, safe_unit. apply Hp; [done|done| |].
  - intros f b D If Rb. split; [done|]. intros g Dg. apply (safe_drift Q A Φ (k b) (with_files w f)); [by apply Hk|done].
  - intros f e D If. split; [done|]. intros g Dg. cbn [with_files w_files] in Dg.
    assert (Dg' : drift (w_files w) g) by by apply (drift_trans _ f).
    apply (Hh e); [by apply (inv_drift Q A w)|by apply (HL (w_files w)); [apply I|..]| |]; cbn [w_files with_files].
    + intros x b Dx Ix Rb. apply Hk; [by apply (drift_trans _ g)|done|done].
    + intros x e' Dx Ix. apply He; [by apply (drift_trans _ g)|done].
Qed.

Lemma lasting_True : lasting (fun _ => True).
Proof. by intros f f'. Qed.
Lemma lasting_and R S : lasting R → lasting S → lasting (fun f => R f ∧ S f).
Proof. intros HR HS f f' T D [? ?]. split; [by apply (HR f)|by apply (HS f)]. Qed.
Lemma lasting_const (P : Prop) : lasting (fun _ => P).
Proof. by intros f f'. Qed.
