(* ===== verification/TransferReads.v ===== *)
(** * The reading parts of a transfer

    What the acquisition of a root, an entry and a stage, the inspection of names and the
    verification of chunks return, under any behaviour of other programs. *)

From S2P Require Import Prelude Sha256 Json Posix FileAccess FileTransfer TransferSystem TransferInv TransferCalls TransferLogic.

#[local] Open Scope Z_scope.

(** ** Lasting facts *)

Definition public (o : object) (f : files) : Prop := f_private f !! o = None ∧ is_Some (f_inodes f !! o).

Lemma lasting_public o : lasting (public o).
Proof. intros f f' T D [H1 H2]. split; [by rewrite (drift_private _ _ D)|by apply (drift_there f)]. Qed.

Lemma lasting_private o l : lasting (fun f => f_private f !! o = l).
Proof. intros f f' T D. by rewrite (drift_private _ _ D). Qed.

(** The stage [s] beneath [P] is [F]. *)
Record at_stage (s : string) (P F : object) (f : files) : Prop := {
  as_parent : public P f;
  as_device : F.1 = P.1;
  as_name : names_of f P !! s = Some F;
  as_private : f_private f !! F = Some s;
  as_kind : i_kind <$> f_inodes f !! F = Some Directory }.

Lemma lasting_at_stage s P F : reserved s = true → lasting (at_stage s P F).
Proof.
  intros Hs f f' T D [H1 H0 H2 H3 H4]. split.
  - by apply (lasting_public P f).
  - done.
  - by rewrite (proj1 (drift_reserved f f' P s D Hs)).
  - by rewrite (drift_private _ _ D).
  - by rewrite (drift_object f f' F s D H3).
Qed.

(** A name in a private directory. *)
Definition inside (s : string) (F : object) (n : string) (o : object) (f : files) : Prop :=
  f_private f !! F = Some s ∧ names_of f F !! n = Some o.

Lemma lasting_inside s F n o : lasting (inside s F n o).
Proof.
  intros f f' T D [H1 H2]. split; [by rewrite (drift_private _ _ D)|].
  by rewrite (proj1 (drift_names f f' F D ltac:(by eexists))).
Qed.

Lemma inside_ours s F n o f : tidy f → inside s F n o f → ours s f o.
Proof. intros T [H1 H2]. apply (td_inside _ T F s n o H1). by left. Qed.

Lemma inside_clean s F n o f : clean f s → inside s F n o f → f_private f !! o = Some s.
Proof. intros C [H1 H2]. apply (C F n o H1). by left. Qed.

(** The content of a private file. *)
Definition is_inode (s : string) (o : object) (i : inode) (f : files) : Prop :=
  f_private f !! o = Some s ∧ f_inodes f !! o = Some i.

Lemma lasting_is_inode s o i : lasting (is_inode s o i).
Proof. intros f f' T D [H1 H2]. split; [by rewrite (drift_private _ _ D)|]. by rewrite (drift_object f f' o s D H1). Qed.

(** ** Calls *)

Lemma reads_fstat Pre o : lasting Pre → reads Pre (fstat o) (fun st f => Pre f ∧ ∃ i ch, f_inodes f !! o = Some i ∧ st = stat_of o i ch).
Proof.
  intros HL. apply (reads_kernel Pre (Fstat o)); [done| |done]. intros ch f v T HP. cbn. destruct (f_inodes f !! o) as [i|] eqn:E; [|done].
  intros [= <-]. split; [done|]. by exists i, ch.
Qed.

Lemma reads_stat_at Pre d n : lasting Pre →
  reads Pre (stat_at d n) (fun st f => Pre f ∧ ∃ o i ch, names_of f d !! n = Some o ∧ f_inodes f !! o = Some i ∧ st = stat_of o i ch).
Proof.
  intros HL. apply (reads_kernel Pre (StatAt d n)); [done| |done]. intros ch f v T HP. cbn. unfold names_of.
  destruct (f_inodes f !! d) as [di|]; [|done]. destruct (i_names di !! n) as [o|] eqn:E1; [|done].
  destruct (f_inodes f !! o) as [i|] eqn:E2; [|done]. intros [= <-]. split; [done|]. by exists o, i, ch.
Qed.

Lemma reads_pread Pre o n off : lasting Pre →
  reads Pre (kernel (Pread o n off)) (fun v f => Pre f ∧ ∃ i, f_inodes f !! o = Some i ∧ v = slice (i_data i) off n).
Proof.
  intros HL. apply (reads_kernel Pre (Pread o n off)); [done| |done]. intros ch f v T HP. cbn. unfold regular_at.
  destruct (f_inodes f !! o) as [i|] eqn:E; [|done]. case_bool_decide; [|done]. intros [= <-]. split; [done|]. by exists i.
Qed.

Lemma reads_space Pre o : lasting Pre → reads Pre (kernel (Space o)) (fun _ => Pre).
Proof. intros HL. by apply (reads_kernel Pre (Space o)). Qed.

Lemma reads_reserve Pre o n : lasting Pre → reads Pre (reserve o n) (fun _ => Pre).
Proof.
  intros HL. unfold reserve. destruct (n =? 0).
  - apply (reads_weaken Pre Pre _ (fun b f => b = tt ∧ Pre f)); [done|by intros ? ? [_ ?]|apply reads_mret].
  - apply reads_call; [|done| |done].
    + intros ch w. cbn. unfold sys. destruct (ch_fault ch); apply with_files_id.
    + intros [e|[]]; [right; by eexists|left; by eexists].
Qed.

Lemma reads_cancel Pre : lasting Pre → reads Pre check_cancel (fun _ => Pre).
Proof.
  intros HL. unfold check_cancel. apply (reads_bind _ _ _ (fun _ => Pre)).
  - unfold is_cancelled. apply reads_call; [done|done| |done]. intros a. left. by eexists.
  - intros b. destruct b; [apply reads_raise|].
    apply (reads_weaken Pre Pre _ (fun x f => x = tt ∧ Pre f)); [done|by intros ? ? [_ ?]|apply (reads_mret Pre tt)].
Qed.

(** A reading program by its specification, up to what the caller needs. *)
Tactic Notation "reads_by" uconstr(L) := eapply reads_weaken; [| |apply L]; [intros ? Hpre; exact Hpre|].

(** A test that raises. *)
Lemma reads_test Pre (b : bool) e : reads Pre (lift (raise_if b e)) (fun _ f => Pre f ∧ b = false).
Proof.
  destruct b; [apply reads_raise|].
  apply (reads_weaken Pre Pre _ (fun x f => x = tt ∧ Pre f)); [done|by intros ? ? [_ ?]|apply (reads_mret Pre tt)].
Qed.

Lemma reads_lift_keep {B} Pre (r : res B) : reads Pre (lift r) (fun b f => r = Ok b ∧ Pre f).
Proof.
  destruct r as [b|e]; [|apply reads_raise].
  apply (reads_weaken Pre Pre _ (fun x f => x = b ∧ Pre f)); [done|by intros ? ? [-> ?]|apply (reads_mret Pre b)].
Qed.

(** ** Acquisition *)

Lemma granted_inr f o how o' : granted f o how = inr o' →
  o' = o ∧ is_Some (f_inodes f !! o) ∧ (how = ForDirectory → i_kind <$> f_inodes f !! o = Some Directory).
Proof.
  unfold granted. destruct (f_inodes f !! o) as [i|]; [|done]. destruct how.
  - case_bool_decide as E; [|done]. intros [= <-]. repeat split; [by eexists|]. intros _. cbn. by f_equal.
  - intros [= <-]. repeat split; [by eexists|done].
  - case_bool_decide as E; [done|]. intros [= <-]. repeat split; [by eexists|done].
Qed.

Lemma lookup_at_device f d n o : lookup_at f d n = inr o → names_of f d !! n = Some o ∧ o.1 = d.1.
Proof.
  unfold lookup_at, names_of. destruct (f_inodes f !! d) as [i|]; [|done]. case_bool_decide; [|done].
  destruct (i_names i !! n) as [x|]; [|done]. destruct (f_inodes f !! x); [|done]. case_bool_decide; [done|]. case_bool_decide; [|done].
  by intros [= <-].
Qed.

Lemma lookup_at_inr f d n o : lookup_at f d n = inr o → names_of f d !! n = Some o.
Proof. intros H. by apply lookup_at_device in H as [? _]. Qed.

Lemma walk_public f path : tidy f → ∀ d o, Forall (fun n => reserved n = false) path → public d f → walk f d path = inr o → public o f.
Proof.
  intros T. induction path as [|n path IH]; intros d o HR HP; cbn; [by intros [= <-]|].
  apply Forall_cons in HR as [Hn HR]. destruct (lookup_at f d n) as [e|x] eqn:E; [done|]. apply lookup_at_inr in E.
  apply IH; [done|]. split; [apply (td_public _ T d n x); [apply HP|done|by left]|apply (td_there _ T d n x); by left].
Qed.

Lemma lookup_error_cases {B} (a : errno + B) :
  (∃ b, match a with inl e => raise (lookup_error e) | inr o => mret o end = mret b)
  ∨ ∃ e, match a with inl e => raise (lookup_error e) | inr o => mret o end = raise e.
Proof. destruct a as [e|b]; [right; by eexists|left; by eexists]. Qed.

Lemma reads_opened Pre d path how : lasting Pre →
  reads Pre (opened d path how) (fun o f => Pre f ∧ ∃ x, walk f d path = inr x ∧ granted f x how = inr o).
Proof.
  intros HL. apply reads_call; [| |apply lookup_error_cases|done].
  - intros ch w. cbn. unfold sys. destruct (ch_fault ch); [apply with_files_id|]. cbn. apply with_files_id.
  - intros ch w b T HP. cbn. unfold sys. destruct (ch_fault ch); [done|]. cbn.
    destruct (walk (w_files w) d path) as [e|x] eqn:E; [done|]. destruct (granted (w_files w) x how) as [e|o] eqn:E'; [done|].
    intros [= <-]. split; [done|]. by exists x.
Qed.

Lemma reads_opened_root path : reads (fun _ => True) (opened_root path) (fun o => public o).
Proof.
  apply reads_call; [| |apply lookup_error_cases|apply lasting_True].
  - intros ch w. cbn. unfold sys. destruct (ch_fault ch); [apply with_files_id|]. cbn. apply with_files_id.
  - intros ch w b T _. cbn. unfold sys. destruct (ch_fault ch); [done|]. cbn.
    destruct (f_roots (w_files w) !! path) as [o|] eqn:E; [|done].
    destruct (granted (w_files w) o ForDirectory) as [e|x] eqn:E'; [done|]. intros [= <-].
    apply granted_inr in E' as (-> & _). by apply (td_roots _ T path).
Qed.

Lemma reads_root_fd r : reads (fun _ => True) (root_fd r) (fun o => public o).
Proof.
  unfold root_fd. apply (reads_bind _ _ _ (fun _ _ => True)).
  { eapply reads_weaken; [| |apply (reads_test (fun _ => True))]; done. }
  intros _. apply (reads_bind _ _ _ (fun o => public o)); [apply reads_opened_root|]. intros o.
  assert (HL := lasting_public o). destruct (rt_identity r) as [i|].
  - apply (reads_bind _ _ _ (fun _ => public o)).
    { reads_by (reads_fstat (public o) o HL). by intros ? ? [? _]. }
    intros st. apply (reads_bind _ _ _ (fun _ => public o)).
    { reads_by reads_test. by intros ? ? [? _]. }
    intros _. reads_by reads_mret. by intros ? ? [-> ?].
  - reads_by reads_mret. by intros ? ? [-> ?].
Qed.

Lemma strip_prefix_app p q s : is_Some (strip_prefix (p +:+ q) s) → is_Some (strip_prefix p s).
Proof.
  revert s. induction p as [|a p IH]; intros s H; [by eexists|]. change (String a p +:+ q) with (String a (p +:+ q)) in H.
  destruct s as [|b s]; [by destruct H|]. cbn [strip_prefix] in *. destruct (Ascii.eqb a b); [by apply IH|by destruct H].
Qed.

Lemma reserved_RESERVED n : starts_with RESERVED n = false → reserved n = false.
Proof.
  unfold reserved, starts_with. intros H. destruct (strip_prefix PREFIX n) eqn:E; [|done].
  assert (K : is_Some (strip_prefix RESERVED n)) by (apply (strip_prefix_app RESERVED "transfer-"); by eexists).
  destruct K as [x K]. by rewrite K in H.
Qed.

Lemma parts_public ref path : parts ref = Ok path → Forall (fun n => reserved n = false) path.
Proof.
  unfold parts. intros H. apply raise_if_bind_Ok in H as [_ H]. apply bind_Ok in H as (l & _ & H).
  apply raise_if_bind_Ok in H as [H E]. apply Ok_inj in E as <-. apply orb_false_iff in H as [H _].
  apply Forall_forall. intros n Hn. apply reserved_RESERVED. rewrite existsb_false in H. by apply H.
Qed.

Lemma name_public n b s : transfer_name n b = Ok s → reserved s = false.
Proof.
  unfold transfer_name. intros H. apply bind_Ok in H as (l & _ & H). apply raise_if_bind_Ok in H as [H E].
  apply Ok_inj in E as <-. by apply reserved_RESERVED.
Qed.

Lemma same_object a b d : same a b d = true → object_of a = object_of b.
Proof. unfold same. intros H. apply andb_true_iff in H as [H _]. apply andb_true_iff in H as [H _]. by apply bool_decide_eq_true in H. Qed.

Lemma object_of_identity o i ch : object_of (identity_of (stat_of o i ch)) = o.
Proof. by destruct o. Qed.

Lemma reads_entry_fd r ref how : reads (fun _ => True) (entry_fd r ref how)
  (fun o f => o = object_of (rf_identity ref) ∧ public o f).
Proof.
  unfold entry_fd. apply (reads_bind _ _ _ (fun path f => parts ref = Ok path ∧ True)); [apply reads_lift_keep|]. intros path.
  apply (reads_bind _ _ _ (fun d f => public d f ∧ parts ref = Ok path)).
  { eapply reads_weaken; [| |apply (reads_frame (fun _ => True) (fun _ => parts ref = Ok path)); [apply lasting_const|apply reads_root_fd]].
    - intros f [? _]. by split.
    - done. }
  intros d. assert (HL : lasting (fun f => public d f ∧ parts ref = Ok path)) by (apply lasting_and; [apply lasting_public|apply lasting_const]).
  apply (reads_bind _ _ _ (fun o => public o)).
  { unfold opened. apply reads_call; [| |apply lookup_error_cases|done].
    - intros ch w. cbn. unfold sys. destruct (ch_fault ch); [apply with_files_id|]. cbn. apply with_files_id.
    - intros ch w b T [HP Hp]. cbn. unfold sys. destruct (ch_fault ch); [done|]. cbn.
      destruct (walk (w_files w) d path) as [e|x] eqn:E; [done|]. destruct (granted (w_files w) x how) as [e|o] eqn:E'; [done|].
      intros [= <-]. apply granted_inr in E' as (-> & _). apply (walk_public _ path T d); [by apply (parts_public ref)|done|done]. }
  intros o. apply (reads_bind _ _ _ (fun st f => public o f ∧ object_of (identity_of st) = o)).
  { reads_by (reads_fstat _ _ (lasting_public o)). cbn. intros st f (HP & i & ch & _ & ->).
    split; [done|]. apply object_of_identity. }
  intros st. cbn zeta. apply (reads_bind _ _ _ (fun _ f => public o f ∧ o = object_of (rf_identity ref))).
  { reads_by (reads_test (fun f => public o f ∧ object_of (identity_of st) = o)). cbn.
    intros _ f [[HP Ho] Hs]. split; [done|]. rewrite <- Ho. apply negb_false_iff in Hs. by apply same_object in Hs. }
  intros _. reads_by reads_mret. cbn. by intros x f [-> [? ?]].
Qed.

Lemma reads_stage r t s : tr_stage t = s → reserved s = true →
  reads (fun _ => True) (stage r t) (fun p f => p.1 = parent_of t ∧ at_stage s p.1 p.2 f).
Proof.
  intros <- Hs. unfold stage. apply (reads_bind _ _ _ (fun o f => o = parent_of t ∧ public o f)); [apply reads_entry_fd|].
  intros P. assert (HL : lasting (fun f => P = parent_of t ∧ public P f)) by (apply lasting_and; [apply lasting_const|apply lasting_public]).
  apply (reads_bind _ _ _ (fun F f => P = parent_of t ∧ at_stage (tr_stage t) P F f)).
  { unfold opened. apply reads_call; [| |apply lookup_error_cases|done].
    - intros ch w. cbn [answer]. unfold sys. destruct (ch_fault ch); [apply with_files_id|]. cbn. apply with_files_id.
    - intros ch w b T [HP Hp]. cbn [answer]. unfold sys. destruct (ch_fault ch); [done|]. cbn [act fst snd walk].
      destruct (lookup_at (w_files w) P (tr_stage t)) as [e|x] eqn:E; [done|].
      destruct (granted (w_files w) x ForDirectory) as [e|o] eqn:E'; [done|].
      intros [= <-]. apply granted_inr in E' as (-> & _ & Hk). apply lookup_at_device in E as [E Ed]. split; [done|]. split; [done|done|done| |by apply Hk].
      apply (td_top _ T P); [apply Hp|done|by left]. }
  intros F. assert (HL' : lasting (fun f => P = parent_of t ∧ at_stage (tr_stage t) P F f)).
  { apply lasting_and; [apply lasting_const|by apply lasting_at_stage]. }
  apply (reads_bind _ _ _ (fun _ f => P = parent_of t ∧ at_stage (tr_stage t) P F f)).
  { reads_by (reads_fstat _ _ HL'). cbn. by intros ? ? [? _]. }
  intros st. apply (reads_bind _ _ _ (fun _ f => P = parent_of t ∧ at_stage (tr_stage t) P F f)).
  { reads_by reads_test. cbn. by intros ? ? [? _]. }
  intros _. reads_by reads_mret. cbn. by intros x f [-> ?].
Qed.

(** A file of the stage. *)
Lemma reads_opened_in Pre s F n how : lasting Pre → (∀ f, Pre f → f_private f !! F = Some s) →
  reads Pre (opened F [n] how) (fun o f => Pre f ∧ inside s F n o f).
Proof.
  intros HL HF. reads_by (reads_opened Pre F [n] how HL). cbn [walk]. intros o f [HP (x & Hx & Hg)].
  split; [done|]. destruct (lookup_at f F n) as [e|y] eqn:E; [done|]. injection Hx as ->. apply lookup_at_inr in E.
  apply granted_inr in Hg as (-> & _). split; [by apply HF|done].
Qed.

Lemma reads_opened_device Pre s F n how : lasting Pre → (∀ f, Pre f → f_private f !! F = Some s) →
  reads Pre (opened F [n] how) (fun o f => Pre f ∧ inside s F n o f ∧ o.1 = F.1).
Proof.
  intros HL HF. reads_by (reads_opened Pre F [n] how HL). cbn [walk]. intros o f [HP (x & Hx & Hg)].
  split; [done|]. destruct (lookup_at f F n) as [e|y] eqn:E; [done|]. injection Hx as ->. apply lookup_at_device in E as [E Ed].
  apply granted_inr in Hg as (-> & _). split; [|done]. split; [by apply HF|done].
Qed.

(** A look at a name that may be missing. *)
Lemma reads_look {B} Pre d n (g : stat → B) : lasting Pre →
  reads Pre (catch (s ← stat_at d n; mret (Some (g s))) (fun e => if is_not_found e then mret None else raise e))
    (fun r f => Pre f ∧ match r with
       | Some v => ∃ o i ch, names_of f d !! n = Some o ∧ f_inodes f !! o = Some i ∧ v = g (stat_of o i ch)
       | None => True end).
Proof.
  intros HL. apply reads_catch; [done| |].
  - apply (reads_bind _ _ _ _ _ (reads_stat_at Pre d n HL)). intros st. reads_by reads_mret. cbn.
    intros r f (-> & HP & o & i & ch & ? & ? & ->). split; [done|]. by exists o, i, ch.
  - intros e. destruct (is_not_found e); [|apply reads_raise]. reads_by (reads_mret Pre). cbn. by intros r f [-> ?].
Qed.
