(* ===== verification/TransferSteps.v ===== *)
(** * The steps of a transfer are safe

    Each function of [FileTransfer] keeps the invariant from a state in which its receipt
    is the one that readers see. *)

From S2P Require Import Prelude Sha256 Json Posix FileAccess FileTransfer TransferSystem TransferInv TransferCalls TransferLogic TransferReads.

#[local] Open Scope Z_scope.

Notation os_error := FileAccess.os_error.

(** ** The state of one transfer *)

Record ctx (Q : Z) (A : list (string * Z * list Z)) (id : string) (t : transfer) (ph : phase) (w : world) : Prop := {
  cx_inv : inv Q A w;
  cx_visible : w_receipts w !! id = Some (OfTransfer t);
  cx_at : id_at (acks A id) id w ph }.

Lemma ctx_drift Q A id t ph w f : ctx Q A id t ph w → drift (w_files w) f → ctx Q A id t ph (with_files w f).
Proof. intros [I V X] D. split; [by apply inv_drift|done|by apply (id_at_drift Q)]. Qed.

Lemma ctx_fits Q A id t ph w : ctx Q A id t ph w → wf_transfer id t ∧ fits (w_files w) id (acks A id) ph t ∧ exact ph t.
Proof. intros [I V X]. destruct (ia_fits _ _ _ _ X _ t (versions_here w) V). split; [done|]. split; [done|]. by apply X. Qed.

(** The files change and the phase stays. *)
Lemma ctx_files Q A id t ph w f : ctx Q A id t ph w → tidy f → touches (stage_name id) (w_files w) f →
  (∀ o, f_private (w_files w) !! o = Some (stage_name id) → f_private f !! o = Some (stage_name id)) →
  physical f (stage_name id) ph →
  (∀ e, e ∈ f_effects f → e ∈ f_effects (w_files w) ∨ justified A w e) → ctx Q A id t ph (with_files w f).
Proof.
  intros [I V [XP XF XX XL]] T TC HP HX HE.
  assert (X' : id_at (acks A id) id (with_files w f) ph).
  { split; cbn; [done| |done|done]. intros m t' Hm Ht. destruct (XF m t' Hm Ht) as [? ?]. split; [done|].
    apply (fits_private (w_files w)); [done|apply TC|done]. }
  split; [|done|done]. by apply (inv_touch Q A w f id ph).
Qed.

Lemma ctx_layout Q A id t ph w f : ctx Q A id t ph w → tidy f → touches (stage_name id) (w_files w) f →
  layout (stage_name id) (w_files w) f → physical f (stage_name id) ph →
  (∀ e, e ∈ f_effects f → e ∈ f_effects (w_files w) ∨ justified A w e) → ctx Q A id t ph (with_files w f).
Proof. intros C T TC L. apply ctx_files; [done..|]. intros o. apply (cr_private _ _ _ L). Qed.

(** A reading program in the state of a transfer. *)
Lemma ctx_reads {B C} Q A id t ph Pre (p : prog B) R (Φ : res C → world → Prop) (k : B → prog C) w :
  reads Pre p R → ctx Q A id t ph w → Pre (w_files w) →
  (∀ w' b, ctx Q A id t ph w' → drift (w_files w) (w_files w') → R b (w_files w') → safe Q A Φ (k b) w') →
  (∀ w' e, ctx Q A id t ph w' → safe Q A Φ (Return (Err e)) w') →
  safe Q A Φ (p ≫= k) w.
Proof.
  intros HR X HP Hk He. apply HR; [apply X|done| |].
  - intros f b D I Rb. apply Hk; [by apply ctx_drift|done|done].
  - intros f e D I. apply He. by apply ctx_drift.
Qed.

Lemma catch_kernel {B} Q A (Φ : res B → world → Prop) s (h : exn → prog (result s)) (k : result s → prog B) w :
  inv Q A w →
  (∀ f ch, drift (w_files w) f → inv Q A (with_files w f) → ch_fault ch = None →
     match act s ch f with
     | (f', inr v) => safe Q A Φ (k v) (with_files w f')
     | (f', inl e) => f' = f
     end) →
  (∀ f e, drift (w_files w) f → inv Q A (with_files w f) → safe Q A Φ (h (os_error e) ≫= k) (with_files w f)) →
  safe Q A Φ (catch (kernel s) h ≫= k) w.
Proof.
  intros I H HE.
  change (safe Q A Φ (Call (System s) (fun a => catch (match a with inl e => raise (os_error e) | inr v => mret v end) h ≫= k)) w).
  apply safe_call; [done|]. intros f ch D I'. cbn zeta. cbn [answer]. unfold sys. cbn [with_files w_files].
  destruct (ch_fault ch) as [e|] eqn:Ef; [by apply HE|].
  specialize (H f ch D I' Ef). destruct (act s ch f) as [f' [e|v]]; cbn; [|exact H]. subst f'. by apply HE.
Qed.

(** ** Keeping the receipt *)

(** [save] of a receipt that follows the one readers see, in a phase that fits both. *)
Lemma keep_safe {B} Q A id t ph t' (Φ : res B → world → Prop) (k : unit → prog B) w :
  inv Q A w → w_receipts w !! id = Some (OfTransfer t) → physical (w_files w) (stage_name id) ph →
  (∀ m x, m ∈ versions w → m !! id = Some (OfTransfer x) → wf_transfer id x ∧ fits (w_files w) id (acks A id) ph x) →
  wf_transfer id t' → fits (w_files w) id (acks A id) ph t' → exact ph t' → succeeds t t' →
  (∀ w', ctx Q A id t' ph w' → w_older w' = [] → drift (w_files w) (w_files w') → safe Q A Φ (k tt) w') →
  (∀ w' e, inv Q A w' → safe Q A Φ (Return (Err e)) w') →
  safe Q A Φ (keep t' ≫= k) w.
Proof.
  intros I V XP XF W F E S Hk He. unfold keep, save.
  assert (Hid : tr_id t' = id) by apply W. rewrite Hid.
  assert (X : ∀ f, drift (w_files w) f → physical f (stage_name id) ph ∧ (∀ m x, m ∈ versions w → m !! id = Some (OfTransfer x) →
      wf_transfer id x ∧ fits f id (acks A id) ph x) ∧ fits f id (acks A id) ph t').
  { intros f D. assert (C : carries (stage_name id) (w_files w) f) by (apply drift_carries; [apply I|done|done]).
    assert (HF : ∀ x, fits (w_files w) id (acks A id) ph x → fits f id (acks A id) ph x).
    { intros x. apply fits_private; [intros o; apply (cr_private _ _ _ (cr_layout _ _ _ C))|]. intros e. by rewrite (drift_effects _ _ D). }
    split; [apply (physical_carries _ (w_files w)); [done|intros e; by rewrite (drift_effects _ _ D)|done]|]. split; [|by apply HF]. intros m x Hm Hx. destruct (XF m x Hm Hx). auto. }
  destruct (identifier id) as [[]|e]; [|by apply He].
  unfold known, write. cbn [lift mbind prog_bind prog_then].
  apply safe_call; [done|]. intros f ch D I'. cbn [answer fst snd].
  assert (Hv : is_Some (w_receipts (with_files w f) !! id)) by (cbn; rewrite V; by eexists).
  rewrite bool_decide_eq_true_2 by done. cbn [mret prog_ret prog_then].
  apply safe_call; [done|]. intros h ch' Dh Ih.
  cbn [answer]. assert (Dh' : drift (w_files w) h) by by apply (drift_trans _ f).
  destruct (X h Dh') as (X1 & X2 & X3).
  destruct (inv_write Q A (with_files w h) id (Some t) t' ph ch' Ih X1 X2) as [R1 R2]; try done. cbn zeta.
  change (with_files (with_files w f) h) with (with_files w h).
  destruct (written id (OfTransfer t') ch' (with_files w h)) as [w' [[]|e]] eqn:Ew; cbn [fst snd prog_then] in *; [|by apply He].
  destruct (R2 eq_refl) as (R3 & R4 & R5 & R6). apply Hk; [|done|by rewrite R4]. split; [done| |done].
  rewrite R5. apply lookup_insert_eq.
Qed.

(** From the state of the transfer itself. *)
Lemma keep_ctx {B} Q A id t ph t' (Φ : res B → world → Prop) (k : unit → prog B) w :
  ctx Q A id t ph w → wf_transfer id t' → fits (w_files w) id (acks A id) ph t' → exact ph t' → succeeds t t' →
  (∀ w', ctx Q A id t' ph w' → w_older w' = [] → drift (w_files w) (w_files w') → safe Q A Φ (k tt) w') →
  (∀ w' e, inv Q A w' → safe Q A Φ (Return (Err e)) w') →
  safe Q A Φ (keep t' ≫= k) w.
Proof. intros [I V X] W F E S. apply (keep_safe Q A id t ph t'); [done|done|apply X|apply X|done..]. Qed.

(** ** Preparation *)

Definition top_synced (s : string) (P : object) (f : files) : Prop := disk_names_of f P !! s = names_of f P !! s.

Lemma lasting_top_synced s P : reserved s = true → lasting (top_synced s P).
Proof. intros Hs f f' T D. unfold top_synced. by destruct (drift_reserved f f' P s D Hs) as [-> ->]. Qed.

(** A regular file of the stage, made by this program. *)
Definition regular_inside (s : string) (F : object) (n : string) (f : files) : Prop :=
  ∃ o, inside s F n o f ∧ f_private f !! o = Some s ∧ i_kind <$> f_inodes f !! o = Some Regular ∧ o.1 = F.1.

Lemma lasting_regular_inside s F n : lasting (regular_inside s F n).
Proof.
  intros f f' T D (o & H1 & H2 & H3 & H4). exists o. split; [by apply (lasting_inside s F n o f)|].
  split; [by rewrite (drift_private _ _ D)|]. by rewrite (drift_object f f' o s D H2).
Qed.

Record ready (s : string) (P F : object) (ns : list string) (f : files) : Prop := {
  rd_stage : at_stage s P F f;
  rd_synced : top_synced s P f;
  rd_files : ∀ n, n ∈ ns → regular_inside s F n f }.

Lemma lasting_ready s P F ns : reserved s = true → lasting (ready s P F ns).
Proof.
  intros Hs f f' T D [H1 H2 H3]. split.
  - by apply (lasting_at_stage s P F Hs f).
  - by apply (lasting_top_synced s P Hs f).
  - intros n Hn. by apply (lasting_regular_inside s F n f), H3.
Qed.

Lemma make_inr k mode links dir name ch f f' o : make k mode links dir name ch f = inr (f', o) →
  ∃ di, f_inodes f !! dir = Some di ∧ i_kind di = Directory ∧ f_inodes f !! o = None ∧ names_of f dir !! name = None
    ∧ o.1 = dir.1 ∧ f' = born f dir di name o (mkInode k true mode links (ch_time ch) (ch_time ch) [] [] ∅ ∅) (ch_time ch).
Proof.
  unfold make, names_of. destruct (f_inodes f !! dir) as [di|]; [|done]. cbn zeta.
  case_bool_decide as H1; [|done]. case_bool_decide as H2; [done|]. case_bool_decide as H3; [done|].
  cbn. intros [= <- <-]. exists di. split; [done|]. split; [done|]. split; [by apply eq_None_not_Some|]. split; [by apply eq_None_not_Some|]. by split.
Qed.

Lemma born_clean s f f' dir name o i : born_facts s f f' dir name o i → clean f s → clean f' s.
Proof.
  intros B C d n x. rewrite (bf_private _ _ _ _ _ _ _ B). intros Hd Hb.
  destruct (decide (x = o)) as [->|Hx]; [by rewrite lookup_insert_eq|]. rewrite lookup_insert_ne by done.
  destruct (bf_bound _ _ _ _ _ _ _ B d n x Hb) as [(_ & _ & ->)|Hb']; [done|].
  destruct (decide (d = o)) as [->|Hdo]; [|rewrite lookup_insert_ne in Hd by done; by apply (C d n x)].
  exfalso. unfold bound, names_of, disk_names_of in Hb'. rewrite (bf_fresh _ _ _ _ _ _ _ B), !lookup_empty in Hb'. by destruct Hb'.
Qed.

(** A new private object keeps the state of a transfer that has no stage yet. *)
Lemma ctx_born Q A id t w f f' dir name o i : ctx Q A id t Fresh (with_files w f) →
  born_facts (stage_name id) f f' dir name o i → ctx Q A id t Fresh (with_files w f').
Proof.
  intros C B. change (with_files w f') with (with_files (with_files w f) f'). apply ctx_files; [done|apply B|apply B| | |].
  - intros x Hx. rewrite (bf_private _ _ _ _ _ _ _ B). destruct (decide (x = o)) as [->|]; [by rewrite lookup_insert_eq|by rewrite lookup_insert_ne].
  - cbn. apply (born_clean _ f f' dir name o i B). apply (ia_physical _ _ _ _ (cx_at _ _ _ _ _ _ C)).
  - intros e. rewrite (bf_effects _ _ _ _ _ _ _ B). by left.
Qed.

Lemma at_stage_ne s P F f : at_stage s P F f → F ≠ P.
Proof. intros [[H _] _ _ H' _] ->. congruence. Qed.

Lemma born_inside_facts s f f' P F name o i ns : born_facts s f f' F name o i → i_kind i = Regular → names_of f F !! name = None → o.1 = F.1 →
  tidy f → ready s P F ns f → ready s P F (name :: ns) f'.
Proof.
  intros B Hk Hn Hdev T [R1 R2 R3]. pose proof (at_stage_ne _ _ _ _ R1) as HFP.
  pose proof (bf_fresh _ _ _ _ _ _ _ B) as Hf. destruct R1 as [[P1 P2] Rd R1 R1' R1''].
  assert (HoP : P ≠ o) by (intros ->; destruct P2; congruence).
  assert (HoF : F ≠ o) by (intros ->; destruct (td_dom _ T o s R1'); congruence).
  assert (HPr : ∀ x, x ≠ o → f_private f' !! x = f_private f !! x).
  { intros x Hx. by rewrite (bf_private _ _ _ _ _ _ _ B), lookup_insert_ne by done. }
  assert (Hkeep : ∀ n, n ≠ name → regular_inside s F n f → regular_inside s F n f').
  { intros n Hne (x & [X1 X2] & X3 & X4 & X5). assert (Hx : x ≠ o) by (intros ->; by rewrite Hf in X4).
    exists x. split; [split; [by rewrite HPr|]|split; [by rewrite HPr|split; [|done]]].
    - rewrite (bf_names _ _ _ _ _ _ _ B F n HoF); [done|congruence].
    - destruct (decide (x = F)) as [->|HxF]; [by rewrite (bf_kind _ _ _ _ _ _ _ B)|]. by rewrite (bf_other _ _ _ _ _ _ _ B x Hx HxF). }
  split.
  - split; [|done|..].
    + split; [by rewrite HPr|]. rewrite (bf_other _ _ _ _ _ _ _ B P); [done|done|congruence].
    + rewrite (bf_names _ _ _ _ _ _ _ B P s HoP); [done|congruence].
    + by rewrite HPr.
    + by rewrite (bf_kind _ _ _ _ _ _ _ B).
  - unfold top_synced. rewrite (bf_disk _ _ _ _ _ _ _ B P HoP), (bf_names _ _ _ _ _ _ _ B P s HoP) by congruence. done.
  - intros n. rewrite elem_of_cons. intros [->|Hin].
    + exists o. split; [split; [by rewrite HPr|by apply (bf_name _ _ _ _ _ _ _ B)]|].
      split; [by rewrite (bf_private _ _ _ _ _ _ _ B), lookup_insert_eq|]. rewrite (bf_inode _ _ _ _ _ _ _ B). cbn. by rewrite Hk.
    + destruct (decide (n = name)) as [->|Hne]; [|by apply Hkeep, R3].
      destruct (R3 name Hin) as (x & [_ X2] & _). congruence.
Qed.

Lemma sync_ready s f o i P F ns : tidy f → f_inodes f !! o = Some i → ready s P F ns f → ready s P F ns (put f o (synced i)).
Proof.
  intros T Hi [[[P1 P2] H0 H2 H3 H4] H5 H6]. set (f' := put f o (synced i)).
  assert (HN : ∀ d, names_of f' d = names_of f d ∧ (disk_names_of f' d = disk_names_of f d ∨ disk_names_of f' d = names_of f d)).
  { intros d. apply names_put with (i := i); [done|]. split; [done|by right]. }
  assert (HK : ∀ d, i_kind <$> f_inodes f' !! d = i_kind <$> f_inodes f !! d).
  { intros d. unfold f'. rewrite inodes_put. case_decide; [subst d; by rewrite Hi|done]. }
  split.
  - split; [split; [done|]|done| |done|by rewrite HK].
    + unfold f'. rewrite inodes_put. by case_decide.
    + by rewrite (proj1 (HN P)).
  - unfold top_synced in *. destruct (HN P) as [-> [->| ->]]; done.
  - intros n Hn. destruct (H6 n Hn) as (x & [X1 X2] & X3 & X4 & X5). exists x. split; [split; [done|by rewrite (proj1 (HN F))]|].
    split; [done|]. split; [by rewrite HK|done].
Qed.

Lemma ours_drift s f f' o : drift f f' → ours s f o → ours s f' o.
Proof. intros D. unfold ours. by rewrite (drift_private _ _ D). Qed.

Lemma fsync_safe {B} Q A id t ph o (Φ : res B → world → Prop) (k : unit → prog B) w :
  ctx Q A id t ph w → ours (stage_name id) (w_files w) o →
  (∀ f i, drift (w_files w) f → tidy f → f_inodes f !! o = Some i →
     ctx Q A id t ph (with_files w (put f o (synced i))) → safe Q A Φ (k tt) (with_files w (put f o (synced i)))) →
  (∀ f e, drift (w_files w) f → ctx Q A id t ph (with_files w f) → safe Q A Φ (Return (Err e)) (with_files w f)) →
  safe Q A Φ (kernel (Fsync o) ≫= k) w.
Proof.
  intros C Ho Hk He. apply safe_kernel; [apply C| |].
  - intros f ch D I _. cbn. destruct (f_inodes f !! o) as [i|] eqn:Hi; [|done].
    assert (C' : ctx Q A id t ph (with_files w f)) by by apply ctx_drift.
    destruct (sync_step (stage_name id) f o i (iv_tidy _ _ _ I) Hi) as (T & TC & CR & EE & _ & _); [by apply (ours_drift _ (w_files w))|].
    apply Hk; [done|apply I|done|]. change (with_files w (put f o (synced i))) with (with_files (with_files w f) (put f o (synced i))).
    apply ctx_layout; [done|done|done|apply CR| |].
    + apply (physical_carries _ f); [done|by rewrite EE|]. apply (ia_physical _ _ _ _ (cx_at _ _ _ _ _ _ C')).
    + intros e. rewrite EE. by left.
  - intros f e D I. apply He; [done|]. by apply ctx_drift.
Qed.

(** [prepare_file]: afterwards the stage has the file. *)
Lemma prepare_file_rest {B} Q A id t u P F n ns o (Φ : res B → world → Prop) (k : unit → prog B) w :
  let s := stage_name id in
  ctx Q A id t Fresh w → ready s P F ns (w_files w) → inside s F n o (w_files w) → o.1 = F.1 →
  (∀ w', ctx Q A id t Fresh w' → ready s P F (n :: ns) (w_files w') → safe Q A Φ (k tt) w') →
  (∀ w' e, ctx Q A id t Fresh w' → safe Q A Φ (Return (Err e)) w') →
  safe Q A Φ (reserve_file u n o ≫= k) w.
Proof.
  intros s C R N Hdev Hk He. assert (HR : reserved s = true) by done. unfold reserve_file.
  set (Pre1 := fun f => ready s P F ns f ∧ inside s F n o f).
  assert (HL1 : lasting Pre1) by (apply lasting_and; [by apply lasting_ready|apply lasting_inside]).
  apply bind_assoc, (ctx_reads _ _ _ _ _ _ _ _ _ _ _ (reads_fstat Pre1 o HL1) C); [done| |done].
  intros w1 st C1 _ [[R1 N1] (i & ch & Hi & ->)].
  apply bind_assoc, (ctx_reads _ _ _ _ _ _ _ _ _ _ _ (reads_lift_keep (fun f => Pre1 f ∧ f_inodes f !! o = Some i) _) C1); [done| |done].
  intros w2 [] C2 _ [Ereg [[R2 N2] Hi2]].
  unfold regular in Ereg. apply raise_if_Ok, negb_false_iff, bool_decide_eq_true in Ereg. cbn in Ereg.
  assert (Hro : f_private (w_files w2) !! o = Some s).
  { apply (inside_clean s F n o); [|done]. apply (ia_physical _ _ _ _ (cx_at _ _ _ _ _ _ C2)). }
  set (Pre2 := fun f => ready s P F (n :: ns) f ∧ f_private f !! o = Some s).
  assert (HL2 : lasting Pre2) by (apply lasting_and; [by apply lasting_ready|apply lasting_private]).
  assert (H2 : Pre2 (w_files w2)).
  { split; [|done]. destruct R2 as [Q1 Q2 Q3]. split; [done|done|]. intros m [->|Hm]%elem_of_cons; [|by apply Q3].
    exists o. rewrite Hi2. cbn. by rewrite Ereg, Hdev. }
  apply bind_assoc, (ctx_reads _ _ _ _ _ _ _ _ _ _ _ (reads_test Pre2 _ _) C2); [done| |done].
  intros w3 _ C3 _ [H3 _]. cbn zeta.
  apply bind_assoc, (ctx_reads _ _ _ _ _ _ _ _ _ _ _ (reads_space Pre2 o HL2) C3); [done| |done].
  intros w4 av C4 _ H4.
  apply bind_assoc, (ctx_reads _ _ _ _ _ _ _ _ _ _ _ (reads_test Pre2 _ _) C4); [done| |done].
  intros w5 _ C5 _ [H5 _].
  apply bind_assoc, (ctx_reads _ _ _ _ _ _ _ _ _ _ _ (reads_reserve Pre2 o _ HL2) C5); [done| |done].
  intros w6 _ C6 _ [R6 O6].
  apply (fsync_safe Q A id t Fresh o); [done|by left| |intros; by apply He].
  intros f j D T Hj C7. apply Hk; [done|]. cbn. apply sync_ready; [done|done|].
  by apply (lasting_ready s P F (n :: ns) HR (w_files w6)); [apply C6|..].
Qed.

Lemma prepare_file_safe {B} Q A id t u P F n ns (Φ : res B → world → Prop) (k : unit → prog B) w :
  let s := stage_name id in
  reserved n = false → ctx Q A id t Fresh w → ready s P F ns (w_files w) →
  (∀ w', ctx Q A id t Fresh w' → ready s P F (n :: ns) (w_files w') → safe Q A Φ (k tt) w') →
  (∀ w' e, ctx Q A id t Fresh w' → safe Q A Φ (Return (Err e)) w') →
  safe Q A Φ (prepare_file u F n ≫= k) w.
Proof.
  intros s Hn C R Hk He. assert (HR : reserved s = true) by done. unfold prepare_file. apply bind_assoc.
  apply catch_kernel; [apply C| |].
  - intros f ch D I _. cbn [act on]. destruct (make Regular 384 1 F n ch f) as [e|[f' o]] eqn:E; [done|].
    cbn. apply make_inr in E as (di & Hd & Hdk & Ho & Hnm & Hdev & E).
    assert (Rf : ready s P F ns f) by (apply (lasting_ready s P F ns HR (w_files w)); [apply C|done|done]).
    assert (HF : f_private f !! F = Some s) by apply Rf.
    pose proof (born_step s f F di n o (mkInode Regular true 384 1 (ch_time ch) (ch_time ch) [] [] ∅ ∅) (ch_time ch)
      (iv_tidy _ _ _ I) Hd (or_introl (conj HF Hn)) Hdk Ho eq_refl eq_refl (conj eq_refl (or_intror (conj eq_refl eq_refl)))) as BF.
    cbn zeta in BF. subst f'. set (f' := born _ _ _ _ _ _ _) in *.
    assert (C' : ctx Q A id t Fresh (with_files w f')) by (eapply (ctx_born Q A id t w f f'); [by apply ctx_drift|exact BF]).
    assert (R' : ready s P F (n :: ns) f') by exact (born_inside_facts s f f' P F n o _ ns BF eq_refl Hnm Hdev (iv_tidy _ _ _ I) Rf).
    apply (prepare_file_rest Q A id t u P F n ns o); [done| | |done|done|done]; cbn.
    + destruct R' as [R1 R2 R3]. split; [done|done|]. intros m Hm. apply R3. by right.
    + split; [apply R'|apply (bf_name _ _ _ _ _ _ _ BF)].
  - intros f e D I. assert (C' : ctx Q A id t Fresh (with_files w f)) by by apply ctx_drift.
    destruct (is_exists (os_error e)); [|by apply He].
    apply (ctx_reads _ _ _ _ _ _ _ _ _ _ _ (reads_opened_device (ready s P F ns) s F n ForWrite (lasting_ready s P F ns HR) (fun f H => as_private _ _ _ _ (rd_stage _ _ _ _ _ H))) C');
      [|intros w1 o C1 _ (R1 & N1 & Hdev); by apply (prepare_file_rest Q A id t u P F n ns o)|done].
    by apply (lasting_ready s P F ns HR (w_files w)); [apply C|..].
Qed.

Lemma fresh_or_not Q A id t ph w : ctx Q A id t ph w → is_prepared t = false → TERMINAL (tr_state t) = false → tr_state t ≠ Discarding →
  ph = Fresh ∧ tr_prepared t = Some false ∧ (tr_state t = Preparing ∨ tr_state t = Interrupted) ∧ tr_offset t = 0 ∧ acks A id = [].
Proof.
  intros C Hp Ht Hd. destruct (ctx_fits _ _ _ _ _ _ C) as (W & F & E).
  destruct (wt_prepared _ _ W) as [b Hb]. unfold is_prepared in Hp. rewrite Hb in Hp. cbn in Hp. subst b.
  assert (Hs : tr_state t = Preparing ∨ tr_state t = Interrupted).
  { pose proof (wt_prepared_state _ _ W) as HS. unfold TERMINAL in Ht. apply orb_false_iff in Ht as [H1 H2].
    apply bool_decide_eq_false in H1, H2. destruct (tr_state t); try tauto; exfalso; assert (Some false = Some true) by (rewrite <- Hb; auto); done. }
  assert (Hph : ph = Fresh).
  { destruct ph as [|P n c|c]; [done| |].
    - destruct E as (_ & E & _). congruence.
    - unfold fits in F. rewrite Hb in F. destruct Hs as [Hs|Hs]; rewrite Hs in F; tauto. }
  split; [done|]. split; [done|]. split; [done|]. subst ph. unfold fits in F. rewrite Hb in F.
  destruct Hs as [Hs|Hs]; rewrite Hs in F; tauto.
Qed.

Lemma ready_stored s P F f : clean f s → disk_names_of f F = names_of f F → ready s P F ["chunks"; "data"] f → stored f s P [].
Proof.
  intros C HF [[P1 H0 H1 H2 H3] H4 H5].
  destruct (H5 "data") as (D & [_ D1] & D2 & D3 & D4); [right; left|]. destruct (H5 "chunks") as (J & [_ J1] & J2 & J3 & J4); [left|].
  exists F, D, J. unfold top_synced in H4. split.
  - split; [rewrite H4; done|done|destruct P1; congruence|done|done|rewrite HF; done|rewrite HF; done|done].
  - split.
    + destruct (f_inodes f !! D) as [i|] eqn:E; [|done]. injection D3 as D3. exists i. repeat split; [done|done|apply prefix_nil|apply prefix_nil].
    + destruct (f_inodes f !! J) as [i|] eqn:E; [|done]. injection J3 as J3. exists i. repeat split; [done|done|apply prefix_nil|apply prefix_nil].
Qed.

Definition settled (t : transfer) : Prop :=
  is_prepared t = true ∨ TERMINAL (tr_state t) = true ∨ tr_state t = Discarding.

Lemma prepare_safe {B} Q A id r t ph (Φ : res B → world → Prop) (k : transfer → prog B) w :
  ctx Q A id t ph w →
  (∀ w' t' ph', ctx Q A id t' ph' w' → settled t' → safe Q A Φ (k t') w') →
  (∀ w' e, inv Q A w' → safe Q A Φ (Return (Err e)) w') →
  safe Q A Φ (prepare r t ≫= k) w.
Proof.
  intros C Hk He. unfold prepare. destruct (is_prepared t || TERMINAL (tr_state t) || bool_decide (tr_state t = Discarding)) eqn:E.
  { change (safe Q A Φ (k t) w). apply (Hk w t ph C). apply orb_true_iff in E as [E|E]; [apply orb_true_iff in E; unfold settled; tauto|].
    right; right. by apply bool_decide_eq_true in E. }
  apply orb_false_iff in E as [E Hd]. apply orb_false_iff in E as [Hp Ht]. apply bool_decide_eq_false in Hd.
  destruct (fresh_or_not _ _ _ _ _ _ C Hp Ht Hd) as (-> & Hpr & Hst & Hoff & Hack).
  destruct (ctx_fits _ _ _ _ _ _ C) as (W & _ & _). pose proof (wt_stage _ _ W) as Hsn. rewrite Hsn.
  set (s := stage_name id) in *. assert (HR : reserved s = true) by done.
  assert (He' : ∀ w' e, ctx Q A id t Fresh w' → safe Q A Φ (Return (Err e)) w') by (intros; by apply He, (cx_inv _ _ _ _ _ _ H)).
  apply bind_assoc, (ctx_reads _ _ _ _ _ _ _ _ _ _ _ (reads_entry_fd r (tr_parent t) ForDirectory) C); [done| |done].
  intros w1 P C1 _ [HP Pub]. fold (parent_of t) in HP. apply bind_assoc.
  (* the directory of the stage *)
  assert (Hafter : ∀ w2, ctx Q A id t Fresh w2 → public P (w_files w2) → safe Q A Φ ((kernel (Fsync P) ;;
      '(_, folder) ← stage r t; prepare_file t folder "data" ;; prepare_file t folder "chunks" ;; kernel (Fsync folder) ;;
      let t := set_reserved (set_prepared (set_state t Running) (Some true)) (Some (tr_size t + journal_bytes (tr_size t))) in
      keep t ;; mret t) ≫= k) w2).
  { intros w2 C2 Pub2. apply bind_assoc. apply (fsync_safe Q A id t Fresh P); [done|right; apply Pub2| |intros; by apply He'].
    intros f i D T Hi C3. set (f3 := put f P (synced i)) in *.
    assert (S3 : top_synced s P (w_files (with_files w2 f3))).
    { cbn. unfold top_synced, names_of, disk_names_of, f3. by rewrite inodes_put, decide_True by done. }
    apply bind_assoc, (ctx_reads _ _ _ _ _ _ _ _ _ _ _ (reads_stage r t s Hsn HR) C3); [done| |done].
    intros w4 [P' F] C4 D4 [HP' AS]. cbn [fst snd] in *.
    assert (P' = P) as -> by congruence.
    assert (R4 : ready s P F [] (w_files w4)).
    { split; [done| |by intros n Hn%elem_of_nil]. by apply (lasting_top_synced s P HR (w_files (with_files w2 f3))); [apply C3|..]. }
    apply bind_assoc, (prepare_file_safe Q A id t t P F "data" []); [done|done|done| |done].
    intros w5 C5 R5. apply bind_assoc, (prepare_file_safe Q A id t t P F "chunks" ["data"]); [done|done|done| |done].
    intros w6 C6 R6. apply bind_assoc. apply (fsync_safe Q A id t Fresh F); [done|left; apply R6| |intros; by apply He'].
    intros g j D7 T7 Hj C7. set (g' := put g F (synced j)) in *.
    assert (R7 : ready s P F ["chunks"; "data"] g').
    { apply sync_ready; [done|done|]. by apply (lasting_ready s P F ["chunks"; "data"] HR (w_files w6)); [apply C6|..]. }
    assert (N7 : disk_names_of g' F = names_of g' F) by (unfold names_of, disk_names_of, g'; by rewrite inodes_put, decide_True by done).
    cbn zeta. set (t' := set_reserved _ _). set (ph' := Stored P (tr_size t) []).
    assert (HPh : physical g' s ph').
    { pose proof (ia_physical _ _ _ _ (cx_at _ _ _ _ _ _ C7)) as HC. split; [exact HC|]. by apply (ready_stored s P F). }
    assert (W' : wf_transfer id t').
    { destruct W as [W1 W2 W3 W4 W5 W6 W7 W8]. split; try done. by exists true. }
    apply bind_assoc, (keep_safe Q A id t ph' t'); [apply C7|apply C7|done| |done| | | | |done].
    - intros m x Hm Hx. destruct (ia_fits _ _ _ _ (cx_at _ _ _ _ _ _ C7) m x Hm Hx) as [Wx Fx]. split; [done|].
      unfold fits, ph' in *. rewrite Hack in *. destruct (tr_state x), (tr_prepared x) as [[|]|]; tauto.
    - unfold fits. cbn. split; [done|]. split; [done|]. rewrite Hack, Hoff. split; [unfold zlen; cbn; destruct W; lia|]. by intros o d Hx%elem_of_nil.
    - split; [done|]. split; [done|]. cbn. rewrite Hoff. split; [done|]. split; done.
    - split; [by split| |].
      + intros _. cbn. by destruct Hst as [-> | ->].
      + intros [?|[?|?]]; exfalso; destruct Hst; congruence.
    - intros w8 C8 _ _. change (safe Q A Φ (k t') w8). apply (Hk w8 t' ph' C8). by left. }
  unfold catch at 1. fold (@catch unit). apply catch_kernel; [apply C1| |].
  - intros f ch D I _. cbn [act on_unit]. destruct (make Directory 448 2 P s ch f) as [e|[f' o]] eqn:E; [done|].
    cbn. apply make_inr in E as (di & Hd' & Hdk & Ho & Hnm & _ & E).
    assert (Pub' : public P f) by (apply (lasting_public P (w_files w1)); [apply C1|done|done]).
    pose proof (born_step s f P di s o (mkInode Directory true 448 2 (ch_time ch) (ch_time ch) [] [] ∅ ∅) (ch_time ch)
      (iv_tidy _ _ _ I) Hd' (or_intror (conj (proj1 Pub') (conj eq_refl HR))) Hdk Ho eq_refl eq_refl (conj eq_refl (or_introl (conj eq_refl eq_refl)))) as BF.
    cbn zeta in BF. subst f'. set (f' := born _ _ _ _ _ _ _) in *.
    apply Hafter; [eapply (ctx_born Q A id t w1 f f'); [by apply ctx_drift|exact BF]|].
    split; cbn.
    + rewrite (bf_private _ _ _ _ _ _ _ BF). rewrite lookup_insert_ne; [apply Pub'|]. intros ->. destruct Pub' as [_ [? ?]]. congruence.
    + destruct (decide (P = o)) as [->|HPo]; [destruct Pub' as [_ [? ?]]; congruence|].
      pose proof (bf_kind _ _ _ _ _ _ _ BF) as K. rewrite Hd' in K. destruct (f_inodes f' !! P); [done|by cbn in K].
  - intros f e D I. destruct (is_exists (os_error e)); [|by apply He].
    change (safe Q A Φ ((kernel (Fsync P) ;;
      '(_, folder) ← stage r t; prepare_file t folder "data" ;; prepare_file t folder "chunks" ;; kernel (Fsync folder) ;;
      let t := set_reserved (set_prepared (set_state t Running) (Some true)) (Some (tr_size t + journal_bytes (tr_size t))) in
      keep t ;; mret t) ≫= k) (with_files w1 f)).
    apply Hafter; [by apply ctx_drift|]. by apply (lasting_public P (w_files w1)); [apply C1|..].
Qed.
