(* ===== verification/TransferWork.v ===== *)
(** * The bytes of a transfer

    The two files of a stage: what their contents begin with, for readers and on the disk;
    the receiving of a chunk and the verification of what was received. *)

From S2P Require Import Prelude Sha256 Json Posix FileAccess FileTransfer TransferSystem TransferInv TransferCalls TransferLogic TransferReads TransferSteps.

#[local] Open Scope Z_scope.

(** ** The two files of a stage *)

(** A file that starts with [a], and with [b] on the disk. *)
Definition has (o : object) (a b : list Z) (f : files) : Prop :=
  ∃ i, f_inodes f !! o = Some i ∧ i_kind i = Regular ∧ a `prefix_of` i_data i ∧ b `prefix_of` i_disk i.

Record work (s : string) (P F D J : object) (a b a' b' : list Z) (f : files) : Prop := {
  wk_staged : staged f s P F D J;
  wk_ne : D ≠ J;
  wk_data : has D a b f;
  wk_journal : has J a' b' f }.

Lemma lasting_work s P F D J a b a' b' : reserved s = true → lasting (work s P F D J a b a' b').
Proof.
  intros Hs f f' T D0 [S N H H']. pose proof (sg_private _ _ _ _ _ _ S) as [PD PJ]. split.
  - apply (staged_layout s f); [|done]. by apply drift_carries.
  - done.
  - unfold has. by rewrite (drift_object f f' D s D0 PD).
  - unfold has. by rewrite (drift_object f f' J s D0 PJ).
Qed.

Lemma work_stored s P F D J a b a' b' c f : work s P F D J a b a' b' f → c `prefix_of` a → c `prefix_of` b →
  journal_of c `prefix_of` a' → journal_of c `prefix_of` b' → stored f s P c.
Proof.
  intros [S N (i & H1 & H2 & H3 & H4) (j & K1 & K2 & K3 & K4)] Ha Hb Ha' Hb'. exists F, D, J. split; [done|]. split.
  - exists i. split; [done|]. split; [done|]. split; [by transitivity a|by transitivity b].
  - exists j. split; [done|]. split; [done|]. split; [by transitivity a'|by transitivity b'].
Qed.

Lemma stored_work f s P c : tidy f → reserved s = true → stored f s P c →
  ∃ F D J, work s P F D J c c (journal_of c) (journal_of c) f.
Proof.
  intros T Hs (F & D & J & S & HD & HJ). exists F, D, J. split; [done| |done|done]. intros ->.
  destruct S as [_ _ _ _ _ [S1 _] [S2 _] [S3 _]].
  destruct (td_home _ T J s F "data" F "chunks" S3) as [_ ?]; [by left|by left|done].
Qed.

(** The stage that was opened is the one the receipt means. *)
Lemma work_same s P F D J a b a' b' f F' : work s P F D J a b a' b' f → at_stage s P F' f → F' = F.
Proof. intros [[[S _] _ _ _ _ _ _ _] _ _ _] [_ _ K _ _]. congruence. Qed.

Lemma work_inside s P F D J a b a' b' f o : work s P F D J a b a' b' f →
  (inside s F "data" o f → o = D) ∧ (inside s F "chunks" o f → o = J).
Proof. intros [[_ _ _ _ _ [S1 _] [S2 _] _] _ _ _]. split; intros [_ K]; congruence. Qed.

(** Changing the content of one of them. *)
Lemma change_ctx Q A id t P n c w f F D J a b a' b' o i now data e :
  let s := stage_name id in
  ctx Q A id t (Stored P n c) (with_files w f) → work s P F D J a b a' b' f → f_inodes f !! o = Some i →
  o = D ∨ o = J →
  let f' := noted (put f o (set_data i now data)) o e in
  let a1 := if decide (o = D) then data else a in
  let a1' := if decide (o = J) then data else a' in
  c `prefix_of` a1 → c `prefix_of` b → journal_of c `prefix_of` a1' → journal_of c `prefix_of` b' →
  ctx Q A id t (Stored P n c) (with_files w f') ∧ work s P F D J a1 b a1' b' f'.
Proof.
  intros s C W Hi Ho f' a1 a1' H1 H2 H3 H4. destruct W as [S N (iD & D1 & D2 & D3 & D4) (iJ & J1 & J2 & J3 & J4)].
  pose proof (sg_private _ _ _ _ _ _ S) as [PD PJ].
  assert (Po : f_private f !! o = Some s) by (by destruct Ho as [->| ->]).
  destruct (data_step s f o i now data e (iv_tidy _ _ _ (cx_inv _ _ _ _ _ _ C)) Hi (or_introl Po)) as (T & TC & L & EE & HI).
  fold f' in T, TC, L, EE, HI.
  assert (W' : work s P F D J a1 b a1' b' f').
  { split; [by apply (staged_layout s f)|done| |]; unfold has, a1, a1'; rewrite HI.
    - destruct (decide (D = o)) as [<-|Hne].
      + rewrite decide_True by done. exists (set_data i now data). rewrite Hi in D1. injection D1 as <-. done.
      + rewrite decide_False by done. by exists iD.
    - destruct (decide (J = o)) as [<-|Hne].
      + rewrite decide_True by done. exists (set_data i now data). rewrite Hi in J1. injection J1 as <-. done.
      + rewrite decide_False by done. by exists iJ. }
  split; [|done]. change (with_files w f') with (with_files (with_files w f) f').
  apply ctx_layout; [done|done|done|done| |].
  - cbn. split; [|by apply (work_stored s P F D J a1 b a1' b')]. apply (clean_layout s f); [done|].
    apply (ia_physical _ _ _ _ (cx_at _ _ _ _ _ _ C)).
  - intros x. rewrite EE. unfold private. rewrite Po, bool_decide_eq_true_2 by done. rewrite app_nil_r. by left.
Qed.

Lemma resized_short l n : 0 <= n <= zlen l → resized l n = take (Z.to_nat n) l.
Proof. intros H. unfold resized, zlen in *. replace (Z.to_nat n - length l)%nat with 0%nat by lia. by rewrite app_nil_r. Qed.

Lemma prefix_resized a l n : a `prefix_of` l → zlen a <= n → a `prefix_of` resized l n.
Proof.
  intros [k ->] H1. unfold resized. rewrite take_app_ge by (unfold zlen in *; lia). rewrite <- app_assoc. by apply prefix_app_r.
Qed.

Lemma prefix_spliced a l d : a `prefix_of` l → (a ++ d) `prefix_of` spliced l d (zlen a).
Proof.
  intros [k ->]. unfold spliced. rewrite resized_short by (unfold zlen; rewrite length_app; lia). unfold zlen.
  rewrite Nat2Z.id, take_app_length. rewrite app_assoc. by apply prefix_app_r.
Qed.

(** The content of [o] among the two. *)
Definition new_data (o D : object) (data a : list Z) : list Z := if decide (o = D) then data else a.

Record keeps_work (c a b a' b' : list Z) : Prop := {
  kw_data : c `prefix_of` a ∧ c `prefix_of` b;
  kw_journal : journal_of c `prefix_of` a' ∧ journal_of c `prefix_of` b' }.

Lemma has_prefix o a b i f : has o a b f → f_inodes f !! o = Some i → a `prefix_of` i_data i.
Proof. intros (j & Hj & _ & H & _) Hi. congruence. Qed.

Lemma truncate_safe {B} Q A id t P n c F D J a b a' b' o size (Φ : res B → world → Prop) (k : unit → prog B) w :
  let s := stage_name id in
  ctx Q A id t (Stored P n c) w → work s P F D J a b a' b' (w_files w) → keeps_work c a b a' b' →
  o = D ∧ zlen c <= size ∨ o = J ∧ zlen (journal_of c) <= size →
  (∀ w' old i, ctx Q A id t (Stored P n c) w' → new_data o D a a' `prefix_of` old →
     work s P F D J (new_data o D (resized old size) a) b (new_data o J (resized old size) a') b' (w_files w') →
     f_inodes (w_files w') !! o = Some i → i_data i = resized old size →
     (∀ x j, x ≠ o → is_inode s x j (w_files w) → is_inode s x j (w_files w')) → safe Q A Φ (k tt) w') →
  (∀ w' e, ctx Q A id t (Stored P n c) w' → safe Q A Φ (Return (Err e)) w') →
  safe Q A Φ (kernel (Truncate o size) ≫= k) w.
Proof.
  intros s C W [[K1 K2] [K3 K4]] Ho Hk He. apply safe_kernel; [apply C| |].
  - intros f ch D0 I _. cbn [act]. unfold regular_at. destruct (f_inodes f !! o) as [i|] eqn:Hi; [|done].
    case_bool_decide as Hreg; [|done].
    assert (C' : ctx Q A id t (Stored P n c) (with_files w f)) by by apply ctx_drift.
    assert (W' : work s P F D J a b a' b' f) by (apply (lasting_work s P F D J a b a' b' eq_refl (w_files w)); [apply C|done|done]).
    pose proof W' as [S N HD HJ]. 
    assert (Ho' : o = D ∨ o = J) by tauto.
    destruct (change_ctx Q A id t P n c w f F D J a b a' b' o i (ch_time ch) (resized (i_data i) size) (Truncated o) C' W' Hi Ho') as [C2 W2]; [|done| |done|].
    + case_decide as E; [|done]. subst o. apply prefix_resized; [|destruct Ho as [[_ ?]|[? _]]; done].
      transitivity a; [done|]. by apply (has_prefix D a b i f).
    + case_decide as E; [|done]. subst o. apply prefix_resized; [|destruct Ho as [[? _]|[_ ?]]; [congruence|done]].
      transitivity a'; [done|]. by apply (has_prefix J a' b' i f).
    + apply (Hk _ (i_data i) (set_data i (ch_time ch) (resized (i_data i) size))); [done| |done| |done|].
      * unfold new_data. case_decide as E; [subst o; by apply (has_prefix D a b i f)|].
        destruct Ho' as [?|?]; [done|subst o]. by apply (has_prefix J a' b' i f).
      * cbn [w_files with_files]. destruct (noted_fields (put f o (set_data i (ch_time ch) (resized (i_data i) size))) o (Truncated o)) as [-> _].
        by rewrite inodes_put, decide_True.
      * intros x j Hne Hx. apply (lasting_is_inode s x j _ f) in Hx as [X1 X2]; [|apply C|done]. unfold is_inode. cbn [w_files with_files].
        destruct (noted_fields (put f o (set_data i (ch_time ch) (resized (i_data i) size))) o (Truncated o)) as (-> & _ & -> & _).
        by rewrite inodes_put, decide_False.
  - intros f e D0 I. apply He. by apply ctx_drift.
Qed.

Lemma pwrite_safe {B} Q A id t P n c F D J a b a' b' o d (Φ : res B → world → Prop) (k : Z → prog B) w :
  let s := stage_name id in
  ctx Q A id t (Stored P n c) w → work s P F D J a b a' b' (w_files w) → keeps_work c a b a' b' → o = D ∨ o = J →
  (∀ w' m, ctx Q A id t (Stored P n c) w' → 0 <= m <= zlen d → (d ≠ [] → 1 <= m) →
     work s P F D J (new_data o D (a ++ take (Z.to_nat m) d) a) b (new_data o J (a' ++ take (Z.to_nat m) d) a') b' (w_files w') →
     safe Q A Φ (k m) w') →
  (∀ w' e, ctx Q A id t (Stored P n c) w' → safe Q A Φ (Return (Err e)) w') →
  safe Q A Φ (kernel (Pwrite o d (zlen (new_data o D a a'))) ≫= k) w.
Proof.
  intros s C W [[K1 K2] [K3 K4]] Ho Hk He. apply safe_kernel; [apply C| |].
  - intros f ch D0 I _. cbn [act]. unfold regular_at. destruct (f_inodes f !! o) as [i|] eqn:Hi; [|done].
    case_bool_decide as Hreg; [|done]. cbn zeta. set (m := accepted d (ch_number ch)). set (d1 := take (Z.to_nat m) d).
    assert (Hm : 0 <= m <= zlen d ∧ (d ≠ [] → 1 <= m)).
    { unfold m, accepted, zlen. destruct d; cbn [length]; [split; [lia|done]|split; lia]. }
    assert (C' : ctx Q A id t (Stored P n c) (with_files w f)) by by apply ctx_drift.
    assert (W' : work s P F D J a b a' b' f) by (apply (lasting_work s P F D J a b a' b' eq_refl (w_files w)); [apply C|done|done]).
    pose proof W' as [S N HD HJ].
    set (data := spliced (i_data i) d1 (zlen (new_data o D a a'))).
    assert (Hp : (new_data o D a a' ++ d1) `prefix_of` data).
    { apply prefix_spliced. unfold new_data. case_decide as E; [subst o; by apply (has_prefix D a b i f)|].
      destruct Ho as [?|?]; [done|subst o]. by apply (has_prefix J a' b' i f). }
    destruct (change_ctx Q A id t P n c w f F D J a b a' b' o i (ch_time ch) data (Wrote o) C' W' Hi Ho) as [C2 [S2 N2 HD2 HJ2]]; [|done| |done|].
    + case_decide as E; [|done]. subst o. unfold new_data in Hp. rewrite decide_True in Hp by done.
      transitivity a; [done|]. transitivity (a ++ d1); [by apply prefix_app_r|done].
    + case_decide as E; [|done]. subst o. unfold new_data in Hp. rewrite decide_False in Hp by congruence.
      transitivity a'; [done|]. transitivity (a' ++ d1); [by apply prefix_app_r|done].
    + apply Hk; [done|apply Hm|apply Hm|]. cbn [w_files with_files]. split; [done|done| |].
      * destruct HD2 as (x & X1 & X2 & X3 & X4). exists x. split; [done|]. split; [done|]. split; [|done]. unfold new_data in *.
        destruct (decide (o = D)); [by transitivity data|done].
      * destruct HJ2 as (x & X1 & X2 & X3 & X4). exists x. split; [done|]. split; [done|]. split; [|done]. unfold new_data in *.
        destruct (decide (o = D)), (decide (o = J)); try done; [congruence|by transitivity data].
  - intros f e D0 I. apply He. by apply ctx_drift.
Qed.

(** Syncing one of them. *)
Lemma sync_work {B} Q A id t P n c F D J a b a' b' o (Φ : res B → world → Prop) (k : unit → prog B) w :
  let s := stage_name id in
  ctx Q A id t (Stored P n c) w → work s P F D J a b a' b' (w_files w) → o = D ∨ o = J →
  (∀ w', ctx Q A id t (Stored P n c) w' → work s P F D J a (new_data o D a b) a' (new_data o J a' b') (w_files w') →
     (∀ x i, f_private (w_files w) !! x = Some s → f_inodes (w_files w) !! x = Some i →
        ∃ j, f_inodes (w_files w') !! x = Some j ∧ i_data j = i_data i) →
     safe Q A Φ (k tt) w') →
  (∀ w' e, ctx Q A id t (Stored P n c) w' → safe Q A Φ (Return (Err e)) w') →
  safe Q A Φ (kernel (Fsync o) ≫= k) w.
Proof.
  intros s C W Ho Hk He.
  assert (Po : f_private (w_files w) !! o = Some s) by (destruct (sg_private _ _ _ _ _ _ (wk_staged _ _ _ _ _ _ _ _ _ _ W)); by destruct Ho as [->| ->]).
  apply (fsync_safe Q A id t (Stored P n c) o); [done|by left| |intros; by apply He].
  intros f i D0 T Hi C'.
  assert (W' : work s P F D J a b a' b' f) by (apply (lasting_work s P F D J a b a' b' eq_refl (w_files w)); [apply C|done|done]).
  destruct W' as [S N (iD & D1 & D2 & D3 & D4) (iJ & J1 & J2 & J3 & J4)].
  assert (Po' : f_private f !! o = Some s) by by rewrite (drift_private _ _ D0).
  destruct (sync_step s f o i T Hi (or_introl Po')) as (_ & _ & CR & _ & _ & _).
  apply Hk; [done| |].
  - cbn [w_files with_files]. split; [by apply (staged_layout s f); [apply CR|]|done| |]; unfold has, new_data; rewrite inodes_put.
    + destruct (decide (D = o)) as [<-|Hne]; [rewrite decide_True by done|rewrite decide_False by done; by exists iD].
      exists (synced i). rewrite Hi in D1. injection D1 as <-. done.
    + destruct (decide (J = o)) as [<-|Hne]; [rewrite decide_True by done|rewrite decide_False by done; by exists iJ].
      exists (synced i). rewrite Hi in J1. injection J1 as <-. done.
  - intros x j Hx Hj. cbn [w_files with_files]. rewrite inodes_put. case_decide as E.
    + subst x. exists (synced i). split; [done|]. cbn. rewrite (drift_object _ f o s D0 Po) in Hi. congruence.
    + exists j. by rewrite (drift_object _ f x s D0 Hx).
Qed.

(** ** What verification reads *)

Definition piece (c : list Z) (offset : Z) : list Z := slice c offset (Z.min CHUNK (zlen c - offset)).

Lemma pieces_take c n : flat_map (piece c) (map (fun i => Z.of_nat i * CHUNK) (seq 0 n)) = take (n * Z.to_nat CHUNK) c.
Proof.
  pose proof CHUNK_pos. induction n as [|n IH]; [by rewrite take_0|]. rewrite seq_S, map_app, flat_map_app, IH.
  cbn [map flat_map]. rewrite app_nil_r, Nat.add_0_l.
  replace (S n * Z.to_nat CHUNK)%nat with (n * Z.to_nat CHUNK + Z.to_nat CHUNK)%nat by lia. rewrite <- take_take_drop. f_equal.
  unfold piece, slice, zlen. replace (Z.to_nat (Z.of_nat n * CHUNK)) with (n * Z.to_nat CHUNK)%nat by lia.
  destruct (Z.le_gt_cases CHUNK (Z.of_nat (length c) - Z.of_nat n * CHUNK)); [by rewrite Z.min_l by lia|].
  rewrite Z.min_r by lia. rewrite !take_ge; [done|..]; rewrite length_drop; lia.
Qed.

Lemma nchunks_above n : 0 <= n → n <= Z.of_nat (nchunks n) * CHUNK.
Proof.
  pose proof CHUNK_pos. intros. unfold nchunks. rewrite Z2Nat.id by (apply Z.div_pos; lia).
  pose proof (Z.mod_pos_bound (n + CHUNK - 1) CHUNK H). pose proof (Z.div_mod (n + CHUNK - 1) CHUNK). lia.
Qed.

Lemma pieces_all c : flat_map (piece c) (offsets (zlen c)) = c.
Proof.
  rewrite offsets_eq, pieces_take. apply take_ge. pose proof (nchunks_above (zlen c)). pose proof CHUNK_pos. unfold zlen in *. lia.
Qed.

Lemma offsets_range n o : 0 <= n → o ∈ offsets n → 0 <= o < n.
Proof.
  intros Hn. rewrite offsets_eq. intros (i & -> & Hi)%list_elem_of_fmap. apply elem_of_seq in Hi.
  pose proof (nchunks_bound n i). pose proof CHUNK_pos. lia.
Qed.

Lemma zlen_app {X} (a b : list X) : zlen (a ++ b) = zlen a + zlen b.
Proof. unfold zlen. rewrite length_app. lia. Qed.

Lemma journal_zlen c : zlen (journal_of c) = journal_bytes (zlen c).
Proof.
  rewrite journal_of_eq. assert (H : ∀ l, zlen (flat_map (chunk_digest c) l) = Z.of_nat (length l) * 32).
  { induction l as [|o l IH]; [done|]. cbn [flat_map]. rewrite zlen_app, IH. unfold chunk_digest.
    assert (E : zlen (sha256 (slice c o (Z.min CHUNK (zlen c - o)))) = 32) by (unfold zlen; by rewrite sha256_length). cbn [length]. lia. }
  rewrite H, offsets_eq, length_map, length_seq. unfold journal_bytes, nchunks. rewrite Z2Nat.id; [done|].
  apply Z.div_pos; [unfold zlen|]; pose proof CHUNK_pos; lia.
Qed.

Lemma reads_verify_chunks s P F D J c l read chained : reserved s = true →
  Forall (fun o => 0 <= o < zlen c) l →
  let H := work s P F D J c c (journal_of c) (journal_of c) in
  reads H (verify_chunks D J (zlen c) l read chained)
    (fun r f => r = (read ++ flat_map (piece c) l, fold_left chain_next (map (chunk_digest c) l) chained) ∧ H f).
Proof.
  intros Hs HF W. assert (HL : lasting W) by by apply lasting_work.
  revert read chained. induction HF as [|o l Ho HF IH]; intros read chained; cbn [verify_chunks flat_map map fold_left].
  { rewrite app_nil_r. apply reads_mret. }
  apply (reads_bind _ _ _ (fun _ => W)); [by apply reads_cancel|]. intros _. cbn zeta.
  apply (reads_bind _ _ _ (fun d f => W f ∧ d = piece c o)).
  { reads_by (reads_pread W D (Z.min CHUNK (zlen c - o)) o HL). cbn. intros d f [HW (i & Hi & ->)]. split; [done|].
    apply slice_prefix; [by apply (has_prefix D c c i f); [apply HW|]|lia|lia]. }
  intros d. apply (reads_bind _ _ _ (fun _ f => W f ∧ d = piece c o)).
  { assert (HL' : lasting (fun f => W f ∧ d = piece c o)) by (apply lasting_and; [done|apply lasting_const]).
    destruct (Z.of_nat (length d) =? Z.min CHUNK (zlen c - o)).
    - reads_by (reads_pread (fun f => W f ∧ d = piece c o) J 32 (o / CHUNK * 32) HL'). by intros ? ? [? _].
    - reads_by (reads_mret (fun f => W f ∧ d = piece c o)). by intros ? ? [_ ?]. }
  intros known. apply (reads_bind _ _ _ (fun _ f => W f ∧ d = piece c o)).
  { reads_by (reads_test (fun f => W f ∧ d = piece c o)). by intros ? ? [? _]. }
  intros _. eapply reads_weaken; [| |apply reads_frame with (F := fun _ => d = piece c o); [apply lasting_const|apply IH]].
  - by intros f [? ?].
  - intros r f [[-> ?] ->]. split; [|done]. by rewrite <- app_assoc.
Qed.

(** ** Opening the stage *)

Lemma ctx_stored Q A id t P n c w : ctx Q A id t (Stored P n c) w →
  tr_stage t = stage_name id ∧ tr_state t ≠ Cancelled ∧ tr_prepared t = Some true ∧ tr_offset t = zlen c ∧ parent_of t = P ∧ tr_size t = n
  ∧ clean (w_files w) (stage_name id) ∧ stored (w_files w) (stage_name id) P c.
Proof.
  intros C. destruct (ctx_fits _ _ _ _ _ _ C) as (W & _ & E & E2 & E3 & E4 & E5).
  destruct (ia_physical _ _ _ _ (cx_at _ _ _ _ _ _ C)) as [HC HS]. pose proof (wt_stage _ _ W). done.
Qed.

(** The two files, both with the bytes [c] and their journal. *)
Definition held (s : string) (P F D J : object) (c : list Z) : files → Prop :=
  work s P F D J c c (journal_of c) (journal_of c).

Lemma lasting_held id P F D J c : lasting (held (stage_name id) P F D J c).
Proof. by apply lasting_work. Qed.

Lemma ctx_held Q A id t P n c w : ctx Q A id t (Stored P n c) w → ∃ F D J, held (stage_name id) P F D J c (w_files w).
Proof.
  intros C. destruct (ctx_stored _ _ _ _ _ _ _ _ C) as (_ & _ & _ & _ & _ & _ & _ & HS).
  apply stored_work; [apply C|done|done].
Qed.

Lemma open_stage_safe {B C} Q A id r t P n c F D J (rest : object → object → object → prog C) (Φ : res B → world → Prop) (k : C → prog B) w :
  let H := held (stage_name id) P F D J c in
  ctx Q A id t (Stored P n c) w → H (w_files w) →
  (∀ w', ctx Q A id t (Stored P n c) w' → H (w_files w') → safe Q A Φ (rest F D J ≫= k) w') →
  (∀ w' e, ctx Q A id t (Stored P n c) w' → safe Q A Φ (Return (Err e)) w') →
  safe Q A Φ (('(_, folder) ← stage r t;
               fd ← opened folder ["data"] ForWrite;
               journal ← opened folder ["chunks"] ForWrite;
               rest folder fd journal) ≫= k) w.
Proof.
  intros H C0 W0 Hk He. destruct (ctx_stored _ _ _ _ _ _ _ _ C0) as (Hs & _ & _ & _ & HP & _). set (s := stage_name id) in *.
  assert (HL : lasting H) by apply lasting_held.
  assert (HF : ∀ f, H f → f_private f !! F = Some s) by (intros f [S _ _ _]; apply S).
  apply bind_assoc, (ctx_reads _ _ _ _ _ _ _ _ _ _ _ (reads_frame _ H _ _ HL (reads_stage r t s Hs eq_refl)) C0); [done| |done].
  intros w1 [P' F'] C1 _ [[HP' AS] W1]. cbn [fst snd] in *. assert (P' = P) as -> by congruence.
  rewrite (work_same s P F D J _ _ _ _ _ F' W1 AS). clear AS F'.
  apply bind_assoc, (ctx_reads _ _ _ _ _ _ _ _ _ _ _ (reads_opened_in _ s F "data" ForWrite HL HF) C1); [done| |done].
  intros w2 D' C2 _ [W2 HD]. rewrite (proj1 (work_inside s P F D J _ _ _ _ _ D' W2) HD).
  apply bind_assoc, (ctx_reads _ _ _ _ _ _ _ _ _ _ _ (reads_opened_in _ s F "chunks" ForWrite HL HF) C2); [done| |done].
  intros w3 J' C3 _ [W3 HJ]. rewrite (proj2 (work_inside s P F D J _ _ _ _ _ J' W3) HJ). by apply Hk.
Qed.

(** ** Receiving a chunk *)

Lemma work_weaken s P F D J a b a' b' a1 b1 a1' b1' f : work s P F D J a b a' b' f →
  a1 `prefix_of` a → b1 `prefix_of` b → a1' `prefix_of` a' → b1' `prefix_of` b' → work s P F D J a1 b1 a1' b1' f.
Proof.
  intros [S N (i & H1 & H2 & H3 & H4) (j & K1 & K2 & K3 & K4)] Ha Hb Ha' Hb'. split; [done|done| |].
  - exists i. split; [done|]. split; [done|]. split; [by transitivity a|by transitivity b].
  - exists j. split; [done|]. split; [done|]. split; [by transitivity a'|by transitivity b'].
Qed.

Lemma new_data_here (D : object) (x y : list Z) : new_data D D x y = x.
Proof. unfold new_data. by rewrite decide_True. Qed.

Lemma new_data_there (o D : object) (x y : list Z) : o ≠ D → new_data o D x y = y.
Proof. intros H. unfold new_data. by rewrite decide_False. Qed.

Lemma write_all_safe {B} Q A id t P n c F D J b a' b' (Φ : res B → world → Prop) (k : unit → prog B) fuel : ∀ d a w,
  let s := stage_name id in
  (length d ≤ fuel)%nat → ctx Q A id t (Stored P n c) w → work s P F D J a b a' b' (w_files w) → keeps_work c a b a' b' →
  (∀ w', ctx Q A id t (Stored P n c) w' → work s P F D J (a ++ d) b a' b' (w_files w') → safe Q A Φ (k tt) w') →
  (∀ w' e, ctx Q A id t (Stored P n c) w' → safe Q A Φ (Return (Err e)) w') →
  safe Q A Φ (write_all fuel D d (zlen a) ≫= k) w.
Proof.
  induction fuel as [|fuel IH]; intros d a w s Hl C W K Hk He.
  { destruct d; [|cbn in Hl; lia]. rewrite app_nil_r in Hk. by apply Hk. }
  destruct d as [|x d]; [rewrite app_nil_r in Hk; by apply Hk|]. cbn [write_all]. apply bind_assoc.
  pose proof (wk_ne _ _ _ _ _ _ _ _ _ _ W) as HN.
  pose proof (pwrite_safe Q A id t P n c F D J a b a' b' D (x :: d) Φ
    (fun m => write_all fuel D (drop (Z.to_nat m) (x :: d)) (zlen a + m) ≫= k) w) as HW.
  rewrite !new_data_here in HW. apply HW; [done|done|done|by left| |done]. clear HW.
  intros w1 m C1 Hm Hm1 W1. rewrite new_data_here, new_data_there in W1 by done.
  assert (E : zlen (take (Z.to_nat m) (x :: d)) = m) by (apply zlen_take; lia).
  replace (zlen a + m) with (zlen (a ++ take (Z.to_nat m) (x :: d))) by (rewrite zlen_app, E; lia).
  apply IH; [|done|done| | |done].
  - rewrite length_drop. assert (1 <= m) by by apply Hm1. cbn [length] in *. lia.
  - destruct K as [[? ?] [? ?]]. split; [split; [|done]|done]. transitivity a; [done|by apply prefix_app_r].
  - intros w2 C2 W2. rewrite <- app_assoc, take_drop in W2. by apply Hk.
Qed.

Lemma acked_in_app A n c d : n <= zlen c → acked_in A n c → acked_in A n (c ++ d).
Proof.
  intros Hn H o x Hx. destruct (H o x Hx) as (? & ? & ?). split; [done|]. split; [done|]. by rewrite slice_app by lia.
Qed.

(** One more chunk is kept before any receipt counts it. *)
Lemma fits_grow f id A P n c d t : fits f id A (Stored P n c) t → 0 < zlen d → zlen (c ++ d) <= n →
  fits f id A (Stored P n (c ++ d)) t.
Proof.
  intros F Hd Hn. rewrite zlen_app in Hn. assert (H0 : 0 <= zlen c) by (unfold zlen; lia). unfold fits in *.
  destruct (tr_state t), (tr_prepared t) as [[|]|]; try done.
  all: try (destruct F as (E1 & E2 & E3 & E4); split; [done|]; split; [done|]; split; [rewrite zlen_app; lia|]; apply acked_in_app; [lia|done]).
  all: destruct F as (E1 & E2 & [E3 _ _ _ _] & _); exfalso; lia.
Qed.

(** The chunk's bytes are in both files and on the disk: the receipt may count it. *)
Lemma count_chunk_safe {B} Q A id t P n c d F D J (Φ : res B → world → Prop) (k : transfer → prog B) w :
  let s := stage_name id in
  let t' := set_offset t (tr_offset t + zlen d) in
  ctx Q A id t (Stored P n c) w → tr_state t = Running → tr_offset t mod CHUNK = 0 → zlen d = Z.min CHUNK (tr_size t - tr_offset t) →
  0 < zlen d →
  work s P F D J (c ++ d) (c ++ d) (journal_of (c ++ d)) (journal_of (c ++ d)) (w_files w) →
  (∀ w', ctx Q A id t' (Stored P n (c ++ d)) w' → safe Q A Φ (k t') w') →
  (∀ w' e, inv Q A w' → safe Q A Φ (Return (Err e)) w') →
  safe Q A Φ ((keep t' ;; mret t') ≫= k) w.
Proof.
  intros s t' C HR Ha Hd Hd0 W Hk He. destruct (ctx_stored _ _ _ _ _ _ _ _ C) as (Hst & _ & Hp & Ho & HP & Hn & HC & _).
  destruct (ctx_fits _ _ _ _ _ _ C) as (WF & FT & _). pose proof CHUNK_pos.
  assert (Hle : zlen (c ++ d) <= n) by (rewrite zlen_app; lia).
  apply bind_assoc, (keep_safe Q A id t (Stored P n (c ++ d)) t'); [apply C|apply C| | | | | | | |done].
  - split; [done|]. by apply (work_stored s P F D J (c ++ d) (c ++ d) (journal_of (c ++ d)) (journal_of (c ++ d))).
  - intros m x Hm Hx. destruct (ia_fits _ _ _ _ (cx_at _ _ _ _ _ _ C) m x Hm Hx) as [Wx Fx]. split; [done|]. by apply fits_grow.
  - destruct WF as [W1 W2 W3 W4 W5 W6 W7 W8]. split; cbn; try done; [lia|].
    destruct (Z.le_gt_cases CHUNK (tr_size t - tr_offset t)); [right|left; lia].
    rewrite Hd, Z.min_l by lia. rewrite <- (Z.mul_1_l CHUNK) at 1. by rewrite Z.mod_add by lia.
  - unfold fits in *. cbn [t' set_offset tr_state tr_prepared tr_offset tr_size]. rewrite HR, Hp in *.
    destruct FT as (E1 & E2 & E3 & E4). split; [done|]. split; [done|]. split; [rewrite zlen_app in *; lia|].
    intros o x Hx. destruct (acked_in_app _ _ _ d (proj1 E3) E4 o x Hx) as (? & ? & ?). split; [done|]. split; [lia|done].
  - unfold exact. cbn. rewrite HR, zlen_app. split; [done|]. split; [done|]. split; [lia|done].
  - split; [by split|done|]. intros [P1|[P1|P1]]; congruence.
  - intros w' C' _ _. by apply Hk.
Qed.

Lemma journal_whole c : zlen c mod CHUNK = 0 → zlen (journal_of c) = zlen c / CHUNK * 32.
Proof.
  intros Ha. rewrite journal_zlen. unfold journal_bytes. pose proof CHUNK_pos.
  pose proof (nchunks_aligned (zlen c) ltac:(unfold zlen; lia) Ha) as E. unfold nchunks in E.
  rewrite Z2Nat.id in E by (apply Z.div_pos; unfold zlen; lia). lia.
Qed.

(** A new chunk: its bytes, their digest in the journal, then the receipt. *)
Lemma append_safe {B} Q A id t P n c d F D J (Φ : res B → world → Prop) (k : transfer → prog B) w :
  let s := stage_name id in
  let t' := set_offset t (tr_offset t + Z.of_nat (length d)) in
  ctx Q A id t (Stored P n c) w → tr_state t = Running → tr_offset t mod CHUNK = 0 → zlen d = Z.min CHUNK (tr_size t - tr_offset t) →
  0 < zlen d →
  held s P F D J c (w_files w) →
  (∀ w', ctx Q A id t' (Stored P n (c ++ d)) w' → safe Q A Φ (k t') w') →
  (∀ w' e, inv Q A w' → safe Q A Φ (Return (Err e)) w') →
  safe Q A Φ ((write_all (length d) D d (tr_offset t) ;;
               kernel (Fsync D) ;;
               n ← kernel (Pwrite J (sha256 d) (tr_offset t / CHUNK * 32));
               lift (raise_if (negb (n =? 32)) (OSError "Incomplete chunk journal write.")) ;;
               kernel (Fsync J) ;;
               keep t' ;; mret t') ≫= k) w.
Proof.
  intros s t' C HR Ha Hd Hd0 W Hk He. destruct (ctx_stored _ _ _ _ _ _ _ _ C) as (_ & _ & _ & Ho & _ & Hn & _ & _).
  assert (He' : ∀ w' e, ctx Q A id t (Stored P n c) w' → safe Q A Φ (Return (Err e)) w') by (intros w' e [? _ _]; by apply He).
  assert (HJ : tr_offset t / CHUNK * 32 = zlen (journal_of c)).
  { rewrite Ho in *. by rewrite journal_whole. }
  pose proof (wk_ne _ _ _ _ _ _ _ _ _ _ W) as HN. assert (HN' : J ≠ D) by congruence.
  rewrite HJ. rewrite Ho at 1. apply bind_assoc, (write_all_safe Q A id t P n c F D J c (journal_of c) (journal_of c)); [done|done|done|done| |done].
  intros w1 C1 W1. apply bind_assoc, (sync_work Q A id t P n c F D J _ _ _ _ D _ _ w1 C1 W1 (or_introl eq_refl)); [|done].
  intros w2 C2 W2 _. rewrite new_data_here, new_data_there in W2 by done. apply bind_assoc.
  pose proof (pwrite_safe Q A id t P n c F D J (c ++ d) (c ++ d) (journal_of c) (journal_of c) J (sha256 d) Φ) as HP.
  rewrite new_data_there in HP by done. apply (HP _ w2 C2 W2); [split; (split; [by try apply prefix_app_r|by try apply prefix_app_r])|by right| |done]. clear HP.
  intros w3 m C3 _ _ W3. rewrite new_data_here, new_data_there in W3 by done.
  set (held := work s P F D J (c ++ d) (c ++ d) (journal_of c ++ take (Z.to_nat m) (sha256 d)) (journal_of c)).
  apply bind_assoc, (ctx_reads _ _ _ _ _ _ _ _ _ _ _ (reads_test held _ _) C3); [done| |done].
  intros w4 _ C4 _ [W4 Hm]. apply negb_false_iff, Z.eqb_eq in Hm. subst m held.
  rewrite (take_ge (sha256 d)) in W4 by (rewrite sha256_length; done).
  apply bind_assoc, (sync_work Q A id t P n c F D J _ _ _ _ J _ _ w4 C4 W4 (or_intror eq_refl)); [|done].
  intros w5 C5 W5 _. rewrite new_data_here, new_data_there in W5 by done.
  assert (HS : journal_of (c ++ d) = journal_of c ++ sha256 d) by (apply journal_snoc; [by rewrite <- Ho|lia]).
  rewrite <- HS in W5.
  by apply (count_chunk_safe Q A id t P n c d F D J).
Qed.

Lemma chunk_within t offset d : (tr_offset t = tr_size t ∨ tr_offset t mod CHUNK = 0) → offset mod CHUNK = 0 → offset < tr_offset t →
  d = Z.min CHUNK (tr_size t - offset) → tr_offset t <= tr_size t → offset + d <= tr_offset t.
Proof.
  pose proof CHUNK_pos. intros [H1|H1] H2 H3 -> H4; [lia|].
  pose proof (Z.div_mod offset CHUNK ltac:(lia)) as E1. pose proof (Z.div_mod (tr_offset t) CHUNK ltac:(lia)) as E2.
  rewrite H1 in E2. rewrite H2 in E1. assert (offset / CHUNK < tr_offset t / CHUNK) by nia. nia.
Qed.

(** A chunk that was accepted before: the bytes that are kept are these. *)
Lemma replay_safe {B} Q A id t P n c F D J offset d (Φ : res B → world → Prop) (k : transfer → prog B) w :
  ctx Q A id t (Stored P n c) w → held (stage_name id) P F D J c (w_files w) →
  0 <= offset → offset + zlen d <= zlen c →
  (∀ w', ctx Q A id t (Stored P n c) w' → slice c offset (zlen d) = d → safe Q A Φ (k t) w') →
  (∀ w' e, ctx Q A id t (Stored P n c) w' → safe Q A Φ (Return (Err e)) w') →
  safe Q A Φ ((there ← kernel (Pread D (Z.of_nat (length d)) offset);
               known ← (if bool_decide (there = d) then kernel (Pread J 32 (offset / CHUNK * 32)) else mret []);
               lift (raise_if (negb (bool_decide (there = d)) || negb (bool_decide (known = sha256 d)))
                       (FileError "source_changed" "The selected source does not match the accepted prefix.")) ;;
               mret t) ≫= k) w.
Proof.
  intros C W H0 H1 Hk He.
  apply bind_assoc, (ctx_reads _ _ _ _ _ _ _ _ _ _ _ (reads_pread _ D (Z.of_nat (length d)) offset (lasting_held id P F D J c)) C); [done| |done].
  intros w1 there C1 _ [W1 (i & Hi & Ht)].
  apply bind_assoc, (ctx_reads Q A id t (Stored P n c) (fun _ => True) _ (fun _ _ => True)); [|done|done| |done].
  { case_bool_decide; [|eapply reads_weaken; [| |apply (reads_mret (fun _ => True))]; done].
    eapply reads_weaken; [| |apply (reads_pread (fun _ => True)); apply lasting_True]; done. }
  intros w2 known C2 _ _.
  apply bind_assoc, (ctx_reads _ _ _ _ _ _ _ _ _ _ _ (reads_test (fun _ => True) _ _) C2); [done| |done].
  intros w3 _ C3 _ [_ Ht']. apply orb_false_iff in Ht' as [Ht' _]. apply negb_false_iff, bool_decide_eq_true in Ht'.
  change (safe Q A Φ (k t) w3). apply (Hk w3 C3).
  rewrite <- (slice_prefix c (i_data i)); [unfold zlen; congruence| |done|lia].
  by apply (has_prefix D c c i (w_files w1)); [apply W1|].
Qed.

(** Without a reservation both files are cut to the accepted chunks first. *)
Lemma cut_safe {B} Q A id t P n c F D J (Φ : res B → world → Prop) (k : unit → prog B) w :
  let H := held (stage_name id) P F D J c in
  ctx Q A id t (Stored P n c) w → H (w_files w) → zlen c mod CHUNK = 0 →
  (∀ w', ctx Q A id t (Stored P n c) w' → H (w_files w') → safe Q A Φ (k tt) w') →
  (∀ w' e, ctx Q A id t (Stored P n c) w' → safe Q A Φ (Return (Err e)) w') →
  safe Q A Φ ((if reservation t then mret tt
               else kernel (Truncate D (zlen c)) ;; kernel (Truncate J (zlen c / CHUNK * 32))) ≫= k) w.
Proof.
  intros H C W Ha Hk He. destruct (reservation t); [by apply Hk|]. rewrite <- journal_whole by done.
  assert (HKW : keeps_work c c c (journal_of c) (journal_of c)) by (by split).
  pose proof (wk_ne _ _ _ _ _ _ _ _ _ _ W) as HN. assert (HN' : J ≠ D) by congruence.
  apply bind_assoc, (truncate_safe Q A id t P n c F D J c c (journal_of c) (journal_of c) D); [done|done|done|left; split; [done|lia]| |done].
  intros w1 old i C1 Hold W1 _ _ _. rewrite new_data_here, new_data_there in W1 by done. rewrite new_data_here in Hold.
  assert (W1' : H (w_files w1)) by (eapply work_weaken; [exact W1|apply prefix_resized; [done|lia]|done|done|done]).
  apply (truncate_safe Q A id t P n c F D J c c (journal_of c) (journal_of c) J); [done|done|done|right; split; [done|lia]| |done].
  intros w2 old' i' C2 Hold' W2 _ _ _. apply Hk; [done|].
  rewrite new_data_here, new_data_there in W2 by done. rewrite new_data_there in Hold' by done.
  eapply work_weaken; [exact W2|done|done| |done]. apply prefix_resized; [done|lia].
Qed.

Lemma write_chunk_safe {B} Q A id q offset sha d t ph (Φ : res B → world → Prop) (k : transfer → prog B) w :
  ctx Q A id t ph w →
  (∀ w' t' P n c, ctx Q A id t' (Stored P n c) w' → tr_state t' = Running → 0 <= offset → offset + zlen d <= tr_offset t' →
     slice c offset (zlen d) = d → safe Q A Φ (k t') w') →
  (∀ w' e, inv Q A w' → safe Q A Φ (Return (Err e)) w') →
  safe Q A Φ (write_chunk q offset sha d t ≫= k) w.
Proof.
  intros C Hk He. unfold write_chunk.
  assert (He' : ∀ ph' w' e, ctx Q A id t ph' w' → safe Q A Φ (Return (Err e)) w') by (intros ph' w' e [? _ _]; by apply He).
  apply bind_assoc, (ctx_reads _ _ _ _ _ _ _ _ _ _ _ (reads_test (fun _ => True) _ _) C); [done| |by intros; eapply He'].
  intros w1 _ C1 _ [_ H1]. apply orb_false_iff in H1 as [H1 H3]. apply orb_false_iff in H1 as [H1 H2].
  apply bind_assoc, (ctx_reads _ _ _ _ _ _ _ _ _ _ _ (reads_test (fun _ => True) _ _) C1); [done| |by intros; eapply He'].
  intros w2 _ C2 _ [_ H4]. apply orb_false_iff in H4 as [H4 H5]. apply negb_false_iff, Z.eqb_eq in H4. apply bool_decide_eq_false in H5.
  cbn zeta. apply bind_assoc, (ctx_reads _ _ _ _ _ _ _ _ _ _ _ (reads_test (fun _ => True) _ _) C2); [done| |by intros; eapply He'].
  intros w3 _ C3 _ _.
  apply bind_assoc, (ctx_reads _ _ _ _ _ _ _ _ _ _ _ (reads_test (fun _ => True) _ _) C3); [done| |by intros; eapply He'].
  intros w4 _ C4 _ [_ HR]. apply negb_false_iff, bool_decide_eq_true in HR.
  destruct (ctx_fits _ _ _ _ _ _ C4) as (W & F & _). assert (Hp : tr_prepared t = Some true) by (apply W; by left).
  destruct ph as [|P n c|c]; unfold fits in F; rewrite HR, Hp in F; [done| |done].
  destruct (ctx_held _ _ _ _ _ _ _ _ C4) as (F0 & D & J & W4).
  apply (open_stage_safe Q A id (rq_root q) t P n c F0 D J); [done|done| |by intros; eapply He'].
  intros w5 C5 W5. destruct (ctx_stored _ _ _ _ _ _ _ _ C5) as (_ & _ & _ & Ho & _ & Hn & _ & _).
  assert (Hd : 0 < zlen d) by (unfold zlen; destruct d; [done|cbn; lia]).
  apply Z.ltb_ge in H1, H3. apply negb_false_iff, Z.eqb_eq in H2. pose proof (wt_offset _ _ W). pose proof (wt_aligned _ _ W).
  destruct (offset <? tr_offset t) eqn:E.
  - apply Z.ltb_lt in E. assert (Hin : offset + zlen d <= tr_offset t) by (apply chunk_within; [done..|lia]).
    apply (replay_safe Q A id t P n c F0); [done|done|done|lia| |by intros; eapply He'].
    intros w6 C6 Hs. by apply (Hk w6 t P n c C6).
  - apply Z.ltb_ge in E. assert (offset = tr_offset t) as -> by lia.
    pose proof (fun k => cut_safe (B := B) Q A id t P n c F0 D J Φ k w5 C5 W5) as HC. rewrite <- Ho in HC.
    apply bind_assoc, HC; [tauto| |by intros; eapply He'].
    intros w6 C6 W6. apply (append_safe Q A id t P n c d F0); [done|done|done|done|done|done| |done].
    intros w7 C7. apply (Hk w7 _ P n (c ++ d) C7); [done|done|cbn; unfold zlen; lia|].
    rewrite slice_app_r by lia. apply take_ge. unfold zlen. lia.
Qed.
