(* ===== verification/TransferVerify.v ===== *)
(** * The verification of what a transfer received

    [verify_prefix] in every state of a transfer: where the receipts count bytes it returns
    their digest, and at the full size leaves exactly them in the file. *)

From S2P Require Import Prelude Sha256 Json Posix FileAccess FileTransfer TransferSystem TransferInv TransferCalls TransferLogic TransferReads TransferSteps TransferWork.

#[local] Open Scope Z_scope.

(** ** Where no receipt counts bytes *)

Definition mine (ph : phase) (s : string) (f : files) (o : object) : Prop :=
  match ph with Published _ => ours s f o | _ => f_private f !! o = Some s end.

Definition not_stored (ph : phase) : Prop := match ph with Stored _ _ _ => False | _ => True end.

Lemma mine_private ph s f f' o : f_private f' = f_private f → mine ph s f o → mine ph s f' o.
Proof. unfold mine, ours. intros ->. by destruct ph. Qed.

Lemma mine_ours ph s f o : mine ph s f o → ours s f o.
Proof. destruct ph; unfold mine, ours; tauto. Qed.

Lemma inside_mine Q A id t ph F n o w : ctx Q A id t ph w → inside (stage_name id) F n o (w_files w) → mine ph (stage_name id) (w_files w) o.
Proof.
  intros C HI. pose proof (ia_physical _ _ _ _ (cx_at _ _ _ _ _ _ C)) as HP. destruct ph as [|P m c|c]; cbn in *.
  - by apply (inside_clean _ F n).
  - destruct HP. by apply (inside_clean _ F n).
  - apply (inside_ours _ F n); [apply C|done].
Qed.

Lemma published_past Q A id w c : inv Q A w → physical (w_files w) (stage_name id) (Published c) →
  ∀ m, m ∈ versions w → ∃ t, m !! id = Some (OfTransfer t) ∧ past t.
Proof.
  intros I (_ & d & n & o & x & He) m Hm. destruct (iv_effects _ _ _ I _ He) as (i & Hs & H). apply (inj Some), stage_name_inj in Hs as <-.
  destruct (H m Hm) as (t & Ht & [P _]). by exists t.
Qed.

Lemma truncate_loose {B} Q A id t ph o size (Φ : res B → world → Prop) (k : unit → prog B) w :
  ctx Q A id t ph w → not_stored ph → mine ph (stage_name id) (w_files w) o →
  (∀ w', ctx Q A id t ph w' → f_private (w_files w') = f_private (w_files w) → safe Q A Φ (k tt) w') →
  (∀ w' e, ctx Q A id t ph w' → safe Q A Φ (Return (Err e)) w') →
  safe Q A Φ (kernel (Truncate o size) ≫= k) w.
Proof.
  intros C HN HM Hk He. apply safe_kernel; [apply C| |].
  - intros f ch D I _. cbn [act]. unfold regular_at. destruct (f_inodes f !! o) as [i|] eqn:Hi; [|done].
    case_bool_decide as Hreg; [|done]. assert (C' : ctx Q A id t ph (with_files w f)) by by apply ctx_drift.
    pose proof (drift_private _ _ D) as Ep. pose proof (mine_private _ _ _ f _ Ep HM) as HM'.
    destruct (data_step (stage_name id) f o i (ch_time ch) (resized (i_data i) size) (Truncated o) (iv_tidy _ _ _ I) Hi (mine_ours _ _ _ _ HM'))
      as (T & TC & L & EE & _).
    set (f' := noted _ _ _) in *. apply Hk; [|cbn; unfold f'; by destruct (noted_fields (put f o (set_data i (ch_time ch) (resized (i_data i) size))) o (Truncated o)) as (_ & _ & -> & _)].
    pose proof (ia_physical _ _ _ _ (cx_at _ _ _ _ _ _ C')) as HP. cbn [w_files with_files] in HP.
    change (with_files w f') with (with_files (with_files w f) f'). apply ctx_layout; [done|done|done|done| |].
    + destruct ph as [|P n c|c]; [by apply (clean_layout _ f)|done|]. destruct HP as (HB & d & n & x & y & HE). split; [by apply (clean_but_layout _ f)|]. exists d, n, x, y. by apply TC.
    + intros e. rewrite EE, elem_of_app. intros [?|Hin]; [by left|right]. destruct ph as [|P n c|c]; [|done|].
      * unfold private in Hin. cbn in HM'. rewrite HM', bool_decide_eq_true_2 in Hin by done. by apply not_elem_of_nil in Hin.
      * destruct (private f o); [by apply not_elem_of_nil in Hin|]. apply list_elem_of_singleton in Hin as ->.
        exists id. split; [done|]. intros m Hm. destruct (published_past Q A id _ c I HP m Hm) as (x & Hx & Px). by exists x.
  - intros f e D I. apply He. by apply ctx_drift.
Qed.

Lemma reads_verify_any Pre D J n l read chained : lasting Pre → reads Pre (verify_chunks D J n l read chained) (fun _ => Pre).
Proof.
  intros HL. revert read chained. induction l as [|o l IH]; intros read chained; cbn [verify_chunks].
  { eapply reads_weaken; [| |apply (reads_mret Pre)]; [done|by intros ? ? [_ ?]]. }
  apply (reads_bind _ _ _ (fun _ => Pre)); [by apply reads_cancel|]. intros _. cbn zeta.
  apply (reads_bind _ _ _ (fun _ => Pre)).
  { eapply reads_weaken; [| |by apply (reads_pread Pre)]; [done|by intros ? ? [? _]]. }
  intros d. apply (reads_bind _ _ _ (fun _ => Pre)).
  { destruct (Z.of_nat (length d) =? Z.min CHUNK (n - o)).
    - eapply reads_weaken; [| |by apply (reads_pread Pre)]; [done|by intros ? ? [? _]].
    - eapply reads_weaken; [| |apply (reads_mret Pre)]; [done|by intros ? ? [_ ?]]. }
  intros known. apply (reads_bind _ _ _ (fun _ => Pre)); [|intros _; apply IH].
  eapply reads_weaken; [| |apply (reads_test Pre)]; [done|by intros ? ? [? _]].
Qed.

Lemma lasting_mine ph s o : lasting (fun f => mine ph s f o).
Proof. intros f f' T D. apply mine_private, (drift_private _ _ D). Qed.

Lemma fsync_loose {B} Q A id t ph o (Φ : res B → world → Prop) (k : unit → prog B) w :
  ctx Q A id t ph w → ours (stage_name id) (w_files w) o →
  (∀ w', ctx Q A id t ph w' → f_private (w_files w') = f_private (w_files w) →
     (∀ x, public x (w_files w) → public x (w_files w')) → safe Q A Φ (k tt) w') →
  (∀ w' e, ctx Q A id t ph w' → safe Q A Φ (Return (Err e)) w') →
  safe Q A Φ (kernel (Fsync o) ≫= k) w.
Proof.
  intros C Ho Hk He. apply (fsync_safe Q A id t ph o); [done|done| |intros; by apply He].
  intros f i D T Hi C'. apply Hk; [done|cbn; by rewrite (drift_private _ _ D)|].
  intros x Hx. apply (lasting_public x _ f) in Hx as [H1 H2]; [|apply C|done]. split; [done|]. cbn [with_files w_files]. rewrite inodes_put. by case_decide.
Qed.

Lemma verify_loose {B} Q A id r t ph (Φ : res B → world → Prop) (k : string → prog B) w :
  ctx Q A id t ph w → not_stored ph →
  (∀ w' h, ctx Q A id t ph w' → safe Q A Φ (k h) w') →
  (∀ w' e, ctx Q A id t ph w' → safe Q A Φ (Return (Err e)) w') →
  safe Q A Φ (verify_prefix r t ≫= k) w.
Proof.
  intros C HN Hk He. unfold verify_prefix. destruct (ctx_fits _ _ _ _ _ _ C) as (W & _ & _).
  set (s := stage_name id). assert (HT : lasting (fun _ => True)) by apply lasting_True.
  apply bind_assoc, (ctx_reads _ _ _ _ _ _ _ _ _ _ _ (reads_cancel (fun _ => True) HT) C); [done| |done]. intros w1 _ C1 _ _.
  apply bind_assoc, (ctx_reads _ _ _ _ _ _ _ _ _ _ _ (reads_stage r t s (wt_stage _ _ W) eq_refl) C1); [done| |done].
  intros w2 [P F] C2 _ [_ AS]. cbn [fst snd] in *.
  assert (HF : ∀ f, f_private f !! F = Some s → f_private f !! F = Some s) by done.
  apply bind_assoc, (ctx_reads _ _ _ _ _ _ _ _ _ _ _ (reads_opened_in _ s F "data" ForWrite (lasting_private F (Some s)) HF) C2); [apply AS| |done].
  intros w3 D C3 _ [HF3 HD].
  assert (HL : lasting (fun f => f_private f !! F = Some s ∧ mine ph s f D)) by (apply lasting_and; [apply lasting_private|apply lasting_mine]).
  apply bind_assoc, (ctx_reads _ _ _ _ _ _ _ _ _ _ _ (reads_opened_in _ s F "chunks" ForWrite HL (fun f H => proj1 H)) C3);
    [split; [done|by apply (inside_mine Q A id t ph F "data")]| |done].
  intros w4 J C4 _ [[_ HD4] HJ4]. apply (inside_mine Q A id t ph F "chunks" J w4 C4) in HJ4. cbn zeta.
  set (Pre := fun f => mine ph s f D ∧ mine ph s f J). assert (HL' : lasting Pre) by (apply lasting_and; apply lasting_mine).
  apply bind_assoc, (ctx_reads _ _ _ _ _ _ _ _ _ _ _ (reads_verify_any Pre D J _ _ _ _ HL') C4); [done| |done].
  intros w5 [read chained] C5 _ H5.
  apply bind_assoc, (ctx_reads _ _ _ _ _ _ _ _ _ _ _ (reads_test Pre _ _) C5); [done| |done]. intros w6 _ C6 _ [H6 _].
  assert (Hend : ∀ w', ctx Q A id t ph w' → f_private (w_files w') = f_private (w_files w6) →
    safe Q A Φ ((kernel (Fsync D) ;; kernel (Fsync J) ;; mret (hex (sha256 read))) ≫= k) w').
  { intros w' C' E'. apply bind_assoc, (fsync_loose Q A id t ph D); [done|apply (mine_ours ph), (mine_private _ _ _ _ _ E'), H6| |done].
    intros w7 C7 E7 _. apply bind_assoc, (fsync_loose Q A id t ph J); [done| |intros w8 C8 _ _; by apply Hk|done].
    apply (mine_ours ph), (mine_private _ _ (w_files w6)); [congruence|apply H6]. }
  apply bind_assoc. destruct (negb (reservation t) || (tr_offset t =? tr_size t)); [|by apply Hend].
  apply bind_assoc, (truncate_loose Q A id t ph D); [done|done|apply H6| |done]. intros w7 C7 E7.
  apply (truncate_loose Q A id t ph J); [done|done|apply (mine_private _ _ _ _ _ E7), H6| |done].
  intros w8 C8 E8. apply Hend; [done|congruence].
Qed.

(** ** Where the receipts count bytes *)

Lemma resized_exact (c old : list Z) : c `prefix_of` old → resized old (zlen c) = c.
Proof.
  intros [k ->]. rewrite resized_short by (rewrite zlen_app; unfold zlen; lia). unfold zlen. by rewrite Nat2Z.id, take_app_length.
Qed.

(** The two files are cut to the verified bytes. *)
Lemma exact_cut_safe {B} Q A id t P n c F D J (b : bool) (Φ : res B → world → Prop) (k : unit → prog B) w :
  let s := stage_name id in
  let H := held s P F D J c in
  ctx Q A id t (Stored P n c) w → H (w_files w) →
  (∀ w', ctx Q A id t (Stored P n c) w' → H (w_files w') →
     (b = true → ∃ i, is_inode s D i (w_files w') ∧ i_data i = c) → safe Q A Φ (k tt) w') →
  (∀ w' e, ctx Q A id t (Stored P n c) w' → safe Q A Φ (Return (Err e)) w') →
  safe Q A Φ ((if b then kernel (Truncate D (zlen c)) ;; kernel (Truncate J (journal_bytes (zlen c))) else mret tt) ≫= k) w.
Proof.
  intros s H C W Hk He. destruct b; [|by apply Hk]. rewrite <- journal_zlen.
  assert (HKW : keeps_work c c c (journal_of c) (journal_of c)) by (by split).
  pose proof (wk_ne _ _ _ _ _ _ _ _ _ _ W) as HN. assert (HN' : J ≠ D) by congruence.
  apply bind_assoc, (truncate_safe Q A id t P n c F D J c c (journal_of c) (journal_of c) D); [done|done|done|left; split; [done|lia]| |done].
  intros w1 old i C1 Hold W1 Hi Hd _. rewrite new_data_here, new_data_there in W1 by done. rewrite new_data_here in Hold.
  assert (W1' : H (w_files w1)) by (eapply work_weaken; [exact W1|apply prefix_resized; [done|lia]|done|done|done]).
  rewrite resized_exact in Hd by done.
  assert (HI : is_inode s D i (w_files w1)) by (split; [apply (sg_private _ _ _ _ _ _ (wk_staged _ _ _ _ _ _ _ _ _ _ W1'))|done]).
  apply (truncate_safe Q A id t P n c F D J c c (journal_of c) (journal_of c) J); [done|done|done|right; split; [done|lia]| |done].
  intros w2 old' i' C2 Hold' W2 _ _ HX. rewrite new_data_here, new_data_there in W2 by done. rewrite new_data_there in Hold' by done.
  apply Hk; [done| |].
  - eapply work_weaken; [exact W2|done|done| |done]. apply prefix_resized; [done|lia].
  - intros _. exists i. split; [|done]. by apply HX.
Qed.

Lemma exact_sync_safe {B C} Q A id t P n c F D J (b : bool) (h : C) (Φ : res B → world → Prop) (k : C → prog B) w :
  let s := stage_name id in
  let H := held s P F D J c in
  ctx Q A id t (Stored P n c) w → H (w_files w) → (b = true → ∃ i, is_inode s D i (w_files w) ∧ i_data i = c) →
  (∀ w', ctx Q A id t (Stored P n c) w' → H (w_files w') →
     (b = true → ∃ i, is_inode s D i (w_files w') ∧ i_data i = c) → safe Q A Φ (k h) w') →
  (∀ w' e, ctx Q A id t (Stored P n c) w' → safe Q A Φ (Return (Err e)) w') →
  safe Q A Φ ((kernel (Fsync D) ;; kernel (Fsync J) ;; mret h) ≫= k) w.
Proof.
  intros s H C0 W HI Hk He. pose proof (wk_ne _ _ _ _ _ _ _ _ _ _ W) as HN. assert (HN' : J ≠ D) by congruence.
  assert (HX : ∀ w1 w2 : world, (∀ x i, f_private (w_files w1) !! x = Some s → f_inodes (w_files w1) !! x = Some i →
      ∃ j, f_inodes (w_files w2) !! x = Some j ∧ i_data j = i_data i) → H (w_files w2) →
      (b = true → ∃ i, is_inode s D i (w_files w1) ∧ i_data i = c) → b = true → ∃ i, is_inode s D i (w_files w2) ∧ i_data i = c).
  { intros w1 w2 HK H2 H1 Hb. destruct (H1 Hb) as (i & [I1 I2] & I3). destruct (HK D i I1 I2) as (j & Hj & Ej). exists j.
    split; [|congruence]. split; [|done]. apply (sg_private _ _ _ _ _ _ (wk_staged _ _ _ _ _ _ _ _ _ _ H2)). }
  apply bind_assoc, (sync_work Q A id t P n c F D J _ _ _ _ D _ _ w C0 W (or_introl eq_refl)); [|done].
  intros w1 C1 W1 X1. rewrite new_data_here, new_data_there in W1 by done.
  apply bind_assoc, (sync_work Q A id t P n c F D J _ _ _ _ J _ _ w1 C1 W1 (or_intror eq_refl)); [|done].
  intros w2 C2 W2 X2. rewrite new_data_here, new_data_there in W2 by done. apply (Hk w2 C2 W2).
  apply (HX w1 w2 X2 W2), (HX w w1 X1 W1), HI.
Qed.

Lemma verify_stored {B} Q A id r t P n c F D J (Φ : res B → world → Prop) (k : string → prog B) w :
  let s := stage_name id in
  let H := held s P F D J c in
  ctx Q A id t (Stored P n c) w → H (w_files w) →
  (∀ w', ctx Q A id t (Stored P n c) w' → H (w_files w') →
     (tr_offset t = tr_size t → matches_manifest (tr_source_manifest t) c (chain_of (tr_size t) c) = true
        ∧ ∃ i, is_inode s D i (w_files w') ∧ i_data i = c) →
     safe Q A Φ (k (hex (sha256 c))) w') →
  (∀ w' e, ctx Q A id t (Stored P n c) w' → safe Q A Φ (Return (Err e)) w') →
  safe Q A Φ (verify_prefix r t ≫= k) w.
Proof.
  intros s H C W Hk He. unfold verify_prefix. assert (HL : lasting H) by apply lasting_held.
  apply bind_assoc, (ctx_reads _ _ _ _ _ _ _ _ _ _ _ (reads_cancel H HL) C); [done| |done]. intros w1 _ C1 _ W1.
  apply (open_stage_safe Q A id r t P n c F D J); [done|done| |done]. intros w2 C2 W2.
  destruct (ctx_stored _ _ _ _ _ _ _ _ C2) as (_ & _ & _ & Ho & _ & Hn & _ & _). cbn zeta.
  assert (HZ : 0 <= zlen c) by (unfold zlen; lia).
  assert (HF : Forall (fun o => 0 <= o < zlen c) (offsets (zlen c))) by (apply Forall_forall; intros o; by apply offsets_range).
  pose proof (reads_verify_chunks s P F D J c _ [] (chain_seed (tr_size t)) eq_refl HF) as HV. cbn zeta in HV.
  rewrite Ho. apply bind_assoc, (ctx_reads _ _ _ _ _ _ _ _ _ _ _ HV C2); [done| |done].
  intros w3 [read chained] C3 _ [[= -> ->] W3]. rewrite pieces_all in *. cbn [app] in *.
  apply bind_assoc, (ctx_reads _ _ _ _ _ _ _ _ _ _ _ (reads_test H _ _) C3); [done| |done].
  intros w4 _ C4 _ [W4 HM].
  apply bind_assoc, (exact_cut_safe Q A id t P n c F D J); [done|done| |done]. intros w5 C5 W5 H5.
  apply (exact_sync_safe Q A id t P n c F D J (negb (reservation t) || (zlen c =? tr_size t))); [done|done|done| |done].
  intros w6 C6 W6 H6. apply Hk; [done|done|]. rewrite Ho. intros Hs.
  apply Z.eqb_eq in Hs. rewrite Hs in HM, H6. cbn [andb] in HM. apply negb_false_iff in HM. split; [done|].
  rewrite orb_true_r in H6. by apply H6.
Qed.

Lemma verify_safe {B} Q A id r t ph (Φ : res B → world → Prop) (k : string → prog B) w :
  ctx Q A id t ph w →
  (∀ w' h, ctx Q A id t ph w' → safe Q A Φ (k h) w') →
  (∀ w' e, ctx Q A id t ph w' → safe Q A Φ (Return (Err e)) w') →
  safe Q A Φ (verify_prefix r t ≫= k) w.
Proof.
  intros C Hk He. destruct ph as [|P n c|c]; [by apply (verify_loose Q A id r t Fresh)| |by apply (verify_loose Q A id r t (Published c))].
  destruct (ctx_held _ _ _ _ _ _ _ _ C) as (F & D & J & W). apply (verify_stored Q A id r t P n c F D J); [done|done| |done].
  intros w' C' _ _. by apply Hk.
Qed.

(** ** Resumption *)

Lemma resume_safe {B} Q A id r t ph (Φ : res B → world → Prop) (k : transfer → prog B) w :
  ctx Q A id t ph w →
  (∀ w' t', inv Q A w' → safe Q A Φ (k t') w') →
  (∀ w' e, inv Q A w' → safe Q A Φ (Return (Err e)) w') →
  safe Q A Φ (resume r t ≫= k) w.
Proof.
  intros C Hk He. unfold resume.
  apply bind_assoc, (prepare_safe Q A id r t ph); [done| |done]. clear ph C t w. intros w t ph C Hset.
  assert (He' : ∀ ph' w' e, ctx Q A id t ph' w' → safe Q A Φ (Return (Err e)) w') by (intros ph' w' e [? _ _]; by apply He).
  apply bind_assoc, (ctx_reads _ _ _ _ _ _ _ _ _ _ _ (reads_test (fun _ => True) _ _) C); [done| |by intros; eapply He'].
  intros w1 _ C1 _ [_ HS]. apply negb_false_iff, orb_true_iff in HS. rewrite !bool_decide_eq_true in HS.
  assert (Hp : tr_prepared t = Some true).
  { destruct (ctx_fits _ _ _ _ _ _ C1) as (W & _ & _). destruct (wt_prepared _ _ W) as [b Hb]. unfold settled, TERMINAL in Hset.
    rewrite orb_true_iff, !bool_decide_eq_true in Hset. unfold is_prepared in Hset. rewrite Hb in Hset. cbn in Hset.
    destruct b; [done|]. destruct HS as [HS|HS]; rewrite HS in Hset; intuition congruence. }
  apply bind_assoc, (verify_safe Q A id r t ph); [done| |by intros; eapply He']. intros w2 h C2. cbn zeta.
  destruct (ctx_fits _ _ _ _ _ _ C2) as (W & F & E).
  apply bind_assoc, (keep_ctx Q A id t ph); [done| | | | | |done].
  - destruct W as [W1 W2 W3 W4 W5 W6 W7 W8]. by split.
  - unfold fits in *. cbn. rewrite Hp in *. by destruct HS as [HS|HS]; rewrite HS in F.
  - destruct ph as [|P n c|c]; [done| |done]. destruct E as (E1 & E2 & E3 & E4 & E5). by unfold exact.
  - split; [by split| |].
    + intros _. cbn. by destruct HS as [-> | ->].
    + intros [P1|[P1|P1]]; destruct HS; congruence.
  - intros w3 [I3 _ _] _ _. by apply Hk.
Qed.
