(* ===== verification/TransferPublish.v ===== *)
(** * Putting a verified file in place

    [commit]: the receipt says what is about to be renamed before it is; afterwards the
    transfer is published, whatever fails next, and the renaming is explained by its receipt. *)

From S2P Require Import Prelude Sha256 Json Posix FileAccess FileTransfer TransferSystem TransferInv TransferCalls TransferLogic TransferReads TransferSteps TransferWork TransferVerify.

#[local] Open Scope Z_scope.

Notation os_error := FileAccess.os_error.

(** ** The renaming *)

Lemma renamed_complete f id A P n c t : fits f id A (Stored P n c) t → tr_state t = Committing → complete A t c.
Proof. unfold fits. intros F E. rewrite E in F. tauto. Qed.

(** The transfer is published once the renaming is done. *)
Lemma renamed_ctx Q A id t P n c w f f' F D i name x :
  let s := stage_name id in
  ctx Q A id t (Stored P n c) (with_files w f) → w_older w = [] → tr_state t = Committing → name_of t = Ok name →
  tr_committed_identity t = Some i → object_of i = D → (is_Some x ↔ is_Some (tr_expected t)) →
  moved_facts s f f' P name D c x → f_private f !! D = Some s → bound f F "data" D →
  ctx Q A id t (Published c) (with_files w f').
Proof.
  intros s C HO HS HN Hc HD HX M HP HB. destruct (ctx_fits _ _ _ _ _ _ C) as (W & F0 & _).
  destruct (ctx_stored _ _ _ _ _ _ _ _ C) as (_ & _ & _ & _ & Hpar & _ & HC & _).
  pose proof (renamed_complete _ _ _ _ _ _ _ F0 HS) as HCP. pose proof C as [I V X]. cbn [with_files w_files w_receipts] in *.
  set (e := Renamed (Some s) P name D c x).
  assert (He : e ∈ f_effects f') by (rewrite (mf_effects _ _ _ _ _ _ _ _ M); apply elem_of_app; right; left).
  assert (Hv : ∀ m, m ∈ versions (with_files w f') → m = w_receipts w).
  { unfold versions. cbn. rewrite HO. by intros m ->%list_elem_of_singleton. }
  assert (X' : id_at (acks A id) id (with_files w f') (Published c)).
  { split; cbn [with_files w_files w_receipts].
    - split; [|by exists P, name, D, x]. intros d m o Hd Hb. rewrite (mf_private _ _ _ _ _ _ _ _ M) in *.
      apply lookup_delete_Some in Hd as [_ Hd]. destruct (mf_bound _ _ _ _ _ _ _ _ M d m o Hd Hb) as [->|Hb']; [by right|].
      pose proof (HC d m o Hd Hb') as Ho. destruct (decide (o = D)) as [->|Hne].
      + right. by destruct (td_home _ (iv_tidy _ _ _ I) D s d m F "data" HP Hb' HB).
      + left. by rewrite lookup_delete_ne.
    - intros m u ->%Hv Hu. rewrite V in Hu. injection Hu as <-. split; [done|]. unfold fits. rewrite HS. split; [done|].
      exists i, name, x. rewrite Hpar, HD. done.
    - intros u Hu. done.
    - intros m m' u u' ->%Hv ->%Hv. rewrite V. intros [= <-] [= <-]. apply alike_refl. }
  split; [|done|done]. change (with_files w f') with (with_files (with_files w f) f').
  apply (inv_touch Q A (with_files w f) f' id (Published c)); [done|apply M|apply M|done|].
  intros e'. rewrite (mf_effects _ _ _ _ _ _ _ _ M), elem_of_app. intros [?| ->%list_elem_of_singleton]; [by left|right].
  exists id. split; [done|]. intros m ->%Hv. exists t. split; [done|]. split; [by left|]. by rewrite Hpar.
Qed.


(** [rename (folder, "data", parent, name)] of the verified file. *)
Lemma rename_safe {B} Q A id t P n c F D J i name exchange (Φ : res B → world → Prop) (k : unit → prog B) w :
  let s := stage_name id in
  ctx Q A id t (Stored P n c) w → w_older w = [] → tr_state t = Committing → name_of t = Ok name →
  tr_committed_identity t = Some i → object_of i = D → exchange = bool_decide (is_Some (tr_expected t)) →
  held s P F D J c (w_files w) → (∃ j, is_inode s D j (w_files w) ∧ i_data j = c) →
  (∀ w', ctx Q A id t (Published c) w' → public P (w_files w') → f_private (w_files w') !! F = Some s → safe Q A Φ (k tt) w') →
  (∀ w' e, ctx Q A id t (Stored P n c) w' → safe Q A Φ (Return (Err e)) w') →
  safe Q A Φ (rename_into F P name exchange ≫= k) w.
Proof.
  intros s C HO HS HN Hc HD HX W (j & HI & Hj) Hk He. unfold rename_into. apply safe_kernel; [apply C| |].
  2: { intros f e Df I. apply He. by apply ctx_drift. }
  intros f ch Df I _. cbn [act on_unit].
  apply (lasting_held id P F D J c _ f (iv_tidy _ _ _ (cx_inv _ _ _ _ _ _ C)) Df) in W.
  apply (lasting_is_inode s D j _ f (iv_tidy _ _ _ (cx_inv _ _ _ _ _ _ C)) Df) in HI.
  assert (T : tidy f) by apply I. assert (C' : ctx Q A id t (Stored P n c) (with_files w f)) by by apply ctx_drift.
  destruct W as [S N HD' HJ']. destruct HI as [I1 I2]. pose proof S as [[S1 _] _ S2 S3 S4 [S5 _] _ [S6 _]].
  assert (HPn : f_private f !! P = None).
  { destruct (f_private f !! P) as [l|] eqn:EP; [|done]. destruct (td_inside _ T P l s F EP) as [?|?]; [by left|congruence|congruence]. }
  assert (HPi : is_Some (f_inodes f !! P)) by (unfold names_of in S1; destruct (f_inodes f !! P); [by eexists|done]).
  assert (HK : i_kind j = Regular) by (destruct HD' as (x & X1 & X2 & _); congruence).
  assert (HR : reserved name = false) by by apply (name_public (tr_name t) (tr_name_b64 t)).
  assert (Hdone : ∀ x, (is_Some x ↔ is_Some (tr_expected t)) → match x with Some x => names_of f P !! name = Some x | None => True end →
    safe Q A Φ (k tt) (with_files w (moved f F "data" P name D j x (ch_time ch)))).
  { intros x Hx1 Hx2. pose proof (moved_step s f F P name D j x (ch_time ch) T S3 HPn HR S5 I1 I2 HK HPi Hx2) as M. rewrite Hj in M.
    apply Hk.
    - apply (renamed_ctx Q A id t P n c w f _ F D i name x); try done. by left.
    - split; cbn; [rewrite (mf_private _ _ _ _ _ _ _ _ M), lookup_delete_None; by right|by apply (mf_there _ _ _ _ _ _ _ _ M)].
    - cbn. rewrite (mf_private _ _ _ _ _ _ _ _ M), lookup_delete_ne; [done|]. intros ->.
      apply (td_plain _ T F s "data" F I1); [by rewrite I2; cbn; rewrite HK|by left]. }
  unfold rename_at, names_of in *. destruct (f_inodes f !! F) as [fi|]; [|done]. destruct HPi as [pi Hpi]. rewrite Hpi in *.
  destruct (negb _); [done|]. destruct (negb _); [done|]. rewrite S5, I2. subst exchange. case_bool_decide as HE.
  - destruct (i_names pi !! name) as [x|] eqn:Ex; [|done]. by apply (Hdone (Some x)).
  - case_bool_decide; [done|]. apply (Hdone None); [|done]. split; [by intros [? ?]|done].
Qed.

(** ** The decision *)

(** The receipt of a file about to be renamed. *)
Definition decided (t : transfer) (i : identity) (c : list Z) : transfer :=
  set_sha256 (set_state (set_committed t (Some i)) Committing) (Some (hex (sha256 c))).

Lemma decide_safe {B} Q A id t P n c F D J i (Φ : res B → world → Prop) (k : unit → prog B) w :
  ctx Q A id t (Stored P n c) w → held (stage_name id) P F D J c (w_files w) →
  tr_state t = Running → tr_offset t = tr_size t → object_of i = D →
  matches_manifest (tr_source_manifest t) c (chain_of (tr_size t) c) = true →
  (∀ w', ctx Q A id (decided t i c) (Stored P n c) w' → w_older w' = [] → drift (w_files w) (w_files w') → safe Q A Φ (k tt) w') →
  (∀ w' e, inv Q A w' → safe Q A Φ (Return (Err e)) w') →
  safe Q A Φ (keep (decided t i c) ≫= k) w.
Proof.
  intros C W HS HO HD HM Hk He. destruct (ctx_stored _ _ _ _ _ _ _ _ C) as (_ & _ & Hp & Ho & HP & Hn & _ & _).
  destruct (ctx_fits _ _ _ _ _ _ C) as (WF & FT & E). apply (keep_ctx Q A id t (Stored P n c)); [done| | | | |done|done].
  - destruct WF as [W1 W2 W3 W4 W5 W6 W7 W8]. split; try done.
  - unfold fits in *. cbn [decided set_sha256 set_state tr_state]. rewrite HS, Hp in FT. destruct FT as (_ & _ & _ & HA).
    split; [done|]. split; [done|]. split.
    + split; cbn; [lia|done|done|done|by rewrite <- HO].
    + exists i. split; [done|]. rewrite HD. apply (sg_private _ _ _ _ _ _ (wk_staged _ _ _ _ _ _ _ _ _ _ W)).
  - destruct E as (E1 & E2 & E3 & E4 & E5). unfold exact. cbn. done.
  - split; [by split| |].
    + intros _. cbn. by rewrite HS.
    + intros [P1|[P1|P1]]; congruence.
Qed.

Lemma reads_destination Pre P name (expected : option identity) : lasting Pre →
  reads Pre (match expected with
             | Some e => checked_at P name e ;; mret tt
             | None =>
                 there ← catch (stat_at P name ;; mret true) (fun e => if is_not_found e then mret false else raise e);
                 lift (raise_if there (FileError "destination_changed" "A file now occupies the destination."))
             end) (fun _ => Pre).
Proof.
  intros HL. destruct expected as [e|].
  - apply (reads_bind _ _ _ (fun _ => Pre)); [|intros _; reads_by (reads_mret Pre); by intros ? ? [_ ?]].
    unfold checked_at. apply (reads_bind _ _ _ (fun _ => Pre)); [reads_by (reads_stat_at Pre P name HL); by intros ? ? [? _]|].
    intros st. apply (reads_bind _ _ _ (fun _ => Pre)); [reads_by (reads_test Pre); by intros ? ? [? _]|].
    intros _. reads_by (reads_mret Pre). by intros ? ? [_ ?].
  - apply (reads_bind _ _ _ (fun _ => Pre)).
    + apply reads_catch; [done| |].
      * apply (reads_bind _ _ _ (fun _ => Pre)); [reads_by (reads_stat_at Pre P name HL); by intros ? ? [? _]|].
        intros _. reads_by (reads_mret Pre). by intros ? ? [_ ?].
      * intros e. destruct (is_not_found e); [|apply reads_raise]. reads_by (reads_mret Pre). by intros ? ? [_ ?].
    + intros b. reads_by (reads_test Pre). by intros ? ? [? _].
Qed.

Lemma publish_safe {B} Q A id q sha t P n c F D J name (Φ : res B → world → Prop) (k : transfer → prog B) w :
  let s := stage_name id in
  ctx Q A id t (Stored P n c) w → held s P F D J c (w_files w) →
  tr_state t = Running → tr_offset t = tr_size t → name_of t = Ok name →
  (∀ w' i, ctx Q A id (decided t i c) (Published c) w' → public P (w_files w') → safe Q A Φ (k (decided t i c)) w') →
  (∀ w' e, inv Q A w' → safe Q A Φ (Return (Err e)) w') →
  safe Q A Φ (publish q sha t P F name ≫= k) w.
Proof.
  intros s C W HS HO HN Hk He. unfold publish.
  assert (He' : ∀ t' ph' w' e, ctx Q A id t' ph' w' → safe Q A Φ (Return (Err e)) w') by (intros t' ph' w' e [? _ _]; by apply He).
  apply bind_assoc, (verify_stored Q A id (rq_root q) t P n c F D J); [done|done| |by intros; eapply He'].
  intros w1 C1 W1 H1. destruct (H1 HO) as (HM & j & Hj & Ej).
  set (Pre := fun f => held s P F D J c f ∧ is_inode s D j f).
  assert (HL : lasting Pre) by (apply lasting_and; [apply lasting_held|apply lasting_is_inode]).
  assert (HF : ∀ f, Pre f → f_private f !! F = Some s) by (intros f [[S _ _ _] _]; apply S).
  apply bind_assoc, (ctx_reads _ _ _ _ _ _ _ _ _ _ _ (reads_test Pre _ _) C1); [done| |by intros; eapply He'].
  intros w2 _ C2 _ [H2 _].
  apply bind_assoc, (ctx_reads _ _ _ _ _ _ _ _ _ _ _ (reads_opened_in Pre s F "data" ForRead HL HF) C2); [done| |by intros; eapply He'].
  intros w3 D' C3 _ [H3 HD]. rewrite (proj1 (work_inside s P F D J _ _ _ _ _ D' (proj1 H3)) HD). clear D' HD.
  apply bind_assoc, (ctx_reads _ _ _ _ _ _ _ _ _ _ _ (reads_fstat Pre D HL) C3); [done| |by intros; eapply He'].
  intros w4 st C4 _ [H4 _].
  apply bind_assoc, (ctx_reads _ _ _ _ _ _ _ _ _ _ _ (reads_lift_keep Pre (regular st)) C4); [done| |by intros; eapply He'].
  intros w5 _ C5 _ [_ H5].
  apply bind_assoc, (ctx_reads _ _ _ _ _ _ _ _ _ _ _ (reads_fstat Pre D HL) C5); [done| |by intros; eapply He'].
  intros w6 again C6 _ [[W6 I6] (x & ch & _ & ->)]. cbn zeta. set (i := identity_of (stat_of D x ch)).
  assert (HiD : object_of i = D) by apply object_of_identity.
  apply bind_assoc, (sync_work Q A id t P n c F D J _ _ _ _ D _ _ w6 C6 W6 (or_introl eq_refl)); [|by intros; eapply He'].
  pose proof (wk_ne _ _ _ _ _ _ _ _ _ _ W6) as HND. intros w7 C7 W7 X7. rewrite new_data_here, new_data_there in W7 by done.
  destruct (X7 D j (proj1 I6) (proj2 I6)) as (j' & J1 & J2). clear Pre HL HF H2 H3 H4 H5.
  set (Pre := fun f => held s P F D J c f ∧ is_inode s D j' f).
  assert (HL : lasting Pre) by (apply lasting_and; [apply lasting_held|apply lasting_is_inode]).
  assert (H7 : Pre (w_files w7)) by (split; [done|split; [apply (sg_private _ _ _ _ _ _ (wk_staged _ _ _ _ _ _ _ _ _ _ W7))|done]]).
  apply bind_assoc, (ctx_reads _ _ _ _ _ _ _ _ _ _ _ (reads_destination Pre P name _ HL) C7); [done| |by intros; eapply He'].
  intros w8 _ C8 _ H8.
  apply bind_assoc, (ctx_reads _ _ _ _ _ _ _ _ _ _ _ (reads_cancel Pre HL) C8); [done| |by intros; eapply He'].
  intros w9 _ C9 _ [W9 I9]. apply bind_assoc, (decide_safe Q A id t P n c F D J i); [done..| |done].
  intros w10 C10 O10 D10. pose proof (lasting_held id P F D J c _ _ (iv_tidy _ _ _ (cx_inv _ _ _ _ _ _ C9)) D10 W9) as W10.
  pose proof (lasting_is_inode s D j' _ _ (iv_tidy _ _ _ (cx_inv _ _ _ _ _ _ C9)) D10 I9) as I10.
  apply bind_assoc, (rename_safe Q A id (decided t i c) P n c F D J i name); [done..| |done| | |by intros; eapply He'].
  - cbn. destruct (tr_expected t); [by rewrite bool_decide_eq_true_2 by by eexists|by rewrite bool_decide_eq_false_2 by by intros [? ?]].
  - exists j'. split; [done|congruence].
  - intros w11 C11 P11 F11. apply bind_assoc, (fsync_loose Q A id (decided t i c) (Published c) P); [done|right; apply P11| |by intros; eapply He'].
    intros w12 C12 E12 K12. apply bind_assoc, (fsync_loose Q A id (decided t i c) (Published c) F); [done|left; by rewrite E12| |by intros; eapply He'].
    intros w13 C13 _ K13. apply (Hk w13 i C13). by apply K13, K12.
Qed.

(** ** Confirmation *)

Lemma reads_file_hash Pre fd expected : lasting Pre → reads Pre (file_hash fd expected) (fun _ => Pre).
Proof.
  intros HL. unfold file_hash.
  assert (HS : reads Pre (fstat fd) (fun _ => Pre)) by (reads_by (reads_fstat Pre fd HL); by intros ? ? [? _]).
  assert (HT : ∀ r : res unit, reads Pre (lift r) (fun _ => Pre)) by (intros r; reads_by (reads_lift_keep Pre r); by intros ? ? [_ ?]).
  assert (HA : ∀ n size value, reads Pre (read_all n fd size value) (fun _ => Pre)).
  { induction n as [|n IH]; intros size value; cbn [read_all]; [reads_by (reads_mret Pre); by intros ? ? [_ ?]|].
    destruct (_ <? _); [|reads_by (reads_mret Pre); by intros ? ? [_ ?]].
    apply (reads_bind _ _ _ (fun _ => Pre)); [by apply reads_cancel|]. intros _.
    apply (reads_bind _ _ _ (fun _ => Pre)); [reads_by (reads_pread Pre fd (Z.min CHUNK (size - Z.of_nat (length value))) (Z.of_nat (length value)) HL); by intros ? ? [? _]|]. intros d.
    case_bool_decide; [reads_by (reads_mret Pre); by intros ? ? [_ ?]|apply IH]. }
  apply (reads_bind _ _ _ (fun _ => Pre) _ HS). intros st. cbn zeta.
  apply (reads_bind _ _ _ (fun _ => Pre) _ HS). intros again.
  apply (reads_bind _ _ _ (fun _ => Pre)); [apply HT|]. intros _.
  apply (reads_bind _ _ _ (fun _ => Pre)); [apply HT|]. intros _.
  apply (reads_bind _ _ _ (fun _ => Pre)); [apply HA|]. intros v.
  apply (reads_bind _ _ _ (fun _ => Pre) _ HS). intros after.
  apply (reads_bind _ _ _ (fun _ => Pre)); [apply HT|]. intros _.
  reads_by (reads_mret Pre). by intros ? ? [_ ?].
Qed.

(** A public object with the committed identity: the renaming was done. *)
Lemma committed_published Q A id t ph w o i : ctx Q A id t ph w → tr_state t = Committing →
  f_private (w_files w) !! o = None → tr_committed_identity t = Some i → object_of i = o → ∃ c, ph = Published c.
Proof.
  intros C HS HP Hi Ho. destruct (ctx_fits _ _ _ _ _ _ C) as (_ & F & _). unfold fits in F. rewrite HS in F.
  destruct ph as [|P n c|c]; [done| |by exists c]. destruct F as (_ & _ & _ & i' & Hi' & Hp). assert (i' = i) as -> by congruence. congruence.
Qed.

(** The receipt that says the file is in place. *)
Definition confirmed (t : transfer) (i : identity) : transfer :=
  set_cleanup (set_state (set_published t (Some i)) Succeeded) (Some true).

Lemma succeed_safe {B} Q A id t c i (Φ : res B → world → Prop) (k : unit → prog B) w :
  ctx Q A id t (Published c) w → tr_state t = Committing →
  (∀ w', ctx Q A id (confirmed t i) (Published c) w' → w_older w' = [] → safe Q A Φ (k tt) w') →
  (∀ w' e, inv Q A w' → safe Q A Φ (Return (Err e)) w') →
  safe Q A Φ (keep (confirmed t i) ≫= k) w.
Proof.
  intros C HS Hk He. destruct (ctx_fits _ _ _ _ _ _ C) as (W & F & _).
  apply (keep_ctx Q A id t (Published c)); [done| | |done| |intros w' ? ? _; by apply Hk|done].
  - destruct W as [W1 W2 W3 W4 W5 W6 W7 W8]. split; try done. intros _. apply W8. by right; left.
  - unfold fits in *. rewrite HS in F. destruct F as [[] ?]. by split.
  - split; [by split| |].
    + intros _. cbn. by rewrite HS.
    + intros _. split; [by right; left|done].
Qed.

Lemma confirm_safe {B} Q A id q t ph P F name (Φ : res B → world → Prop) (k : transfer → prog B) w :
  ctx Q A id t ph w → public P (w_files w) → tr_state t = Committing → name_of t = Ok name →
  (∀ w' t' c, ctx Q A id t' (Published c) w' → w_older w' = [] → tr_state t' = Succeeded → safe Q A Φ (k t') w') →
  (∀ w' e, inv Q A w' → safe Q A Φ (Return (Err e)) w') →
  safe Q A Φ (confirm q t P F name ≫= k) w.
Proof.
  intros C HP HS HN Hk He. unfold confirm.
  assert (He' : ∀ t' ph' w' e, ctx Q A id t' ph' w' → safe Q A Φ (Return (Err e)) w') by (intros t' ph' w' e [? _ _]; by apply He).
  assert (HR : reserved name = false) by by apply (name_public (tr_name t) (tr_name_b64 t)).
  apply bind_assoc, (ctx_reads _ _ _ _ _ _ _ _ _ _ _ (reads_opened (public P) P [name] ForRead (lasting_public P)) C); [done| |by intros; eapply He'].
  intros w1 fd C1 _ [P1 (x & Hx & Hg)]. apply granted_inr in Hg as (-> & _). apply walk_public in Hx; [|apply C1|by repeat constructor|done].
  assert (HL := lasting_public x).
  apply bind_assoc, (ctx_reads _ _ _ _ _ _ _ _ _ _ _ (reads_fstat (public x) x HL) C1); [done| |by intros; eapply He'].
  intros w2 st C2 _ [P2 (j & ch & _ & ->)].
  destruct (identity_matches (identity_of (stat_of x j ch)) (tr_committed_identity t)) eqn:EM; last first.
  { eapply He', C2. }
  unfold identity_matches in EM. destruct (tr_committed_identity t) as [i|] eqn:EC; [|done]. apply same_object in EM. rewrite object_of_identity in EM.
  destruct (committed_published Q A id t ph w2 x i C2 HS (proj1 P2) EC (eq_sym EM)) as (c & ->).
  apply bind_assoc, bind_assoc, (ctx_reads _ _ _ _ _ _ _ _ _ _ _ (reads_file_hash (public x) x None HL) C2); [done| |by intros; eapply He'].
  intros w3 v C3 _ P3.
  apply (ctx_reads _ _ _ _ _ _ _ _ _ _ _ (reads_test (public x) _ _) C3); [done| |by intros; eapply He'].
  intros w4 _ C4 _ [P4 _].
  apply bind_assoc, (ctx_reads _ _ _ _ _ _ _ _ _ _ _ (reads_fstat (public x) x HL) C4); [done| |by intros; eapply He'].
  intros w5 now C5 _ _. cbn zeta.
  apply bind_assoc, (ctx_reads Q A id t (Published c) (fun _ => True) _ (fun _ _ => True)); [|done|done| |by intros; eapply He'].
  { change (tr_expected (set_published t (Some (identity_of now)))) with (tr_expected t). destruct (tr_expected t) as [e|].
    - apply (reads_bind _ _ _ (fun _ _ => True)); [reads_by (reads_stat_at (fun _ => True) F "data" lasting_True); done|].
      intros old. reads_by (reads_test (fun _ => True)). done.
    - reads_by (reads_mret (fun _ => True)). done. }
  intros w6 _ C6 _ _. apply bind_assoc, (succeed_safe Q A id t c (identity_of now)); [done|done| |done].
  intros w7 C7 O7. by apply (Hk w7 _ c C7).
Qed.
