(* ===== verification/TransferRemove.v ===== *)
(** * Taking a transfer's files away

    The stage of a discarded transfer, what a published file displaced, and a finished
    download: what is public is removed only with a receipt that says so. *)

From S2P Require Import Prelude Sha256 Json Posix FileAccess FileTransfer TransferSystem TransferInv TransferCalls TransferLogic TransferReads TransferSteps TransferWork TransferVerify TransferPublish.

#[local] Open Scope Z_scope.

Notation os_error := FileAccess.os_error.

(** ** One removal *)

Lemma unlink_inr b dir name ch f f' : unlink b dir name ch f = inr f' →
  ∃ di o i, f_inodes f !! dir = Some di ∧ names_of f dir !! name = Some o ∧ f_inodes f !! o = Some i
    ∧ f' = removal f dir di name o i (ch_time ch).
Proof.
  unfold unlink, names_of. destruct (f_inodes f !! dir) as [di|]; [|done]. destruct (i_names di !! name) as [o|] eqn:E; [|done].
  destruct (f_inodes f !! o) as [i|] eqn:Ei; [|done]. intros H. exists di, o, i. split; [done|]. split; [done|]. split; [done|].
  destruct b; [destruct (negb _); [done|]; destruct (negb _); [done|]|destruct (bool_decide _); [done|]]; by injection H as <-.
Qed.

(** What may be removed from a directory. *)
Definition removable (A : list (string * Z * list Z)) (ph : phase) (s : string) (w : world) (dir : object) (name : string) : Prop :=
  ∀ o, names_of (w_files w) dir !! name = Some o →
    mine ph s (w_files w) o
    ∧ (f_private (w_files w) !! o = None → justified A w (Removed (f_private (w_files w) !! dir) dir name o)).

Lemma removal_ctx Q A id t ph w b dir name ch f f' :
  let s := stage_name id in
  ctx Q A id t ph (with_files w f) → not_stored ph → unlink b dir name ch f = inr f' → ours s f dir → (reserved name = true → name = s) →
  removable A ph s (with_files w f) dir name → ctx Q A id t ph (with_files w f') ∧ f_private f' = f_private f.
Proof.
  intros s C HN HU HD HR HX. apply unlink_inr in HU as (di & o & i & Hdi & Hno & Hi & ->). destruct (HX o Hno) as [HM HJ].
  pose proof (removal_step s f dir di name o i (ch_time ch) (iv_tidy _ _ _ (cx_inv _ _ _ _ _ _ C)) Hdi Hi HD (mine_ours _ _ _ _ HM) HR) as RF.
  set (f' := removal _ _ _ _ _ _ _) in *. split; [|apply (rf_private _ _ _ _ _ _ RF)].
  change (with_files w f') with (with_files (with_files w f) f').
  pose proof (ia_physical _ _ _ _ (cx_at _ _ _ _ _ _ C)) as HP.
  apply ctx_files; [done|apply RF|apply RF|by rewrite (rf_private _ _ _ _ _ _ RF)| |]; cbn [with_files w_files] in *.
  - destruct ph as [|P n c|c]; [|done|].
    + intros d n x. rewrite (rf_private _ _ _ _ _ _ RF). intros Hd Hb%(rf_bound _ _ _ _ _ _ RF). by apply (HP d n x).
    + destruct HP as (HC & d & n & x & y & HE). split; [|exists d, n, x, y; by apply RF].
      intros d' n' x'. rewrite (rf_private _ _ _ _ _ _ RF). intros Hd Hb%(rf_bound _ _ _ _ _ _ RF). by apply (HC d' n' x').
  - intros e. rewrite (rf_effects _ _ _ _ _ _ RF), elem_of_app. intros [?|Hin]; [by left|right]. unfold private in Hin.
    case_bool_decide as HB; [by apply not_elem_of_nil in Hin|]. apply list_elem_of_singleton in Hin as ->.
    by apply HJ, eq_None_not_Some.
Qed.

Lemma unlink_safe {B} Q A id t ph (directory : bool) dir name (Φ : res B → world → Prop) (k : unit → prog B) w :
  let s := stage_name id in
  ctx Q A id t ph w → not_stored ph → ours s (w_files w) dir → (reserved name = true → name = s) →
  (∀ w', ctx Q A id t ph w' → drift (w_files w) (w_files w') → removable A ph s w' dir name) →
  (∀ w', ctx Q A id t ph w' → f_private (w_files w') = f_private (w_files w) → safe Q A Φ (k tt) w') →
  (∀ w' e, ctx Q A id t ph w' → f_private (w_files w') = f_private (w_files w) → safe Q A Φ (Return (Err e)) w') →
  safe Q A Φ ((if directory then kernel (Rmdir dir name) else kernel (Unlink dir name)) ≫= k) w.
Proof.
  intros s C HN HD HR HX Hk He.
  assert (HU : ∀ b f ch, drift (w_files w) f → match unlink b dir name ch f with
    | inr f' => safe Q A Φ (k tt) (with_files w f') | inl e => True end).
  { intros b f ch D. destruct (unlink b dir name ch f) as [e|f'] eqn:E; [done|].
    assert (C' : ctx Q A id t ph (with_files w f)) by by apply ctx_drift.
    destruct (removal_ctx Q A id t ph w b dir name ch f f') as [C2 E2]; [done|done|done|by apply (ours_drift _ (w_files w))|done|by apply HX|].
    apply Hk; [done|]. cbn. by rewrite E2, (drift_private _ _ D). }
  destruct directory; (apply safe_kernel; [apply C| |intros f e D I; apply He; [by apply ctx_drift|by apply drift_private]]).
  all: intros f ch D I _; cbn [act on_unit].
  - pose proof (HU true f ch D) as H. by destruct (unlink true dir name ch f).
  - pose proof (HU false f ch D) as H. by destruct (unlink false dir name ch f).
Qed.

(** [try: p except FileNotFoundError: pass]. *)
Lemma ctx_catch {B} Q A id t ph (p : prog unit) (Φ : res B → world → Prop) (k : unit → prog B) w :
  (∀ Φ' : res unit → world → Prop, (∀ w', ctx Q A id t ph w' → safe Q A Φ' (mret tt) w') →
     (∀ w' e, ctx Q A id t ph w' → safe Q A Φ' (Return (Err e)) w') → safe Q A Φ' (p ≫= mret) w) →
  (∀ w', ctx Q A id t ph w' → safe Q A Φ (k tt) w') →
  (∀ w' e, ctx Q A id t ph w' → safe Q A Φ (Return (Err e)) w') →
  safe Q A Φ (catch p (fun e => if is_not_found e then mret tt else raise e) ≫= k) w.
Proof.
  intros Hp Hk He. apply safe_catch_bind, safe_unit, Hp.
  - intros w' C. split; [apply C|]. intros f D. apply Hk. by apply ctx_drift.
  - intros w' e C. split; [apply C|]. intros f D. destruct (is_not_found e); [apply Hk|apply He]; by apply ctx_drift.
Qed.

(** ** Discarding *)

Lemma ctx_fresh Q A id t ph w : ctx Q A id t ph w → tr_state t = Discarding → w_older w = [] → ctx Q A id t Fresh w.
Proof.
  intros C HS HO. destruct (ctx_fits _ _ _ _ _ _ C) as (W & F & _). pose proof C as [I V [XP XF XX XL]]. split; [done|done|].
  assert (Hv : ∀ m, m ∈ versions w → m = w_receipts w) by (unfold versions; rewrite HO; by intros m ->%list_elem_of_singleton).
  split; [|intros m u ->%Hv Hu; rewrite V in Hu; injection Hu as <-; split; [done|]; unfold fits; by rewrite HS|done|done].
  unfold fits in F. rewrite HS in F. destruct ph as [|P n c|c]; [done|apply XP|done].
Qed.

Lemma fresh_removable Q A id t w dir name : ctx Q A id t Fresh w → f_private (w_files w) !! dir = Some (stage_name id) →
  removable A Fresh (stage_name id) w dir name.
Proof.
  intros C HD o Ho. assert (H : f_private (w_files w) !! o = Some (stage_name id)).
  { apply (ia_physical _ _ _ _ (cx_at _ _ _ _ _ _ C) dir name o HD). by left. }
  split; [done|]. intros ?. congruence.
Qed.

Lemma discard_file_safe {B} Q A id t F name (Φ : res B → world → Prop) (k : unit → prog B) w :
  ctx Q A id t Fresh w → f_private (w_files w) !! F = Some (stage_name id) → reserved name = false →
  (∀ w', ctx Q A id t Fresh w' → f_private (w_files w') = f_private (w_files w) → safe Q A Φ (k tt) w') →
  (∀ w' e, ctx Q A id t Fresh w' → safe Q A Φ (Return (Err e)) w') →
  safe Q A Φ (discard_file F name ≫= k) w.
Proof.
  intros C HF HR Hk He. unfold discard_file. set (s := stage_name id) in *.
  set (Pre := fun f => f_private f = f_private (w_files w)).
  assert (HL : lasting Pre) by (intros f f' _ D; unfold Pre; by rewrite (drift_private _ _ D)).
  apply bind_assoc, (ctx_reads _ _ _ _ _ _ _ _ _ _ _ (reads_look Pre F name (fun st => st) HL) C); [done| |done].
  intros w1 [st|] C1 _ [H1 _]; [|by apply Hk].
  apply bind_assoc, (ctx_reads _ _ _ _ _ _ _ _ _ _ _ (reads_lift_keep Pre (regular st)) C1); [done| |done]. intros w2 _ C2 _ [_ H2].
  apply bind_assoc, (ctx_reads _ _ _ _ _ _ _ _ _ _ _ (reads_test Pre _ _) C2); [done| |done]. intros w3 _ C3 _ [H3 _].
  assert (HF3 : f_private (w_files w3) !! F = Some s) by by rewrite H3.
  apply (unlink_safe Q A id t Fresh false F name); [done|done|by left|congruence| | |intros; by apply He].
  - intros w' C' D'. apply (fresh_removable Q A id t w'); [done|]. by rewrite (drift_private _ _ D').
  - intros w' C' E'. apply Hk; [done|]. by rewrite E', H3.
Qed.

Lemma top_removable Q A id t ph w P : ctx Q A id t ph w → f_private (w_files w) !! P = None → removable A ph (stage_name id) w P (stage_name id).
Proof.
  intros C HP o Ho. assert (H : f_private (w_files w) !! o = Some (stage_name id)).
  { apply (td_top _ (iv_tidy _ _ _ (cx_inv _ _ _ _ _ _ C)) P); [done|done|by left]. }
  split; [|intros ?; congruence]. unfold mine, ours. destruct ph; auto.
Qed.

(** The end of a stage: [fsync], [rmdir], [fsync]. *)
Lemma remove_stage_safe {B} Q A id t ph P F (Φ : res B → world → Prop) (k : unit → prog B) w :
  ctx Q A id t ph w → not_stored ph → f_private (w_files w) !! P = None → f_private (w_files w) !! F = Some (stage_name id) →
  (∀ w', ctx Q A id t ph w' → safe Q A Φ (k tt) w') →
  (∀ w' e, ctx Q A id t ph w' → safe Q A Φ (Return (Err e)) w') →
  safe Q A Φ ((kernel (Fsync F) ;; kernel (Rmdir P (tr_stage t)) ;; kernel (Fsync P)) ≫= k) w.
Proof.
  intros C HN HP HF Hk He. destruct (ctx_fits _ _ _ _ _ _ C) as (W & _ & _). rewrite (wt_stage _ _ W).
  apply bind_assoc, (fsync_loose Q A id t ph F); [done|by left| |done]. intros w1 C1 E1 _.
  apply bind_assoc, (unlink_safe Q A id t ph true P (stage_name id)); [done|done|right; by rewrite E1|done| | |intros; by apply He].
  - intros w' C' D'. apply (top_removable Q A id t ph w' P C'). by rewrite (drift_private _ _ D'), E1.
  - intros w2 C2 E2. apply (fsync_loose Q A id t ph P); [done|right; by rewrite E2, E1| |done]. intros w3 C3 _ _. by apply Hk.
Qed.

Lemma discard_safe {B} Q A id r t ph (Φ : res B → world → Prop) (k : transfer → prog B) w :
  ctx Q A id t ph w → TERMINAL (tr_state t) = false → tr_state t ≠ Committing →
  (∀ w' t', inv Q A w' → safe Q A Φ (k t') w') →
  (∀ w' e, inv Q A w' → safe Q A Φ (Return (Err e)) w') →
  safe Q A Φ (discard r t ≫= k) w.
Proof.
  intros C HT HC Hk He. unfold discard. cbn zeta. set (t1 := set_state t Discarding).
  destruct (ctx_fits _ _ _ _ _ _ C) as (W & F0 & E). unfold TERMINAL in HT. rewrite orb_false_iff, !bool_decide_eq_false in HT.
  assert (He' : ∀ t' ph' w' e, ctx Q A id t' ph' w' → safe Q A Φ (Return (Err e)) w') by (intros t' ph' w' e [? _ _]; by apply He).
  assert (HPub : not_stored ph → ph = Fresh).
  { unfold fits in F0. destruct ph as [|P n c|c]; [done|done|]. destruct (tr_state t), (tr_prepared t) as [[]|]; tauto. }
  apply bind_assoc, (keep_ctx Q A id t ph); [done| | | | | |done].
  - destruct W as [W1 W2 W3 W4 W5 W6 W7 W8]. split; try done. by intros [?|[?|?]].
  - unfold fits. cbn. destruct ph as [|P n c|c]; [done|done|by pose proof (HPub I)].
  - destruct ph as [|P n c|c]; [done| |done]. destruct E as (E1 & E2 & E3). by split.
  - split; [by split| |intros [?|[?|?]]; tauto]. intros _. cbn. destruct HT as [H1 H2].
    unfold TERMINAL. by rewrite !bool_decide_eq_false_2.
  - intros w1 C1 O1 _. apply (ctx_fresh Q A id t1 ph w1) in C1; [|done|done].
    destruct (ctx_fits _ _ _ _ _ _ C1) as (W1 & _ & _).
    apply bind_assoc, (ctx_catch Q A id t1 Fresh); [| |by intros; eapply He'].
    + intros Φ' Hk' He''. apply bind_assoc, (ctx_reads _ _ _ _ _ _ _ _ _ _ _ (reads_stage r t1 _ (wt_stage _ _ W1) eq_refl) C1); [done| |done].
      intros w2 [P F] C2 _ [_ AS]. cbn [fst snd] in *. pose proof (as_parent _ _ _ _ AS) as [HP _]. pose proof (as_private _ _ _ _ AS) as HF.
      apply bind_assoc, (discard_file_safe Q A id t1 F "data"); [done|done|done| |done]. intros w3 C3 E3.
      apply bind_assoc, (discard_file_safe Q A id t1 F "chunks"); [done|by rewrite E3|done| |done]. intros w4 C4 E4.
      apply (remove_stage_safe Q A id t1 Fresh P F); [done|done|by rewrite E4, E3|by rewrite E4, E3|done|done].
    + intros w2 C2. apply bind_assoc, (keep_ctx Q A id t1 Fresh); [done| |done|done| |intros w3 [? _ _] _ _; by apply Hk|done].
      * destruct W1 as [W1 W2 W3 W4 W5 W6 W7 W8]. split; try done. by intros [?|[?|?]].
      * split; [by split| |intros [?|[?|?]]; done]. intros _. done.
Qed.

(** ** After publication *)

Lemma removed_justified Q A id t c w l d n o : ctx Q A id t (Published c) w →
  (n = "data" ∧ l = Some (stage_name id) ∧ object_of <$> tr_expected t = Some o) ∨ (tr_export t = true ∧ parent_of t = d ∧ name_of t = Ok n) →
  justified A w (Removed l d n o).
Proof.
  intros [I V X] H. exists id. split; [done|]. intros m Hm.
  destruct (published_past Q A id w c I (ia_physical _ _ _ _ X) m Hm) as (u & Hu & Pu). exists u. split; [done|]. split; [done|].
  pose proof (ia_alike _ _ _ _ X _ m t u (versions_here w) Hm V Hu) as L. unfold parent_of in *.
  by rewrite (al_expected _ _ L), (al_export _ _ L), (al_parent _ _ L), (al_name _ _ L).
Qed.

Lemma inside_removable Q A id t c w F name : ctx Q A id t (Published c) w → f_private (w_files w) !! F = Some (stage_name id) →
  (∀ o, name = "data" → names_of (w_files w) F !! name = Some o → object_of <$> tr_expected t = Some o) →
  removable A (Published c) (stage_name id) w F name.
Proof.
  intros C HF HX o Ho. destruct (ia_physical _ _ _ _ (cx_at _ _ _ _ _ _ C)) as [HC _].
  assert (HB : bound (w_files w) F name o) by by left.
  split; [apply (inside_ours _ F name o); [apply C|done]|]. intros HN. destruct (HC F name o HF HB) as [?|E]; [congruence|].
  apply (removed_justified Q A id t c); [done|]. left. split; [done|]. split; [done|]. by apply HX.
Qed.

Lemma catch_unlink_safe {B} Q A id t ph dir name (Φ : res B → world → Prop) (k : unit → prog B) w :
  let s := stage_name id in
  ctx Q A id t ph w → not_stored ph → ours s (w_files w) dir → (reserved name = true → name = s) →
  (∀ w', ctx Q A id t ph w' → drift (w_files w) (w_files w') → removable A ph s w' dir name) →
  (∀ w', ctx Q A id t ph w' → f_private (w_files w') = f_private (w_files w) → safe Q A Φ (k tt) w') →
  (∀ w' e, ctx Q A id t ph w' → safe Q A Φ (Return (Err e)) w') →
  safe Q A Φ (catch (kernel (Unlink dir name)) (fun e => if is_not_found e then mret tt else raise e) ≫= k) w.
Proof.
  intros s C HN HD HR HX Hk He. apply safe_catch_bind, safe_unit.
  apply (unlink_safe Q A id t ph false dir name); [done|done|done|done|done| |].
  - intros w1 C1 E1. split; [apply C1|]. intros f D. apply Hk; [by apply ctx_drift|]. cbn. by rewrite (drift_private _ _ D).
  - intros w1 e C1 E1. split; [apply C1|]. intros f D. destruct (is_not_found e); [|apply He; by apply ctx_drift].
    apply Hk; [by apply ctx_drift|]. cbn. by rewrite (drift_private _ _ D).
Qed.

Lemma cleanup_stage_safe {B} Q A id r t c (Φ : res B → world → Prop) (k : unit → prog B) w :
  ctx Q A id t (Published c) w →
  (∀ w', ctx Q A id t (Published c) w' → safe Q A Φ (k tt) w') →
  (∀ w' e, ctx Q A id t (Published c) w' → safe Q A Φ (Return (Err e)) w') →
  safe Q A Φ (cleanup_stage r t ≫= k) w.
Proof.
  intros C Hk0 He0. apply (ctx_catch Q A id t (Published c)); [|done|done]. clear Φ k Hk0 He0 B. intros Φ Hk He.
  destruct (ctx_fits _ _ _ _ _ _ C) as (W & _ & _). set (s := stage_name id).
  apply bind_assoc, (ctx_reads _ _ _ _ _ _ _ _ _ _ _ (reads_stage r t s (wt_stage _ _ W) eq_refl) C); [done| |done].
  intros w1 [P F] C1 _ [_ AS]. cbn [fst snd] in *. pose proof (as_parent _ _ _ _ AS) as [HP _]. pose proof (as_private _ _ _ _ AS) as HF.
  set (Pre := fun f => f_private f !! P = None ∧ f_private f !! F = Some s).
  assert (HL : lasting Pre) by (apply lasting_and; apply lasting_private).
  apply bind_assoc, (ctx_reads _ _ _ _ _ _ _ _ _ _ _ (reads_look Pre F "data" identity_of HL) C1); [done| |done].
  intros w2 old C2 _ [[HP2 HF2] Hold].
  assert (Hrest : ∀ w', ctx Q A id t (Published c) w' → f_private (w_files w') = f_private (w_files w2) → safe Q A Φ
    ((catch (kernel (Unlink F "chunks")) (fun e => if is_not_found e then mret tt else raise e) ;;
      kernel (Fsync F) ;; kernel (Rmdir P (tr_stage t)) ;; kernel (Fsync P)) ≫= mret) w').
  { intros w' C' E'. assert (HF' : f_private (w_files w') !! F = Some s) by by rewrite E'.
    apply bind_assoc, (catch_unlink_safe Q A id t (Published c) F "chunks"); [done|done|by left|done| | |done].
    - intros w3 C3 D3. apply (inside_removable Q A id t c w3 F); [done|by rewrite (drift_private _ _ D3)|done].
    - intros w3 C3 E3. apply (remove_stage_safe Q A id t (Published c) P F); [done|done|by rewrite E3, E'|by rewrite E3, E'|done|done]. }
  apply bind_assoc. destruct old as [old|]; [|by apply Hrest]. destruct Hold as (o & i & ch & Ho & _ & ->).
  set (Pre2 := fun f => f_private f = f_private (w_files w2) ∧ inside s F "data" o f).
  assert (HL2 : lasting Pre2).
  { apply lasting_and; [|apply lasting_inside]. intros f f' _ D. by rewrite (drift_private _ _ D). }
  apply bind_assoc, (ctx_reads _ _ _ _ _ _ _ _ _ _ _ (reads_test Pre2 _ _) C2); [done| |done].
  intros w3 _ C3 _ [[E3 HI3] HS]. destruct (tr_expected t) as [e|] eqn:Ee; [|done]. apply negb_false_iff, same_object in HS.
  rewrite object_of_identity in HS.
  apply (unlink_safe Q A id t (Published c) false F "data"); [done|done|left; by rewrite E3|done| | |intros; by apply He].
  - intros w4 C4 D4. apply (inside_removable Q A id t c w4 F); [done|by rewrite (drift_private _ _ D4), E3|].
    intros o' _ Ho'. destruct (lasting_inside s F "data" o _ _ (iv_tidy _ _ _ (cx_inv _ _ _ _ _ _ C3)) D4 HI3) as [_ Ho4].
    rewrite Ee. cbn. congruence.
  - intros w4 C4 E4. apply Hrest; [done|congruence].
Qed.

(** [cleanup]; its receipt says the stage is gone. *)
Lemma clean_safe {B} Q A id t c (Φ : res B → world → Prop) (k : unit → prog B) w :
  ctx Q A id t (Published c) w → tr_state t = Succeeded → truthy (tr_cleanup_pending t) = true →
  (∀ w', ctx Q A id (set_cleanup t (Some false)) (Published c) w' → safe Q A Φ (k tt) w') →
  (∀ w' e, inv Q A w' → safe Q A Φ (Return (Err e)) w') →
  safe Q A Φ (keep (set_cleanup t (Some false)) ≫= k) w.
Proof.
  intros C HS HP Hk He. destruct (ctx_fits _ _ _ _ _ _ C) as (W & F & _).
  apply (keep_ctx Q A id t (Published c)); [done| | |done| |intros w' ? _ _; by apply Hk|done].
  - destruct W as [W1 W2 W3 W4 W5 W6 W7 W8]. by split.
  - unfold fits in *. cbn [set_cleanup tr_state]. rewrite HS in *. destruct F as [[] ?]. by split.
  - split; [by split| |].
    + intros _. unfold active. by rewrite HP, orb_true_r.
    + intros HPast. split; [exact HPast|done].
Qed.

Lemma cleanup_safe {B} Q A id r t c (Φ : res B → world → Prop) (k : transfer → prog B) w :
  ctx Q A id t (Published c) w → tr_state t = Succeeded →
  (∀ w' t', ctx Q A id t' (Published c) w' → tr_state t' = Succeeded → safe Q A Φ (k t') w') →
  (∀ w' e, inv Q A w' → safe Q A Φ (Return (Err e)) w') →
  safe Q A Φ (cleanup r t ≫= k) w.
Proof.
  intros C HS Hk He. unfold cleanup. destruct (truthy (tr_cleanup_pending t)) eqn:EP; [|by apply (Hk w t)].
  apply bind_assoc, (cleanup_stage_safe Q A id r t c); [done| |intros w' e [? _ _]; by apply He].
  intros w1 C1. cbn zeta. apply bind_assoc, (clean_safe Q A id t c); [done|done|done| |done]. intros w2 C2. by apply (Hk w2 _ C2).
Qed.

(** [attempt]: whatever fails, what follows runs. *)
Lemma attempt_safe {B C} Q A (p : prog B) a (Φ : res C → world → Prop) (k : B → prog C) w :
  safe Q A (fun r w' => inv Q A w' → match r with Ok b => safe Q A Φ (k b) w' | Err e => safe Q A Φ (k a) w' ∧ safe Q A Φ (Return (Err e)) w' end) p w →
  safe Q A Φ (attempt p a ≫= k) w.
Proof.
  intros H. unfold attempt. apply safe_catch_bind. revert H.
  enough (H : ∀ w', inv Q A w' → ∀ r, (inv Q A w' → match r with Ok b => safe Q A Φ (k b) w' | Err e => safe Q A Φ (k a) w' ∧ safe Q A Φ (Return (Err e)) w' end) →
    match r with Ok b => safe Q A Φ (k b) w' | Err e => safe Q A Φ ((if is_file_error e then mret a else raise e) ≫= k) w' end).
  - revert w. induction p as [r|c q IH]; intros w [I S]; (split; [done|]).
    + intros f D. apply H; [by apply inv_drift|by apply S].
    + intros f ch D. apply IH, S, D.
  - intros w' I r HR. specialize (HR I). destruct r as [b|e]; [done|]. destruct HR. by destruct (is_file_error e).
Qed.

Lemma cleanup_quietly_safe {B} Q A id r t c (Φ : res B → world → Prop) (k : transfer → prog B) w :
  ctx Q A id t (Published c) w → tr_state t = Succeeded →
  (∀ w' t', inv Q A w' → safe Q A Φ (k t') w') →
  (∀ w' e, inv Q A w' → safe Q A Φ (Return (Err e)) w') →
  safe Q A Φ (cleanup_quietly r t ≫= k) w.
Proof.
  intros C HS Hk He. unfold cleanup_quietly. destruct (truthy (tr_cleanup_pending t)) eqn:EP; [|apply Hk, C].
  assert (HE : ∀ (a : transfer) w' (b : res transfer), inv Q A w' → inv Q A w' → match b with
      | Ok b => safe Q A Φ (k b) w' | Err e => safe Q A Φ (k a) w' ∧ safe Q A Φ (Return (Err e)) w' end).
  { intros a w' [b|e] I _; [by apply Hk|]. split; [by apply Hk|by apply He]. }
  assert (HR : ∀ (a : transfer) w' (b : res transfer), inv Q A w' → safe Q A (fun r w' => inv Q A w' → match r with
      | Ok b => safe Q A Φ (k b) w' | Err e => safe Q A Φ (k a) w' ∧ safe Q A Φ (Return (Err e)) w' end) (Return b) w').
  { intros a w' b I. apply safe_return; [done|]. intros f D I'. by apply HE. }
  apply attempt_safe, (cleanup_stage_safe Q A id r t c); [done| |intros w' e [? _ _]; by apply HR].
  intros w1 C1. cbn zeta. apply safe_unit, attempt_safe.
  apply (clean_safe Q A id t c); [done|done|done| |].
  - intros w2 [I2 _ _]. apply safe_return; [done|]. intros f D I3 _. by apply HR.
  - intros w2 e I2. apply safe_return; [done|]. intros f D I3 _. split; by apply HR.
Qed.
