(* ===== verification/TransferSafe.v ===== *)
(** * Every request is safe

    [commit], [cancel], [begin] and [dispatch] keep the invariant of [TransferInv], and an
    acknowledged chunk joins what the invariant knows. *)

From S2P Require Import Prelude Sha256 Json Posix FileAccess FileTransfer TransferSystem TransferInv TransferCalls TransferLogic TransferReads TransferSteps TransferWork TransferVerify TransferPublish TransferRemove.

#[local] Open Scope Z_scope.

Notation os_error := FileAccess.os_error.

(** ** Commit *)

Lemma commit_safe {B} Q A id q sha t ph (Φ : res B → world → Prop) (k : transfer → prog B) w :
  ctx Q A id t ph w →
  (∀ w' t', inv Q A w' → safe Q A Φ (k t') w') →
  (∀ w' e, inv Q A w' → safe Q A Φ (Return (Err e)) w') →
  safe Q A Φ (commit q sha t ≫= k) w.
Proof.
  intros C Hk He. unfold commit. case_bool_decide as HSuc; [apply Hk, C|].
  assert (He' : ∀ t' ph' w' e, ctx Q A id t' ph' w' → safe Q A Φ (Return (Err e)) w') by (intros t' ph' w' e [? _ _]; by apply He).
  destruct (ctx_fits _ _ _ _ _ _ C) as (W & F0 & _). set (s := stage_name id).
  apply bind_assoc, (ctx_reads _ _ _ _ _ _ _ _ _ _ _ (reads_test (fun _ => True) _ _) C); [done| |by intros; eapply He'].
  intros w1 _ C1 _ [_ HT]. apply orb_false_iff in HT as [HO HS]. apply negb_false_iff, Z.eqb_eq in HO.
  apply negb_false_iff, orb_true_iff in HS. rewrite !bool_decide_eq_true in HS.
  apply bind_assoc, (ctx_reads _ _ _ _ _ _ _ _ _ _ _ (reads_stage (rq_root q) t s (wt_stage _ _ W) eq_refl) C1); [done| |by intros; eapply He'].
  intros w2 [P F] C2 _ [HP AS]. cbn [fst snd] in *. assert (HL : lasting (at_stage s P F)) by by apply lasting_at_stage.
  apply bind_assoc, (ctx_reads _ _ _ _ _ _ _ _ _ _ _ (reads_lift_keep (at_stage s P F) (transfer_name (tr_name t) (tr_name_b64 t))) C2); [done| |by intros; eapply He'].
  intros w3 name C3 _ [HN AS3].
  assert (Hend : ∀ w' t' ph', ctx Q A id t' ph' w' → public P (w_files w') → tr_state t' = Committing → name_of t' = Ok name →
    safe Q A Φ ((t ← confirm q t' P F name; cleanup_quietly (rq_root q) t) ≫= k) w').
  { intros w' t' ph' C' P' S' N'. apply bind_assoc, (confirm_safe Q A id q t' ph' P F name); [done..| |done].
    intros w4 t4 c C4 _ S4. by apply (cleanup_quietly_safe Q A id (rq_root q) t4 c). }
  apply bind_assoc. case_bool_decide as HR.
  - assert (Hp : tr_prepared t = Some true) by (apply W; by left).
    destruct ph as [|P' n c|c]; unfold fits in F0; rewrite HR, Hp in F0; [done| |done].
    destruct F0 as (HP' & _). assert (P' = P) as -> by congruence.
    destruct (ctx_held _ _ _ _ _ _ _ _ C3) as (F' & D & J & W3). pose proof (work_same s P F' D J _ _ _ _ _ F W3 AS3) as ->.
    apply (publish_safe Q A id q sha t P n c F' D J name); [done..| |done].
    intros w4 i C4 P4. by apply (Hend w4 _ (Published c)).
  - destruct HS as [?|HS]; [done|]. apply (Hend w3 t ph); [done|apply AS3|done|done].
Qed.

(** ** Cancellation *)

Lemma discard_export_safe {B} Q A id r t c (Φ : res B → world → Prop) (k : transfer → prog B) w :
  ctx Q A id t (Published c) w → tr_state t = Succeeded → tr_export t = true →
  (∀ w' t', inv Q A w' → safe Q A Φ (k t') w') →
  (∀ w' e, inv Q A w' → safe Q A Φ (Return (Err e)) w') →
  safe Q A Φ (discard_export r t ≫= k) w.
Proof.
  intros C HS HE Hk He. unfold discard_export. set (s := stage_name id).
  assert (He' : ∀ t' ph' w' e, ctx Q A id t' ph' w' → safe Q A Φ (Return (Err e)) w') by (intros t' ph' w' e [? _ _]; by apply He).
  apply bind_assoc, (ctx_reads _ _ _ _ _ _ _ _ _ _ _ (reads_entry_fd r (tr_parent t) ForDirectory) C); [done| |by intros; eapply He'].
  intros w1 P C1 _ [HP Pub]. fold (parent_of t) in HP. assert (HL := lasting_public P).
  apply bind_assoc, (ctx_reads _ _ _ _ _ _ _ _ _ _ _ (reads_lift_keep (public P) (transfer_name (tr_name t) (tr_name_b64 t))) C1); [done| |by intros; eapply He'].
  intros w2 name C2 _ [HN P2]. assert (HR : reserved name = false) by by apply (name_public (tr_name t) (tr_name_b64 t)).
  apply bind_assoc, (ctx_reads _ _ _ _ _ _ _ _ _ _ _ (reads_stat_at (public P) P name HL) C2); [done| |by intros; eapply He'].
  intros w3 st C3 _ [P3 _].
  apply bind_assoc, (ctx_reads _ _ _ _ _ _ _ _ _ _ _ (reads_test (public P) _ _) C3); [done| |by intros; eapply He'].
  intros w4 _ C4 _ [P4 _].
  apply bind_assoc, (unlink_safe Q A id t (Published c) false P name); [done|done|right; apply P4|congruence| | |by intros; eapply He'].
  { intros w5 C5 D5 o Ho. split.
    - right. apply (td_public _ (iv_tidy _ _ _ (cx_inv _ _ _ _ _ _ C5)) P name); [by rewrite (drift_private _ _ D5); apply P4|done|by left].
    - intros _. apply (removed_justified Q A id t c); [done|]. right. split; [done|]. by split. }
  intros w5 C5 E5. apply bind_assoc, (fsync_loose Q A id t (Published c) P); [done|right; rewrite E5; apply P4| |by intros; eapply He'].
  intros w6 C6 _ _. cbn zeta. destruct (ctx_fits _ _ _ _ _ _ C6) as (W & F & _).
  apply bind_assoc, (keep_ctx Q A id t (Published c)); [done| |done|done| |intros w7 [? _ _] _ _; by apply Hk|done].
  - destruct W as [W1 W2 W3 W4 W5 W6 W7 W8]. split; try done. by intros [?|[?|?]].
  - split; [by split| |].
    + intros _. unfold active. rewrite HE, HS. by rewrite orb_true_r.
    + intros HPast. split; [by right; right|done].
Qed.

Lemma interrupt_safe {B} Q A id t ph (Φ : res B → world → Prop) (k : unit → prog B) w :
  ctx Q A id t ph w → tr_state t = Preparing ∨ tr_state t = Running ∨ tr_state t = Interrupted →
  (∀ w', inv Q A w' → safe Q A Φ (k tt) w') →
  (∀ w' e, inv Q A w' → safe Q A Φ (Return (Err e)) w') →
  safe Q A Φ (keep (set_state (set_prepared t (Some (is_prepared t))) Interrupted) ≫= k) w.
Proof.
  intros C HS Hk He. destruct (ctx_fits _ _ _ _ _ _ C) as (W & F & E). destruct (wt_prepared _ _ W) as [b Hb].
  assert (Hp : is_prepared t = b) by (unfold is_prepared; by rewrite Hb).
  apply (keep_ctx Q A id t ph); [done| | | | |intros w' [? _ _] _ _; by apply Hk|done]; rewrite Hp.
  - destruct W as [W1 W2 W3 W4 W5 W6 W7 W8]. split; try done; [by exists b|by intros [?|[?|?]]].
  - pose proof (wt_state _ _ W) as W7. unfold fits in *. cbn [set_state set_prepared tr_state tr_prepared]. rewrite Hb in *.
    destruct HS as [HS|[HS|HS]]; rewrite HS in F; [|by destruct b, ph|by destruct b, ph].
    pose proof (W7 HS) as [= ->]. destruct F as (? & ? & ?). by destruct ph.
  - unfold exact in *. destruct ph as [|P n c|c]; [done| |done]. cbn. by destruct E as (_ & E2 & E3 & E4 & E5); rewrite Hb in E2.
  - split; [by split| |].
    + intros _. cbn. by destruct HS as [->|[->| ->]].
    + intros [?|[?|?]]; destruct HS as [?|[?|?]]; congruence.
Qed.

Lemma cancel_safe {B} Q A id r b t ph (Φ : res B → world → Prop) (k : transfer → prog B) w :
  ctx Q A id t ph w →
  (∀ w' t', inv Q A w' → safe Q A Φ (k t') w') →
  (∀ w' e, inv Q A w' → safe Q A Φ (Return (Err e)) w') →
  safe Q A Φ (cancel r b t ≫= k) w.
Proof.
  intros C Hk He. unfold cancel. case_bool_decide as HC; [apply He, C|]. case_bool_decide as HS.
  { destruct (ctx_fits _ _ _ _ _ _ C) as (_ & F & _). unfold fits in F. rewrite HS in F. destruct ph as [|P n c|c]; [done|done|].
    apply bind_assoc, (cleanup_safe Q A id r t c); [done|done| |done]. intros w1 t1 C1 S1.
    destruct (b && tr_export t1) eqn:EE; [|apply Hk, C1]. apply andb_true_iff in EE as [_ EE].
    by apply (discard_export_safe Q A id r t1 c). }
  destruct (TERMINAL (tr_state t)) eqn:HT; [apply Hk, C|].
  destruct b; [by apply (discard_safe Q A id r t ph)|]. case_bool_decide as HD; [apply Hk, C|]. cbn zeta.
  apply bind_assoc, (interrupt_safe Q A id t ph); [done| | |done].
  - unfold TERMINAL in HT. rewrite orb_false_iff, !bool_decide_eq_false in HT. destruct HT. destruct (tr_state t); tauto.
  - intros w1 I1. by apply Hk.
Qed.

(** ** Admission *)

(** A reading program before there is a receipt. *)
Lemma inv_reads {B C} Q A Pre (p : prog B) R (Φ : res C → world → Prop) (k : B → prog C) w :
  reads Pre p R → inv Q A w → Pre (w_files w) →
  (∀ w' b, inv Q A w' → w_receipts w' = w_receipts w → R b (w_files w') → safe Q A Φ (k b) w') →
  (∀ w' e, inv Q A w' → safe Q A Φ (Return (Err e)) w') →
  safe Q A Φ (p ≫= k) w.
Proof. intros HR I HP Hk He. apply HR; [done|done| |]; intros f x D I'; [intros Rb; by apply Hk|by apply He]. Qed.

Lemma load_safe {B} Q A id (Φ : res B → world → Prop) (k : option receipt → prog B) w :
  inv Q A w →
  (∀ w', inv Q A w' → safe Q A Φ (k (w_receipts w' !! id)) w') →
  (∀ w' e, inv Q A w' → safe Q A Φ (Return (Err e)) w') →
  safe Q A Φ (load id ≫= k) w.
Proof.
  intros I Hk He. unfold load. destruct (identifier id) as [[]|e]; [|by apply He].
  unfold known. cbn [lift mbind prog_bind prog_then]. apply safe_call; [done|]. intros f ch D I1. cbn [answer fst snd].
  case_bool_decide as HX; cbn [prog_then].
  - unfold fetch. cbn [mbind prog_bind prog_then]. apply safe_call; [done|]. intros g ch' Dg I2. cbn [answer fst snd].
    destruct (ch_fault ch'); [by apply He|]. specialize (Hk _ I2). cbn [w_receipts with_files] in *.
    destruct (w_receipts w !! id) as [r|]; [|by destruct HX]. exact Hk.
  - specialize (Hk _ I1). cbn [w_receipts with_files] in *. apply eq_None_not_Some in HX. rewrite HX in Hk. exact Hk.
Qed.

Lemma begin_capacity_Ok s l m n : begin_capacity s l (row_values m) = Ok tt → retained_quota l = Some n →
  (length (counted m) < 64)%nat ∧ sumZ charge (counted m) + sp_size s + replaced_size (sp_expected s) <= n.
Proof.
  unfold begin_capacity. intros H Hn. rewrite Hn in H. apply raise_if_bind_Ok in H as [_ H]. apply raise_if_Ok in H.
  apply orb_false_iff in H as [H1 H2]. apply Nat.leb_gt in H1. apply Z.ltb_ge in H2. by split.
Qed.

Lemma absent_fresh Q A w id : inv Q A w → w_receipts w !! id = None →
  clean (w_files w) (stage_name id) ∧ acks A id = [] ∧ (∀ m, m ∈ versions w → m !! id = None).
Proof.
  intros I HN. split; [|split].
  - destruct (iv_id _ _ _ I id) as [[|P n c|c] [X _ _ _]]; [exact X|apply X|].
    destruct (published_past Q A id w c I X _ (versions_here w)) as (t & Ht & _). congruence.
  - destruct (acks A id) as [|x l] eqn:E; [done|]. destruct (iv_acked _ _ _ I id _ ltac:(by rewrite E) (versions_here w)) as [t Ht]. congruence.
  - intros m Hm. destruct (m !! id) eqn:E; [|done]. destruct (iv_grow _ _ _ I id m Hm ltac:(by eexists)). congruence.
Qed.

(** The first receipt of a transfer. *)
Lemma first_safe {B} Q A id t (Φ : res B → world → Prop) (k : unit → prog B) w :
  inv Q A w → w_receipts w !! id = None → wf_transfer id t → tr_state t = Preparing → tr_offset t = 0 →
  (length (counted (w_receipts w)) < 64)%nat → sumZ charge (counted (w_receipts w)) + charge (OfTransfer t) <= Q →
  (∀ w', ctx Q A id t Fresh w' → safe Q A Φ (k tt) w') →
  (∀ w' e, inv Q A w' → safe Q A Φ (Return (Err e)) w') →
  safe Q A Φ (keep t ≫= k) w.
Proof.
  intros I HN W HS HO HL HQ Hk He. unfold keep, save. rewrite (wt_id _ _ W).
  destruct (identifier id) as [[]|e]; [|by apply He].
  unfold known, count, write. cbn [lift mbind prog_bind prog_then]. apply safe_call; [done|]. intros f ch D I1. cbn [answer fst snd].
  rewrite bool_decide_eq_false_2 by (cbn; rewrite HN; by intros [? ?]). cbn [prog_then].
  apply safe_call; [done|]. intros g ch1 Dg I2. cbn [answer fst snd]. destruct (raise_if _ _) as [[]|e]; [|by apply He]. cbn [prog_then].
  apply safe_call; [done|]. intros h ch2 Dh I3. cbn [answer]. set (w3 := with_files _ h) in *.
  destruct (absent_fresh Q A w3 id I3 HN) as (HC & HA & HV).
  destruct (inv_write Q A w3 id None t Fresh ch2) as [R1 R2]; try done.
  - intros m u Hm Hu. by rewrite (HV m Hm) in Hu.
  - unfold fits. by rewrite HS.
  - split; [done|]. split; [done|]. unfold charge. pose proof (wt_offset _ _ W). pose proof (wt_charge _ _ W). lia.
  - destruct (written id (OfTransfer t) ch2 w3) as [w' [[]|e]] eqn:Ew; cbn [fst snd prog_then] in *; [|by apply He].
    destruct (R2 eq_refl) as (X & _ & E & _). apply Hk. split; [done| |done]. by rewrite E, lookup_insert_eq.
Qed.

Lemma begin_new_safe {B} Q A q s l n (Φ : res B → world → Prop) (k : transfer → prog B) w :
  let id := rq_transfer_id q in
  inv Q A w → w_receipts w !! id = None → 0 <= sp_size s → retained_quota l = Some n → n <= Q →
  (∀ w' t', ctx Q A id t' Fresh w' → safe Q A Φ (k t') w') →
  (∀ w' e, inv Q A w' → safe Q A Φ (Return (Err e)) w') →
  safe Q A Φ (begin_new q s l ≫= k) w.
Proof.
  intros id I HN HS Hq Hn Hk He. unfold begin_new. cbn zeta. unfold scan. apply bind_assoc. cbn [mbind prog_bind prog_then].
  apply safe_call; [done|]. intros f ch D I1. cbn [answer fst snd]. destruct (ch_fault ch); [by apply He|]. cbn [prog_then].
  set (w1 := with_files w f) in *. change (w_receipts w) with (w_receipts w1) in HN. set (T := fun _ : files => True).
  assert (HT : lasting T) by apply lasting_True.
  apply bind_assoc, (inv_reads _ _ _ _ _ _ _ _ (reads_lift_keep T (begin_capacity s l (row_values (w_receipts w1)))) I1); [done| |done].
  intros w2 [] I2 E2 [HCap _]. destruct (begin_capacity_Ok s l (w_receipts w1) n HCap Hq) as [HL HC].
  apply bind_assoc, (inv_reads _ _ _ _ _ _ _ _ (reads_test T _ _) I2); [done| |done]. intros w3 _ I3 E3 _.
  apply bind_assoc, (inv_reads _ _ _ _ _ _ _ _ (reads_entry_fd (rq_root q) (sp_parent s) ForDirectory) I3); [done| |done]. intros w4 P I4 E4 _.
  apply bind_assoc, (inv_reads _ _ _ _ _ _ _ _ (reads_space T P HT) I4); [done| |done]. intros w5 av I5 E5 _.
  apply bind_assoc, (inv_reads _ _ _ _ _ _ _ _ (reads_test T _ _) I5); [done| |done]. intros w6 _ I6 E6 _.
  apply bind_assoc, (inv_reads _ _ _ _ _ _ _ _ (reads_lift_keep T _) I6); [done| |done]. intros w7 name I7 E7 _.
  apply bind_assoc, (inv_reads _ _ _ _ _ _ _ _ (reads_look T P name identity_of HT) I7); [done| |done]. intros w8 dest I8 E8 [_ HD].
  apply bind_assoc, (inv_reads _ _ _ _ _ _ _ _ (reads_test T _ _) I8); [done| |done]. intros w9 _ I9 E9 [_ HX].
  apply orb_false_iff in HX as [HX _]. apply negb_false_iff, bool_decide_eq_true in HX.
  assert (Hrep : 0 <= replaced_size dest).
  { destruct dest as [d|]; [|done]. destruct HD as (o & i & ch' & _ & _ & ->). cbn. lia. }
  assert (E : w_receipts w9 = w_receipts w1) by congruence. rewrite <- E in *.
  apply bind_assoc, (first_safe Q A id); [done|done| |done|done|done| | |done].
  - split; try done; [by right|by exists false|by intros [?|[?|?]]].
  - match goal with |- context [charge (OfTransfer ?t)] => change (charge (OfTransfer t)) with (sp_size s + replaced_size dest) end.
    rewrite HX. lia.
  - intros w10 C10. by apply (Hk w10).
Qed.

Definition quota_within (Q : Z) (a : action) : Prop :=
  match a with Begin _ l _ => ∃ n, retained_quota l = Some n ∧ n <= Q | _ => True end.

Lemma begin_safe {B} Q A q s l b (Φ : res B → world → Prop) (k : transfer → prog B) w :
  inv Q A w → quota_within Q (Begin s l b) →
  (∀ w' t', inv Q A w' → safe Q A Φ (k t') w') →
  (∀ w' e, inv Q A w' → safe Q A Φ (Return (Err e)) w') →
  safe Q A Φ (begin q s l b ≫= k) w.
Proof.
  intros I (n & Hq & Hn) Hk He. unfold begin. set (T := fun _ : files => True). set (id := rq_transfer_id q).
  apply bind_assoc, (inv_reads _ _ _ _ _ _ _ _ (reads_test T _ _) I); [done| |done]. intros w1 _ I1 _ [_ HS].
  apply negb_false_iff, andb_true_iff in HS as [HS _]. apply Z.leb_le in HS.
  apply bind_assoc, (inv_reads _ _ _ _ _ _ _ _ (reads_lift_keep T _) I1); [done| |done]. intros w2 _ I2 _ _.
  apply bind_assoc, load_safe; [done| |done]. intros w3 I3. apply bind_assoc.
  assert (Hend : ∀ w' t ph, ctx Q A id t ph w' → safe Q A Φ ((if b then prepare (rq_root q) t else mret t) ≫= k) w').
  { intros w' t ph C. destruct b; [|apply Hk, C]. apply (prepare_safe Q A id (rq_root q) t ph); [done| |done].
    intros w4 t4 ph4 C4 _. apply Hk, C4. }
  fold id. destruct (w_receipts w3 !! id) as [[t|d]|] eqn:E3.
  - case_bool_decide; [|by apply He]. destruct (iv_id _ _ _ I3 id) as [ph X]. by apply (Hend w3 t ph).
  - by apply He.
  - apply (begin_new_safe Q A q s l n); [done|done|done|done|done| |done]. intros w4 t4 C4. by apply (Hend w4 t4 Fresh).
Qed.

(** ** Acknowledgement *)

Lemma acks_snoc A id id' o d : acks (A ++ [(id, o, d)]) id' = acks A id' ++ (if decide (id = id') then [(o, d)] else []).
Proof.
  unfold acks. rewrite List.filter_app, map_app. cbn [List.filter fst snd]. case_decide as E.
  - by rewrite bool_decide_eq_true_2.
  - by rewrite bool_decide_eq_false_2.
Qed.

(** A chunk that was kept while every receipt is on the disk. *)
Lemma inv_ack Q A id t P n c o d w : ctx Q A id t (Stored P n c) w → w_older w = [] → tr_state t = Running →
  0 <= o → o + zlen d <= tr_offset t → slice c o (zlen d) = d → inv Q (A ++ [(id, o, d)]) w.
Proof.
  intros C HO HS H0 H1 H2. destruct (ctx_fits _ _ _ _ _ _ C) as (W & F & E). pose proof C as [[T HI HG HA HE HQ] V X].
  destruct (ctx_stored _ _ _ _ _ _ _ _ C) as (_ & _ & Hp & _).
  assert (Hv : ∀ m, m ∈ versions w → m = w_receipts w) by (unfold versions; rewrite HO; by intros m ->%list_elem_of_singleton).
  split; [done| |done| | |done].
  - intros id'. destruct (decide (id = id')) as [<-|Hne].
    + exists (Stored P n c). rewrite acks_snoc, decide_True by done. destruct X as [XP XF XX XL]. split; [done| |done|done].
      intros m u ->%Hv Hu. rewrite V in Hu. injection Hu as <-. split; [done|]. unfold fits in *. rewrite HS, Hp in *.
      destruct F as (F1 & F2 & F3 & F4). split; [done|]. split; [done|]. split; [done|].
      intros o' d' [Hin|Hin]%elem_of_app; [by apply F4|]. apply list_elem_of_singleton in Hin as [= -> ->]. done.
    + rewrite acks_snoc, decide_False, app_nil_r by done. apply HI.
  - intros id' m Ha Hm. rewrite acks_snoc in Ha. destruct (decide (id = id')) as [<-|Hne]; [|rewrite app_nil_r in Ha; by apply HA].
    rewrite (Hv m Hm). by exists t.
  - intros e He. destruct (HE e He) as (i & Hi & HJ). exists i. split; [done|]. intros m Hm.
    destruct (HJ m Hm) as (u & Hu & HX). exists u. split; [done|]. rewrite acks_snoc. case_decide as EI; [|by rewrite app_nil_r].
    subst i. rewrite (Hv m Hm), V in Hu. injection Hu as <-. destruct HX as [[?|[?|?]] _]; congruence.
Qed.

(** ** A request *)

(** The invariant, with the acknowledgement of a result. *)
Definition answered (Q : Z) (A : list (string * Z * list Z)) (q : request) (d : list Z) (r : res Summary) (w : world) : Prop :=
  inv Q (A ++ acknowledgement q d r w) w.

Lemma answered_error Q A q d e w : inv Q A w → safe Q A (answered Q A q d) (Return (Err e)) w.
Proof.
  intros I. apply safe_return; [done|]. intros f D I'. unfold answered, acknowledgement. by destruct (rq_action q); rewrite app_nil_r.
Qed.

Definition is_write (a : action) : bool := match a with WriteChunk _ _ => true | _ => false end.

Lemma answered_plain Q A q d t w : inv Q A w → is_write (rq_action q) = false → safe Q A (answered Q A q d) (mret (summary t)) w.
Proof.
  intros I HW. apply safe_return; [done|]. intros f D I'. unfold answered, acknowledgement. by destruct (rq_action q); try done; rewrite app_nil_r.
Qed.

Lemma perform_safe Q A q d t ph w : ctx Q A (rq_transfer_id q) t ph w →
  safe Q A (answered Q A q d) (t ← perform q d t; mret (summary t)) w.
Proof.
  intros C. unfold perform. destruct (rq_action q) as [s l b|offset sha| |sha|b| | |] eqn:EA.
  1, 8: apply answered_error, C.
  - apply (write_chunk_safe Q A (rq_transfer_id q) q offset sha d t ph); [done| |intros; by apply answered_error].
    intros w1 t1 P n c C1 S1 H0 H1 H2. apply safe_return; [apply C1|]. intros f D I. unfold answered, acknowledgement. rewrite EA.
    destruct (w_older (with_files w1 f)) eqn:EO; [|by rewrite app_nil_r].
    apply (inv_ack Q A (rq_transfer_id q) t1 P n c); [by apply ctx_drift|done..].
  - apply (resume_safe Q A (rq_transfer_id q) (rq_root q) t ph); [done|intros; apply answered_plain; [done|by rewrite EA]|intros; by apply answered_error].
  - apply (commit_safe Q A (rq_transfer_id q) q sha t ph); [done|intros; apply answered_plain; [done|by rewrite EA]|intros; by apply answered_error].
  - apply (cancel_safe Q A (rq_transfer_id q) (rq_root q) b t ph); [done|intros; apply answered_plain; [done|by rewrite EA]|intros; by apply answered_error].
  - apply answered_plain; [apply C|by rewrite EA].
  - apply bind_assoc, (verify_safe Q A (rq_transfer_id q) (rq_root q) t ph); [done| |intros w1 e [? _ _]; by apply answered_error].
    intros w1 h [I1 _ _]. apply answered_plain; [done|by rewrite EA].
Qed.

Lemma dispatch_safe Q A q d w : inv Q A w → quota_within Q (rq_action q) → safe Q A (answered Q A q d) (dispatch q d) w.
Proof.
  intros I HQ. unfold dispatch. set (T := fun _ : files => True). assert (He : ∀ w' e, inv Q A w' → safe Q A (answered Q A q d) (Return (Err e)) w').
  { intros; by apply answered_error. }
  apply (inv_reads _ _ _ _ _ _ _ _ (reads_lift_keep T _) I); [done| |done]. intros w1 _ I1 _ _.
  apply (inv_reads _ _ _ _ _ _ _ _ (reads_lift_keep T _) I1); [done| |done]. intros w2 _ I2 _ _.
  assert (Hload : safe Q A (answered Q A q d) (previous ← load (rq_transfer_id q); t ← lift (own_record q previous);
    t ← perform q d t; mret (summary t)) w2).
  { apply load_safe; [done| |done]. intros w3 I3. destruct (own_record q _) as [t|e] eqn:EO; [|by apply He].
    unfold own_record in EO. destruct (w_receipts w3 !! rq_transfer_id q) as [[u|]|] eqn:EV; [|done|done].
    case_bool_decide; [|done]. injection EO as <-. destruct (iv_id _ _ _ I3 (rq_transfer_id q)) as [ph X].
    by apply (perform_safe Q A q d u ph). }
  destruct (rq_action q) as [s l b| | | | | | |] eqn:EA; try exact Hload.
  apply (begin_safe Q A q s l b); [done|done| |done]. intros w3 t I3. apply answered_plain; [done|by rewrite EA].
Qed.

(** ** The system *)

(** A running request keeps the invariant whatever happens next. *)
Definition sound (y : system) : Prop :=
  inv (y_quota y) (y_acked y) (y_world y)
  ∧ match y_running y with
    | Some (q, d, p) => safe (y_quota y) (y_acked y) (answered (y_quota y) (y_acked y) q d) p (y_world y)
    | None => True
    end.

Lemma inv_action Q A w id digest : inv Q A w → w_receipts w !! id = None →
  inv Q A (mkWorld (w_files w) (<[id := OfAction digest]> (w_receipts w)) (w_receipts w :: w_older w)).
Proof.
  intros [T HI HG HA HE HQ] HN. set (m' := <[id := OfAction digest]> (w_receipts w)).
  assert (HL : ∀ m i t, m ∈ m' :: versions w → m !! i = Some (OfTransfer t) → ∃ v, v ∈ versions w ∧ v !! i = Some (OfTransfer t)).
  { intros m i t [->|Hin]%elem_of_cons Ht; [|by exists m]. exists (w_receipts w). split; [apply versions_here|].
    unfold m' in Ht. destruct (decide (i = id)) as [->|]; [by rewrite lookup_insert_eq in Ht|by rewrite lookup_insert_ne in Ht]. }
  assert (HM : ∀ i t, w_receipts w !! i = Some (OfTransfer t) → m' !! i = Some (OfTransfer t)).
  { intros i t Ht. unfold m'. destruct (decide (i = id)) as [->|]; [congruence|by rewrite lookup_insert_ne]. }
  set (w' := mkWorld (w_files w) m' (w_receipts w :: w_older w)).
  assert (HV : versions w' = m' :: versions w) by done.
  split; cbn [w' w_files w_receipts].
  - done.
  - intros i. destruct (HI i) as [ph [XP XF XX XL]]. exists ph. split; cbn [w_files w_receipts].
    + done.
    + intros m t Hm Ht. rewrite HV in Hm. destruct (HL m i t Hm Ht) as (v & Hv & Hvt). by apply (XF v).
    + intros t Ht. change (m' !! i = Some (OfTransfer t)) in Ht. unfold m' in Ht.
      destruct (decide (i = id)) as [->|]; [by rewrite lookup_insert_eq in Ht|rewrite lookup_insert_ne in Ht by done; by apply XX].
    + intros m1 m2 t1 t2 H1 H2 K1 K2. rewrite HV in H1, H2. destruct (HL m1 i t1 H1 K1) as (v1 & ? & ?). destruct (HL m2 i t2 H2 K2) as (v2 & ? & ?).
      by apply (XL v1 v2).
  - intros i m Hm Hs. rewrite HV in Hm. apply elem_of_cons in Hm as [->|Hin]; [done|]. change (is_Some (m' !! i)). unfold m'. destruct (decide (i = id)) as [->|]; [rewrite lookup_insert_eq; by eexists|].
    rewrite lookup_insert_ne by done. by apply (HG i m).
  - intros i m Ha Hm. rewrite HV in Hm. apply elem_of_cons in Hm as [->|Hin]; [|by apply HA]. destruct (HA i _ Ha (versions_here w)) as [t Ht]. exists t. by apply HM.
  - intros e He. destruct (HE e He) as (i & Hi & HJ). exists i. split; [done|]. intros m Hm. rewrite HV in Hm. apply elem_of_cons in Hm as [->|Hin]; [|by apply HJ].
    destruct (HJ _ (versions_here w)) as (t & Ht & HX). exists t. split; [by apply HM|done].
  - intros m Hm. rewrite HV in Hm. apply elem_of_cons in Hm as [->|Hin]; [|by apply HQ]. destruct (HQ _ (versions_here w)) as [H1 H2].
    rewrite counted_charge in *. unfold m'. rewrite sumZ_rows_insert by done.
    pose proof (counted_length m') as L. unfold m' in L. rewrite sumZ_rows_insert in L by done.
    rewrite <- counted_length in L. cbn [weight one active] in *. unfold weight, one in *. cbn [active] in *. lia.
Qed.

Lemma transfer_move y y' : sound y → moves y y' → sound y'.
Proof.
  intros [I S] M. destruct M as [y q d HR HB HQ|y q d c k ch HR a|y q d r HR|y|y f HO|y id digest HR HN|y f m HB Hm]; unfold sound; cbn [y_world y_quota y_running y_acked].
  - split; [done|]. apply dispatch_safe; [done|]. exact HQ.
  - rewrite HR in S. destruct S as [_ S]. specialize (S _ ch (drift_refl _)). rewrite with_files_id in S. split; [by eapply safe_inv|done].
  - rewrite HR in S. destruct S as [_ S]. specialize (S _ (drift_refl _)). by rewrite with_files_id in S.
  - done.
  - unfold with_world. cbn. split; [by apply inv_others|]. destruct (y_running y) as [[[q d] p]|]; [|done].
    apply safe_drift; [done|by right].
  - unfold with_world. cbn. rewrite HR. split; [|done]. by apply inv_action.
  - split; [|done]. by apply (inv_power _ _ (y_world y)).
Qed.

Lemma installed_sound y : installed y → sound y.
Proof.
  intros [R O HQ HR HA HP HE HN HT HRt]. unfold sound. rewrite HR. split; [|done]. rewrite HA.
  assert (HNP : ∀ o l, f_private (w_files (y_world y)) !! o = Some l → False) by (intros o l; by rewrite HP, lookup_empty).
  assert (Hv : ∀ m, m ∈ versions (y_world y) → m = ∅) by (unfold versions; rewrite O, R; by intros m ->%list_elem_of_singleton).
  split.
  - split; try (intros; exfalso; eauto; fail).
    + intros d n o _ _ _. by rewrite HP, lookup_empty.
    + intros d n o _ Hr Hb. by destruct (HN d n o Hr).
    + done.
    + intros path o Ho. rewrite HP, lookup_empty. split; [done|by apply (HRt path)].
  - intros id. exists Fresh. split.
    + intros d n o Hd. by destruct (HNP _ _ Hd).
    + intros m t ->%Hv. by rewrite lookup_empty.
    + intros t. by rewrite R, lookup_empty.
    + intros m m' t t' ->%Hv. by rewrite lookup_empty.
  - intros id m ->%Hv. rewrite lookup_empty. by intros [? ?].
  - intros id m H. by destruct H.
  - intros e. rewrite HE. by intros ?%not_elem_of_nil.
  - intros m ->%Hv. assert (E : @row_values receipt ∅ = []).
    { apply elem_of_nil_inv. intros x (k & Hk)%elem_of_row_values. by rewrite lookup_empty in Hk. }
    unfold counted. rewrite E. cbn. lia.
Qed.

Definition reached (y0 y : system) : Prop := installed y0 ∧ rtc moves y0 y.

Lemma reached_sound y0 y : reached y0 y → sound y.
Proof. intros [HI HM]. apply installed_sound in HI. induction HM as [|x z u M _ IH]; [done|]. by apply IH, (transfer_move x). Qed.

Lemma moves_quota y y' : rtc moves y y' → y_quota y' = y_quota y.
Proof. induction 1 as [|x z u M _ IH]; [done|]. rewrite IH. by destruct M. Qed.
