(* ===== verification/TransferResume.v ===== *)
(** * An interrupted transfer can be resumed

    Total correctness of [resume] while the kernel reports no fault: the program ends with a
    result, whatever the times it is given.  With the invariant of [TransferInv] this holds
    after any history of faults, kills and losses of power. *)

From S2P Require Import Prelude Sha256 Json Posix FileAccess FileTransfer TransferSystem TransferInv TransferCalls TransferLogic TransferReads TransferSteps TransferWork TransferVerify TransferPublish TransferRemove TransferSafe.

#[local] Open Scope Z_scope.

Notation os_error := FileAccess.os_error.

(** ** Completion *)

(** No fault, no cancellation; any time. *)
Definition calm (ch : choice) : Prop := ch_fault ch = None ∧ ch_number ch = 0.

(** The program ends without an exception under every calm kernel. *)
Fixpoint completes {B} (Φ : B → world → Prop) (p : prog B) (w : world) : Prop :=
  match p with
  | Return (Ok b) => Φ b w
  | Return (Err _) => False
  | Call c k => ∀ ch, calm ch → let a := answer c ch w in completes Φ (k a.2) a.1
  end.

Lemma completes_bind {B C} (Φ : C → world → Prop) (p : prog B) (k : B → prog C) w :
  completes (fun b w' => completes Φ (k b) w') p w → completes Φ (p ≫= k) w.
Proof.
  revert w. induction p as [[b|e]|c q IH]; intros w H; [exact H|done|]. intros ch Hc. apply IH, H, Hc.
Qed.

Lemma completes_weaken {B} (Φ Ψ : B → world → Prop) p w : (∀ b w', Φ b w' → Ψ b w') → completes Φ p w → completes Ψ p w.
Proof.
  intros H. revert w. induction p as [[b|e]|c q IH]; intros w HP; [by apply H|done|]. intros ch Hc. apply IH, HP, Hc.
Qed.

Lemma completes_unit {B} (Φ : B → world → Prop) (p : prog B) w : completes Φ (p ≫= mret) w → completes Φ p w.
Proof.
  revert w. induction p as [[b|e]|c q IH]; intros w H; [exact H|done|]. intros ch Hc. apply IH, H, Hc.
Qed.

(** Calm runs end: any list of calm choices that is long enough gives a result. *)
Lemma completes_play {B} (Φ : B → world → Prop) p w : completes Φ p w →
  ∀ ch : nat → choice, (∀ i, calm (ch i)) → ∃ n b w', play p (map ch (seq 0 n)) w = (w', Return (Ok b)) ∧ Φ b w'.
Proof.
  revert w. induction p as [[b|e]|c q IH]; intros w H ch Hc; [by exists 0%nat, b, w|done|].
  specialize (H (ch 0%nat) (Hc 0%nat)). cbn zeta in H.
  destruct (IH _ _ H (fun i => ch (S i)) (fun i => Hc (S i))) as (n & b & w' & E & HΦ).
  exists (S n), b, w'. split; [|done]. cbn [seq map play]. rewrite <- seq_shift, map_map. exact E.
Qed.

Lemma completes_kernel {B} (Φ : B → world → Prop) s (k : result s → prog B) w :
  (∀ ch, calm ch → ∃ f' v, act s ch (w_files w) = (f', inr v) ∧ completes Φ (k v) (with_files w f')) →
  completes Φ (kernel s ≫= k) w.
Proof.
  intros H ch Hc. destruct (H ch Hc) as (f' & v & E & HK). cbn. unfold sys. destruct Hc as [-> _]. rewrite E. exact HK.
Qed.

Lemma completes_opened {B} (Φ : B → world → Prop) d n how o (k : object → prog B) w :
  lookup_at (w_files w) d n = inr o → granted (w_files w) o how = inr o → completes Φ (k o) w →
  completes Φ (opened d [n] how ≫= k) w.
Proof.
  intros H1 H2 H3 ch [Hf _]. cbn [answer]. unfold sys. rewrite Hf. cbn [act fst snd walk]. rewrite H1, H2.
  rewrite with_files_id. exact H3.
Qed.

Lemma completes_test {B} (Φ : B → world → Prop) b e (k : unit → prog B) w :
  b = false → completes Φ (k tt) w → completes Φ (lift (raise_if b e) ≫= k) w.
Proof. by intros ->. Qed.

Lemma completes_cancel {B} (Φ : B → world → Prop) (k : unit → prog B) w : completes Φ (k tt) w → completes Φ (check_cancel ≫= k) w.
Proof. intros H ch [_ Hn]. cbn. rewrite Hn. exact H. Qed.

Lemma completes_read {B} (Φ : B → world → Prop) o i n off (k : list Z → prog B) w :
  f_inodes (w_files w) !! o = Some i → i_kind i = Regular → completes Φ (k (slice (i_data i) off n)) w →
  completes Φ (kernel (Pread o n off) ≫= k) w.
Proof.
  intros Hi Hk H. apply completes_kernel. intros ch _. exists (w_files w), (slice (i_data i) off n).
  rewrite with_files_id. split; [|done]. cbn [act]. unfold regular_at. by rewrite Hi, bool_decide_eq_true_2.
Qed.

(** ** The two files are readable *)

Definition regular_file (f : files) (o : object) : Prop := ∃ i, f_inodes f !! o = Some i ∧ i_kind i = Regular.

Lemma completes_truncate {B} (Φ : B → world → Prop) o n (k : unit → prog B) w : regular_file (w_files w) o →
  (∀ f', (∀ x, regular_file (w_files w) x → regular_file f' x) → completes Φ (k tt) (with_files w f')) →
  completes Φ (kernel (Truncate o n) ≫= k) w.
Proof.
  intros (i & Hi & Hk) H. apply completes_kernel. intros ch _. cbn [act]. unfold regular_at. rewrite Hi, bool_decide_eq_true_2 by done.
  eexists _, tt. split; [done|]. apply H. intros x (j & Hj & Hkj).
  set (g := put (w_files w) o (set_data i (ch_time ch) (resized (i_data i) n))).
  unfold regular_file. destruct (noted_fields g o (Truncated o)) as (-> & _). unfold g. rewrite inodes_put. case_decide as E.
  - eexists. by split.
  - by exists j.
Qed.

Lemma completes_fsync {B} (Φ : B → world → Prop) o (k : unit → prog B) w : regular_file (w_files w) o →
  (∀ f', (∀ x, regular_file (w_files w) x → regular_file f' x) → completes Φ (k tt) (with_files w f')) →
  completes Φ (kernel (Fsync o) ≫= k) w.
Proof.
  intros (i & Hi & Hk) H. apply completes_kernel. intros ch _. cbn [act]. rewrite Hi.
  eexists _, tt. split; [done|]. apply H. intros x (j & Hj & Hkj). unfold regular_file. rewrite inodes_put. case_decide as E.
  - eexists. by split.
  - by exists j.
Qed.

Lemma work_regular s P F D J a b a' b' f : work s P F D J a b a' b' f → regular_file f D ∧ regular_file f J.
Proof. intros [_ _ (i & ? & ? & _) (j & ? & ? & _)]. split; [by exists i|by exists j]. Qed.

(** ** Verification succeeds *)

Lemma slice_digests (g : nat → list Z) n : (∀ i, zlen (g i) = 32) → ∀ i, (i < n)%nat →
  slice (flat_map g (seq 0 n)) (Z.of_nat i * 32) 32 = g i.
Proof.
  intros Hg. assert (HL : ∀ m k, zlen (flat_map g (seq k m)) = Z.of_nat m * 32).
  { induction m as [|m IH]; intros k; [done|]. cbn [seq flat_map]. rewrite zlen_app, Hg, IH. lia. }
  intros i Hi. replace n with (i + S (n - i - 1))%nat by lia. rewrite seq_app, flat_map_app.
  unfold slice. replace (Z.to_nat (Z.of_nat i * 32)) with (length (flat_map g (seq 0 i))).
  2: { pose proof (HL i 0%nat) as E. unfold zlen in E. lia. }
  rewrite drop_app_length. cbn [seq flat_map Nat.add]. specialize (Hg i). unfold zlen in Hg.
  replace (Z.to_nat 32) with (length (g i)) by lia. by rewrite take_app_length.
Qed.

Lemma chunk_digest_zlen c o : zlen (chunk_digest c o) = 32.
Proof. unfold chunk_digest, zlen. by rewrite sha256_length. Qed.

Lemma flat_map_map {X Y W} (g : Y → list W) (h : X → Y) l : flat_map g (map h l) = flat_map (fun x => g (h x)) l.
Proof. induction l as [|x l IH]; [done|]. cbn. by rewrite IH. Qed.

Lemma journal_entry c i : (i < nchunks (zlen c))%nat → slice (journal_of c) (Z.of_nat i * 32) 32 = chunk_digest c (Z.of_nat i * CHUNK).
Proof.
  intros Hi. rewrite journal_of_eq, offsets_eq, flat_map_map.
  by rewrite (slice_digests (fun i => chunk_digest c (Z.of_nat i * CHUNK))) by (by intros; apply chunk_digest_zlen || done).
Qed.

Lemma completes_verify_chunks (Φ : list Z * list Z → world → Prop) s P F D J c l : (∀ i, i ∈ l → (i < nchunks (zlen c))%nat) →
  ∀ read chained w, held s P F D J c (w_files w) →
  (∀ r, r.1 = read ++ flat_map (piece c) (map (fun i => Z.of_nat i * CHUNK) l) → Φ r w) →
  completes Φ (verify_chunks D J (zlen c) (map (fun i => Z.of_nat i * CHUNK) l) read chained) w.
Proof.
  pose proof CHUNK_pos as HC. induction l as [|i l IH]; intros Hl read chained w W Hk; cbn [verify_chunks map flat_map] in *.
  { apply Hk. by rewrite app_nil_r. }
  pose proof W as [_ _ (iD & D1 & D2 & D3 & _) (iJ & J1 & J2 & J3 & _)].
  assert (Hi : (i < nchunks (zlen c))%nat) by (apply Hl; left). assert (HZ : 0 <= zlen c) by (unfold zlen; lia).
  pose proof (nchunks_bound (zlen c) i HZ Hi) as Hb.
  apply completes_cancel. cbn zeta. apply completes_read with iD; [done|done|].
  assert (E1 : slice (i_data iD) (Z.of_nat i * CHUNK) (Z.min CHUNK (zlen c - Z.of_nat i * CHUNK)) = piece c (Z.of_nat i * CHUNK)).
  { apply slice_prefix; [done|lia|lia]. }
  rewrite E1. assert (E2 : zlen (piece c (Z.of_nat i * CHUNK)) = Z.min CHUNK (zlen c - Z.of_nat i * CHUNK)).
  { apply slice_length; lia. }
  unfold zlen in E2 at 1. rewrite E2, Z.eqb_refl. replace (Z.of_nat i * CHUNK / CHUNK) with (Z.of_nat i) by (symmetry; apply Z.div_mul; lia).
  apply completes_read with iJ; [done|done|].
  assert (E3 : slice (i_data iJ) (Z.of_nat i * 32) 32 = chunk_digest c (Z.of_nat i * CHUNK)).
  { rewrite <- journal_entry by done. apply slice_prefix; [done|lia|]. rewrite journal_zlen. unfold journal_bytes.
    fold (nchunks (zlen c)). assert (0 <= (zlen c + CHUNK - 1) / CHUNK) by (apply Z.div_pos; lia). unfold nchunks in Hi. lia. }
  rewrite E3. apply completes_test; [by rewrite bool_decide_eq_true_2|].
  apply IH; [intros j Hj; apply Hl; by right|done|]. intros r Hr. apply Hk. rewrite Hr. by rewrite <- app_assoc.
Qed.

(** ** Resumption *)

(** The destination's directory is where the receipt says, for a calm kernel. *)
Record in_place (q : request) (t : transfer) (w : world) : Prop := {
  ip_entry : completes (fun o w' => o = parent_of t ∧ w' = w) (entry_fd (rq_root q) (tr_parent t) ForDirectory) w;
  ip_kind : i_kind <$> f_inodes (w_files w) !! parent_of t = Some Directory }.

Lemma lookup_private f d di n o i : f_inodes f !! d = Some di → i_kind di = Directory → names_of f d !! n = Some o →
  f_inodes f !! o = Some i → i_kind i ≠ Symlink → o.1 = d.1 → lookup_at f d n = inr o.
Proof.
  unfold lookup_at, names_of. intros -> Hk Hn Hi HS Hd. rewrite bool_decide_eq_true_2 by done. rewrite Hn, Hi.
  rewrite bool_decide_eq_false_2 by done. by rewrite bool_decide_eq_true_2.
Qed.

Lemma completes_stage (Φ : object * object → world → Prop) q id t F D J c w :
  tidy (w_files w) → in_place q t w → tr_stage t = stage_name id → held (stage_name id) (parent_of t) F D J c (w_files w) →
  Φ (parent_of t, F) w → completes Φ (stage (rq_root q) t) w.
Proof.
  intros T [H1 H2] Hs [[[S1 _] (S2 & _) _ S3 S4 _ _ _] _ _ _] HΦ. unfold stage.
  apply completes_bind. eapply completes_weaken; [|exact H1]. cbn. intros o w' [-> ->].
  destruct (f_inodes (w_files w) !! parent_of t) as [pi|] eqn:EP; [|done]. cbn in H2. injection H2 as H2.
  destruct (f_inodes (w_files w) !! F) as [fi|] eqn:EF; [|done]. cbn in S4. injection S4 as S4. rewrite Hs.
  apply completes_opened with F.
  - by apply (lookup_private _ _ pi _ F fi); rewrite ?S4.
  - unfold granted. by rewrite EF, bool_decide_eq_true_2.
  - apply completes_kernel. intros ch _. exists (w_files w), (stat_of F fi ch). rewrite with_files_id. cbn [act]. rewrite EF. split; [done|].
    destruct (td_shape _ T F _ fi S3 EF) as [K1 K2]. apply completes_test; [|exact HΦ].
    cbn [stat_of st_owned st_mode]. rewrite K1. destruct K2 as [[_ ->]|[K2 _]]; [done|congruence].
Qed.

Lemma completes_verify (Φ : string → world → Prop) q id t F D J c w :
  tidy (w_files w) → in_place q t w → tr_stage t = stage_name id → held (stage_name id) (parent_of t) F D J c (w_files w) →
  tr_offset t = zlen c → tr_source_manifest t = None ∨ tr_offset t < tr_size t →
  (∀ f, Φ (hex (sha256 c)) (with_files w f)) → completes Φ (verify_prefix (rq_root q) t) w.
Proof.
  intros T HI Hs W HO HM HΦ. unfold verify_prefix. apply completes_cancel.
  apply completes_bind, (completes_stage _ q id t F D J c); [done..|].
  destruct (work_regular _ _ _ _ _ _ _ _ _ _ W) as [RD RJ].
  pose proof W as [[_ (_ & VD & VJ) _ S3 S4 [S5 _] [S6 _] _] _ (iD & D1 & D2 & _) (iJ & J1 & J2 & _)].
  destruct (f_inodes (w_files w) !! F) as [fi|] eqn:EF; [|done]. cbn in S4. injection S4 as S4.
  apply completes_opened with D.
  { by apply (lookup_private _ _ fi _ D iD); rewrite ?D2. }
  { unfold granted. by rewrite D1, D2. }
  apply completes_opened with J.
  { by apply (lookup_private _ _ fi _ J iJ); rewrite ?J2. }
  { unfold granted. by rewrite J1, J2. }
  cbn zeta. rewrite HO. apply completes_bind. rewrite offsets_eq.
  apply (completes_verify_chunks _ (stage_name id) (parent_of t) F D J c); [by intros i [_ Hi]%elem_of_seq|exact W|].
  intros [read chained] Hr. cbn [fst app] in Hr. rewrite <- offsets_eq, pieces_all in Hr. subst read.
  apply completes_test.
  { destruct HM as [->|HM]; [by rewrite andb_false_r|]. rewrite HO in HM. rewrite (proj2 (Z.eqb_neq _ _)) by lia. done. }
  assert (Hend : ∀ f', regular_file f' D → regular_file f' J →
    completes Φ (kernel (Fsync D) ;; kernel (Fsync J) ;; mret (hex (sha256 c))) (with_files w f')).
  { intros f' R1 R2. apply completes_fsync; [done|]. intros f2 H2. apply completes_fsync; [by apply H2|]. intros f3 H3. apply HΦ. }
  apply completes_bind. destruct (negb (reservation t) || (zlen c =? tr_size t)).
  - apply completes_truncate; [done|]. intros f1 H1. apply completes_unit, completes_truncate; [by apply H1|].
    intros f2 H2. apply Hend; by apply H2, H1.
  - specialize (Hend (w_files w) RD RJ). by rewrite with_files_id in Hend.
Qed.

