(* ===== verification/TransferProps.v ===== *)
(** * What the destination of transfers promises

    For every interleaving of requests, faults, other programs, kills and losses of power:
    what becomes visible was decided, complete and verified; what was acknowledged is kept;
    what is retained is bounded. *)

From S2P Require Import Prelude Sha256 Json Posix FileAccess FileTransfer TransferSystem TransferInv TransferCalls TransferLogic TransferReads TransferSteps TransferWork TransferVerify TransferPublish TransferRemove TransferSafe.

#[local] Open Scope Z_scope.

(** A file with every acknowledged chunk, whose digest its receipt names. *)
Record verified_file (id : string) (t : transfer) (acked : list (string * Z * list Z)) (c : list Z) : Prop := {
  vf_size : zlen c = tr_size t;
  vf_digest : tr_sha256 t = Some (hex (sha256 c));
  vf_source : matches_manifest (tr_source_manifest t) c (chain_of (tr_size t) c) = true;
  vf_acked : ∀ offset d, (id, offset, d) ∈ acked → slice c offset (zlen d) = d }.

Lemma elem_of_acks A id o d : (id, o, d) ∈ A → (o, d) ∈ acks A id.
Proof.
  unfold acks. intros H. apply list_elem_of_In, in_map_iff. exists (id, o, d). split; [done|].
  apply filter_In. split; [by apply list_elem_of_In|]. by apply bool_decide_eq_true_2.
Qed.

Lemma complete_verified A id t c : complete (acks A id) t c → verified_file id t A c.
Proof.
  intros [H1 H2 H3 H4 H5]. split; [done|done|done|]. intros o d Hd. by destruct (H5 o d (elem_of_acks A id o d Hd)) as (_ & _ & ?).
Qed.


(** What a transfer may do to what other programs can see, besides the renaming. *)
Definition permitted (id : string) (t : transfer) (e : effect) : Prop :=
  match e with
  | Renamed label d n _ _ _ => label = Some (stage_name id) ∧ parent_of t = d ∧ name_of t = Ok n
  | Removed label d n o =>
      (label = Some (stage_name id) ∧ n = "data" ∧ object_of <$> tr_expected t = Some o)
      ∨ (tr_export t = true ∧ parent_of t = d ∧ name_of t = Ok n)
  | Truncated _ => True
  | Wrote _ | Made _ _ => False
  end.


(** Where the bytes of a transfer are: in its stage, also on the disk, or at their
    destination. *)
Definition kept_bytes (f : files) (id : string) (t : transfer) (c : list Z) : Prop :=
  match tr_state t with
  | Preparing => False
  | Running | Interrupted => stored f (stage_name id) (parent_of t) c ∧ tr_offset t = zlen c
  | Committing => zlen c = tr_size t ∧ (stored f (stage_name id) (parent_of t) c ∨ placed f id t c)
  | Succeeded => zlen c = tr_size t ∧ placed f id t c
  | Cancelled | Discarding => True
  end.



(** A finished transfer was put in place. *)
Lemma success_placed y0 y id t : reached y0 y → w_receipts (y_world y) !! id = Some (OfTransfer t) → tr_state t = Succeeded →
  ∃ c, verified_file id t (y_acked y) c ∧ placed (w_files (y_world y)) id t c.
Proof.
  intros H Ht HS. destruct (reached_sound _ _ H) as [I _]. destruct (iv_id _ _ _ I id) as [ph X].
  assert (C : ctx (y_quota y) (y_acked y) id t ph (y_world y)) by by split.
  destruct (ctx_fits _ _ _ _ _ _ C) as (_ & F & _). unfold fits in F. rewrite HS in F. destruct ph as [|P n c|c]; [done|done|].
  exists c. split; [apply complete_verified, F|apply F].
Qed.
