(* ===== verification/TransferSamples.v ===== *)
(** * A transfer from its beginning to its end

    One small file sent to an empty directory, with a loss of power before it is resumed and
    committed: the theorems of [TransferProps] and [TransferResume] hold of something. *)

From S2P Require Import Prelude Sha256 Json Posix FileAccess FileTransfer TransferSystem TransferInv TransferCalls TransferLogic TransferReads TransferSteps TransferWork TransferVerify TransferPublish TransferRemove TransferSafe TransferResume TransferProps.

#[local] Open Scope Z_scope.

(** ** Runs *)

(** A request that is answered. *)
Lemma request_answered y q d chs w' r : y_running y = None → Forall is_byte d → within_quota y q →
  play (dispatch q d) chs (y_world y) = (w', Return r) →
  rtc moves y (mkSystem w' (y_quota y) None (y_acked y ++ acknowledgement q d r w')).
Proof.
  intros HR HB HQ HP. eapply rtc_l; [by apply (moves_start y q d)|].
  etrans; [by eapply (play_moves (mkSystem _ _ _ _))|]. cbn. apply rtc_once.
  exact (moves_return (mkSystem w' (y_quota y) (Some (q, d, Return r)) (y_acked y)) q d r eq_refl).
Qed.

(** Everything is on the disk: a loss of power may leave it as it is. *)
Definition all_synced (f : files) : bool :=
  bool_decide (map_Forall (fun (_ : object) i => i_disk i = i_data i ∧ i_disk_names i = i_names i) (f_inodes f)).

Lemma blackout_synced f : tidy f → all_synced f = true → blackout f f.
Proof.
  intros T H. apply bool_decide_eq_true in H.
  assert (HN : ∀ d, disk_names_of f d = names_of f d).
  { intros d. unfold disk_names_of, names_of. destruct (f_inodes f !! d) as [i|] eqn:E; [|done]. by destruct (H d i E). }
  split.
  - split; [done|done|done| | |].
    + intros d n o. apply (td_public _ T).
    + intros d n o. apply (td_there _ T).
    + intros path o. apply (td_roots _ T).
  - intros o l i Ho Hi. exists i. split; [done|]. destruct (H o i Hi) as [H1 H2]. split; try done. by left.
  - intros d n _. split; [by left|by rewrite HN].
Qed.


(** ** The file *)

Definition sample_parent : object := (8, 2).
Definition sample_directory : inode := mkInode Directory true 493 2 0 0 [] [] ∅ ∅.
Definition sample_files : files := mkFiles {[ sample_parent := sample_directory ]} {[ "/srv" := sample_parent ]} ∅ [].
Definition sample_quota : Z := 64 * 1024 ^ 3.
Definition sample_installed : system := mkSystem (mkWorld sample_files ∅ []) sample_quota None [].

Definition sample_root : root := mkRoot "0123456789abcdef0123456789abcdef" "/srv" None (Some false) None [].
Definition sample_reference : reference := mkReference [] (mkIdentity 8 2 Directory 0 0 0) None.
Definition sample_body : list Z := [104; 105].
Definition sample_digest : string := hex (sha256 sample_body).
Definition sample_id : string := "00000000000000000000000000000001".
Definition sample_spec : spec := mkSpec sample_reference "out" None 2 None None JNull.
Definition sample_request (a : action) : request := mkRequest "0123456789abcdef0123456789abcdef" sample_root sample_id a.

(** Numbers for new objects and free space; then a calm kernel. *)
Definition growing (n : nat) : list choice := map (fun i => mkChoice None (1000000000 + Z.of_nat i) 1 false) (seq 0 n).
Definition quiet (n : nat) : list choice := replicate n (mkChoice None 0 2 false).

Definition begin_request : request := sample_request (Begin sample_spec (mkLimits None None) true).
Definition write_request : request := sample_request (WriteChunk 0 (Some sample_digest)).
Definition resume_request : request := sample_request Resume.
Definition commit_request : request := sample_request (Commit (Some sample_digest)).

Definition begun : world * prog Summary := play (dispatch begin_request []) (growing 40) (y_world sample_installed).
Definition sent : world * prog Summary := play (dispatch write_request sample_body) (growing 40) begun.1.
Definition finished : world * prog Summary := play (dispatch commit_request []) (quiet 60) sent.1.

Definition returned (r : world * prog Summary) : bool := match r.2 with Return (Ok _) => true | _ => false end.

Definition at_begun : system := mkSystem begun.1 sample_quota None [].
Definition at_sent : system := mkSystem sent.1 sample_quota None [(sample_id, 0, sample_body)].
Definition at_finished : system := mkSystem finished.1 sample_quota None [(sample_id, 0, sample_body)].

Lemma sample_is_installed : installed sample_installed.
Proof.
  assert (HN : ∀ d n o, ¬ bound sample_files d n o).
  { intros d n o. unfold bound, names_of, disk_names_of, sample_files. cbn [f_inodes]. destruct (decide (d = sample_parent)) as [->|H].
    - rewrite lookup_singleton_eq. cbn. rewrite !lookup_empty. by intros [?|?].
    - rewrite lookup_singleton_ne by done. rewrite !lookup_empty. by intros [?|?]. }
  split; try done.
  - intros d n o Hb. exfalso. by apply (HN d n o).
  - intros path o. cbn. intros [<- <-]%lookup_singleton_Some. by exists sample_directory.
Qed.

Lemma returned_play {A} (r : world * prog A) : match r.2 with Return (Ok _) => true | _ => false end = true → ∃ a, r = (r.1, Return (Ok a)).
Proof. destruct r as [w [[a|e]|c k]]; try done. by exists a. Qed.

(** One answered request after another. *)
Lemma next_request y q d chs r : reached sample_installed y → y_running y = None → Forall is_byte d → within_quota y q →
  play (dispatch q d) chs (y_world y) = r → returned r = true → w_older r.1 = [] →
  reached sample_installed (mkSystem r.1 (y_quota y) None
    (y_acked y ++ match rq_action q with WriteChunk offset _ => [(rq_transfer_id q, offset, d)] | _ => [] end)).
Proof.
  intros [HI HM] HR HB HQ HP Hr HO. destruct (returned_play r Hr) as [a E]. split; [done|]. etrans; [exact HM|].
  rewrite E in HP. pose proof (request_answered y q d chs r.1 (Ok a) HR HB HQ HP) as H.
  unfold acknowledgement in H. rewrite HO in H. by destruct (rq_action q).
Qed.

Lemma sample_bytes : Forall is_byte sample_body.
Proof. unfold is_byte. repeat constructor; cbn; lia. Qed.

Lemma begun_reached : reached sample_installed at_begun.
Proof.
  apply (next_request sample_installed begin_request [] (growing 40) begun); [split; [apply sample_is_installed|done]|done|constructor| |done|..].
  - exists sample_quota. split; [done|]. cbn. lia.
  - vm_compute. reflexivity.
  - vm_compute. reflexivity.
Qed.

Lemma sent_reached : reached sample_installed at_sent.
Proof.
  apply (next_request at_begun write_request sample_body (growing 40) sent); [apply begun_reached|done|apply sample_bytes|done|done|..];
    vm_compute; reflexivity.
Qed.

Lemma finished_reached : reached sample_installed at_finished.
Proof.
  apply (next_request at_sent commit_request [] (quiet 60) finished); [apply sent_reached|done|constructor|done|done|..];
    vm_compute; reflexivity.
Qed.

(** The power is lost once the chunk was acknowledged. *)
Definition at_reboot : system := mkSystem (mkWorld (w_files sent.1) (w_receipts sent.1) []) sample_quota None [(sample_id, 0, sample_body)].

Lemma reboot_reached : reached sample_installed at_reboot.
Proof.
  destruct sent_reached as [HI HM]. split; [done|]. etrans; [exact HM|]. apply rtc_once.
  apply (moves_power at_sent (w_files sent.1) (w_receipts sent.1)); [|left].
  apply blackout_synced; [|vm_compute; reflexivity].
  destruct (reached_sound _ _ sent_reached) as [I _]. apply I.
Qed.

#[local] Opaque begun sent finished.

(** ** The theorems *)

Definition published_effect : effect :=
  Renamed (Some (stage_name sample_id)) sample_parent "out" (8, 1000000020) sample_body None.

Lemma published_in : published_effect ∈ f_effects (w_files (y_world at_finished)).
Proof.
  assert (E : f_effects (w_files finished.1) = [published_effect]) by (vm_compute; reflexivity).
  change (published_effect ∈ f_effects (w_files finished.1)). rewrite E. left.
Qed.





(** ** Resumption after the loss of power *)

Definition sample_receipt : transfer :=
  match w_receipts sent.1 !! sample_id with
  | Some (OfTransfer t) => t
  | _ => mkTransfer "" "" "" sample_reference "" None false None None None 0 0 None None None JNull None Preparing "" None None None
  end.

Lemma sample_receipt_kept : w_receipts (y_world at_reboot) !! sample_id = Some (OfTransfer sample_receipt).
Proof.
  assert (E : match w_receipts sent.1 !! sample_id with Some (OfTransfer _) => true | _ => false end = true) by (vm_compute; reflexivity).
  cbn [at_reboot y_world w_receipts]. unfold sample_receipt. by destruct (w_receipts sent.1 !! sample_id) as [[t|]|].
Qed.

Lemma sample_entry w i : f_roots (w_files w) !! "/srv" = Some sample_parent → f_inodes (w_files w) !! sample_parent = Some i →
  i_kind i = Directory → completes (fun o w' => o = sample_parent ∧ w' = w) (entry_fd sample_root sample_reference ForDirectory) w.
Proof.
  intros HR HI HK. unfold entry_fd. change (parts sample_reference) with (@Ok (list string) []). cbn [lift mbind prog_bind prog_then].
  apply completes_bind. unfold root_fd. apply completes_test; [done|]. intros ch1 [H1 _]. cbn [answer]. unfold sys. rewrite H1.
  cbn [act fst snd rt_path sample_root]. rewrite HR. cbn [granted]. unfold granted. rewrite HI, bool_decide_eq_true_2 by done.
  rewrite with_files_id. cbn [rt_identity sample_root mret prog_ret prog_then]. intros ch2 [H2 _]. cbn [answer]. unfold sys. rewrite H2.
  cbn [act fst snd walk]. unfold granted. rewrite HI, bool_decide_eq_true_2 by done. rewrite with_files_id.
  cbn [mret prog_ret prog_then mbind]. apply completes_kernel. intros ch3 _. exists (w_files w), (stat_of sample_parent i ch3).
  rewrite with_files_id. cbn [act]. rewrite HI. split; [done|]. apply completes_test; [|done].
  unfold same, is_directory. cbn. rewrite HK. by rewrite orb_true_l.
Qed.

Lemma sample_receipt_fields : tr_parent sample_receipt = sample_reference ∧ tr_state sample_receipt = Running
  ∧ tr_prepared sample_receipt = Some true ∧ tr_root_id sample_receipt = rt_id sample_root ∧ tr_source_manifest sample_receipt = None.
Proof. vm_compute. done. Qed.

Lemma sample_in_place : in_place resume_request sample_receipt (y_world at_reboot).
Proof.
  destruct sample_receipt_fields as (EP & _).
  assert (ER : f_roots (w_files (y_world at_reboot)) !! "/srv" = Some sample_parent) by (vm_compute; reflexivity).
  assert (EK : i_kind <$> f_inodes (w_files (y_world at_reboot)) !! sample_parent = Some Directory) by (vm_compute; reflexivity).
  assert (EO : parent_of sample_receipt = sample_parent) by (unfold parent_of; by rewrite EP).
  revert ER EK. generalize (y_world at_reboot). intros w ER EK. split; rewrite ?EP, EO; [|done].
  destruct (f_inodes (w_files w) !! sample_parent) as [i|] eqn:EI; [|done]. injection EK as EK. by apply (sample_entry w i).
Qed.

