(* ===== verification/Inputs.v ===== *)
(** * Immutable input streams

    [execution/inputs.py]: the declared stream inputs of an attempt, their staged
    files and the running digests.  A staged file is its bytes and the identity
    [fstat] reports; the partial [pwrite] calls, the checks between them and the
    identities come from the operating system and are arguments.  A crash between
    two steps leaves the bytes written so far and loses the in-memory digests. *)

From Stdlib Require Import SpecFloat.
From S2P Require Import Prelude Float64 Sha256 Json Clock Spec Offer Ledger.

Notation bytes := (list ascii).

(** ["sha256:" + hashlib.sha256 (data).hexdigest ()]. *)
Definition bytes_hash (b : bytes) : string := content_hash (String.string_of_list_ascii b).

(** ** Declared streams *)

(** [references (ctx)]. *)
Definition references (p : Plan) : list ObjectReference :=
  List.filter (fun o => match delivery o with Stream => true | Local => false end) (inputs (job p)).

Definition progress_of (a : attempt) : gmap string Receipt :=
  default ∅ (a_input_progress a).

Definition received (progress : gmap string Receipt) (o : ObjectReference) : bool :=
  match progress !! object_id o with Some r => rc_complete r | None => false end.

(** [capabilities (ctx, progress)]: the completed inputs with their staged path
    below [root] and identity. *)
Definition capabilities (root : string) (p : Plan) (progress : gmap string Receipt)
    : list (ObjectReference * string * json) :=
  omap (fun o => match progress !! object_id o with
                 | Some r => if rc_complete r
                             then Some (o, root +:+ "/" +:+ object_id o, rc_identity r) else None
                 | None => None
                 end) (references p).

(** [complete (ctx, progress)]. *)
Definition complete (p : Plan) (progress : gmap string Receipt) : bool :=
  forallb (received progress) (references p).

(** ** Staged files *)

Record staged := mkStaged { sf_bytes : bytes; sf_identity : json; sf_final : bool }.

(** The staged files by object, and the running digests as the bytes hashed. *)
Record staging := mkStaging { files : gmap string staged; hashes : gmap string bytes }.

(** What the operating system answers while one input is created. *)
Record creation := mkCreation { cr_check : res unit; cr_restored : option json; cr_identity : json }.

(** The body of the loop of [Inputs.initialize] for one reference. *)
Definition initialize_one (s : staging) (progress : gmap string Receipt) (o : ObjectReference)
    (w : creation) : res (staging * gmap string Receipt) :=
  cr_check w ;;
  match cr_restored w with
  | Some restored =>
      Ok (s, <[object_id o := mkReceipt (object_bytes o) true restored]> progress)
  | None =>
      let done := (object_bytes o =? 0)%Z in
      raise_if (done && negb (bool_decide (object_digest o = bytes_hash [])))
        (InputFailure "input_digest_mismatch") ;;
      Ok (mkStaging (<[object_id o := mkStaged [] (cr_identity w) done]> (files s))
                    (<[object_id o := []]> (hashes s)),
          <[object_id o := mkReceipt 0 done (cr_identity w)]> progress)
  end.

(** [Inputs.initialize]: [device_matches] says whether the reserved storage still
    has the bound device. *)
Fixpoint initialize_all (s : staging) (progress : gmap string Receipt)
    (l : list (ObjectReference * creation)) : res (staging * gmap string Receipt) :=
  match l with
  | [] => Ok (s, progress)
  | (o, w) :: l => '(s', progress') ← initialize_one s progress o w; initialize_all s' progress' l
  end.

Definition initialize (device_matches : bool) (check : res unit) (s : staging)
    (l : list (ObjectReference * creation)) (last_check : res unit)
    : res (staging * gmap string Receipt) :=
  check ;;
  raise_if (negb device_matches) (InputFailure "input_storage_changed") ;;
  out ← initialize_all s ∅ l;
  last_check ;;
  Ok out.

(** ** Writing a chunk *)

(** [os.pwrite] of [data] at [pos]. *)
Definition write_at (file : bytes) (pos : nat) (data : bytes) : bytes :=
  take pos file ++ data ++ drop (pos + length data) file.

(** The [while position < len (data)] loop: each iteration performs its check and
    writes at most the number of bytes the system accepts.  Running out of
    iterations is a crash. *)
Fixpoint write_loop (iterations : list (res unit * nat)) (file : bytes) (offset position : nat)
    (data : bytes) : bytes * res unit :=
  if (length data <=? position)%nat then (file, Ok tt)
  else
    match iterations with
    | [] => (file, Err (OtherError "interrupted"))
    | (Err e, _) :: _ => (file, Err e)
    | (Ok _, accepted) :: iterations =>
        if (accepted =? 0)%nat then (file, Err (OSError "The input write made no progress."))
        else
          let piece := take accepted (drop position data) in
          write_loop iterations (write_at file (offset + position) piece) offset
            (position + length piece) data
    end.

Record writing := mkWriting {
  wr_check : res unit; wr_directory : res unit; wr_regular : bool;
  wr_iterations : list (res unit * nat); wr_identity : json; wr_last_check : res unit }.

(** [Inputs.write]: the staged file afterwards, and the saved receipt with the
    updated digest when the call returns. *)
Definition write (s : staging) (o : ObjectReference) (receipt : Receipt) (data : bytes) (w : writing)
    : staging * res (Receipt * bytes) :=
  match hashes s !! object_id o with
  | None => (s, Err (InputFailure "input_state_unavailable"))
  | Some hashed =>
      let changed := hashed ++ data in
      let offset := (rc_offset receipt + Z.of_nat (length data))%Z in
      let done := (offset =? object_bytes o)%Z in
      if done && negb (bool_decide (bytes_hash changed = object_digest o)) then
        (s, Err (InputFailure "input_digest_mismatch"))
      else
        match wr_check w ≫= (fun _ => wr_directory w), files s !! object_id o with
        | Err e, _ => (s, Err e)
        | Ok _, None => (s, Err (OSError "No such file or directory"))
        | Ok _, Some f =>
            if negb (wr_regular w) || negb (bool_decide (sf_identity f = rc_identity receipt))
               || negb (Z.of_nat (length (sf_bytes f)) =? rc_offset receipt)%Z then
              (s, Err (InputFailure "input_storage_changed"))
            else
              let '(content, result) :=
                write_loop (wr_iterations w) (sf_bytes f) (length (sf_bytes f)) 0 data in
              let s' := mkStaging
                (<[object_id o := mkStaged content (wr_identity w)
                                    (match result with Ok _ => done | Err _ => sf_final f end)]> (files s))
                (hashes s) in
              (s', result ;; wr_last_check w ;;
                   Ok (mkReceipt offset done (wr_identity w), changed))
        end
  end.

(** [Inputs.committed]. *)
Definition committed (s : staging) (object : string) (hashed : bytes) : staging :=
  mkStaging (files s) (<[object := hashed]> (hashes s)).

(** A restart of the process: the digests are gone. *)
Definition restarted (s : staging) : staging := mkStaging (files s) ∅.

(** ** The write loop *)

Lemma write_at_end file data : write_at file (length file) data = file ++ data.
Proof.
  unfold write_at. rewrite take_ge, drop_ge by lia. by rewrite app_nil_r.
Qed.

(** Whatever the sizes of the partial writes, the file grows by a prefix of the
    data, and by all of it when the loop returns. *)
Lemma write_loop_prefix iterations old data position file out result :
  position ≤ length data → file = old ++ take position data →
  write_loop iterations file (length old) position data = (out, result) →
  ∃ n, out = old ++ take n data ∧ (result = Ok tt → n = length data).
Proof.
  revert position file. induction iterations as [|[c n] iterations IH];
    intros position file Hpos -> H; simpl in H.
  - destruct (length data <=? position)%nat eqn:Hle.
    + apply Nat.leb_le in Hle. injection H as <- <-. exists position. split; [done|lia].
    + injection H as <- <-. by exists position.
  - destruct (length data <=? position)%nat eqn:Hle.
    { apply Nat.leb_le in Hle. injection H as <- <-. exists position. split; [done|lia]. }
    apply Nat.leb_gt in Hle. destruct c as [u|e]; [|injection H as <- <-; by exists position].
    destruct (n =? 0)%nat eqn:Hn; [injection H as <- <-; by exists position|].
    apply Nat.eqb_neq in Hn.
    eapply (IH (position + length (take n (drop position data)))); [| |exact H].
    + rewrite length_take, length_drop. lia.
    + replace (length old + position) with (length (old ++ take position data))
        by (rewrite length_app, length_take; lia).
      rewrite write_at_end, <- (assoc_L (++)), <- take_take_drop. do 2 f_equal.
      rewrite length_take. destruct (Nat.min_spec n (length (drop position data))) as [[? ->]|[? ->]];
        [done|]. by rewrite !take_ge by lia.
Qed.

(** ** Integrity of a stream *)

(** The state of one declared input: its receipt, staged file and digest.  The
    digest, while it is known, covers exactly the acknowledged bytes; a complete
    input has all its bytes and the declared digest. *)
Record stream_ok (o : ObjectReference) (s : staging) (receipt : Receipt) (content : bytes) : Prop := {
  so_offset : rc_offset receipt = Z.of_nat (length content);
  so_hash h : hashes s !! object_id o = Some h → h = content;
  so_file : ∃ f, files s !! object_id o = Some f ∧ content `prefix_of` sf_bytes f;
  so_bound : (rc_offset receipt <= object_bytes o)%Z;
  so_complete : rc_complete receipt = true →
    rc_offset receipt = object_bytes o ∧ bytes_hash content = object_digest o }.

(** The receiver's guard in [Supervisor.input_write] before it calls [write]. *)
Definition chunk_fits (o : ObjectReference) (receipt : Receipt) (data : bytes) : bool :=
  (Z.of_nat (length data) <=? object_bytes o - rc_offset receipt)%Z.

Lemma initialize_one_ok s progress o w s' progress' :
  cr_restored w = None → (0 <= object_bytes o)%Z →
  initialize_one s progress o w = Ok (s', progress') →
  ∃ receipt, progress' !! object_id o = Some receipt ∧ stream_ok o s' receipt [].
Proof.
  unfold initialize_one. intros Hr Hb H. apply bind_Ok in H as ([] & _ & H). rewrite Hr in H.
  apply raise_if_bind_Ok in H as [Hd H]. injection H as <- <-.
  eexists. rewrite lookup_insert_eq. split; [done|]. split; simpl; try done.
  - intros h. rewrite lookup_insert_eq. by intros [= <-].
  - rewrite lookup_insert_eq. eexists. split; [done|]. apply prefix_nil.
  - intros Hz. rewrite Hz in Hd. simpl in Hd. bool_inv. done.
Qed.

Lemma write_integrity o s receipt content data w s' result :
  stream_ok o s receipt content → chunk_fits o receipt data = true →
  write s o receipt data w = (s', result) →
  match result with
  | Ok (saved, hashed) =>
      hashed = content ++ data
      ∧ stream_ok o (committed s' (object_id o) hashed) saved (content ++ data)
      ∧ (∃ f, files s' !! object_id o = Some f ∧ sf_bytes f = content ++ data)
      ∧ (rc_complete saved = true ↔ rc_offset saved = object_bytes o)
  | Err _ => stream_ok o s' receipt content
  end.
Proof.
  intros Hok Hfits H. unfold write in H.
  destruct (hashes s !! object_id o) as [h|] eqn:Hh; [|by injection H as <- <-].
  assert (h = content) as -> by by apply (so_hash _ _ _ _ Hok).
  destruct (_ && negb (bool_decide (bytes_hash _ = _))) eqn:Hdig; [by injection H as <- <-|].
  destruct (wr_check w ≫= _) as [[]|e]; [|by injection H as <- <-].
  destruct (files s !! object_id o) as [f|] eqn:Hf; [|by injection H as <- <-].
  destruct (_ || _ || _) eqn:Hguard; [by injection H as <- <-|]. bool_inv.
  destruct (write_loop _ _ _ _ _) as [out r] eqn:Hloop. injection H as <- <-.
  destruct (so_file _ _ _ _ Hok) as (f' & Hf' & Hprefix). rewrite Hf in Hf'. injection Hf' as <-.
  pose proof (so_offset _ _ _ _ Hok) as Hoff. pose proof (so_bound _ _ _ _ Hok) as Hbound.
  unfold chunk_fits in Hfits. bool_inv.
  assert (Hsame : sf_bytes f = content).
  { destruct Hprefix as [k Hk]. assert (length k = 0) as Hk0%nil_length_inv
      by (rewrite Hk, length_app in *; lia). by rewrite Hk, Hk0, app_nil_r. }
  rewrite Hsame in Hloop.
  destruct (write_loop_prefix (wr_iterations w) content data 0 content out r) as (n & -> & Hn);
    [lia|by rewrite take_0, app_nil_r|done|].
  assert (Hfail : stream_ok o
    (mkStaging (<[object_id o := mkStaged (content ++ take n data) (wr_identity w)
       (match r with Ok _ => (rc_offset receipt + Z.of_nat (length data) =? object_bytes o)%Z
                   | Err _ => sf_final f end)]> (files s)) (hashes s)) receipt content).
  { destruct Hok as [K1 K2 K3 K4 K5]. split; try done. simpl. rewrite lookup_insert_eq.
    eexists. split; [done|]. by eexists. }
  destruct r as [[]|e]; [|exact Hfail]. simpl.
  destruct (wr_last_check w) as [u|e]; [|exact Hfail]. simpl.
  rewrite (Hn eq_refl), take_ge by done. rewrite lookup_insert_eq.
  split; [done|]. split; [|split; [by eexists|by rewrite Z.eqb_eq]].
  split; simpl.
  - rewrite length_app. lia.
  - intros h. rewrite lookup_insert_eq. by intros [= <-].
  - rewrite lookup_insert_eq. eexists. split; [done|]. done.
  - lia.
  - intros Hdone. rewrite Hdone in Hdig. simpl in Hdig. bool_inv. done.
Qed.

(** C20: Staged inputs keep their integrity through partial writes, failures and
    restarts.  A [write] that returns has appended exactly the chunk to the
    acknowledged bytes on disk, its receipt and digest cover them, and a complete
    receipt means all declared bytes with the declared digest; a [write] that
    fails at any point leaves every acknowledged byte in place; and after a
    restart, which loses the running digests, every further [write] is refused. *)
Theorem input_write_integrity o s receipt content data w :
  stream_ok o s receipt content → chunk_fits o receipt data = true →
  match write s o receipt data w with
  | (s', Ok (saved, hashed)) =>
      hashed = content ++ data
      ∧ stream_ok o (committed s' (object_id o) hashed) saved (content ++ data)
      ∧ (∃ f, files s' !! object_id o = Some f ∧ sf_bytes f = content ++ data)
      ∧ (rc_complete saved = true ↔ rc_offset saved = object_bytes o)
  | (s', Err _) => stream_ok o s' receipt content
  end
  ∧ stream_ok o (restarted s) receipt content
  ∧ write (restarted s) o receipt data w
    = (restarted s, Err (InputFailure "input_state_unavailable")).
Proof.
  intros Hok Hfits. split; [|split].
  - destruct (write s o receipt data w) as [s' [[saved hashed]|e]] eqn:H;
      exact (write_integrity _ _ _ _ _ _ _ _ Hok Hfits H).
  - destruct Hok as [K1 K2 K3 K4 K5]. by split.
  - unfold write, restarted. simpl. by rewrite lookup_empty.
Qed.

(** The stream of ["abc"] in two chunks, the second arriving in single bytes. *)
Definition sample_object : ObjectReference :=
  mkObject "f0" (content_hash "abc") 3 "weights" Stream.
Definition sample_receipt : Receipt := mkReceipt 1 false JNull.
Definition sample_staging : staging :=
  mkStaging {["f0" := mkStaged ["a"%char] JNull false]} {["f0" := ["a"%char]]}.
Definition sample_writing : writing :=
  mkWriting (Ok tt) (Ok tt) true [(Ok tt, 1); (Ok tt, 1)] (JInt 7) (Ok tt).

Lemma sample_stream_ok : stream_ok sample_object sample_staging sample_receipt ["a"%char].
Proof.
  split; simpl; try done.
  - intros h. by intros [= <-].
  - by eexists.
Qed.

Lemma input_write_integrity_witness :
  ∃ s' saved hashed,
    write sample_staging sample_object sample_receipt ["b"; "c"]%char sample_writing
      = (s', Ok (saved, hashed))
    ∧ hashed = ["a"; "b"; "c"]%char ∧ rc_complete saved = true.
Proof.
  destruct (write sample_staging sample_object sample_receipt ["b"; "c"]%char sample_writing)
    as [s' result] eqn:H.
  assert (Hok : is_ok result = true)
    by (change result with (snd (s', result)); rewrite <- H; vm_compute; reflexivity).
  destruct result as [[saved hashed]|e]; [|discriminate Hok].
  pose proof (input_write_integrity sample_object sample_staging sample_receipt ["a"%char]
    ["b"; "c"]%char sample_writing sample_stream_ok eq_refl) as [Hw _]. rewrite H in Hw.
  destruct Hw as (Hh & Hs & _ & Hc). exists s', saved, hashed. split; [reflexivity|].
  split; [exact Hh|]. apply Hc. exact (so_offset _ _ _ _ Hs).
Defined.
