(* ===== verification/LedgerProtocol.v ===== *)
(** * The ledger protocol of the supervisor

    The supervisor uses only part of what the ledger allows: it never reserves
    outside an admission, it marks a payload released only after its start was
    recorded, it records success only for a released payload, and it never takes
    back a confirmed cleanup.  [lawful] states these rules, [change] what a lawful
    operation does to the tables, and [protocol] a sequence of them. *)

From Stdlib Require Import SpecFloat.
From S2P Require Import Prelude Float64 Json Clock Spec Offer Ledger LedgerStep Samples LedgerProps.

(** ** Effects of one operation *)

(** The attempt an operation names. *)
Definition target (op : lop) : option string :=
  match op with
  | DoSaveOffer _ _ => None
  | DoAnnotate f _ | DoStartRequested f _ | DoStarted f _ | DoRelease f | DoRecover f _ _ _ =>
      Some (f_attempt_id f)
  | DoAdmit adm _ _ _ _ => Some (attempt_id (adm_plan adm))
  | DoReject p _ _ | DoReserve p _ _ _ => Some (attempt_id p)
  | DoRenew n _ _ => Some (f_attempt_id (n_fence n))
  | DoFinish r => Some (f_attempt_id (r_fence r))
  end.

(** What an operation does to the stored attempt it names, and whether it frees
    the attempt's devices. *)
Inductive transition : lop → attempt → attempt → bool → Prop :=
| tr_annotate f n a a' : apply_annotation n a = Ok a' → transition (DoAnnotate f n) a a' false
| tr_start f now a : a_state a = Prepared →
    transition (DoStartRequested f now) a (set_state Starting a) false
| tr_started f binding a : a_state a = Starting →
    transition (DoStarted f binding) a (set_running binding a) false
| tr_renew n now maximum timing a : renewable (a_state a) = true →
    transition (DoRenew n now maximum) a (set_lease (n_sequence n) (n_expires_at n) timing a) false
| tr_finish r a :
    a_state a ≠ Released →
    terminal (r_state r) = true ∨ r_state r = Unknown →
    (terminal (r_state r) = true → r_cleanup_confirmed r = true) →
    (terminal (a_state a) = true → r_state r = a_state a) →
    transition (DoFinish r) a (set_result r a) (r_cleanup_confirmed r)
| tr_release f a : terminal (a_state a) = true ∨ a_state a = Unknown → a_cleanup a = true →
    transition (DoRelease f) a (set_released a) true.

Inductive change (l : ledger) : lop → ledger → Prop :=
| ch_none op : change l op l
| ch_offer o expected : change l (DoSaveOffer o expected) (set_offer_row o l)
| ch_evolve op i a a' freed :
    get l i = Some a → target op = Some i → transition op a a' freed →
    change l op (evolved l i a' freed)
| ch_admit adm slot binding now maximum o timing :
    let p := adm_plan adm in
    reservable l p slot (wall now) o →
    n_sequence (adm_lease adm) = 1%Z →
    change l (DoAdmit adm slot binding now maximum)
      (assign (put l (attempt_id p)
                 (set_lease (n_sequence (adm_lease adm)) (n_expires_at (adm_lease adm)) timing
                    (fresh_attempt p slot binding (wall now))))
         (attempt_id p) (gpu_devices (limits (job p))))
| ch_reject p now observation :
    get l (attempt_id p) = None →
    change l (DoReject p now observation)
      (put l (attempt_id p) (rejected_attempt l p now observation)).

(** ** The rules *)

Definition lawful (l : ledger) (op : lop) : Prop :=
  match op with
  | DoReserve _ _ _ _ | DoRecover _ _ _ _ => False
  | DoAdmit adm _ _ _ _ => admission_ok adm = true
  | DoReject p _ _ => plan_ok p = true
  | DoAnnotate f PayloadReleased =>
      ∀ a, get l (f_attempt_id f) = Some a → 2 ≤ phase (a_state a)
  | DoFinish r =>
      ∀ a, get l (f_attempt_id (r_fence r)) = Some a →
        (a_cleanup a = true → r_cleanup_confirmed r = true)
        ∧ (r_state r = Succeeded → a_payload_released a = true ∧ r_exit_code r = Some 0%Z)
  | _ => True
  end.

Section protocol.
Context (Q : lop → Prop).

(** Any number of lawful operations that satisfy [Q]. *)
Inductive protocol (l : ledger) : ledger → Prop :=
| protocol_refl : protocol l l
| protocol_step op l1 l2 :
    execute l op = Ok l1 → lawful l op → Q op → protocol l1 l2 → protocol l l2.

Lemma protocol_one l op l' : execute l op = Ok l' → lawful l op → Q op → protocol l l'.
Proof. intros. eapply protocol_step; [done..|constructor]. Qed.

Lemma protocol_trans l1 l2 l3 : protocol l1 l2 → protocol l2 l3 → protocol l1 l3.
Proof. induction 1; [done|]. intros. eapply protocol_step; eauto. Qed.

Lemma protocol_wf l l' : protocol l l' → wf l → wf l'.
Proof.
  induction 1 as [|l op l1 l2 He Hl HQ Hp IH]; [done|]. intros Hwf. apply IH.
  eapply steps_wf; [by eapply execute_steps|done].
Qed.
End protocol.

Lemma protocol_weaken (Q Q' : lop → Prop) l l' :
  (∀ op, Q op → Q' op) → protocol Q l l' → protocol Q' l l'.
Proof. intros H. induction 1; [constructor|]. eapply protocol_step; eauto. Qed.

(** Protocols are runs of ledger operations. *)
Lemma protocol_run Q l l' : protocol Q l l' → ∃ ops, l' = run_ops l ops.
Proof.
  induction 1 as [|l op l1 l2 He _ _ _ (ops & ->)]; [by exists []|].
  exists (op :: ops). simpl. unfold apply. by rewrite He.
Qed.

(** A phase once reached is kept. *)
Lemma protocol_phase Q l l' i n :
  wf l → protocol Q l l' → (∃ a, get l i = Some a ∧ n ≤ phase (a_state a)) →
  ∃ a, get l' i = Some a ∧ n ≤ phase (a_state a).
Proof.
  intros Hwf (ops & ->)%protocol_run. apply run_ops_row; [done|].
  intros t a a' freed Hph%evolves_phase. lia.
Qed.

(** A saved row that evolves is [put]. *)
Lemma save_put {t} l i a a' l1 freed :
  wf l → get l i = Some a → evolves t a a' freed → save l a' = Ok l1 → l1 = put l i a'.
Proof. intros Hwf Hg Hev Hs. rewrite (save_evolves l i a a' freed) in Hs by done. by injection Hs. Qed.

Lemma change_evolve {t} l op i a a' l1 freed :
  wf l → get l i = Some a → evolves t a a' freed → target op = Some i → transition op a a' freed →
  save l a' = Ok l1 → change l op (if freed then free_devices l1 i else l1).
Proof.
  intros Hwf Hg Hev Ht Htr Hs. rewrite (save_put l i a a' l1 freed) by done.
  exact (ch_evolve l op i a a' freed Hg Ht Htr).
Qed.

Lemma put_put l i a b : put (put l i a) i b = put l i b.
Proof. unfold put, with_attempts. simpl. by rewrite insert_insert_eq. Qed.

Lemma assign_put l i ds j a : put (assign l i ds) j a = assign (put l j a) i ds.
Proof. done. Qed.

(** [Admission.binding] as equations. *)
Lemma admission_binding adm :
  admission_ok adm = true →
  n_fence (adm_lease adm) = plan_fence (adm_plan adm) ∧ n_sequence (adm_lease adm) = 1%Z
  ∧ plan_ok (adm_plan adm) = true.
Proof.
  unfold admission_ok, plan_fence. destruct (adm_lease adm) as [[i g d] sq e]. simpl.
  intros H. bool_inv. by subst.
Qed.

(** What an admission returns: the stored attempt, or a new one with its first
    lease, inserted at once. *)
Lemma admit_Ok l adm slot binding now maximum l' a flag :
  wf l → admission_ok adm = true →
  admit_ l adm slot binding now maximum = Ok (l', (a, flag)) →
  let p := adm_plan adm in
  (get l (attempt_id p) = Some a ∧ flag = false ∧ l' = l ∧ a_digest a = plan_digest p)
  ∨ (flag = true ∧ ∃ o timing,
      reservable l p slot (wall now) o
      ∧ deadline (n_expires_at (adm_lease adm)) now maximum = Ok timing
      ∧ a = set_lease (n_sequence (adm_lease adm)) (n_expires_at (adm_lease adm)) timing
              (fresh_attempt p slot binding (wall now))
      ∧ l' = assign (put l (attempt_id p) a) (attempt_id p) (gpu_devices (limits (job p)))).
Proof.
  intros Hwf (Hfence & Hseq & _)%admission_binding H p. unfold admit_ in H.
  apply bind_Ok in H as ([l1 b] & Hr & H).
  pose proof (step_wf _ _ (reserve_step (t := None) _ _ _ _ _ _ _ Hwf Hr) Hwf) as Hwf1.
  apply reserve_Ok in Hr as [(Hg & Hd & ->)|(-> & -> & _ & o & Hrsv)].
  { rewrite Hg in H. injection H as <- <- <-. by left. }
  right. rewrite (rsv_new _ _ _ _ _ Hrsv) in H.
  apply bind_Ok in H as ([l2 c] & Hn & H). injection H as <- <- <-. split; [done|].
  fold p in Hrsv, Hwf1, Hn, Hfence |- *. set (fresh := fresh_attempt p slot binding (wall now)).
  assert (Hrow : get (reserved l p slot binding (wall now)) (attempt_id p) = Some fresh)
    by (unfold reserved; by rewrite get_assign, get_put, decide_True).
  apply renew_Ok in Hn as (a0 & [Ha _ Hst Hact _] & Hn).
  rewrite Hfence in Ha. unfold plan_fence in Ha. simpl in Ha. rewrite Hrow in Ha.
  injection Ha as <-.
  destruct Hn as [(_ & _ & Hz)|(timing & Hlt & Hdl & -> & Hs)]; [by rewrite Hseq in Hz|].
  exists o, timing. split; [done|]. split; [done|]. split; [done|].
  apply (save_put (t := Some now) _ (attempt_id p) fresh _ _ false) in Hs; [|done..|].
  - rewrite Hs. unfold reserved. by rewrite assign_put, put_put.
  - eapply ev_renew; eauto.
Qed.

(** The reservation and first lease of an admission, as one insertion. *)
Lemma admit_change l adm slot binding now maximum l' r :
  wf l → admission_ok adm = true →
  admit_ l adm slot binding now maximum = Ok (l', r) →
  change l (DoAdmit adm slot binding now maximum) l'.
Proof.
  intros Hwf Hok H. destruct r as [a flag].
  apply admit_Ok in H as [(_ & _ & -> & _)|(_ & o & timing & Hrsv & _ & -> & ->)]; [constructor| |done..].
  apply admission_binding in Hok as (_ & Hseq & _).
  exact (ch_admit l adm slot binding now maximum o timing Hrsv Hseq).
Qed.

Lemma reject_change l p now observation l' a :
  reject l p now observation = Ok (l', a) → change l (DoReject p now observation) l'.
Proof.
  unfold reject. destruct (get l (attempt_id p)) eqn:Hnew; intros H.
  { apply bind_Ok in H as (? & _ & [= <- _]). constructor. }
  apply raise_if_bind_Ok in H as [Hgen H]. apply bind_Ok in H as (l1 & Hins & [= <- <-]).
  apply insert_attempt_Ok in Hins as (-> & _). by constructor.
Qed.

(** Every lawful operation that returns has its effect. *)
Lemma execute_change l op l' : wf l → lawful l op → execute l op = Ok l' → change l op l'.
Proof.
  intros Hwf Hlaw. destruct op; simpl in *; try done; try (intros ([? ?] & H & ->)%fmap_Ok; simpl).
  - unfold save_offer. intros H. inv_ok. constructor.
  - unfold annotate in H. apply bind_Ok in H as (a0 & (Ha & _)%fenced_Ok & H).
    apply bind_Ok in H as (a1 & Hn & H). apply bind_Ok in H as (l1 & Hs & [= <- _]).
    apply (change_evolve (t := None) l (DoAnnotate f n) (f_attempt_id f) a0 a1 l1 false); try done; by econstructor.
  - eapply admit_change; eauto.
  - by eapply reject_change.
  - destruct p as [a flag].
    apply start_requested_Ok in H as (a0 & Ha & [(_ & -> & _)|(_ & -> & Hst & Hact & Hs & _)]);
      [constructor|].
    apply (change_evolve (t := Some now) l (DoStartRequested f now) (f_attempt_id f) a0 _ _ false) in Hs; try done;
      by econstructor.
  - unfold started. intros H. apply bind_Ok in H as (a & (Ha & _)%fenced_Ok & H).
    apply raise_if_bind_Ok in H as [Hst H]. bool_inv.
    apply (change_evolve (t := None) l (DoStarted f binding) (f_attempt_id f) a _ _ false) in H;
      try done; by econstructor.
  - apply renew_Ok in H as (a0 & [Ha _ Hst Hact _] & [(-> & _)|(tm & Hlt & Ht & -> & Hs)]);
      [constructor|].
    apply (change_evolve (t := Some now) l (DoRenew n now maximum) (f_attempt_id (n_fence n)) a0 _ _ false)
      in Hs; try done; by econstructor.
  - intros H. apply finish_Ok in H as (a & Ha & Hr & Hs & Hc & Ht & l1 & Hsave & ->).
    eapply (change_evolve (t := None)); try done; by constructor.
  - apply release_Ok in H as (a0 & Ha & [(_ & -> & _)|(Hst & Hc & -> & l1 & Hs & ->)]);
      [constructor|].
    apply (change_evolve (t := None) l (DoRelease f) (f_attempt_id f) a0 _ _ true) in Hs; try done;
      by constructor.
Qed.

(** An operation leaves the rows of other attempts alone. *)
Lemma change_frame l op l' j :
  change l op l' → target op ≠ Some j → get l' j = get l j.
Proof.
  intros Hc Hne. destruct Hc as [op|o e|op i a a' freed Hg Ht Htr|adm slot b now mx o tm p Hr Hs
    |p now obs Hn]; simpl in *; try done.
  - rewrite get_evolved, decide_False; [done|]. intros ->. by destruct Hne.
  - rewrite get_assign, get_put, decide_False; [done|]. intros <-. by apply Hne.
  - rewrite get_put, decide_False; [done|]. intros <-. by apply Hne.
Qed.

(** An invariant of the tables kept by every lawful operation is kept by every
    protocol. *)
Lemma protocol_preserve (Q : lop → Prop) (P : ledger → Prop) :
  (∀ l op l', wf l → lawful l op → Q op → change l op l' → P l → P l') →
  ∀ l l', protocol Q l l' → wf l → P l → P l'.
Proof.
  intros HP l l' Hp. induction Hp as [|l op l1 l2 He Hl HQ Hp IH]; [done|]. intros Hwf H.
  assert (wf l1) as Hwf1 by (eapply steps_wf; [eapply execute_steps; [exact Hwf|exact He]|exact Hwf]).
  apply IH; [done|]. apply (HP l op l1); try done. by apply execute_change.
Qed.

Lemma protocol_frame (Q : lop → Prop) j l l' :
  (∀ op, Q op → target op ≠ Some j) → protocol Q l l' → wf l → get l' j = get l j.
Proof.
  intros HQ Hp Hwf.
  refine (protocol_preserve Q (fun l' => get l' j = get l j) _ l l' Hp Hwf eq_refl).
  intros l1 op l2 _ _ Hop Hc <-. eapply change_frame; eauto.
Qed.

(** The local offer, once set, stays set. *)
Lemma offer_change_some l op l' : change l op l' → is_Some (l_offer l) → is_Some (l_offer l').
Proof. destruct 1; simpl; try done. by destruct freed. Qed.

Lemma protocol_offer_some (Q : lop → Prop) l l' :
  protocol Q l l' → wf l → is_Some (l_offer l) → is_Some (l_offer l').
Proof.
  apply (protocol_preserve Q (fun l => is_Some (l_offer l))). intros ??? _ _ _. apply offer_change_some.
Qed.

Definition keeps_offer (op : lop) : Prop := match op with DoSaveOffer _ _ => False | _ => True end.

Lemma protocol_same_offer l l' : protocol keeps_offer l l' → wf l → l_offer l' = l_offer l.
Proof.
  intros Hp Hwf.
  refine (protocol_preserve keeps_offer (fun l' => l_offer l' = l_offer l) _ l l' Hp Hwf eq_refl).
  intros l1 op l2 _ _ Hop Hc <-. destruct Hc; try done. by destruct freed.
Qed.

(** ** Invariants of the protocol *)

(** *** Devices

    The device table is exact: it holds the GPUs of the attempts whose processes
    may still run, no more and no less. *)
Definition exact (l : ledger) : Prop :=
  ∀ d i, l_devices l !! d = Some i ↔
    ∃ a, get l i = Some a ∧ running a = true ∧ d ∈ gpu_devices (limits (job (a_plan a))).

Lemma running_spec a : running a = true ↔ held a = true ∧ a_cleanup a = false.
Proof. unfold running. rewrite andb_true_iff, negb_true_iff. done. Qed.

Lemma transition_plan op a a' freed : transition op a a' freed → a_plan a' = a_plan a.
Proof. by destruct 1 as [f n a a' (?&?)%apply_annotation_core| | | | |]. Qed.

(** A transition frees the devices of an attempt exactly when its processes are
    confirmed gone. *)
Lemma transition_running l op a a' freed i :
  lawful l op → get l i = Some a → target op = Some i → life a → transition op a a' freed →
  (freed = true → running a' = false) ∧ (freed = false → running a' = running a).
Proof.
  intros Hlaw Hg Ht Hlife Htr. unfold running, held.
  destruct Htr as [f n a a' (_&_&->&_&->&_)%apply_annotation_core|f now a Hs|f b a Hs
    |n now mx tm a Hr|r a Hnr Hr Hc Hter|f a Hs Hc]; simpl; try done.
  - injection Ht as Hi. subst i. destruct (Hlaw a Hg) as [Hkeep _].
    destruct (r_cleanup_confirmed r); (split; [intros Hf|intros Hf]); try done.
    + by rewrite andb_false_r.
    + destruct (a_cleanup a); [by specialize (Hkeep eq_refl)|done].
Qed.

Lemma exact_change l op l' : wf l → lawful l op → change l op l' → exact l → exact l'.
Proof.
  intros Hwf Hlaw Hc Hex. destruct Hc as [op|o e|op i a a' freed Hg Ht Htr|adm slot b now mx o tm p Hr Hs
    |p now obs Hn]; try done.
  - destruct (transition_running _ _ _ _ _ _ Hlaw Hg Ht (wf_life _ Hwf _ _ Hg) Htr) as [Hfree Hkeep].
    pose proof (transition_plan _ _ _ _ Htr) as Hp. intros d j.
    assert (l_devices (evolved l i a' freed) !! d = Some j
            ↔ l_devices l !! d = Some j ∧ (freed = true → j ≠ i)) as ->.
    { destruct freed; unfold evolved; [|by split; [intros ?|intros [? _]]].
      rewrite devices_free. split; (intros [? Hne]; split; [done|]); auto. }
    rewrite get_evolved, (Hex d j). case_decide as Hij.
    + subst j. rewrite Hg. split.
      * intros ((b & [= <-] & Hrun & Hd) & Hf). exists a'. rewrite Hp.
        destruct freed; [by destruct Hf|]. by rewrite Hkeep.
      * intros (b & [= <-] & Hrun & Hd). rewrite Hp in Hd.
        destruct freed; [by rewrite Hfree in Hrun|]. rewrite Hkeep in Hrun by done.
        split; [by exists a|done].
    + split; [by intros [? _]|]. intros H. split; [done|]. intros _ ->. done.
  - destruct Hr as [Hnew _ _ _ _ _ _ _ Hdev]. rewrite existsb_false in Hdev.
    intros d j. rewrite devices_assign, get_assign, get_put. simpl. rewrite (Hex d j). split.
    + intros [[Hd ->]|[Hd H]].
      { rewrite decide_True by done. eexists. split; [done|by split]. }
           destruct H as (b' & Hb & Hrun). rewrite decide_False; [by exists b'|].
      intros <-. subst p. congruence.
    + case_decide as Hij; [intros (b' & [= <-] & _ & Hd); left; by subst|].
      intros H. right. split; [|done]. intros Hd. specialize (Hdev d Hd).
      apply Hex in H. by rewrite H in Hdev.
  - intros d j. rewrite get_put. simpl. rewrite (Hex d j). case_decide as Hij; [|done]. subst j.
    split; [|by intros (b & [= <-] & ? & _)]. intros (b & Hb & _). congruence.
Qed.

(** *** Honest outcomes

    A payload is released only after its start was recorded, and success is
    recorded only for a released payload that exited with zero. *)
Record honest (a : attempt) : Prop := {
  hn_released : a_payload_released a = true → 2 ≤ phase (a_state a);
  hn_success : a_state a = Succeeded ∨ a_outcome a = Some Succeeded →
    a_payload_released a = true ∧ a_exit_code a = Some 0%Z }.

Lemma honest_transition l op a a' freed i :
  lawful l op → get l i = Some a → target op = Some i → life a → transition op a a' freed →
  honest a → honest a'.
Proof.
  intros Hlaw Hg Ht Hlife Htr [H1 H2].
  destruct Htr as [f n a a' Hn|f now a Hs|f b a Hs|n now mx tm a Hr|r a Hnr Hr Hc Hter|f a Hs Hc];
    simpl in Ht; injection Ht as Hi; subst i.
  - destruct n; simpl in Hn; simplify_eq; try (by split).
    split; simpl; [intros _; exact (Hlaw a Hg)|]. intros H. split; [done|]. by apply H2.
  - split; simpl; [intros Hp%H1; rewrite Hs in Hp; simpl in Hp; lia|]. intros [?|H]; [done|auto].
  - split; simpl; [done|]. intros [?|H]; [done|auto].
  - by split.
  - destruct (Hlaw a Hg) as [_ Hsucc]. split; simpl.
    + intros _. destruct Hr as [Hr| ->]; [destruct (r_state r); simpl in *; done || lia|simpl; lia].
    + intros [Hst|Ho]; [auto|]. by rewrite (life_outcome _ Hlife Hnr) in Ho.
  - split; simpl; [lia|]. intros [?|[= Ho]]; [done|auto].
Qed.

Definition all_honest (l : ledger) : Prop := ∀ i a, get l i = Some a → honest a.

Lemma honest_change l op l' :
  wf l → lawful l op → change l op l' → all_honest l → all_honest l'.
Proof.
  intros Hwf Hlaw Hc Hh. destruct Hc as [op|o e|op i a a' freed Hg Ht Htr|adm slot b now mx o tm p Hr Hs
    |p now obs Hn]; try done; intros j c.
  - rewrite get_evolved. case_decide; [intros [= <-]|apply Hh].
    eapply honest_transition; eauto. by eapply wf_life.
  - rewrite get_assign, get_put. case_decide; [|apply Hh]. intros [= <-].
    split; simpl; [done|]. by intros [?|?].
  - rewrite get_put. case_decide; [|apply Hh]. intros [= <-].
    split; simpl; [done|]. destruct obs; by intros [?|?].
Qed.

(** *** Capacity *)

Definition plans_ok (l : ledger) : Prop := ∀ i a, get l i = Some a → plan_ok (a_plan a) = true.

(** The unfinished attempts fit the compute limits of the offer, the retained ones
    its storage limits. *)
Definition within (l : ledger) : Prop :=
  ∃ o, l_offer l = Some o
    ∧ (∀ r, r ∈ compute_resources →
        used r (List.filter running (all l)) <= amount (o_limits (settings o)) r)%Z
    ∧ (∀ r, r ∈ storage_resources → used r (retained l) <= amount (o_limits (settings o)) r)%Z.

Lemma plans_ok_change l op l' : lawful l op → change l op l' → plans_ok l → plans_ok l'.
Proof.
  intros Hlaw Hc Hp. destruct Hc as [op|o e|op i a a' freed Hg Ht Htr|adm slot b now mx o tm p Hr Hs
    |p now obs Hn]; try done; intros j c.
  - rewrite get_evolved. case_decide; [|apply Hp]. intros [= <-].
    rewrite (transition_plan _ _ _ _ Htr). by eapply Hp.
  - rewrite get_assign, get_put. case_decide; [|apply Hp]. intros [= <-].
    by apply admission_binding in Hlaw as (_ & _ & ?).
  - rewrite get_put. case_decide; [|apply Hp]. by intros [= <-].
Qed.

Lemma amount_nonneg p r : plan_ok p = true → (0 <= amount (limits (job p)) r)%Z.
Proof.
  unfold plan_ok, job_ok, limits_ok, positive_count, count. intros H. bool_inv.
  destruct r; simpl; lia.
Qed.

(** A row that stops counting, or goes on counting the same, never increases a sum. *)
Lemma used_evolved r (q : attempt → bool) l i a a' freed :
  get l i = Some a → a_plan a' = a_plan a → plan_ok (a_plan a) = true →
  (q a' = true → q a = true) →
  (used r (List.filter q (all (evolved l i a' freed))) <= used r (List.filter q (all l)))%Z.
Proof.
  intros Hg Hp Hok Hq. rewrite !used_filter.
  replace (all (evolved l i a' freed)) with (row_values (<[i := a']> (l_attempts l)))
    by (by destruct freed).
  rewrite (sumZ_rows_update _ _ i a a' Hg). fold (all l). rewrite Hp.
  pose proof (amount_nonneg _ r Hok). destruct (q a') eqn:Hqa; [rewrite Hq by done|]; [lia|].
  destruct (q a); lia.
Qed.

Lemma transition_held op a a' freed : transition op a a' freed → held a' = true → held a = true.
Proof.
  unfold held. by destruct 1 as [f n a a' (_&_&->&_)%apply_annotation_core| | | | |].
Qed.

Lemma all_assign l i ds : all (assign l i ds) = all l.
Proof. done. Qed.

Lemma within_change l op l' :
  wf l → lawful l op → keeps_offer op → change l op l' → plans_ok l → within l → within l'.
Proof.
  intros Hwf Hlaw Hop Hc Hok (o & Ho & Hcomp & Hstor).
  destruct Hc as [op|o' e|op i a a' freed Hg Ht Htr|adm slot b now mx o' tm p Hr Hs|p now obs Hn].
  - by exists o.
  - done.
  - exists o. split; [by destruct freed|].
    destruct (transition_running _ _ _ _ _ _ Hlaw Hg Ht (wf_life _ Hwf _ _ Hg) Htr) as [Hfree Hkeep].
    pose proof (transition_plan _ _ _ _ Htr) as Hp.
    split; intros r Hr; (etrans; [|first [by apply Hcomp|by apply Hstor]]);
      eapply used_evolved; eauto using transition_held.
    destruct freed; [by rewrite Hfree|by rewrite Hkeep].
  - destruct Hr as [Hnew Ho' _ _ _ _ Hc Hst _]. rewrite Ho in Ho'. injection Ho' as <-.
    rewrite exceeds_false in Hc. rewrite exceeds_false in Hst.
    exists o. split; [done|]. unfold retained in *. rewrite filter_filter_and in Hc by apply running_held.
    set (c := set_lease _ _ _ _). change (attempt_id p) with (row_id c).
    rewrite all_assign. split; intros r Hr; rewrite used_put by done; [exact (Hc r Hr)|exact (Hst r Hr)].
  - exists o. split; [done|]. set (c := rejected_attempt _ _ _ _). change (attempt_id p) with (row_id c).
    unfold retained. split; intros r Hr; rewrite used_put by done;
      [exact (Hcomp r Hr)|exact (Hstor r Hr)].
Qed.
