(* ===== verification/Supervisor.v ===== *)
(** * The executor supervisor

    [execution/supervisor.py] with [execution/envelope.py]'s attempt context: one
    definition per method, in a state and exception monad over the supervisor's
    state (the ledger, the pending operations of the thread pool and the
    in-progress sets): a method that raises keeps the state it has reached.
    Everything the operating system, the installed provider or the clock answers
    during a call is a [world]; where a method asks twice, it takes two. *)

From Stdlib Require Import SpecFloat.
From S2P Require Import Prelude Float64 Sha256 Json Clock Spec Offer Ledger LedgerStep Samples Settings Protocol Inputs.

(** ** Attempt contexts *)

(** [context (settings, slot, value)] with the entries [Supervisor.ctx] adds. *)
Record Ctx := mkCtx {
  c_plan : Plan; c_digest : string; c_slot : Slot; c_binding : option json;
  c_directory : string; c_unit : string; c_description : string; c_cgroup : string;
  c_supervisor : string; c_inputs : list (ObjectReference * string * json);
  c_prepared : option json }.

Definition context (s : Settings) (slot : Slot) (p : Plan) (dig : string) (binding : option json)
    : Ctx :=
  let unit := "ficc-work-" +:+ installation_id s +:+ "-" +:+ attempt_id p +:+ ".service" in
  mkCtx p dig slot binding (mount slot +:+ "/" +:+ attempt_id p) unit
    ("FICC attempt " +:+ installation_id s +:+ ":" +:+ attempt_id p)
    ("/system.slice/" +:+ unit) (service s) [] None.

(** [inputs.root (ctx)]. *)
Definition inputs_root (slot : Slot) (p : Plan) : string :=
  mount slot +:+ "/" +:+ (".inputs-" +:+ attempt_id p).

(** ** The outside world during one call *)

Inductive method := Probe | PrepareRuntime | StartRuntime | ObserveRuntime | StopRuntime
  | CollectRuntime | ReleaseRuntime.

(** The entries of a provider reply the supervisor reads: absent keys are
    [None]; [ob_exit] distinguishes a missing key from a null value. *)
Record Observation := mkObservation {
  ob_phase : option string; ob_ready : bool; ob_exit : option (option Z);
  ob_stdout : option Z; ob_stderr : option Z; ob_payload_pid : option Z;
  ob_device_probe : option (list (string * Z)); ob_document : json }.

Definition no_observation : Observation :=
  mkObservation None false None None None None None (JObj []).

(** The system manager's properties of an attempt unit that are read. *)
Record Unit := mkUnit {
  un_load : option string; un_active : option string; un_exited : option string }.

Record world := mkWorld {
  w_now : Reading;
  w_monotonic : float;
  w_probe : Slot → option json → bool → res json;
  w_stop : Ctx → res unit;
  w_idle : Ctx → res json;
  w_call : method → Ctx → res Observation;
  w_inspect : Ctx → res Unit;
  w_processes : Z → bool;
  w_exists : string → bool }.

(** ** State *)

Inductive pending := PendingInputs | PendingPrepare | PendingStart | EngineBarrier | PayloadBarrier.
#[global] Instance pending_eq_dec : EqDecision pending. Proof. solve_decision. Defined.

Record sup := mkSup {
  u_ledger : ledger; u_pending : gmap string pending; u_cleanup : gmap string float;
  u_releasing : gset string; u_busy : gset string; u_inputs : gmap string staging;
  u_recovered : bool }.

Definition with_ledger (u : sup) (l : ledger) : sup :=
  mkSup l (u_pending u) (u_cleanup u) (u_releasing u) (u_busy u) (u_inputs u) (u_recovered u).
Definition with_pending (u : sup) (m : gmap string pending) : sup :=
  mkSup (u_ledger u) m (u_cleanup u) (u_releasing u) (u_busy u) (u_inputs u) (u_recovered u).
Definition with_cleanup (u : sup) (m : gmap string float) : sup :=
  mkSup (u_ledger u) (u_pending u) m (u_releasing u) (u_busy u) (u_inputs u) (u_recovered u).
Definition with_releasing (u : sup) (x : gset string) : sup :=
  mkSup (u_ledger u) (u_pending u) (u_cleanup u) x (u_busy u) (u_inputs u) (u_recovered u).
Definition with_busy (u : sup) (x : gset string) : sup :=
  mkSup (u_ledger u) (u_pending u) (u_cleanup u) (u_releasing u) x (u_inputs u) (u_recovered u).
Definition with_inputs (u : sup) (m : gmap string staging) : sup :=
  mkSup (u_ledger u) (u_pending u) (u_cleanup u) (u_releasing u) (u_busy u) m (u_recovered u).

(** [fence (value)]. *)
Definition fence (a : attempt) : Fence :=
  mkFence (attempt_id (a_plan a)) (generation (a_plan a)) (a_digest a).

(** [public (value)]: the reply entry, refused when the result does not validate. *)
Record public_attempt := mkPublic {
  pb_result : AttemptResult; pb_job : string; pb_project : string; pb_offer : Z;
  pb_sequence : Z; pb_expires : float; pb_ready : bool; pb_outcome : option astate }.

Definition result_of (a : attempt) : AttemptResult :=
  mkResult (fence a) (a_state a) (a_reason a) (a_exit_code a) (a_output_bytes a) (a_error_bytes a)
    (a_cleanup a).

Definition has_prepared (a : attempt) : bool :=
  match a_prepared_runtime a with
  | None | Some JNull | Some (JBool false) | Some (JObj []) | Some (JArr []) => false
  | Some (JInt z) => negb (z =? 0)%Z
  | Some (JStr s) => negb (bool_decide (s = ""))
  | Some _ => true
  end.

(** [value.get ("pending_stop")] as a truth value: reasons are never empty. *)
Definition stop_pending (a : attempt) : bool :=
  match a_pending_stop a with Some r => negb (bool_decide (r = "")) | None => false end.

Definition validation_error : exn := ValueError "validation error".

Definition public (a : attempt) : res public_attempt :=
  raise_if (negb (result_ok (result_of a))) validation_error ;;
  Ok (mkPublic (result_of a) (job_id (a_plan a)) (project_id (a_plan a)) (offer_revision (a_plan a))
        (a_sequence a) (a_expires_at a)
        (has_prepared a && bool_decide (a_state a = Prepared)) (a_outcome a)).

(** ** State and exceptions *)

Definition M (A : Type) : Type := sup → sup * res A.

#[global] Instance M_ret : MRet M := fun A a u => (u, Ok a).
#[global] Instance M_bind : MBind M := fun A B f m u =>
  match m u with (u', Ok a) => f a u' | (u', Err e) => (u', Err e) end.

#[global] Instance M_fmap : FMap M := fun A B f m u => let '(u', r) := m u in (u', f <$> r).

Definition lift {A} (r : res A) : M A := fun u => (u, r).
Definition gets {A} (f : sup → A) : M A := fun u => (u, Ok (f u)).
Definition modify (f : sup → sup) : M unit := fun u => (f u, Ok tt).
Definition raise {A} (e : exn) : M A := fun u => (u, Err e).
(** [try: m except: h]; what [m] changed stays. *)
Definition catch {A} (m : M A) (h : exn → M A) : M A := fun u =>
  match m u with (u', Ok a) => (u', Ok a) | (u', Err e) => h e u' end.

(** A ledger method: its tables change only when it returns. *)
Definition on_ledger {A} (f : ledger → res (ledger * A)) : M A := fun u =>
  match f (u_ledger u) with Ok (l, a) => (with_ledger u l, Ok a) | Err e => (u, Err e) end.

Definition when (b : bool) (m : M unit) : M unit := if b then m else mret tt.

(** ** Programs with unlocked sections

    A method that gives up [self.lock] between its critical sections is a
    [prog]: atomic sections and the points between them where other threads may
    run.  What the unlocked code obtains from outside is an argument. *)
Inductive prog (A : Type) : Type :=
| Return (r : res A)
| Atomic (m : sup → sup * prog A).
Arguments Return {A} r.
Arguments Atomic {A} m.

Fixpoint prog_try {A B} (p : prog A) (f : res A → prog B) : prog B :=
  match p with
  | Return r => f r
  | Atomic m => Atomic (fun u => let '(u', q) := m u in (u', prog_try q f))
  end.

#[global] Instance prog_ret : MRet prog := fun A a => Return (Ok a).
#[global] Instance prog_bind : MBind prog := fun A B f p =>
  prog_try p (fun r => match r with Ok a => f a | Err e => Return (Err e) end).

(** [with self.lock: m]. *)
Definition locked {A} (m : M A) : prog A :=
  Atomic (fun u => let '(u', r) := m u in (u', Return r)).

(** [try: p  except Exception as e: h (e); raise]. *)
Definition prog_except {A} (p : prog A) (h : exn → prog unit) : prog A :=
  prog_try p (fun r => match r with
                       | Ok a => Return (Ok a)
                       | Err e => prog_try (h e) (fun r' => match r' with
                                                            | Ok _ => Return (Err e)
                                                            | Err e' => Return (Err e')
                                                            end)
                       end).

(** [try: p  finally: with self.lock: m], [m] not raising. *)
Definition prog_finally {A} (p : prog A) (m : M unit) : prog A :=
  prog_try p (fun r => prog_try (locked m) (fun _ => Return r)).

Section supervisor.
Context (st : Settings).

(** [self.slots[identity]]. *)
Definition slot_of (i : string) : option Slot :=
  List.find (fun s => bool_decide (slot_id s = i)) (rev (slots st)).

(** [Supervisor.offer]. *)
Definition current_offer (u : sup) : res Offer :=
  some_or (l_offer (u_ledger u)) (Conflict "The retained local contribution offer is absent.").

(** [Supervisor.ctx]. *)
Definition ctx_of (a : attempt) : res Ctx :=
  i ← some_or (a_slot a) (Conflict "The attempt storage has already been released.");
  slot ← some_or (slot_of i) (OtherError "KeyError");
  let c := context st slot (a_plan a) (a_digest a) (a_binding a) in
  Ok (mkCtx (c_plan c) (c_digest c) (c_slot c) (c_binding c) (c_directory c) (c_unit c)
        (c_description c) (c_cgroup c) (c_supervisor c)
        (capabilities (inputs_root slot (a_plan a)) (a_plan a) (progress_of a))
        (if has_prepared a then a_prepared_runtime a else None)).

(** [Supervisor.current]: the authority to go on at this reading. *)
Definition current (u : sup) (a : attempt) (now : Reading) : res unit :=
  raise_if (negb (active (a_sequence a) (a_expires_at a) (a_timing a) now))
    (Conflict "execution_lease_expired") ;;
  raise_if (stop_pending a) (Conflict "execution_stop_requested") ;;
  o ← current_offer u;
  reason ← refusal o (project_id (a_plan a)) (job (a_plan a)) (wall now) true;
  match reason with Some reason => Err (Conflict reason) | None => Ok tt end.

(** [Supervisor.check]. *)
Definition check (u : sup) (f : Fence) (now : Reading) : res attempt :=
  a ← fenced (u_ledger u) f;
  current u a now ;;
  Ok a.

(** [Supervisor.bind]. *)
Definition bind (u : sup) (b : Bound) : res unit :=
  raise_if (negb (bool_decide (b_installation b = installation_id st))
            || negb (bool_decide (b_ledger b = l_identity (u_ledger u)))
            || negb (b_version b =? 1)%Z)
    (Conflict "The admission request belongs to another installation or ledger.").

(** ** Preparation *)

(** The slots [prepare] may choose: unheld, within the job's admitted storage and
    large enough for its inputs. *)
Definition choices (u : sup) (p : Plan) : list Slot :=
  let held := omap a_slot (retained (u_ledger u)) in
  List.filter (fun s => negb (bool_decide (slot_id s ∈ held))
                        && (slot_bytes s <=? storage_bytes (limits (job p)))%Z
                        && (slot_inodes s <=? storage_inodes (limits (job p)))%Z
                        && (sumZ object_bytes (inputs (job p)) <=? slot_bytes s)%Z)
    (slots st).

(** [(storage_bytes, storage_inodes, id)]. *)
Definition slot_le (a b : Slot) : bool :=
  (slot_bytes a <? slot_bytes b)%Z
  || (slot_bytes a =? slot_bytes b)%Z
     && ((slot_inodes a <? slot_inodes b)%Z
         || (slot_inodes a =? slot_inodes b)%Z && String.leb (slot_id a) (slot_id b)).

(** [sorted (choices, ...)[0]]: the first minimum. *)
Fixpoint smallest (l : list Slot) : option Slot :=
  match l with
  | [] => None
  | a :: l => match smallest l with
              | None => Some a
              | Some b => if slot_le a b then Some a else Some b
              end
  end.

(** [queue_preparation]. *)
Definition queue_preparation (a : attempt) : M unit :=
  let i := attempt_id (a_plan a) in
  waiting ← gets (fun u => match u_pending u !! i with Some _ => true | None => false end);
  if (waiting : bool) || negb (bool_decide (a_state a = Prepared)) || has_prepared a || stop_pending a
  then mret tt
  else
    lift (ctx_of a) ;;
    if negb (bool_decide (references (a_plan a) = []))
       && match a_input_progress a with None => true | Some _ => false end
    then modify (fun u => with_pending u (<[i := PendingInputs]> (u_pending u)))
    else when (complete (a_plan a) (progress_of a))
           (modify (fun u => with_pending u (<[i := PendingPrepare]> (u_pending u)))).

(** [except (Conflict, ValueError, OSError)]. *)
Definition refusable (e : exn) : bool := is_conflict e || is_value_error e || is_os_error e.

(** The body of the [try] of [prepare]. *)
Definition reserve_slot (adm : Admission) (w : world) : M (attempt * bool) :=
  found ← gets (fun u => smallest (choices u (adm_plan adm)));
  slot ← lift (some_or found
           (Conflict "No available finite storage slot fits this job's admitted maximum."));
  binding ← lift (w_probe w slot None true);
  on_ledger (fun l => admit_ l adm (slot_id slot) binding (w_now w) (maximum_lease_seconds st)).

(** [Supervisor.prepare]: [later] is the reading of the refusal. *)
Definition prepare (adm : Admission) (w : world) (later : Reading) : M attempt :=
  let p := adm_plan adm in
  lift (check_identity st p) ;;
  before ← gets (fun u => get (u_ledger u) (attempt_id p));
  match before with
  | Some _ => u ← gets id; lift (fenced (u_ledger u) (plan_fence p))
  | None =>
      admitted ← catch (inl <$> reserve_slot adm w)
        (fun e => if refusable e
                  then inr <$> on_ledger (fun l => reject l p (wall later) None)
                  else raise e);
      match admitted with
      | inl (a, fresh) => when fresh (queue_preparation a) ;; mret a
      | inr a => mret a
      end
  end.

(** [self.check (asked)], called outside the lock. *)
Definition checked (f : Fence) (now : Reading) : M attempt := fun u => (u, check u f now).

(** [prepare_runtime], run by the pool with the [check] of its context. *)
Definition prepare_runtime (c : Ctx) (f : Fence) (w1 w2 : world) : prog json :=
  locked (checked f (w_now w1)) ;;
  probed ← Return (w_call w1 Probe c);
  Return (raise_if (negb (ob_ready probed))
            (ValueError "The installed runtime is not ready for this attempt.")) ;;
  locked (checked f (w_now w2)) ;;
  Return (ob_document <$> w_call w2 PrepareRuntime c).

(** ** Inputs *)

(** [input_record]. *)
Definition input_record (u : sup) (f : Fence) (object : string) (now : Reading)
    : res (attempt * ObjectReference * Receipt) :=
  a ← check u f now;
  raise_if (negb (bool_decide (a_state a = Prepared))) (Conflict "input_not_prepared") ;;
  o ← some_or (List.find (fun o => bool_decide (object_id o = object)) (references (a_plan a)))
        (Conflict "input_not_declared");
  r ← some_or (progress_of a !! object) (Conflict "inputs_preparing");
  Ok (a, o, r).

Record input_report := mkInputReport {
  ir_object : string; ir_offset : Z; ir_bytes : Z; ir_digest : string; ir_complete : bool }.

(** [input_status]. *)
Definition input_status (f : Fence) (object : string) (now : Reading) : M input_report :=
  u ← gets id;
  '(_, o, r) ← lift (input_record u f object now);
  mret (mkInputReport (object_id o) (rc_offset r) (object_bytes o) (object_digest o) (rc_complete r)).

(** ** Finishing *)

(** The outcome [finish] decides while the processes are provably gone. *)
Definition observed_result (a : attempt) (reason : option string) (ob : Observation)
    : res AttemptResult :=
  '(state, code, reason) ←
    (if bool_decide (ob_phase ob = Some "finished") && a_payload_released a then
       code ← some_or (ob_exit ob) (OtherError "KeyError");
       Ok (if bool_decide (code = Some 0%Z) then Succeeded else Failed, code, None)
     else if bool_decide (reason = Some "cancelled") then Ok (Cancelled, None, reason)
     else if bool_decide (reason = Some "expired") then Ok (Expired, None, reason)
     else if bool_decide (reason = Some "prepare_failed") then Ok (Failed, None, reason)
     else Ok (Unknown, None, reason));
  let r := mkResult (fence a) state reason code (default 0%Z (ob_stdout ob))
             (default 0%Z (ob_stderr ob)) true in
  raise_if (negb (result_ok r)) validation_error ;;
  Ok r.

(** The body of the [try] of [finish]. *)
Definition stop_and_judge (a : attempt) (c : Ctx) (reason : option string) (ob : Observation)
    (w : world) : res AttemptResult :=
  w_stop w c ;;
  w_probe w (c_slot c) (a_binding a) true ;;
  let '(ob, reason) :=
    if has_prepared a then
      match w_call w StopRuntime c with
      | Ok stopped => (if bool_decide (ob_phase stopped = Some "finished") then stopped else ob, reason)
      | Err _ => (ob, Some "runtime_outcome_unknown")
      end
    else (ob, reason) in
  observed_result a reason ob.

Definition unconfirmed (a : attempt) : AttemptResult :=
  mkResult (fence a) Unknown (Some "cleanup_unconfirmed") None 0 0 false.

(** A cleanup retry keeps the recorded uncertain outcome. *)
Definition keep_uncertain (a : attempt) (r : AttemptResult) : AttemptResult :=
  if bool_decide (a_state a = Unknown) then
    mkResult (r_fence r) (a_state a) (a_reason a) (a_exit_code a) (a_output_bytes a)
      (a_error_bytes a) (r_cleanup_confirmed r)
  else r.

Definition is_stop_pending (e : exn) : bool := match e with StopPending _ => true | _ => false end.

Definition ten_seconds : float := f_of_Z 10.

(** [reason or default]. *)
Definition reason_or (reason : option string) (d : string) : string :=
  match reason with Some r => if bool_decide (r = "") then d else r | None => d end.

Definition ledger_unit (r : res ledger) : res (ledger * unit) := l ← r; Ok (l, tt).

(** What the ledger records at the end of [finish]. *)
Definition record_result (a : attempt) (r : AttemptResult) : M unit :=
  let r := keep_uncertain a r in
  on_ledger (fun l => ledger_unit (Ledger.finish l r)) ;;
  when (r_cleanup_confirmed r)
    (modify (fun u => with_cleanup u (delete (attempt_id (a_plan a)) (u_cleanup u)))).

(** The [except StopPending] branch: the kernel has been asked to stop. *)
Definition await_stop (a : attempt) (reason : option string) (w : world) : M unit :=
  let i := attempt_id (a_plan a) in
  started ← gets (fun u => default (w_monotonic w) (u_cleanup u !! i));
  modify (fun u => with_cleanup u (<[i := started]> (u_cleanup u))) ;;
  lift (raise_if (f_le ten_seconds (f_sub (w_monotonic w) started))
          (ValueError "Workload cleanup exceeded its ten-second bound; stop the supervisor.")) ;;
  when (negb (stop_pending a) && negb (bool_decide (a_state a = Unknown)))
    (on_ledger (fun l => annotate l (fence a)
                           (PendingStop (reason_or reason "runtime_outcome_unknown"))) ;;
     mret tt).

(** [Supervisor.finish]. *)
Definition finish (a : attempt) (reason : option string) (w : world) : M unit :=
  if bool_decide (a_state a = Unknown) && a_cleanup a then mret tt
  else
    c ← lift (ctx_of a);
    let '(ob, reason) :=
      if has_prepared a then
        match w_call w ObserveRuntime c with
        | Ok ob => (ob, reason)
        | Err _ => (no_observation, Some "runtime_outcome_unknown")
        end
      else (no_observation, reason) in
    match stop_and_judge a c reason ob w with
    | Ok r => record_result a r
    | Err e => if is_stop_pending e then await_stop a reason w else record_result a (unconfirmed a)
    end.

(** [request_stop]. *)
Definition request_stop (f : Fence) (reason : string) (w : world) : M attempt :=
  u ← gets id;
  a ← lift (fenced (u_ledger u) f);
  if terminal (a_state a) || bool_decide (a_state a = Released)
     || bool_decide (a_state a = Unknown) && a_cleanup a
  then mret a
  else
    when (negb (bool_decide (a_state a = Unknown)))
      (on_ledger (fun l => annotate l f (PendingStop reason)) ;; mret tt) ;;
    waiting ← gets (fun u => match u_pending u !! f_attempt_id f with Some _ => true | None => false end);
    when (negb waiting) (finish a (Some reason) w) ;;
    u ← gets id;
    lift (some_or (get (u_ledger u) (f_attempt_id f)) (OtherError "None")).

(** The handler of [input_write]. *)
Definition stop_after_failure (f : Fence) (e : exn) (w : world) : M unit :=
  u ← gets id;
  a ← lift (fenced (u_ledger u) f);
  let reason := match e with Conflict _ => "expired" | _ => "prepare_failed" end in
  request_stop f (reason_or (a_pending_stop a) reason) w ;;
  mret tt.

(** The first critical section of [input_write]: a repeated final chunk is
    answered at once. *)
Definition input_begin (c : InputChunk) (data : bytes) (now : Reading)
    : M (input_report + (ObjectReference * Receipt * Ctx * attempt)) :=
  let i := f_attempt_id (ic_fence c) in
  u ← gets id;
  '(a, o, r) ← lift (input_record u (ic_fence c) (ic_object c) now);
  lift (raise_if (bool_decide (i ∈ u_busy u)) (Conflict "input_busy")) ;;
  lift (raise_if (negb (ic_offset c =? rc_offset r)%Z) (Conflict "input_offset_changed")) ;;
  lift (raise_if ((object_bytes o - ic_offset c <? Z.of_nat (length data))%Z
                  || bool_decide (data = []) && negb (object_bytes o =? 0)%Z)
          (Conflict "input_size_mismatch")) ;;
  if rc_complete r then inl <$> input_status (ic_fence c) (ic_object c) now
  else
    modify (fun u => with_busy u ({[i]} ∪ u_busy u)) ;;
    ctx ← lift (ctx_of a);
    mret (inr (o, r, ctx, a)).

Definition staging_of (u : sup) (i : string) : staging := default (mkStaging ∅ ∅) (u_inputs u !! i).

(** [self.inputs.write (...)]: the attempt is in [input_busy], so no other thread
    touches its staged files; the checks inside answer from [wr]. *)
Definition write_chunk (i : string) (o : ObjectReference) (r : Receipt) (data : bytes) (wr : writing)
    : M (Receipt * bytes) := fun u =>
  let '(s, out) := write (staging_of u i) o r data wr in
  (with_inputs u (<[i := s]> (u_inputs u)), out).

(** The second critical section. *)
Definition input_commit (c : InputChunk) (o : ObjectReference) (saved : Receipt) (hashed : bytes)
    (now now' : Reading) : M input_report :=
  let i := f_attempt_id (ic_fence c) in
  u ← gets id;
  '(cur, _, _) ← lift (input_record u (ic_fence c) (ic_object c) now);
  a ← on_ledger (fun l => annotate l (ic_fence c)
                            (InputProgress (<[object_id o := saved]> (progress_of cur))));
  modify (fun u => with_inputs u
            (<[i := committed (staging_of u i) (object_id o) hashed]> (u_inputs u))) ;;
  queue_preparation a ;;
  input_status (ic_fence c) (ic_object c) now'.

(** [input_write]: [w1] is the world of the admission checks and the storage
    probe, [w2] and [w2'] the ones of the commit, [w3] the one of a failure. *)
Definition input_write (c : InputChunk) (wr : writing) (w1 w2 w2' w3 : world) : prog input_report :=
  data ← Return (String.list_ascii_of_string <$> chunk_decoded c);
  begun ← locked (input_begin c data (w_now w1));
  match begun with
  | inl report => mret report
  | inr (o, r, ctx, a) =>
      let i := f_attempt_id (ic_fence c) in
      prog_finally
        (prog_except
           (Return (w_probe w1 (c_slot ctx) (a_binding a) true) ;;
            '(saved, hashed) ← locked (write_chunk i o r data wr);
            locked (input_commit c o saved hashed (w_now w2) (w_now w2')))
           (fun e => locked (stop_after_failure (ic_fence c) e w3)))
        (modify (fun u => with_busy u (u_busy u ∖ {[i]})))
  end.

(** [Inputs.initialize], run by the pool for one attempt. *)
Definition initialize_inputs (i : string) (device_matches : bool) (first : res unit)
    (creations : list (ObjectReference * creation)) (last : res unit)
    : prog (gmap string Receipt) :=
  locked (fun u =>
    match initialize device_matches first (staging_of u i) creations last with
    | Ok (s, progress) => (with_inputs u (<[i := s]> (u_inputs u)), Ok progress)
    | Err e => (u, Err e)
    end).

(** ** Absent attempts *)

(** The scan of [reject_absent (legacy=True)]: every slot must be idle and free of
    traces of the attempt. *)
Definition absent_observation (p : Plan) (w : world) (slot : Slot) : res json :=
  binding ← w_probe w slot None true;
  let c := context st slot p (plan_digest p) (Some binding) in
  raise_if (w_exists w (c_directory c) || w_exists w (inputs_root slot p))
    (Conflict "The absent attempt has retained storage. Inspect it before reconciliation.") ;;
  workload ← w_idle w c;
  Ok (JObj [("binding", binding); ("workload", workload)]).

(** [reject_absent]. *)
Definition reject_absent (p : Plan) (legacy : bool) (w : world) : M attempt :=
  lift (check_identity st p) ;;
  u ← gets id;
  match get (u_ledger u) (attempt_id p) with
  | Some _ => lift (fenced (u_ledger u) (plan_fence p))
  | None =>
      observed ← lift (if legacy then l ← mapM (absent_observation p w) (slots st); Ok (Some (JArr l))
                       else Ok None);
      on_ledger (fun l => reject l p (wall (w_now w)) observed)
  end.

(** ** Starting *)

(** [start]. *)
Definition start (f : Fence) (now : Reading) : M attempt :=
  u ← gets id;
  a ← lift (fenced (u_ledger u) f);
  lift (raise_if (bool_decide (a_state a = Prepared) && negb (has_prepared a))
          (Conflict "runtime_preparing")) ;;
  '(a, first) ← on_ledger (fun l => start_requested l f now);
  when first (modify (fun u => with_pending u (<[f_attempt_id f := PendingStart]> (u_pending u)))) ;;
  mret a.

(** [launch], run by the pool; [envelope] is [envelope.launch]. *)
Definition launch (f : Fence) (w : world) (now2 now3 : Reading)
    (envelope : Ctx → Observation → res unit) : prog Observation :=
  a ← locked (checked f (w_now w));
  c ← Return (ctx_of a);
  Return (w_probe w (c_slot c) (a_binding a) true) ;;
  prepared ← Return (w_call w StartRuntime c);
  locked (checked f now2) ;;
  Return (envelope c prepared) ;;
  locked (checked f now3) ;;
  mret prepared.

(** [renew]. *)
Definition renew (n : Renewal) (now : Reading) : M attempt :=
  u ← gets id;
  a ← lift (fenced (u_ledger u) (n_fence n));
  lift (raise_if (stop_pending a) (Conflict "An execution stop is already pending.")) ;;
  on_ledger (fun l => Ledger.renew l n now (maximum_lease_seconds st)).

(** ** Offers *)

(** The attempts a stopped offer cancels. *)
Definition to_cancel (l : ledger) : list attempt :=
  List.filter (fun a => negb (terminal (a_state a)) && negb (bool_decide (a_state a = Unknown))
                        && negb (bool_decide (a_state a = Released)) && negb (stop_pending a))
    (retained l).

(** [set_offer], one transaction. *)
Definition set_offer (expected : Z) (proposed : OfferSettings) (c : control) : M Offer :=
  on_ledger (fun l =>
    validate_offer proposed (ceiling st) ;;
    let o := mkOffer proposed (expected + 1) (s_mode st) c in
    l ← save_offer l o expected;
    l ← (if bool_decide (c = Stopped) then
           foldM (fun l a => fst <$> annotate l (fence a) (PendingStop "cancelled")) l (to_cancel l)
         else Ok l);
    Ok (l, o)).

(** ** Output and release *)

Inductive collected :=
| RejectedOutput (object : string) (identity : string)
| ProviderOutput (document : json).

(** [collect]. *)
Definition collect (r : Read) (w : world) : M collected :=
  u ← gets id;
  a ← lift (fenced (u_ledger u) (rd_fence r));
  if negb (held a) && match a_rejection a with Some _ => true | None => false end
     && negb (bool_decide (a_state a = Released)) then
    lift (raise_if (negb (bool_decide (rd_object r = "stdout")) && negb (bool_decide (rd_object r = "stderr"))
                    || negb (rd_offset r =? 0)%Z)
            (Conflict "This rejected attempt has no stored output at that position.")) ;;
    mret (RejectedOutput (rd_object r)
            (digest (JObj [("rejected_plan", JStr (a_digest a)); ("object", JStr (rd_object r))])))
  else
    c ← lift (ctx_of a);
    lift (w_probe w (c_slot c) (a_binding a) false) ;;
    ob ← lift (w_call w CollectRuntime c);
    mret (ProviderOutput (ob_document ob)).

Definition unconfirmed_conflict : exn :=
  Conflict "The attempt outcome or cleanup remains unconfirmed.".

(** The first critical section of [release]: [inl] when there is no storage to
    give back. *)
Definition release_begin (f : Fence) : M (attempt + (attempt * Ctx)) :=
  let i := f_attempt_id f in
  u ← gets id;
  a ← lift (fenced (u_ledger u) f);
  if bool_decide (a_state a = Released) then mret (inl a)
  else
    lift (raise_if (negb (terminal (a_state a) || bool_decide (a_state a = Unknown))
                    || negb (a_cleanup a)
                    || match u_pending u !! i with Some _ => true | None => false end
                    || bool_decide (i ∈ u_busy u) || bool_decide (i ∈ u_releasing u))
            unconfirmed_conflict) ;;
    if negb (held a) && match a_rejection a with Some _ => true | None => false end
    then inl <$> on_ledger (fun l => Ledger.release l f)
    else
      c ← lift (ctx_of a);
      modify (fun u => with_releasing u ({[i]} ∪ u_releasing u)) ;;
      mret (inr (a, c)).

(** The second one. *)
Definition release_commit (f : Fence) (a : attempt) : M attempt :=
  u ← gets id;
  cur ← lift (fenced (u_ledger u) f);
  lift (raise_if (negb (bool_decide (a_slot cur = a_slot a)) || negb (bool_decide (a_binding cur = a_binding a)))
          (Conflict "The retained storage binding changed during release.")) ;;
  on_ledger (fun l => Ledger.release l f).

(** [release]: [deleted] is the removal of the staged inputs. *)
Definition release (f : Fence) (w1 w2 : world) (deleted : res unit) : prog attempt :=
  let i := f_attempt_id f in
  begun ← locked (release_begin f);
  match begun with
  | inl a => mret a
  | inr (a, c) =>
      prog_finally
        (Return (w_probe w1 (c_slot c) (a_binding a) true) ;;
         Return (w_call w1 ReleaseRuntime c) ;;
         (if bool_decide (references (a_plan a) = []) then mret tt
          else Return deleted ;;
               locked (modify (fun u => with_inputs u (delete i (u_inputs u))))) ;;
         Return (w_probe w2 (c_slot c) (a_binding a) true) ;;
         locked (release_commit f a))
        (modify (fun u => with_releasing u (u_releasing u ∖ {[i]})))
  end.

(** ** Snapshots *)

Record slot_report := mkSlotReport { sr_slot : Slot; sr_reason : option string }.

Record snapshot_report := mkSnapshot {
  sn_ledger : string; sn_offer : Offer; sn_slots : list slot_report; sn_available : Limits;
  sn_attempts : list public_attempt; sn_next : option string }.

(** Resources of the offer that no held attempt uses. *)
Definition remaining (ceiling : Limits) (kept : list attempt) (r : resource) : Z :=
  let counted := if bool_decide (r ∈ storage_resources) then kept
                 else List.filter (fun a => negb (a_cleanup a)) kept in
  Z.max 0 (amount ceiling r - used r counted).

Definition available_limits (ceiling : Limits) (kept : list attempt) : Limits :=
  let occupied := List.filter (fun a => negb (a_cleanup a)) kept ≫=
                  (fun a => gpu_devices (limits (job (a_plan a)))) in
  mkLimits (remaining ceiling kept CpuMillis) (remaining ceiling kept MemoryBytes)
    (remaining ceiling kept SwapBytes) (remaining ceiling kept Processes)
    (remaining ceiling kept StorageBytes) (remaining ceiling kept StorageInodes)
    (List.filter (fun d => negb (bool_decide (d ∈ occupied))) (gpu_devices ceiling)).

Definition slot_state (u : sup) (w : world) (slot : Slot) : slot_report :=
  if existsb (fun a => bool_decide (a_slot a = Some (slot_id slot))) (retained (u_ledger u))
  then mkSlotReport slot (Some "reservation_retained")
  else match w_probe w slot None true with
       | Ok _ => mkSlotReport slot None
       | Err _ => mkSlotReport slot (Some "slot_unavailable")
       end.

(** [snapshot (after)]. *)
Definition snapshot (u : sup) (after : option string) (w : world) : res snapshot_report :=
  let '(attempts, more) := page (u_ledger u) after 64 in
  o ← current_offer u;
  published ← mapM public attempts;
  Ok (mkSnapshot (l_identity (u_ledger u)) o (map (slot_state u w) (slots st))
        (available_limits (o_limits (settings o)) (retained (u_ledger u))) published
        (if more : bool then row_id <$> last attempts else None)).
End supervisor.
