(* ===== verification/Monitor.v ===== *)
(** * The lease monitor

    [execution/monitor.py]: harvesting finished pool operations, the periodic
    tick that fences expired or withdrawn work, the observation of running
    attempts and the two-step release of the payload barrier.  The order of the
    pending dictionary and the results of its futures are arguments. *)

From Stdlib Require Import SpecFloat.
From S2P Require Import Prelude Float64 Json Clock Spec Offer Ledger LedgerStep Samples Settings Protocol Inputs Supervisor.

(** [stop_reason (value, error, default)]. *)
Definition stop_reason (a : attempt) (e : exn) (d : string) : string :=
  if stop_pending a then default d (a_pending_stop a)
  else if is_conflict e then
    if bool_decide (exn_message e = "local_stopped") then "cancelled"
    else if bool_decide (exn_message e = "execution_lease_expired") then "expired"
    else d
  else d.

(** What a finished pool operation returned. *)
Inductive product := Document (j : json) | Progress (p : gmap string Receipt) | Nothing.

Definition failure_reason (k : pending) : string :=
  match k with
  | PendingPrepare | PendingInputs => "prepare_failed"
  | EngineBarrier | PayloadBarrier => "runtime_boundary_failed"
  | PendingStart => "start_unconfirmed"
  end.

Section monitor.
Context (st : Settings).

(** The [try] of [harvest] for one finished operation. *)
Definition absorb (a : attempt) (k : pending) (result : res product) (now : Reading) : M unit :=
  out ← lift result;
  u ← gets id;
  lift (current u a now) ;;
  match k, out with
  | PendingPrepare, Document j =>
      on_ledger (fun l => annotate l (fence a) (PreparedRuntime j)) ;; mret tt
  | PendingInputs, Progress p =>
      a' ← on_ledger (fun l => annotate l (fence a) (InputProgress p));
      queue_preparation st a'
  | _, _ => mret tt
  end.

(** The loop body of [harvest] for an operation whose future is done. *)
Definition harvest_one (i : string) (k : pending) (result : res product) (w : world) : M unit :=
  modify (fun u => with_pending u (delete i (u_pending u))) ;;
  u ← gets id;
  a ← lift (some_or (get (u_ledger u) i) (OtherError "NoneType"));
  catch (absorb a k result (w_now w))
    (fun e => finish st a (Some (stop_reason a e (failure_reason k))) w).

(** [harvest]: [order] lists the items of the pending dictionary, [done] the
    futures that have completed. *)
Fixpoint harvest (order : list (string * pending)) (done : string → option (res product)) (w : world)
    : M unit :=
  match order with
  | [] => mret tt
  | (i, k) :: order =>
      match done i with
      | None => mret tt
      | Some result => harvest_one i k result w
      end ;;
      harvest order done w
  end.

(** [json["key"]] as a list of texts. *)
Definition json_texts (j : json) (key : string) : res (list string) :=
  match j with
  | JObj fields =>
      match List.find (fun f => bool_decide (f.1 = key)) fields with
      | Some (_, JArr l) =>
          mapM (fun x => match x with JStr s => Ok s | _ => Err (OtherError "TypeError") end) l
      | Some _ => Err (OtherError "TypeError")
      | None => Err (OtherError "KeyError")
      end
  | _ => Err (OtherError "TypeError")
  end.

(** The devices the payload must and must not open, with their error numbers. *)
Definition expected_devices (prepared : json) : res (list (string * Z)) :=
  positive ← json_texts prepared "positive_devices";
  negative ← json_texts prepared "negative_devices";
  Ok (map (fun n => (n, 0%Z)) positive ++ map (fun n => (n, 1%Z)) negative).

Definition unit_gone (n : Unit) : bool :=
  bool_decide (un_load n = Some "not-found")
  || bool_decide (un_active n = Some "failed") || bool_decide (un_active n = Some "inactive")
  || negb (bool_decide (default "0" (un_exited n) = "") || bool_decide (default "0" (un_exited n) = "0")).

(** [observe (value)]. *)
Definition observe (a : attempt) (w wf : world) : M unit :=
  let i := attempt_id (a_plan a) in
  c ← lift (ctx_of st a);
  ob ← lift (w_call w ObserveRuntime c);
  unit ← lift (w_inspect w c);
  phase ← lift (some_or (ob_phase ob) (OtherError "KeyError"));
  if bool_decide (phase = "finished") then finish st a None wf
  else if unit_gone unit then finish st a (Some "runtime_outcome_unknown") wf
  else if bool_decide (phase = "ready") && negb (a_engine_released a) then
    rows ← lift (some_or (ob_device_probe ob) (OtherError "KeyError"));
    prepared ← lift (some_or (a_prepared_runtime a) (OtherError "KeyError"));
    expected ← lift (expected_devices prepared);
    lift (raise_if (negb (bool_decide (rows = expected)))
            (ValueError "The actual ancestor device access differs from the approved device set.")) ;;
    modify (fun u => with_pending u (<[i := EngineBarrier]> (u_pending u)))
  else if bool_decide (phase = "payload") && negb (a_payload_released a) then
    lift (some_or (ob_payload_pid ob) (OtherError "KeyError")) ;;
    modify (fun u => with_pending u (<[i := PayloadBarrier]> (u_pending u)))
  else mret tt.

Definition launching (k : pending) : bool :=
  match k with PendingStart | EngineBarrier | PayloadBarrier => true | _ => false end.

Definition unknown_branch (a : attempt) (w wf : world) : M unit :=
  let i := attempt_id (a_plan a) in
  finish st a (a_reason a) wf ;;
  u ← gets id;
  b ← lift (some_or (get (u_ledger u) i) (OtherError "NoneType"));
  if negb (a_cleanup b) && match u_cleanup u !! i with Some _ => false | None => true end then
    c ← lift (ctx_of st a);
    unit ← lift (w_inspect w c);
    lift (raise_if (negb (bool_decide (un_active unit = None)
                          || bool_decide (un_active unit = Some "inactive")
                          || bool_decide (un_active unit = Some "failed"))
                    || w_processes w (slot_uid (c_slot c)))
            (ValueError "Workload cleanup is unconfirmed. Stop the supervisor and its dependent attempts."))
  else mret tt.

(** The authority of an active attempt is gone. *)
Definition fence_branch (a : attempt) (e : exn) (w wf : world) : M unit :=
  let i := attempt_id (a_plan a) in
  let reason := stop_reason a e "expired" in
  on_ledger (fun l => annotate l (fence a) (PendingStop reason)) ;;
  u ← gets id;
  match u_pending u !! i with
  | Some k =>
      if launching k then
        c ← lift (ctx_of st a);
        lift (w_stop w c) ;;
        raise (ValueError "An in-flight runtime launch lost its lease. Stop the supervisor.")
      else mret tt
  | None => finish st a (Some reason) wf
  end.

(** The loop body of [tick] for one retained attempt. *)
Definition tick_one (a : attempt) (w wf : world) : M unit :=
  if bool_decide (a_state a = Unknown) && negb (a_cleanup a) then unknown_branch a w wf
  else if terminal (a_state a) || bool_decide (a_state a = Released) || bool_decide (a_state a = Unknown)
  then mret tt
  else
    u ← gets id;
    match current u a (w_now w) with
    | Err e => fence_branch a e w wf
    | Ok _ =>
        if match u_pending u !! attempt_id (a_plan a) with Some _ => true | None => false end
           || bool_decide (a_state a = Prepared)
        then mret tt
        else catch (observe a w wf) (fun _ => finish st a (Some "runtime_boundary_failed") wf)
    end.

Fixpoint tick_all (l : list attempt) (w wf : world) : M unit :=
  match l with
  | [] => mret tt
  | a :: l => tick_one a w wf ;; tick_all l w wf
  end.

(** [tick]. *)
Definition tick (order : list (string * pending)) (done : string → option (res product))
    (w wf : world) : M unit :=
  harvest order done w ;;
  u ← gets id;
  tick_all (retained (u_ledger u)) w wf.

(** [recover]: nothing survives a restart of the supervisor unobserved. *)
Fixpoint recover_all (l : list attempt) (w : world) : M unit :=
  match l with
  | [] => mret tt
  | a :: l =>
      when (negb (terminal (a_state a)) && negb (a_cleanup a))
        (finish st a (Some "supervisor_restarted") w) ;;
      recover_all l w
  end.

Definition recover (w : world) : M unit :=
  u ← gets id;
  recover_all (retained (u_ledger u)) w ;;
  modify (fun u => mkSup (u_ledger u) (u_pending u) (u_cleanup u) (u_releasing u) (u_busy u)
                     (u_inputs u) true).

(** ** The barrier *)

(** [marker (path, check)]: [intact] is [None] when the file does not exist, and
    whether its contents are the release marker otherwise. *)
Definition marker (intact : option bool) (check : prog unit) (publish : res unit) : prog unit :=
  match intact with
  | Some b => Return (raise_if (negb b) (ValueError "The payload release marker changed."))
  | None => check ;; Return publish
  end.

(** [with s.lock: s.check (asked); s.ledger.started (asked, inspected)]. *)
Definition record_started (f : Fence) (inspected : json) (now : Reading) : M unit :=
  checked f now ;;
  on_ledger (fun l => ledger_unit (started l f inspected)).

(** [with s.lock: s.check (asked); s.ledger.annotate (asked, ...)]. *)
Definition record_released (f : Fence) (payload : bool) (now : Reading) : M unit :=
  checked f now ;;
  on_ledger (fun l => annotate l f (if payload then PayloadReleased else EngineReleased)) ;;
  mret tt.

(** [release (value, pid)], run by the pool: [controls] and [gate] are the
    envelope's and the payload gate's answers, the readings are those of its
    successive checks. *)
Definition release_barrier (a : attempt) (pid : option Z) (w : world) (now2 now3 now4 : Reading)
    (controls : res unit) (gate : res json) (intact : option bool) (publish : res unit)
    : prog unit :=
  c ← Return (ctx_of st a);
  locked (checked (fence a) (w_now w)) ;;
  Return controls ;;
  match pid with
  | Some _ =>
      inspected ← Return gate;
      Return (w_probe w (c_slot c) (a_binding a) false) ;;
      locked (record_started (fence a) inspected now2)
  | None => mret tt
  end ;;
  marker intact (locked (checked (fence a) now3) ;; mret tt) publish ;;
  locked (record_released (fence a) (match pid with Some _ => true | None => false end) now4).
End monitor.
