(* ===== verification/SupervisorProtocol.v ===== *)
(** * The supervisor follows the ledger protocol

    A Hoare logic for the supervisor's critical sections: [triple] says that a
    section changes the ledger only by lawful operations satisfying [Q], and what
    holds when it returns or raises.  Every method of [Supervisor] and [Monitor]
    has its triple. *)

From Stdlib Require Import SpecFloat.
From S2P Require Import Prelude Float64 Json Clock Spec Offer Ledger LedgerStep Samples LedgerProps Settings Protocol Inputs LedgerProtocol Supervisor Monitor.

(** ** Triples *)

Definition triple {A} (Q : lop → Prop) (P : sup → Prop) (m : M A) (R : sup → res A → Prop) : Prop :=
  ∀ u u' r, wf (u_ledger u) → P u → m u = (u', r) →
    protocol Q (u_ledger u) (u_ledger u') ∧ R u' r.

(** Nothing is assumed and nothing promised but the protocol. *)
Definition obeys {A} (Q : lop → Prop) (m : M A) : Prop := triple Q (fun _ => True) m (fun _ _ => True).

Definition any_post {A} : sup → res A → Prop := fun _ _ => True.

(** A property of the ledger that holds when the section returns. *)
Definition returning {A} (P : ledger → Prop) : sup → res A → Prop :=
  fun u r => is_ok r = true → P (u_ledger u).

(** The operations that name one attempt. *)
Definition on_attempt (i : string) (op : lop) : Prop := target op = Some i.

Lemma triple_weaken {A} (Q Q' : lop → Prop) P P' (m : M A) (R R' : sup → res A → Prop) :
  (∀ op, Q op → Q' op) → (∀ u, P' u → P u) → (∀ u r, R u r → R' u r) →
  triple Q P m R → triple Q' P' m R'.
Proof.
  intros HQ HP HR Ht u u' r Hwf Hu H. destruct (Ht u u' r Hwf (HP _ Hu) H) as [Hp Hr].
  split; [by eapply protocol_weaken|auto].
Qed.

Lemma triple_pre {A} (Q : lop → Prop) (P P' : sup → Prop) (m : M A) R :
  (∀ u, P' u → P u) → triple Q P m R → triple Q P' m R.
Proof. intros HP Ht. by eapply triple_weaken; [..|exact Ht]. Qed.

Lemma triple_forget {A} (Q : lop → Prop) P (m : M A) R : triple Q P m R → triple Q P m any_post.
Proof. intros Ht. by eapply triple_weaken; [..|exact Ht]. Qed.

Lemma obeys_triple {A} (Q : lop → Prop) P (m : M A) R : triple Q P m R → (∀ u, P u) → obeys Q m.
Proof. intros Ht HP. by eapply triple_weaken; [..|exact Ht]. Qed.

Lemma obeys_weaken {A} (Q Q' : lop → Prop) (m : M A) :
  (∀ op, Q op → Q' op) → obeys Q m → obeys Q' m.
Proof. intros HQ. exact (triple_weaken _ _ _ _ _ _ _ HQ (fun _ H => H) (fun _ _ H => H)). Qed.

Section rules.
Context (Q : lop → Prop).

(** Sections that leave the ledger alone. *)
Lemma triple_same {A} (P : sup → Prop) (m : M A) (R : sup → res A → Prop) :
  (∀ u u' r, P u → m u = (u', r) → u_ledger u' = u_ledger u ∧ R u' r) → triple Q P m R.
Proof.
  intros H u u' r Hwf Hu Hm. destruct (H u u' r Hu Hm) as [-> HR]. split; [constructor|done].
Qed.

Lemma triple_bind {A B} (P : sup → Prop) (m : M A) (f : A → M B) (R : sup → res A → Prop)
    (S : sup → res B → Prop) :
  triple Q P m R → (∀ a, triple Q (fun u => R u (Ok a)) (f a) S) →
  (∀ u e, R u (Err e) → S u (Err e)) → triple Q P (m ≫= f) S.
Proof.
  intros Hm Hf He u u' r Hwf Hu H. unfold mbind, M_bind in H.
  destruct (m u) as [u1 [a|e]] eqn:Hmu; destruct (Hm _ _ _ Hwf Hu Hmu) as [Hp HR].
  - destruct (Hf a u1 u' r) as [Hp' HS]; [by eapply protocol_wf|done..|].
    split; [by eapply protocol_trans|done].
  - injection H as <- <-. split; [done|]. by apply He.
Qed.

Lemma triple_catch {A} (P : sup → Prop) (m : M A) (h : exn → M A) (R S : sup → res A → Prop) :
  triple Q P m R → (∀ e, triple Q (fun u => R u (Err e)) (h e) S) →
  (∀ u a, R u (Ok a) → S u (Ok a)) → triple Q P (catch m h) S.
Proof.
  intros Hm Hh Ha u u' r Hwf Hu H. unfold catch in H.
  destruct (m u) as [u1 [a|e]] eqn:Hmu; destruct (Hm _ _ _ Hwf Hu Hmu) as [Hp HR].
  - injection H as <- <-. split; [done|]. by apply Ha.
  - destruct (Hh e u1 u' r) as [Hp' HS]; [by eapply protocol_wf|done..|].
    split; [by eapply protocol_trans|done].
Qed.

(** A ledger method that executes one lawful operation. *)
Lemma triple_ledger {A} (P : sup → Prop) (f : ledger → res (ledger * A)) (R : sup → res A → Prop) :
  (∀ u l a, wf (u_ledger u) → P u → f (u_ledger u) = Ok (l, a) →
     protocol Q (u_ledger u) l ∧ R (with_ledger u l) (Ok a)) →
  (∀ u e, P u → f (u_ledger u) = Err e → R u (Err e)) →
  triple Q P (on_ledger f) R.
Proof.
  intros Hok Herr u u' r Hwf Hu H. unfold on_ledger in H.
  destruct (f (u_ledger u)) as [[l a]|e] eqn:Hf; injection H as <- <-.
  - by apply Hok.
  - split; [constructor|]. by apply Herr.
Qed.

(** Reading the state, and raising or going on with a computed value. *)
Lemma triple_read {A} (P : sup → Prop) (k : sup → M A) (S : sup → res A → Prop) :
  (∀ u0, P u0 → wf (u_ledger u0) → triple Q (fun u => u = u0) (k u0) S) →
  triple Q P (gets id ≫= k) S.
Proof. intros H u u' r Hwf Hu Hm. by apply (H u Hu Hwf u u' r). Qed.

Lemma triple_gets {A B} (P : sup → Prop) (g : sup → A) (k : A → M B) (S : sup → res B → Prop) :
  (∀ x, triple Q P (k x) S) → triple Q P (gets g ≫= k) S.
Proof. intros H u u' r Hwf Hu Hm. by apply (H (g u) u u' r Hwf). Qed.

Lemma triple_lift {A B} (P : sup → Prop) (x : res A) (k : A → M B) (S : sup → res B → Prop) :
  (∀ a, x = Ok a → triple Q P (k a) S) → (∀ u e, P u → x = Err e → S u (Err e)) →
  triple Q P (lift x ≫= k) S.
Proof.
  intros Hk He u u' r Hwf Hu Hm. unfold mbind, M_bind, lift in Hm.
  destruct x as [a|e]; [by apply (Hk a eq_refl u u' r)|]. injection Hm as <- <-.
  split; [constructor|by apply He].
Qed.

Lemma triple_any {A} (P : sup → Prop) (m : M A) : obeys Q m → triple Q P m any_post.
Proof. intros H. by eapply triple_weaken; [..|exact H]. Qed.

Lemma obeys_bind {A B} (m : M A) (f : A → M B) :
  obeys Q m → (∀ a, obeys Q (f a)) → obeys Q (m ≫= f).
Proof. intros Hm Hf. by eapply triple_bind; [exact Hm|intros a; apply Hf|]. Qed.

Lemma obeys_catch {A} (m : M A) (h : exn → M A) :
  obeys Q m → (∀ e, obeys Q (h e)) → obeys Q (catch m h).
Proof. intros Hm Hh. by eapply triple_catch; [exact Hm|intros e; apply Hh|]. Qed.

Lemma obeys_pure {A} (m : M A) : (∀ u, u_ledger (m u).1 = u_ledger u) → obeys Q m.
Proof.
  intros H. apply triple_same. intros u u' r _ Hm. specialize (H u). rewrite Hm in H. done.
Qed.

Lemma obeys_fmap {A B} (g : A → B) (m : M A) : obeys Q m → obeys Q (g <$> m).
Proof.
  intros Hm u u' r Hwf _ H. unfold fmap, M_fmap in H.
  destruct (m u) as [u1 r1] eqn:Hmu. injection H as <- _. by eapply Hm in Hmu.
Qed.

Lemma obeys_when b m : obeys Q m → obeys Q (when b m).
Proof. intros H. destruct b; [done|]. by apply obeys_pure. Qed.

Lemma obeys_ledger {A} (f : ledger → res (ledger * A)) (op : lop) :
  (∀ l l' a, f l = Ok (l', a) → execute l op = Ok l') → (∀ l, lawful l op) → Q op →
  obeys Q (on_ledger f).
Proof.
  intros Hf Hlaw HQ. apply triple_ledger; [|done]. intros u l a _ _ H. split; [|done].
  eapply protocol_one; eauto.
Qed.
End rules.

Create HintDb obeys discriminated.
#[export] Hint Resolve obeys_when obeys_fmap : obeys.
#[export] Hint Extern 1 (obeys _ (lift _)) => (apply obeys_pure; reflexivity) : obeys.
#[export] Hint Extern 1 (obeys _ (gets _)) => (apply obeys_pure; reflexivity) : obeys.
#[export] Hint Extern 1 (obeys _ (raise _)) => (apply obeys_pure; reflexivity) : obeys.
#[export] Hint Extern 1 (obeys _ (mret _)) => (apply obeys_pure; reflexivity) : obeys.
#[export] Hint Extern 1 (obeys _ (modify _)) => (apply obeys_pure; reflexivity) : obeys.
#[export] Hint Extern 1 (obeys _ (checked _ _)) => (apply obeys_pure; reflexivity) : obeys.
#[export] Hint Extern 2 (obeys _ (_ ≫= _)) => (apply obeys_bind; [|intros ?]) : obeys.
#[export] Hint Extern 2 (obeys _ (catch _ _)) => (apply obeys_catch; [|intros ?]) : obeys.
#[export] Hint Extern 3 (obeys _ (match ?x with _ => _ end)) => (destruct x) : obeys.

Lemma execute_fst {A} (m : res (ledger * A)) l a : m = Ok (l, a) → fst <$> m = Ok l.
Proof. by intros ->. Qed.

(** Annotations other than the payload mark are always lawful. *)
Lemma obeys_annotate f n : n ≠ PayloadReleased →
  obeys (on_attempt (f_attempt_id f)) (on_ledger (fun l => annotate l f n)).
Proof.
  intros Hn. apply (obeys_ledger _ _ (DoAnnotate f n)); [|by destruct n|done].
  intros l l' a H. exact (execute_fst _ _ _ H).
Qed.
#[export] Hint Extern 1 (obeys _ (on_ledger (fun l => annotate l _ _))) =>
  (apply obeys_annotate; discriminate) : obeys.

(** ** Finishing an attempt *)

(** A copy of a stored attempt that is current in what [finish] relies on. *)
Definition fresh (l : ledger) (a : attempt) : Prop :=
  ∃ b, get l (attempt_id (a_plan a)) = Some b
    ∧ a_state b = a_state a ∧ a_cleanup b = a_cleanup a
    ∧ (a_payload_released a = true → a_payload_released b = true).

Lemma fresh_stored l i a : wf l → get l i = Some a → fresh l a.
Proof. intros Hwf Ha. exists a. by rewrite <- (wf_key _ Hwf _ _ Ha) in Ha. Qed.

Lemma fresh_fenced l f a : wf l → fenced l f = Ok a → fresh l a.
Proof. intros Hwf (Ha & _)%fenced_Ok. by eapply fresh_stored. Qed.

Lemma observed_result_Ok a reason ob r :
  observed_result a reason ob = Ok r →
  r_fence r = fence a ∧ r_cleanup_confirmed r = true
  ∧ (r_state r = Succeeded → a_payload_released a = true ∧ r_exit_code r = Some 0%Z).
Proof.
  unfold observed_result. intros H. apply bind_Ok in H as ([[state code] why] & Hs & H).
  apply raise_if_bind_Ok in H as [_ H]. injection H as <-. simpl. split; [done|]. split; [done|].
  intros ->. destruct (_ && a_payload_released a) eqn:Hb.
  - bool_inv. split; [done|]. apply bind_Ok in Hs as (c & _ & Hs). injection Hs as Hst <- _.
    by destruct (bool_decide (c = Some 0%Z)) eqn:Hc; bool_inv.
  - by repeat case_bool_decide.
Qed.

Lemma stop_and_judge_Ok a c reason ob w r :
  stop_and_judge a c reason ob w = Ok r →
  r_fence r = fence a ∧ r_cleanup_confirmed r = true
  ∧ (r_state r = Succeeded → a_payload_released a = true ∧ r_exit_code r = Some 0%Z).
Proof.
  unfold stop_and_judge. intros H. apply bind_Ok in H as (_ & _ & H). apply bind_Ok in H as (_ & _ & H).
  destruct (if has_prepared a then _ else _) as [ob' reason']. by apply observed_result_Ok in H.
Qed.

(** The results [finish] may hand to the ledger. *)
Record reportable (a : attempt) (r : AttemptResult) : Prop := {
  rp_fence : r_fence r = fence a;
  rp_success : r_state r = Succeeded → a_payload_released a = true ∧ r_exit_code r = Some 0%Z }.

Lemma unconfirmed_reportable a : reportable a (unconfirmed a).
Proof. by split. Qed.

Lemma keep_uncertain_reportable a r : reportable a r → reportable a (keep_uncertain a r).
Proof.
  unfold keep_uncertain. case_bool_decide as Hu; [|done]. intros [H1 H2]. split; [done|].
  simpl. by rewrite Hu.
Qed.

Lemma finish_lawful l a r l' :
  wf l → fresh l a → a_state a ≠ Unknown ∨ a_cleanup a = false →
  reportable a r → Ledger.finish l r = Ok l' → lawful l (DoFinish r).
Proof.
  intros Hwf (b & Hb & Hst & Hcl & Hpay) Hguard [Hf Hsucc] H. simpl. rewrite Hf. simpl.
  apply finish_Ok in H as (c & Hc & Hnr & Hr & Hconf & Hter & _). rewrite Hf in Hc. simpl in Hc.
  rewrite Hb in Hc. injection Hc as <-. intros c Hc. rewrite Hb in Hc. injection Hc as <-.
  split; [|intros Hs; destruct (Hsucc Hs); auto].
  intros Hclean. destruct Hr as [Hr|Hr]; [by apply Hconf|].
  pose proof (wf_life _ Hwf _ _ Hb) as Hlife.
  destruct (terminal (a_state b)) eqn:Ht; [rewrite Hter in Hr by done; by rewrite Hr in Ht|].
  destruct (decide (phase (a_state b) ≤ 2)) as [Hph|Hph].
  - destruct (life_active _ Hlife Hph) as [_ Hx]. congruence.
  - destruct (a_state b) eqn:Hsb; simpl in *; try done || lia. destruct Hguard; congruence.
Qed.

Definition unchanged {A} (l : ledger) : sup → res A → Prop :=
  fun u r => is_ok r = false → u_ledger u = l.

Lemma record_result_triple l a r :
  a_state a ≠ Unknown ∨ a_cleanup a = false → reportable a r → fresh l a →
  triple (on_attempt (attempt_id (a_plan a))) (fun u => u_ledger u = l) (record_result a r)
    (unchanged l).
Proof.
  intros Hguard Hr%keep_uncertain_reportable Hfresh. unfold record_result.
  eapply (triple_bind _ _ _ _ (unchanged l)).
  - apply triple_ledger; [|intros u e Hu _ _; exact Hu].
    intros u l' [] Hwf Hu H. unfold ledger_unit in H. apply bind_Ok in H as (l1 & H & [= <-]).
    rewrite Hu in *. split; [|done].
    apply (protocol_one _ _ (DoFinish (keep_uncertain a r))); [done|by eapply finish_lawful|].
    unfold on_attempt. simpl. by rewrite (rp_fence _ _ Hr).
  - intros []. apply triple_same. intros u u' x _ Hm.
    destruct (r_cleanup_confirmed _); injection Hm as <- <-; done.
  - done.
Qed.

Lemma await_stop_triple l a reason w :
  triple (on_attempt (attempt_id (a_plan a))) (fun u => u_ledger u = l) (await_stop a reason w)
    (unchanged l).
Proof.
  intros u u' r Hwf Hu H. unfold await_stop in H. subst l.
  unfold mbind, M_bind, gets, modify, lift in H.
  destruct (raise_if _ _) as [|e]; [|injection H as <- <-; split; [constructor|done]].
  destruct (negb (stop_pending a) && _); [|injection H as <- <-; split; [constructor|done]].
  unfold when, on_ledger in H. simpl in H.
  destruct (annotate (u_ledger u) (fence a) _) as [[l x]|e] eqn:Ha; injection H as <- <-.
  - split; [|done].
    apply (protocol_one _ _ (DoAnnotate (fence a) (PendingStop (reason_or reason "runtime_outcome_unknown"))));
      [exact (execute_fst _ _ _ Ha)|done|done].
  - split; [constructor|done].
Qed.

Section supervisor.
Context (st : Settings).

Lemma finish_triple l a reason w :
  fresh l a →
  triple (on_attempt (attempt_id (a_plan a))) (fun u => u_ledger u = l) (finish st a reason w)
    (unchanged l).
Proof.
  intros Hfresh. unfold finish.
  destruct (bool_decide (a_state a = Unknown) && a_cleanup a) eqn:Hguard.
  { apply triple_same. intros u u' r Hu Hm. injection Hm as <- <-. done. }
  assert (Hg : a_state a ≠ Unknown ∨ a_cleanup a = false).
  { apply andb_false_iff in Hguard as [Hg|Hg]; bool_inv; auto. }
  eapply (triple_bind _ _ _ _ (fun u (r : res Ctx) => u_ledger u = l)); [|intros c|intros u e Hu _; exact Hu].
  { apply triple_same. intros u u' r Hu Hm. injection Hm as <- _. done. }
  destruct (if has_prepared a then _ else _) as [ob why].
  destruct (stop_and_judge a c why ob w) as [r|e] eqn:Hj.
  - apply stop_and_judge_Ok in Hj as (Hf & _ & Hs). apply record_result_triple; [done|by split|done].
  - destruct (is_stop_pending e); [apply await_stop_triple|].
    by apply record_result_triple; [|apply unconfirmed_reportable|].
Qed.

Lemma finish_stored a reason w :
  triple (on_attempt (attempt_id (a_plan a))) (fun u => fresh (u_ledger u) a) (finish st a reason w)
    any_post.
Proof.
  intros u u' r Hwf Hu H.
  destruct (finish_triple (u_ledger u) a reason w Hu u u' r Hwf eq_refl H). done.
Qed.

(** ** Requests *)

Lemma annotate_Ok l f n l' a' :
  wf l → annotate l f n = Ok (l', a') →
  ∃ a, get l (f_attempt_id f) = Some a ∧ apply_annotation n a = Ok a' ∧ l' = put l (f_attempt_id f) a'.
Proof.
  unfold annotate. intros Hwf H. apply bind_Ok in H as (a & (Ha & _)%fenced_Ok & H).
  apply bind_Ok in H as (a1 & Hn & H). apply bind_Ok in H as (l1 & Hs & [= <- <-]).
  exists a. split; [done|]. split; [done|].
  by eapply (save_put (t := None)); [| |eapply ev_annotate|].
Qed.

(** Annotations do not disturb the copies [finish] works on. *)
Lemma fresh_annotate l f n l' a' b :
  wf l → annotate l f n = Ok (l', a') → fresh l b → fresh l' b.
Proof.
  intros Hwf (a & Ha & Hn & ->)%annotate_Ok (c & Hc & Hst & Hcl & Hp); [|done].
  unfold fresh. rewrite get_put. case_decide as He; [|by exists c].
  rewrite He in Ha. rewrite Hc in Ha. injection Ha as <-. exists a'. split; [done|].
  pose proof (apply_annotation_core _ _ _ Hn) as (_&_&_&->&->&_). split; [done|]. split; [done|].
  intros Hb%Hp. destruct n; simpl in Hn; by simplify_eq.
Qed.

Lemma request_stop_obeys f reason w : obeys (on_attempt (f_attempt_id f)) (request_stop st f reason w).
Proof.
  apply triple_read. intros u0 _ Hwf. apply triple_lift; [|done]. intros a Ha.
  destruct (_ || _); [apply triple_any; auto with obeys|].
  eapply (triple_bind _ _ _ _ (returning (fun l => fresh l a))); [|intros []|done].
  - unfold when. destruct (negb _).
    + eapply (triple_bind _ _ _ _ (returning (fun l => fresh l a))); [| |done].
      * apply triple_ledger; [|by intros u e -> _ ?].
        intros u l x _ -> H. split.
        -- apply (protocol_one _ _ (DoAnnotate f (PendingStop reason))); [|done|done].
           exact (execute_fst _ _ _ H).
        -- intros _. eapply fresh_annotate; [exact Hwf|exact H|]. by eapply fresh_fenced.
      * intros x. apply triple_same. intros u u' r Hu Hm. injection Hm as <- <-. auto.
    + apply triple_same. intros u u' r -> Hm. injection Hm as <- <-. split; [done|].
      intros _. by eapply fresh_fenced.
  - apply triple_gets. intros waiting.
    eapply (triple_bind _ _ _ _ any_post); [|intros []; apply triple_any; auto with obeys|done].
    destruct waiting; simpl; [apply triple_any; auto with obeys|].
    assert (attempt_id (a_plan a) = f_attempt_id f) as <-.
    { apply fenced_Ok in Ha as (Ha & _). by apply (wf_key _ Hwf). }
    eapply triple_pre; [|apply finish_stored]. intros u Hu. by apply Hu.
Qed.

Lemma queue_preparation_obeys Q a : obeys Q (queue_preparation st a).
Proof.
  apply obeys_pure. intros u. unfold queue_preparation, mbind, M_bind, gets, lift, when, modify.
  repeat (case_match; simplify_eq; try done).
Qed.

Lemma prepare_obeys adm w later :
  admission_ok adm = true →
  obeys (on_attempt (attempt_id (adm_plan adm))) (prepare st adm w later).
Proof.
  intros Hok. pose proof (admission_binding _ Hok) as (_ & _ & Hp). unfold prepare, reserve_slot.
  pose proof (queue_preparation_obeys (on_attempt (attempt_id (adm_plan adm)))).
  assert (∀ slot binding, obeys (on_attempt (attempt_id (adm_plan adm)))
    (on_ledger (fun l => admit_ l adm slot binding (w_now w) (maximum_lease_seconds st)))).
  { intros slot binding.
    apply (obeys_ledger _ _ (DoAdmit adm slot binding (w_now w) (maximum_lease_seconds st))); try done.
    intros l l' a H'. exact (execute_fst _ _ _ H'). }
  assert (obeys (on_attempt (attempt_id (adm_plan adm)))
    (on_ledger (fun l => reject l (adm_plan adm) (wall later) None))).
  { apply (obeys_ledger _ _ (DoReject (adm_plan adm) (wall later) None)); try done.
    intros l l' a H'. exact (execute_fst _ _ _ H'). }
  auto 20 with obeys.
Qed.

Lemma reject_absent_obeys p legacy w :
  plan_ok p = true → obeys (on_attempt (attempt_id p)) (reject_absent st p legacy w).
Proof.
  intros Hp. unfold reject_absent.
  assert (∀ observed, obeys (on_attempt (attempt_id p))
    (on_ledger (fun l => reject l p (wall (w_now w)) observed))).
  { intros observed. apply (obeys_ledger _ _ (DoReject p (wall (w_now w)) observed)); try done.
    intros l l' a H'. exact (execute_fst _ _ _ H'). }
  auto 20 with obeys.
Qed.

Lemma start_obeys f now : obeys (on_attempt (f_attempt_id f)) (start f now).
Proof.
  unfold start.
  assert (obeys (on_attempt (f_attempt_id f)) (on_ledger (fun l => start_requested l f now))).
  { apply (obeys_ledger _ _ (DoStartRequested f now)); try done.
    intros l l' a H'. exact (execute_fst _ _ _ H'). }
  auto 20 with obeys.
Qed.

Lemma renew_obeys n now : obeys (on_attempt (f_attempt_id (n_fence n))) (renew st n now).
Proof.
  unfold renew.
  assert (obeys (on_attempt (f_attempt_id (n_fence n)))
    (on_ledger (fun l => Ledger.renew l n now (maximum_lease_seconds st)))).
  { apply (obeys_ledger _ _ (DoRenew n now (maximum_lease_seconds st))); try done.
    intros l l' a H'. exact (execute_fst _ _ _ H'). }
  auto 20 with obeys.
Qed.

(** The stops that a stopped offer records, one transaction. *)
Definition stop_all (l : ledger) (attempts : list attempt) : res ledger :=
  foldM (fun l a => fst <$> annotate l (fence a) (PendingStop "cancelled")) l attempts.

Lemma stop_all_protocol (Q : lop → Prop) l attempts l' :
  (∀ a, Q (DoAnnotate (fence a) (PendingStop "cancelled"))) →
  stop_all l attempts = Ok l' → protocol Q l l'.
Proof.
  intros HQ. revert l. induction attempts as [|a attempts IH]; intros l H; simpl in H.
  { injection H as <-. constructor. }
  apply bind_Ok in H as (l1 & H1 & H).
  apply (protocol_step _ _ (DoAnnotate (fence a) (PendingStop "cancelled")) l1); try done. by apply IH.
Qed.

(** Offers and stops are all a change of the offer does. *)
Definition offer_change (op : lop) : Prop :=
  match op with DoSaveOffer _ _ | DoAnnotate _ (PendingStop _) => True | _ => False end.

Lemma set_offer_obeys expected proposed c : obeys offer_change (set_offer st expected proposed c).
Proof.
  apply triple_ledger; [|done]. intros u l o _ _ H. split; [|done].
  apply bind_Ok in H as (_ & _ & H). apply bind_Ok in H as (l1 & Hs & H).
  apply bind_Ok in H as (l2 & Hc & [= <- _]).
  eapply (protocol_step _ _ (DoSaveOffer (mkOffer proposed (expected + 1) (s_mode st) c) expected));
    [exact Hs|done|done|].
  destruct (bool_decide (c = Stopped)); [by apply (stop_all_protocol _ _ _ _ (fun _ => I) Hc)|].
  injection Hc as <-. constructor.
Qed.

Lemma input_status_obeys Q f object now : obeys Q (input_status f object now).
Proof. unfold input_status. auto 20 with obeys. Qed.

Lemma input_begin_obeys Q c data now : obeys Q (input_begin st c data now).
Proof. unfold input_begin. pose proof (input_status_obeys Q). auto 20 with obeys. Qed.

Lemma write_chunk_obeys Q i o r data wr : obeys Q (write_chunk i o r data wr).
Proof. apply obeys_pure. intros u. unfold write_chunk. by destruct (write _ _ _ _ _). Qed.

Lemma input_commit_obeys c o saved hashed now now' :
  obeys (on_attempt (f_attempt_id (ic_fence c))) (input_commit st c o saved hashed now now').
Proof.
  unfold input_commit.
  pose proof (queue_preparation_obeys (on_attempt (f_attempt_id (ic_fence c)))).
  pose proof (input_status_obeys (on_attempt (f_attempt_id (ic_fence c))) (ic_fence c) (ic_object c) now').
  auto 20 with obeys.
Qed.

Lemma stop_after_failure_obeys f e w : obeys (on_attempt (f_attempt_id f)) (stop_after_failure st f e w).
Proof.
  unfold stop_after_failure. pose proof (request_stop_obeys f) as Hr. auto 20 with obeys.
Qed.

Lemma ledger_release_obeys f :
  obeys (on_attempt (f_attempt_id f)) (on_ledger (fun l => Ledger.release l f)).
Proof.
  apply (obeys_ledger _ _ (DoRelease f)); try done.
  intros l l' a H'. exact (execute_fst _ _ _ H').
Qed.

Lemma release_begin_obeys f : obeys (on_attempt (f_attempt_id f)) (release_begin st f).
Proof.
  unfold release_begin. pose proof (ledger_release_obeys f) as Hr.
  auto 20 with obeys.
Qed.

Lemma release_commit_obeys f a : obeys (on_attempt (f_attempt_id f)) (release_commit f a).
Proof. unfold release_commit. pose proof (ledger_release_obeys f). auto 20 with obeys. Qed.
End supervisor.

(** ** The monitor *)

Definition keeping {A} (P : ledger → Prop) : sup → res A → Prop := fun u _ => P (u_ledger u).

Lemma annotate_fresh f n a :
  n ≠ PayloadReleased →
  triple (on_attempt (f_attempt_id f)) (fun u => fresh (u_ledger u) a)
    (on_ledger (fun l => annotate l f n)) (keeping (fun l => fresh l a)).
Proof.
  intros Hn. apply triple_ledger; [|by intros u e Hu _].
  intros u l x Hwf Hu H. split; [|by eapply fresh_annotate].
  apply (protocol_one _ _ (DoAnnotate f n)); [exact (execute_fst _ _ _ H)|by destruct n|done].
Qed.

Lemma triple_pure {A} Q (P : ledger → Prop) (m : M A) :
  (∀ u, u_ledger (m u).1 = u_ledger u) → triple Q (fun u => P (u_ledger u)) m (keeping P).
Proof.
  intros H. apply triple_same. intros u u' r Hu Hm. specialize (H u). rewrite Hm in H. simpl in H.
  split; [done|]. unfold keeping. by rewrite H.
Qed.

Lemma triple_kbind {A B} Q (P : ledger → Prop) (m : M A) (f : A → M B) :
  triple Q (fun u => P (u_ledger u)) m (keeping P) →
  (∀ a, triple Q (fun u => P (u_ledger u)) (f a) (keeping P)) →
  triple Q (fun u => P (u_ledger u)) (m ≫= f) (keeping P).
Proof. intros Hm Hf. by eapply triple_bind; [exact Hm|exact Hf|]. Qed.

Section monitor.
Context (st : Settings).

Lemma queue_preparation_ledger a u : u_ledger (queue_preparation st a u).1 = u_ledger u.
Proof.
  unfold queue_preparation, mbind, M_bind, gets, lift, when, modify.
  repeat (case_match; simplify_eq; try done).
Qed.

Lemma absorb_fresh a k result now :
  triple (on_attempt (attempt_id (a_plan a))) (fun u => fresh (u_ledger u) a)
    (absorb st a k result now) (keeping (fun l => fresh l a)).
Proof.
  unfold absorb. apply (triple_kbind _ (fun l => fresh l a)); [by apply (triple_pure _ (fun l => fresh l a))|].
  intros out. apply (triple_kbind _ (fun l => fresh l a)); [by apply (triple_pure _ (fun l => fresh l a))|].
  intros u. apply (triple_kbind _ (fun l => fresh l a)); [by apply (triple_pure _ (fun l => fresh l a))|].
  intros []. destruct k, out; try (by apply (triple_pure _ (fun l => fresh l a))).
  - apply (triple_kbind _ (fun l => fresh l a)); [by apply (annotate_fresh (fence a))|].
    intros a'. apply (triple_pure _ (fun l => fresh l a)). apply queue_preparation_ledger.
  - apply (triple_kbind _ (fun l => fresh l a)); [by apply (annotate_fresh (fence a))|].
    intros a'. by apply (triple_pure _ (fun l => fresh l a)).
Qed.

Lemma harvest_one_obeys i k result w : obeys (on_attempt i) (harvest_one st i k result w).
Proof.
  eapply (triple_bind _ _ _ _ any_post); [apply triple_any; auto with obeys|intros []|done].
  apply triple_read. intros u0 _ Hwf. apply triple_lift; [|done]. intros a Ha%some_or_Ok.
  assert (attempt_id (a_plan a) = i) as <- by by apply (wf_key _ Hwf).
  eapply (triple_catch _ _ _ _ (keeping (fun l => fresh l a))); [|intros e; apply finish_stored|done].
  eapply triple_pre; [|apply absorb_fresh]. intros u ->. by eapply fresh_stored.
Qed.

Lemma keeps_offer_on i op : on_attempt i op → keeps_offer op.
Proof. by destruct op. Qed.

Lemma obeys_on {A} i (m : M A) : obeys (on_attempt i) m → obeys keeps_offer m.
Proof. apply obeys_weaken, keeps_offer_on. Qed.

Lemma harvest_obeys order done w : obeys keeps_offer (harvest st order done w).
Proof.
  induction order as [|[i k] order IH]; simpl; [auto with obeys|].
  apply obeys_bind; [|by intros]. destruct (done i); [|auto with obeys].
  eapply obeys_on, harvest_one_obeys.
Qed.

Lemma observe_unchanged a w wf l :
  fresh l a →
  triple (on_attempt (attempt_id (a_plan a))) (fun u => u_ledger u = l) (observe st a w wf)
    (unchanged l).
Proof.
  intros Hfresh.
  assert (Hpure : ∀ m : M unit, (∀ u, u_ledger (m u).1 = u_ledger u) →
    triple (on_attempt (attempt_id (a_plan a))) (fun u => u_ledger u = l) m (unchanged l)).
  { intros m Hm. apply triple_same. intros u u' r <- H. specialize (Hm u). rewrite H in Hm. split; [done|by intros _]. }
  unfold observe.
  apply triple_lift; [intros c _|by intros u e Hu _ _].
  apply triple_lift; [intros ob _|by intros u e Hu _ _].
  apply triple_lift; [intros unit _|by intros u e Hu _ _].
  apply triple_lift; [intros ph _|by intros u e Hu _ _].
  destruct (bool_decide (ph = "finished")); [by apply finish_triple|].
  destruct (unit_gone unit); [by apply finish_triple|].
  destruct (_ && _).
  { apply triple_lift; [intros rows _|by intros u e Hu _ _].
    apply triple_lift; [intros prepared _|by intros u e Hu _ _].
    apply triple_lift; [intros expected _|by intros u e Hu _ _].
    apply triple_lift; [intros [] _|by intros u e Hu _ _]. by apply Hpure. }
  destruct (_ && _); [|by apply Hpure].
  apply triple_lift; [intros pid _|by intros u e Hu _ _]. by apply Hpure.
Qed.

Lemma unknown_branch_obeys a w wf l :
  fresh l a →
  triple (on_attempt (attempt_id (a_plan a))) (fun u => u_ledger u = l) (unknown_branch st a w wf)
    any_post.
Proof.
  intros Hfresh. unfold unknown_branch.
  eapply (triple_bind _ _ _ _ any_post); [|intros []; apply triple_any; auto 20 with obeys|done].
  eapply triple_forget. by apply finish_triple.
Qed.

Lemma fence_branch_obeys a e w wf l :
  fresh l a →
  triple (on_attempt (attempt_id (a_plan a))) (fun u => u_ledger u = l) (fence_branch st a e w wf)
    any_post.
Proof.
  intros Hfresh. unfold fence_branch.
  eapply (triple_bind _ _ _ _ (keeping (fun l => fresh l a))); [|intros a'|done].
  { eapply triple_pre; [|by apply (annotate_fresh (fence a))]. by intros u <-. }
  apply triple_read. intros u0 Hu0 Hwf0.
  destruct (u_pending u0 !! attempt_id (a_plan a)) as [k|]; [apply triple_any; auto 20 with obeys|].
  eapply triple_pre; [|apply finish_stored]. by intros u <-.
Qed.

Lemma tick_one_obeys a w wf l :
  fresh l a →
  triple (on_attempt (attempt_id (a_plan a))) (fun u => u_ledger u = l) (tick_one st a w wf) any_post.
Proof.
  intros Hfresh. unfold tick_one.
  destruct (_ && _); [by apply unknown_branch_obeys|].
  destruct (_ || _); [apply triple_any; auto with obeys|].
  apply triple_read. intros u0 Hu0 Hwf0.
  destruct (current u0 a (w_now w)) as [[]|e].
  - destruct (_ || _); [apply triple_any; auto with obeys|].
    eapply (triple_catch _ _ _ _ (unchanged l)); [|intros e|done].
    + eapply triple_pre; [|by apply observe_unchanged]. by intros u <-.
    + eapply triple_pre; [|apply finish_stored]. intros u Hu. specialize (Hu eq_refl). cbn beta. by rewrite Hu.
  - eapply triple_pre; [|by apply fence_branch_obeys]. by intros u <-.
Qed.

(** What concerns other attempts is untouched. *)
Lemma triple_frame {A} i (P : sup → Prop) (m : M A) R (others : list attempt) :
  (∀ b, b ∈ others → attempt_id (a_plan b) ≠ i) →
  triple (on_attempt i) P m R →
  triple (on_attempt i) (fun u => P u ∧ ∀ b, b ∈ others → fresh (u_ledger u) b) m
    (fun u r => R u r ∧ ∀ b, b ∈ others → fresh (u_ledger u) b).
Proof.
  intros Hne Hm u u' r Hwf [Hu Hf] H. destruct (Hm u u' r Hwf Hu H) as [Hp HR].
  split; [done|]. split; [done|]. intros b Hb. destruct (Hf b Hb) as (c & Hc & Hrest).
  exists c. split; [|done].
  rewrite (protocol_frame (on_attempt i) (attempt_id (a_plan b)) _ _) with (2 := Hp); [done| |done].
  unfold on_attempt. intros op -> [= He]. by apply (Hne b Hb).
Qed.

Lemma all_row_ids l : wf l → row_id <$> all l = (rows (l_attempts l)).*1.
Proof.
  intros Hwf. unfold all, row_values.
  assert (Hk : ∀ r, r ∈ rows (l_attempts l) → row_id r.2 = r.1).
  { intros [i a] Hr%elem_of_rows. by apply (wf_key _ Hwf). }
  revert Hk. generalize (rows (l_attempts l)). intros k Hk.
  induction k as [|r k IH]; [done|]. simpl. f_equal; [apply Hk; set_solver|].
  apply IH. intros x Hx. apply Hk. set_solver.
Qed.

Lemma NoDup_fmap_filter {A B} (g : A → B) (q : A → bool) (l : list A) :
  NoDup (g <$> l) → NoDup (g <$> List.filter q l).
Proof.
  induction l as [|x l IH]; [done|]. simpl. intros [Hx Hl]%NoDup_cons.
  destruct (q x); [|auto]. simpl. constructor; [|auto].
  intros (y & He & [_ Hy]%elem_of_List_filter)%list_elem_of_fmap. apply Hx. rewrite He. by apply list_elem_of_fmap_2.
Qed.

Lemma retained_NoDup l : wf l → NoDup (row_id <$> retained l).
Proof. intros Hwf. apply NoDup_fmap_filter. rewrite all_row_ids by done. apply rows_keys_NoDup. Qed.

Lemma retained_get l a : wf l → a ∈ retained l → get l (row_id a) = Some a ∧ held a = true.
Proof.
  intros Hwf [Hh Ha]%elem_of_List_filter. apply all_elem in Ha as [i Hi]. split; [|done].
  by rewrite (wf_key _ Hwf _ _ Hi).
Qed.

Lemma retained_fresh l a : wf l → a ∈ retained l → fresh l a.
Proof. intros Hwf [Ha _]%retained_get; [|done]. by eapply fresh_stored. Qed.

(** A loop over attempts whose body only concerns one of them. *)
Lemma triple_each (body : attempt → M unit) (loop : list attempt → M unit) :
  (loop [] = mret tt) → (∀ a l, loop (a :: l) = (body a ;; loop l)) →
  (∀ a, triple (on_attempt (attempt_id (a_plan a))) (fun u => fresh (u_ledger u) a) (body a) any_post) →
  ∀ l, NoDup (row_id <$> l) →
    triple keeps_offer (fun u => ∀ a, a ∈ l → fresh (u_ledger u) a) (loop l) any_post.
Proof.
  intros Hnil Hcons Hbody l Hnd. induction l as [|a l IH]; [rewrite Hnil; apply triple_any; auto with obeys|].
  rewrite Hcons. apply NoDup_cons in Hnd as [Ha Hnd].
  eapply (triple_bind _ _ _ _ (fun u _ => ∀ b, b ∈ l → fresh (u_ledger u) b)); [|intros []; by apply IH|done].
  assert (Hne : ∀ b, b ∈ l → attempt_id (a_plan b) ≠ attempt_id (a_plan a)).
  { intros b Hb He. apply Ha. apply list_elem_of_fmap. exists b. by unfold row_id. }
  refine (triple_weaken _ _ _ _ _ _ _ (keeps_offer_on _) _ _ (triple_frame _ _ _ _ l Hne (Hbody a))).
  - intros u Hu. split; [apply Hu; set_solver|intros b Hb; apply Hu; set_solver].
  - by intros u r [_ H].
Qed.

Lemma tick_all_obeys l w wf :
  NoDup (row_id <$> l) →
  triple keeps_offer (fun u => ∀ a, a ∈ l → fresh (u_ledger u) a) (tick_all st l w wf) any_post.
Proof.
  apply (triple_each (fun a => tick_one st a w wf) (fun l => tick_all st l w wf)); try done.
  intros a u u' r Hwf Hu H. by apply (tick_one_obeys a w wf (u_ledger u) Hu u u' r).
Qed.

Lemma tick_obeys order done w wf : obeys keeps_offer (tick st order done w wf).
Proof.
  unfold tick. apply obeys_bind; [apply harvest_obeys|intros []].
  apply triple_read. intros u0 _ Hwf0.
  eapply triple_pre; [|apply tick_all_obeys, retained_NoDup, Hwf0].
  intros u -> a Ha. by apply retained_fresh.
Qed.

Lemma recover_obeys w : obeys keeps_offer (recover st w).
Proof.
  unfold recover. apply triple_read. intros u0 _ Hwf0.
  eapply (triple_bind _ _ _ _ any_post); [|intros []; apply triple_any; auto with obeys|done].
  eapply triple_pre.
  2: apply (triple_each (fun a => when (negb (terminal (a_state a)) && negb (a_cleanup a))
                                    (finish st a (Some "supervisor_restarted") w))
              (fun l => recover_all st l w)); [done|done| |by apply retained_NoDup].
  - intros u -> a Ha. by apply retained_fresh.
  - intros a. destruct (negb (terminal (a_state a)) && negb (a_cleanup a));
      [apply finish_stored|apply triple_any; simpl; auto with obeys].
Qed.

(** The critical sections of the barrier. *)
Lemma record_started_obeys f inspected now :
  triple (on_attempt (f_attempt_id f)) (fun _ => True) (record_started f inspected now)
    (returning (fun l => ∃ a, get l (f_attempt_id f) = Some a ∧ 2 ≤ phase (a_state a))).
Proof.
  unfold record_started. eapply (triple_bind _ _ _ _ any_post); [by apply triple_any; auto with obeys| |].
  2: intros u e _ ?; done.
  intros a. apply triple_ledger; [|by intros u e _ _ ?].
  intros u l [] Hwf _ H. unfold ledger_unit in H. apply bind_Ok in H as (l1 & H & [= <-]).
  assert (Hx : execute (u_ledger u) (DoStarted f inspected) = Ok l1) by done.
  split; [by eapply protocol_one; [exact Hx|..]|].
  intros _. unfold started in H. apply bind_Ok in H as (b & (Hb & _)%fenced_Ok & H).
  apply raise_if_bind_Ok in H as [Hst H]. bool_inv.
  apply (save_put (t := None) _ (f_attempt_id f) b _ _ false) in H; [|done..|by constructor].
  exists (set_running inspected b). subst l1. simpl. rewrite get_put, decide_True by done. auto.
Qed.

Lemma record_released_obeys f (payload : bool) now :
  triple (on_attempt (f_attempt_id f))
    (fun u => payload = true → ∃ a, get (u_ledger u) (f_attempt_id f) = Some a ∧ 2 ≤ phase (a_state a))
    (record_released f payload now) any_post.
Proof.
  intros u u' r Hwf Hu H. split; [|done]. unfold record_released, checked, mbind, M_bind in H.
  destruct (check u f now) as [a|e]; [|injection H as <- _; constructor].
  unfold on_ledger in H. destruct (annotate _ _ _) as [[l x]|e] eqn:Ha; injection H as <- _; [|constructor].
  apply (protocol_one _ _ (DoAnnotate f (if payload then PayloadReleased else EngineReleased)));
    [exact (execute_fst _ _ _ Ha)| |done].
  destruct payload; [|done]. simpl. intros b Hb. destruct (Hu eq_refl) as (c & Hc & ?). by simplify_eq.
Qed.
End monitor.
