(* ===== verification/Machine.v ===== *)
(** * Interleavings of the executor

    The whole contributor executor as a transition system: requests handled by the
    service's threads, the operations of the supervisor's pool and the monitor's
    ticks, interleaved at the boundaries of their critical sections.  Whatever the
    interleaving and the answers of the operating system, the provider and the
    clock, the ledger follows its [protocol]. *)

From Stdlib Require Import SpecFloat.
From S2P Require Import Prelude Float64 Json Clock Spec Offer Ledger LedgerStep Samples LedgerProps Settings Protocol Inputs LedgerProtocol Supervisor Monitor SupervisorProtocol.

(** ** Programs under interference *)

Definition any_op (op : lop) : Prop := True.

Section rely.
Context (Q : lop → Prop) (HQ : ∀ i op, on_attempt i op → Q op).

(** [safe l p R]: started at the ledger [l], and resumed after any changes by
    others that follow the protocol [Q], [p] follows it too and ends with [R]. *)
Inductive safe {A} (R : ledger → res A → Prop) (l : ledger) : prog A → Prop :=
| safe_return r : R l r → safe R l (Return r)
| safe_atomic m :
    (∀ u, wf (u_ledger u) → protocol Q l (u_ledger u) →
       protocol Q (u_ledger u) (u_ledger (m u).1)) →
    (∀ u, wf (u_ledger u) → protocol Q l (u_ledger u) →
       safe R (u_ledger (m u).1) (m u).2) →
    safe R l (Atomic m).

Definition safe_any {A} : ledger → prog A → Prop := safe (fun _ _ => True).

Lemma safe_try {A B} (R : ledger → res A → Prop) (S : ledger → res B → Prop) l (p : prog A)
    (f : res A → prog B) :
  wf l → safe R l p →
  (∀ l' r, wf l' → protocol Q l l' → R l' r → safe S l' (f r)) → safe S l (prog_try p f).
Proof.
  intros Hl0 Hp. revert Hl0. induction Hp as [l r Hr|l m Hm _ IH]; intros Hl0 Hf; simpl.
  - apply Hf; [done|constructor|done].
  - constructor; intros u Hwf Hl; specialize (Hm u Hwf Hl); specialize (IH u Hwf Hl);
      destruct (m u) as [u' q]; simpl in *; [done|].
    apply IH; [by eapply protocol_wf|].
    intros l' r Hwf' Hl' Hr. apply Hf; [done| |done].
    eapply protocol_trans; [exact Hl|]. by eapply protocol_trans.
Qed.

Lemma safe_locked {A} (T : lop → Prop) l (P : sup → Prop) (m : M A) (R : sup → res A → Prop)
    (S : ledger → res A → Prop) :
  (∀ op, T op → Q op) → triple T P m R → (∀ u, protocol Q l (u_ledger u) → P u) →
  (∀ u r, R u r → S (u_ledger u) r) → safe S l (locked m).
Proof.
  intros HT Hm HP HS. constructor; intros u Hwf Hl; destruct (m u) as [u' r] eqn:Hmu;
    destruct (Hm u u' r Hwf (HP u Hl) Hmu) as [Hpr Hr]; simpl.
  - by eapply protocol_weaken.
  - constructor. auto.
Qed.

Lemma safe_obeys {A} l (m : M A) : obeys Q m → safe_any l (locked m).
Proof. intros Hm. by eapply (safe_locked Q l (fun _ => True) m). Qed.

Lemma safe_on {A} i l (m : M A) : obeys (on_attempt i) m → safe_any l (locked m).
Proof. intros Hm. by eapply (safe_locked (on_attempt i) l (fun _ => True) m); [apply HQ|..]. Qed.

Lemma safe_pure {A} l (r : res A) : safe_any l (Return r).
Proof. by constructor. Qed.

Lemma safe_bind {A B} l (p : prog A) (f : A → prog B) :
  wf l → safe_any l p → (∀ l' a, wf l' → safe_any l' (f a)) → safe_any l (p ≫= f).
Proof.
  intros Hwf Hp Hf. eapply safe_try; [done|exact Hp|].
  intros l' [a|e] Hl' _ _; [by apply Hf|by constructor].
Qed.

Lemma safe_finally {A} l (p : prog A) (m : M unit) :
  wf l → safe_any l p → obeys Q m → safe_any l (prog_finally p m).
Proof.
  intros Hwf Hp Hm. eapply safe_try; [done|exact Hp|]. intros l' r Hwf' _ _.
  eapply safe_try; [done|by eapply safe_obeys|]. intros. apply safe_pure.
Qed.

Lemma safe_except {A} l (p : prog A) (h : exn → prog unit) :
  wf l → safe_any l p → (∀ l' e, wf l' → safe_any l' (h e)) → safe_any l (prog_except p h).
Proof.
  intros Hwf Hp Hh. eapply safe_try; [done|exact Hp|].
  intros l' [a|e] Hwf' _ _; [apply safe_pure|].
  eapply safe_try; [done|by apply Hh|]. intros l'' [?|?] _ _ _; apply safe_pure.
Qed.

(** A suspended program stays safe while others run. *)
Lemma safe_stable {A} l l' (p : prog A) : protocol Q l l' → safe_any l p → safe_any l' p.
Proof.
  intros Hl Hp. destruct Hp as [r Hr|m Hm Hs]; [apply safe_pure|].
  constructor; intros u Hwf Hu; [apply Hm|apply Hs]; (done || by eapply protocol_trans).
Qed.

Create HintDb safe discriminated.
#[local] Hint Resolve safe_pure : safe.
#[local] Hint Extern 1 (safe_any _ (mret _)) => (apply safe_pure) : safe.
#[local] Hint Extern 2 (safe_any _ (_ ≫= _)) => (apply safe_bind; [assumption| |intros ? ? ?]) : safe.
#[local] Hint Extern 3 (safe_any _ (match ?x with _ => _ end)) => (destruct x) : safe.
#[local] Hint Extern 4 (safe_any _ (locked _)) =>
  (eapply safe_obeys; auto with obeys) : safe.

(** ** The executor's programs *)

Section programs.
Context (st : Settings) (l : ledger) (Hwf : wf l).

Lemma prepare_runtime_safe c f w1 w2 : safe_any l (prepare_runtime c f w1 w2).
Proof. unfold prepare_runtime. auto 20 with safe. Qed.

Lemma launch_safe f w now2 now3 envelope : safe_any l (launch st f w now2 now3 envelope).
Proof. unfold launch. auto 20 with safe. Qed.

Lemma initialize_inputs_safe i matches first creations last :
  safe_any l (initialize_inputs i matches first creations last).
Proof.
  unfold initialize_inputs. apply safe_obeys, obeys_pure. intros u.
  by destruct (initialize _ _ _ _ _) as [[]|].
Qed.

Lemma input_write_safe c wr w1 w2 w2' w3 : safe_any l (input_write st c wr w1 w2 w2' w3).
Proof.
  unfold input_write. apply safe_bind; [done|apply safe_pure|intros l1 data Hwf1].
  apply safe_bind; [done|apply safe_obeys, (input_begin_obeys st Q)|].
  intros l2 [report|[[[o r] ctx] a]] Hwf2; [apply safe_pure|].
  eapply safe_finally; [done| |auto with obeys].
  apply safe_except; [done| |intros l' e _; eapply safe_on, stop_after_failure_obeys].
  apply safe_bind; [done|apply safe_pure|intros l3 _ Hwf3].
  apply safe_bind; [done|apply safe_obeys, (write_chunk_obeys Q)|intros l4 [saved hashed] Hwf4].
  eapply safe_on, input_commit_obeys.
Qed.

Lemma release_safe f w1 w2 deleted : safe_any l (release st f w1 w2 deleted).
Proof.
  unfold release. apply safe_bind; [done|eapply safe_on, release_begin_obeys|].
  intros l1 [a|[a c]] Hwf1; [apply safe_pure|].
  eapply safe_finally; [done| |auto with obeys].
  do 4 (apply safe_bind; [assumption|auto 20 with safe|intros ? ? ?]).
  eapply safe_on, release_commit_obeys.
Qed.

Lemma marker_safe l' intact f now publish :
  wf l' → safe_any l' (marker intact (locked (checked f now) ;; mret tt) publish).
Proof. intros Hwf'. unfold marker. destruct intact; auto 20 with safe. Qed.

(** The barrier marks the payload only after it has recorded the start. *)
Lemma release_barrier_safe a pid w now2 now3 now4 controls gate intact publish :
  safe_any l (release_barrier st a pid w now2 now3 now4 controls gate intact publish).
Proof.
  unfold release_barrier. apply safe_bind; [done|apply safe_pure|intros l1 c Hwf1].
  apply safe_bind; [done|auto with safe|intros l2 _ Hwf2].
  apply safe_bind; [done|apply safe_pure|intros l3 _ Hwf3].
  set (payload := match pid with Some _ => true | None => false end).
  set (seen l := payload = true → ∃ b, get l (f_attempt_id (fence a)) = Some b ∧ 2 ≤ phase (a_state b)).
  eapply (safe_try (fun l r => is_ok r = true → seen l)); [done| |].
  { destruct pid as [pid|]; [|by constructor; intros _ [=]].
    eapply (safe_try (fun _ _ => True)); [done|by constructor|].
    intros l4 [inspected|e] Hwf4 _ _; [|by constructor].
    eapply (safe_try (fun _ _ => True)); [done|by constructor|].
    intros l5 [j|e] Hwf5 _ _; [|by constructor].
    eapply safe_locked; [apply HQ|apply record_started_obeys|done|].
    intros u r Hr Hok _. by apply Hr. }
  intros l4 [[]|e] Hwf4 _ Hseen; [|by constructor]. specialize (Hseen eq_refl).
  eapply (safe_try (fun _ _ => True)); [done| |].
  { by apply marker_safe. }
  intros l5 [[]|e] _ Hl5 _; [|by constructor].
  eapply safe_locked; [apply HQ|apply record_released_obeys| |done].
  intros u Hu Hp. eapply (protocol_phase Q l4); [done| |by apply Hseen].
  by eapply protocol_trans.
Qed.
End programs.
End rely.

(** ** Requests and pool operations *)

(** One item of a request, with the answers its methods receive. *)
Inductive request :=
| RPrepare (adm : Admission) (w : world) (later : Reading)
| RRejectAbsent (p : Plan) (legacy : bool) (w : world)
| RStart (f : Fence) (now : Reading)
| RRenew (n : Renewal) (now : Reading)
| RStop (f : Fence) (reason : string) (w : world)
| RSetOffer (expected : Z) (proposed : OfferSettings) (c : control)
| RCollect (r : Read) (w : world)
| RInputStatus (f : Fence) (object : string) (now : Reading)
| RInputWrite (c : InputChunk) (wr : writing) (w1 w2 w2' w3 : world)
| RRelease (f : Fence) (w1 w2 : world) (deleted : res unit).

(** What the decoded request has been validated for. *)
Definition valid (r : request) : Prop :=
  match r with
  | RPrepare adm _ _ => admission_ok adm = true
  | RRejectAbsent p _ _ => plan_ok p = true
  | _ => True
  end.

(** No request that changes the local offer. *)
Definition steady (r : request) : Prop :=
  valid r ∧ match r with RSetOffer _ _ _ => False | _ => True end.

Definition quiet {A} (p : prog A) : prog unit := p ;; mret tt.
Definition answered {A} (f : A → product) (p : prog A) : prog product := a ← p; mret (f a).

Section machine.
Context (st : Settings).

Definition serve (r : request) : prog unit :=
  match r with
  | RPrepare adm w later => quiet (locked (prepare st adm w later))
  | RRejectAbsent p legacy w => quiet (locked (reject_absent st p legacy w))
  | RStart f now => quiet (locked (start f now))
  | RRenew n now => quiet (locked (renew st n now))
  | RStop f reason w => quiet (locked (request_stop st f reason w))
  | RSetOffer expected proposed c => quiet (locked (set_offer st expected proposed c))
  | RCollect r w => quiet (locked (collect st r w))
  | RInputStatus f object now => quiet (locked (input_status f object now))
  | RInputWrite c wr w1 w2 w2' w3 => quiet (input_write st c wr w1 w2 w2' w3)
  | RRelease f w1 w2 deleted => quiet (release st f w1 w2 deleted)
  end.

(** An operation handed to the pool, with the answers it will receive. *)
Inductive submission :=
| SubInputs (i : string) (matches : bool) (first : res unit)
    (creations : list (ObjectReference * creation)) (last : res unit)
| SubPrepare (c : Ctx) (f : Fence) (w1 w2 : world)
| SubStart (f : Fence) (w : world) (now2 now3 : Reading) (envelope : Ctx → Observation → res unit)
| SubBarrier (a : attempt) (pid : option Z) (w : world) (now2 now3 now4 : Reading)
    (controls : res unit) (gate : res json) (intact : option bool) (publish : res unit).

(** The attempt, the kind of pending operation and what the pool runs for it. *)
Definition operation (s : submission) : string * pending * prog product :=
  match s with
  | SubInputs i matches first creations last =>
      (i, PendingInputs, answered Progress (initialize_inputs i matches first creations last))
  | SubPrepare c f w1 w2 =>
      (f_attempt_id f, PendingPrepare, answered Document (prepare_runtime c f w1 w2))
  | SubStart f w now2 now3 envelope =>
      (f_attempt_id f, PendingStart, answered (fun _ => Nothing) (launch st f w now2 now3 envelope))
  | SubBarrier a pid w now2 now3 now4 controls gate intact publish =>
      (row_id a, match pid with Some _ => PayloadBarrier | None => EngineBarrier end,
       answered (fun _ => Nothing)
         (release_barrier st a pid w now2 now3 now4 controls gate intact publish))
  end.

(** ** The executor *)

Record machine := mkMachine {
  mc_sup : sup; mc_requests : list (prog unit); mc_pool : gmap string (prog product) }.

(** [Supervisor.__init__] on the ledger it has opened and the staged files it finds. *)
Definition open_supervisor (l : ledger) (staged : gmap string staging) : res sup :=
  l ← (match l_offer l with None => save_offer l (initial_offer st) 0 | Some _ => Ok l end);
  o ← some_or (l_offer l) (Conflict "The retained local contribution offer is absent.");
  raise_if (negb (bool_decide (offer_mode o = s_mode st)))
    (ValueError "The retained local offer has another installation mode.") ;;
  validate_offer (settings o) (ceiling st) ;;
  Ok (mkSup l ∅ ∅ ∅ ∅ staged false).

(** [future.done ()] and [future.result ()]. *)
Definition future (pool : gmap string (prog product)) (i : string) : option (res product) :=
  match pool !! i with Some (Return r) => Some r | _ => None end.

Definition unfinished (x : string * prog product) : Prop :=
  match x.2 with Return _ => False | Atomic _ => True end.
#[global] Instance unfinished_dec x : Decision (unfinished x).
Proof. destruct x as [i [r|m]]; [right; intros []|left; exact I]. Defined.

(** What can happen next: a request arrives, a request or pool thread runs its
    next critical section, the pool picks up a pending operation, the monitor
    ticks, or the process stops anywhere and is started again. *)
Inductive event :=
| Arrive (r : request)
| RunRequest (k : nat)
| Submit (s : submission)
| RunPool (i : string)
| Tick (order : list (string * pending)) (w wf : world)
| RestartProcess (w : world).

Definition perform (m : machine) (e : event) : option machine :=
  match e with
  | Arrive r => Some (mkMachine (mc_sup m) (mc_requests m ++ [serve r]) (mc_pool m))
  | RunRequest k =>
      match mc_requests m !! k with
      | Some (Atomic a) =>
          let '(u, q) := a (mc_sup m) in Some (mkMachine u (<[k := q]> (mc_requests m)) (mc_pool m))
      | _ => None
      end
  | Submit s =>
      let '(i, k, p) := operation s in
      if bool_decide (u_pending (mc_sup m) !! i = Some k)
         && match mc_pool m !! i with None => true | Some _ => false end
      then Some (mkMachine (mc_sup m) (mc_requests m) (<[i := p]> (mc_pool m)))
      else None
  | RunPool i =>
      match mc_pool m !! i with
      | Some (Atomic a) =>
          let '(u, q) := a (mc_sup m) in Some (mkMachine u (mc_requests m) (<[i := q]> (mc_pool m)))
      | _ => None
      end
  | Tick order w wf =>
      if bool_decide (order ≡ₚ map_to_list (u_pending (mc_sup m))) then
        let '(u, _) := tick st order (future (mc_pool m)) w wf (mc_sup m) in
        Some (mkMachine u (mc_requests m) (filter unfinished (mc_pool m)))
      else None
  | RestartProcess w =>
      match open_supervisor (u_ledger (mc_sup m)) (restarted <$> u_inputs (mc_sup m)) with
      | Ok u => Some (mkMachine (recover st w u).1 [] ∅)
      | Err _ => None
      end
  end.

Definition allowed (V : request → Prop) (e : event) : Prop :=
  match e with Arrive r => V r | _ => True end.

Fixpoint performs (m : machine) (es : list event) : option machine :=
  match es with
  | [] => Some m
  | e :: es => m' ← perform m e; performs m' es
  end.

(** The executor of a new installation. *)
Inductive started_machine : machine → Prop :=
| started_new identity u0 :
    open_supervisor (new_ledger identity) ∅ = Ok u0 → started_machine (mkMachine u0 [] ∅).

(** ** The protocol holds for every interleaving *)

Section rely.
Context (Q : lop → Prop) (HQ : ∀ i op, on_attempt i op → Q op).
Context (V : request → Prop).

Definition admits (V : request → Prop) : Prop :=
  ∀ r, V r → valid r ∧ match r with
                       | RSetOffer _ _ _ => ∀ op, offer_change op → Q op
                       | _ => True
                       end.
Context (HV : admits V).

Lemma quiet_safe {A} l (p : prog A) : wf l → safe_any Q l p → safe_any Q l (quiet p).
Proof. intros Hwf Hp. apply safe_bind; [done..|]. intros. apply safe_pure. Qed.

Lemma answered_safe {A} l (f : A → product) (p : prog A) :
  wf l → safe_any Q l p → safe_any Q l (answered f p).
Proof. intros Hwf Hp. apply safe_bind; [done..|]. intros. apply safe_pure. Qed.

Lemma serve_safe l r : wf l → V r → safe_any Q l (serve r).
Proof.
  intros Hwf Hr. destruct (HV r Hr) as [Hok Hoff].
  destruct r; simpl in *; apply quiet_safe; try done.
  - eapply safe_on, prepare_obeys; done.
  - eapply safe_on, reject_absent_obeys; done.
  - eapply safe_on, start_obeys; done.
  - eapply safe_on, renew_obeys; done.
  - eapply safe_on, request_stop_obeys; done.
  - apply safe_obeys. apply (obeys_weaken offer_change); [done|apply set_offer_obeys].
  - apply safe_obeys. unfold collect. auto 20 with obeys.
  - apply safe_obeys, input_status_obeys.
  - by apply input_write_safe.
  - by apply release_safe.
Qed.

Lemma operation_safe l s : wf l → safe_any Q l (operation s).2.
Proof.
  intros Hwf. destruct s; simpl; apply answered_safe; try done.
  - apply initialize_inputs_safe.
  - by apply prepare_runtime_safe.
  - by apply launch_safe.
  - by apply release_barrier_safe.
Qed.

(** Well-formed tables and safe threads. *)
Record sound (m : machine) : Prop := {
  sd_wf : wf (u_ledger (mc_sup m));
  sd_offer : is_Some (l_offer (u_ledger (mc_sup m)));
  sd_requests p : p ∈ mc_requests m → safe_any Q (u_ledger (mc_sup m)) p;
  sd_pool i p : mc_pool m !! i = Some p → safe_any Q (u_ledger (mc_sup m)) p }.

Lemma safe_run {A} (u u' : sup) (a : sup → sup * prog A) q :
  wf (u_ledger u) → safe_any Q (u_ledger u) (Atomic a) → a u = (u', q) →
  protocol Q (u_ledger u) (u_ledger u') ∧ safe_any Q (u_ledger u') q.
Proof.
  intros Hwf Hs Ha. inversion Hs as [|? Hm Hq]; subst.
  specialize (Hm u Hwf (protocol_refl _ _)). specialize (Hq u Hwf (protocol_refl _ _)).
  by rewrite Ha in Hm, Hq.
Qed.

(** A critical section of one thread leaves all threads safe. *)
Lemma sound_section m u requests pool :
  sound m → protocol Q (u_ledger (mc_sup m)) (u_ledger u) →
  (∀ p, p ∈ requests → safe_any Q (u_ledger u) p ∨ p ∈ mc_requests m) →
  (∀ i p, pool !! i = Some p → safe_any Q (u_ledger u) p ∨ mc_pool m !! i = Some p) →
  sound (mkMachine u requests pool).
Proof.
  intros [Hwf Ho Hr Hp] Hpr HR HP. split; simpl.
  - by eapply protocol_wf.
  - by eapply protocol_offer_some.
  - intros p Hin. destruct (HR p Hin) as [|Hin']; [done|]. eapply safe_stable; eauto.
  - intros i p Hin. destruct (HP i p Hin) as [|Hin']; [done|]. eapply safe_stable; eauto.
Qed.

Lemma elem_of_insert_list {A} (l : list A) k x y : y ∈ <[k := x]> l → y = x ∨ y ∈ l.
Proof.
  intros (j & Hj)%list_elem_of_lookup. destruct (decide (j = k)) as [->|Hne].
  - apply list_lookup_insert_Some in Hj as [(_ & -> & _)|[? ?]]; [by left|done].
  - rewrite list_lookup_insert_ne in Hj by done. right. by eapply list_elem_of_lookup_2.
Qed.

Lemma open_supervisor_ledger l staged u :
  is_Some (l_offer l) → open_supervisor l staged = Ok u → u_ledger u = l.
Proof.
  intros [o Ho]. unfold open_supervisor. rewrite Ho. run. intros H.
  apply bind_Ok in H as (o' & _ & H). apply raise_if_bind_Ok in H as [_ H]. apply bind_Ok in H as (_ & _ & H).
  by injection H as <-.
Qed.

Lemma keeps_offer_Q op : keeps_offer op → Q op.
Proof. destruct op; simpl; try done; intros _; by eapply HQ. Qed.

Lemma sound_perform m e m' :
  sound m → allowed V e → perform m e = Some m' →
  sound m' ∧ protocol Q (u_ledger (mc_sup m)) (u_ledger (mc_sup m')).
Proof.
  intros Hs Hall H. pose proof Hs as [Hwf Ho Hr Hp].
  assert (Hpr : protocol Q (u_ledger (mc_sup m)) (u_ledger (mc_sup m))) by constructor.
  destruct e as [r|k|s|i|order w wf'|w]; simpl in H.
  - injection H as <-. split; [|done]. eapply sound_section; [done|done| |by right].
    intros p [Hin|Hin]%elem_of_app; [by right|left].
    apply list_elem_of_singleton in Hin as ->. by apply serve_safe.
  - destruct (mc_requests m !! k) as [[|a]|] eqn:Hk; try done.
    destruct (a (mc_sup m)) as [u q] eqn:Ha. injection H as <-.
    destruct (safe_run _ _ _ _ Hwf (Hr _ (list_elem_of_lookup_2 _ _ _ Hk)) Ha) as [Hpu Hq].
    split; [|done]. eapply sound_section; [done|done| |by right].
    intros p [->|Hin]%elem_of_insert_list; [by left|by right].
  - pose proof (operation_safe (u_ledger (mc_sup m)) s Hwf) as Hop.
    destruct (operation s) as [[i k] p]. destruct (_ && _); [|done]. injection H as <-.
    split; [|done]. eapply sound_section; [done|done|by right|].
    intros j p' [[-> <-]|[_ Hin]]%lookup_insert_Some; [by left|by right].
  - destruct (mc_pool m !! i) as [[|a]|] eqn:Hi; try done.
    destruct (a (mc_sup m)) as [u q] eqn:Ha. injection H as <-.
    destruct (safe_run _ _ _ _ Hwf (Hp _ _ Hi) Ha) as [Hpu Hq].
    split; [|done]. eapply sound_section; [done|done|by right|].
    intros j p' [[-> <-]|[_ Hin]]%lookup_insert_Some; [by left|by right].
  - case_bool_decide; [|done].
    destruct (tick st order (future (mc_pool m)) w wf' (mc_sup m)) as [u r] eqn:Ht. injection H as <-.
    assert (Hpu : protocol Q (u_ledger (mc_sup m)) (u_ledger u)).
    { eapply protocol_weaken; [exact keeps_offer_Q|].
      by destruct (tick_obeys st order (future (mc_pool m)) w wf' (mc_sup m) u r Hwf I Ht). }
    split; [|done]. eapply sound_section; [done|done|by right|].
    intros i p [Hin _]%map_lookup_filter_Some. by right.
  - destruct (open_supervisor _ _) as [u0|e] eqn:Hopen; [|done].
    destruct (recover st w u0) as [u r] eqn:Hrec. injection H as <-.
    pose proof (open_supervisor_ledger _ _ _ Ho Hopen) as Hl. simpl.
    assert (Hpu : protocol Q (u_ledger (mc_sup m)) (u_ledger u)).
    { eapply protocol_weaken; [exact keeps_offer_Q|]. rewrite <- Hl.
      rewrite <- Hl in Hwf. by destruct (recover_obeys st w u0 u r Hwf I Hrec). }
    split; [|done]. eapply sound_section; [done|done| |].
    + by intros p []%elem_of_nil.
    + intros i p. by rewrite lookup_empty.
Qed.

Lemma sound_performs es m m' :
  sound m → Forall (allowed V) es → performs m es = Some m' →
  sound m' ∧ protocol Q (u_ledger (mc_sup m)) (u_ledger (mc_sup m')).
Proof.
  intros Hs Hall. revert m Hs. induction Hall as [|e es He _ IH]; intros m Hs H; simpl in H.
  { injection H as <-. split; [done|constructor]. }
  destruct (perform m e) as [m1|] eqn:H1; [|done]. simpl in H.
  destruct (sound_perform _ _ _ Hs He H1) as [Hs1 Hp1]. destruct (IH m1 Hs1 H) as [Hs2 Hp2].
  split; [done|by eapply protocol_trans].
Qed.
End rely.

Lemma started_sound Q m : started_machine m → sound Q m.
Proof.
  destruct 1 as [identity u0 H]. unfold open_supervisor in H.
  apply bind_Ok in H as (l & Hl & H). apply bind_Ok in H as (o & Ho%some_or_Ok & H).
  apply raise_if_bind_Ok in H as [_ H]. apply bind_Ok in H as (_ & _ & H). injection H as <-.
  split; simpl.
  - eapply step_wf; [|apply (wf_empty identity None)]. eapply (save_offer_step (t := None)). exact Hl.
  - by exists o.
  - by intros p []%elem_of_nil.
  - intros i p. by rewrite lookup_empty.
Qed.
End machine.
