(* ===== verification/ExecutorProps.v ===== *)
(** * What the executor guarantees

    The invariants of the ledger protocol, carried to every state the interleaved
    executor of [Machine] can reach. *)

From Stdlib Require Import SpecFloat.
From S2P Require Import Prelude Float64 Json Clock Spec Offer Ledger LedgerStep Samples LedgerProps Settings Protocol Inputs LedgerProtocol Supervisor Monitor SupervisorProtocol Machine.

Lemma valid_admits : admits any_op valid.
Proof. intros r Hr. split; [done|]. by destruct r. Qed.

Lemma steady_admits : admits keeps_offer steady.
Proof. intros r [Hr Hs]. split; [done|]. by destruct r. Qed.

Section executor.
Context (st : Settings).

(** The states of an executor that started on a new ledger. *)
Definition reachable (m : machine) : Prop :=
  ∃ m0 es, started_machine st m0 ∧ Forall (allowed valid) es ∧ performs st m0 es = Some m.

Lemma reachable_sound m : reachable m → sound any_op m.
Proof.
  intros (m0 & es & H0 & Hall & Hs).
  by destruct (sound_performs st any_op (fun _ _ _ => I) valid valid_admits es m0 m
                 (started_sound st _ m0 H0) Hall Hs).
Qed.

Lemma reachable_preserve (P : ledger → Prop) :
  (∀ identity o, P (mkLedger identity o ∅ ∅)) →
  (∀ l op l', wf l → lawful l op → change l op l' → P l → P l') →
  ∀ m, reachable m → P (u_ledger (mc_sup m)).
Proof.
  intros H0 HP m (m0 & es & Hst & Hall & Hs).
  pose proof (started_sound st any_op m0 Hst) as Hsd.
  destruct (sound_performs st any_op (fun _ _ _ => I) valid valid_admits es m0 m Hsd Hall Hs) as [_ Hp].
  eapply (protocol_preserve any_op P); [|exact Hp|apply Hsd|].
  - intros l op l' Hwf Hlaw _. by apply HP.
  - destruct Hst as [identity u0 H]. simpl. unfold open_supervisor in H.
    apply bind_Ok in H as (l & Hl & H). apply bind_Ok in H as (o & _ & H).
    apply raise_if_bind_Ok in H as [_ H]. apply bind_Ok in H as (_ & _ & H). injection H as <-. simpl.
    simpl in Hl. unfold save_offer in Hl. inv_ok. apply H0.
Qed.

Lemma reachable_exact m : reachable m → exact (u_ledger (mc_sup m)).
Proof.
  apply (reachable_preserve exact); [|by apply exact_change].
  intros identity o d i. simpl. rewrite lookup_empty. split; [done|].
  unfold get. simpl. intros (a & Ha & _). by rewrite lookup_empty in Ha.
Qed.

Lemma reachable_honest m : reachable m → all_honest (u_ledger (mc_sup m)).
Proof.
  apply (reachable_preserve all_honest); [|by apply honest_change].
  intros identity o j b. unfold get. simpl. by rewrite lookup_empty.
Qed.

Lemma reachable_plans m : reachable m → plans_ok (u_ledger (mc_sup m)).
Proof.
  apply (reachable_preserve plans_ok).
  - intros identity o j b. unfold get. simpl. by rewrite lookup_empty.
  - intros l op l' _. apply plans_ok_change.
Qed.

(** C10: Whatever the interleaving of requests, pool operations, monitor ticks and
    restarts, and whatever the provider, the system manager and the clock answer,
    the tables stay well formed, the device table holds exactly the GPUs of the
    attempts whose processes are not confirmed gone, and two such attempts never
    share a GPU or a storage slot. *)
Theorem executor_exclusive m :
  reachable m →
  let l := u_ledger (mc_sup m) in
  wf l ∧ exact l
  ∧ (∀ i j a b d, get l i = Some a → get l j = Some b → running a = true → running b = true →
       d ∈ gpu_devices (limits (job (a_plan a))) → d ∈ gpu_devices (limits (job (a_plan b))) → i = j)
  ∧ (∀ i j a b s, get l i = Some a → get l j = Some b → a_slot a = Some s → a_slot b = Some s → i = j).
Proof.
  intros Hm l. pose proof (sd_wf _ _ (reachable_sound m Hm)) as Hwf. fold l in Hwf.
  pose proof (reachable_exact m Hm) as Hex. fold l in Hex.
  split; [done|]. split; [done|]. split; [|intros; by eapply wf_slot].
  intros i j a b d Ha Hb Hra Hrb Hda Hdb.
  assert (l_devices l !! d = Some i) as Hi by (apply Hex; eauto).
  assert (l_devices l !! d = Some j) as Hj by (apply Hex; eauto). congruence.
Qed.

(** C11: In every reachable state a recorded success, before or after release, is
    one whose payload the supervisor had let run, and it exited with zero; and a
    payload is let run only after the attempt's first start was recorded. *)
Theorem success_observed m i a :
  reachable m → get (u_ledger (mc_sup m)) i = Some a →
  (a_state a = Succeeded ∨ a_outcome a = Some Succeeded →
     a_payload_released a = true ∧ a_exit_code a = Some 0%Z)
  ∧ (a_payload_released a = true → 2 ≤ phase (a_state a)).
Proof.
  intros Hm Ha. by destruct (reachable_honest m Hm i a Ha).
Qed.

(** No request or pool operation is in flight, as after a restart. *)
Definition idle (m : machine) : Prop := mc_requests m = [] ∧ mc_pool m = ∅.

Lemma idle_sound Q m : reachable m → idle m → sound Q m.
Proof.
  intros Hm [Hr Hp]. destruct (reachable_sound m Hm) as [Hwf Ho _ _]. split; [done|done| |].
  - rewrite Hr. by intros p []%elem_of_nil.
  - rewrite Hp. intros i p. by rewrite lookup_empty.
Qed.

(** C12: While the local offer does not change, the executor never overcommits it:
    from an idle state whose unfinished attempts fit the offer's compute limits and
    whose retained attempts fit its storage limits, every later state does,
    whatever is admitted, finished, released or restarted meanwhile. *)
Theorem executor_within_offer m es m' :
  reachable m → idle m → within (u_ledger (mc_sup m)) →
  Forall (allowed steady) es → performs st m es = Some m' →
  within (u_ledger (mc_sup m')).
Proof.
  intros Hm Hidle Hw Hall Hs. pose proof (idle_sound keeps_offer m Hm Hidle) as Hsd.
  pose proof (reachable_plans m Hm) as Hok.
  destruct (sound_performs st keeps_offer keeps_offer_on steady steady_admits es m m' Hsd Hall Hs) as [_ Hp].
  enough (H : plans_ok (u_ledger (mc_sup m')) ∧ within (u_ledger (mc_sup m'))) by apply H.
  refine (protocol_preserve keeps_offer (fun l => plans_ok l ∧ within l) _ _ _ Hp (sd_wf _ _ Hsd) (conj Hok Hw)).
  intros l op l' Hwf Hlaw Hop Hc [Hok' Hw']. split; [by eapply plans_ok_change|by eapply within_change].
Qed.
End executor.

(** ** A concrete run *)

(** The outside world of a healthy host at one reading. *)
Definition calm (now : Reading) : world :=
  mkWorld now f_zero (fun _ _ _ => Ok sample_binding) (fun _ => Ok tt) (fun _ => Ok JNull)
    (fun _ _ => Ok (mkObservation (Some "finished") true (Some (Some 0%Z)) (Some 5%Z) (Some 0%Z)
                      None None (JObj [("prepared", JInt 1)])))
    (fun _ => Ok (mkUnit None None None)) (fun _ => false) (fun _ => false).

(** An attempt's whole life: admitted, prepared, started, let through both
    barriers and finished. *)
Definition prepared_document : json :=
  JObj [("positive_devices", JArr [JStr "/dev/nvidia0"]); ("negative_devices", JArr [])].

Definition in_phase (phase : string) : world :=
  mkWorld (sample_reading 1) f_zero (fun _ _ _ => Ok sample_binding) (fun _ => Ok tt) (fun _ => Ok JNull)
    (fun _ _ => Ok (mkObservation (Some phase) true (Some (Some 0%Z)) (Some 5%Z) (Some 0%Z)
                      (Some 4242%Z) (Some [("/dev/nvidia0", 0%Z)]) prepared_document))
    (fun _ => Ok (mkUnit (Some "loaded") (Some "active") None)) (fun _ => false) (fun _ => false).

Definition stored_a : attempt := fresh_attempt plan_a "slot-a" sample_binding sample_now.

Definition barrier (pid : option Z) : submission :=
  SubBarrier stored_a pid (in_phase "ready") (sample_reading 1) (sample_reading 1) (sample_reading 1)
    (Ok tt) (Ok JNull) None (Ok tt).

Definition admission_events : list event :=
  [Arrive (RPrepare (mkAdmission plan_a (sample_lease plan_a 1 30)) (calm (sample_reading 0))
             (sample_reading 0));
   RunRequest 0].

Definition life_events : list event :=
  let i := attempt_id plan_a in
  let c := context sample_host (sample_slot "slot-a" "/srv/slot-a" "ficc-a" 901) plan_a
             (plan_digest plan_a) None in
  admission_events ++
  [Submit (SubPrepare c (plan_fence plan_a) (in_phase "idle") (in_phase "idle")); RunPool i; RunPool i;
   Tick [(i, PendingPrepare)] (in_phase "idle") (in_phase "idle");
   Arrive (RStart (plan_fence plan_a) (sample_reading 1)); RunRequest 1;
   Submit (SubStart (plan_fence plan_a) (in_phase "idle") (sample_reading 1) (sample_reading 1)
             (fun _ _ => Ok tt));
   RunPool i; RunPool i; RunPool i;
   Tick [(i, PendingStart)] (in_phase "ready") (in_phase "ready");
   Submit (barrier None); RunPool i; RunPool i; RunPool i;
   Tick [(i, EngineBarrier)] (in_phase "payload") (in_phase "payload");
   Submit (barrier (Some 4242%Z)); RunPool i; RunPool i; RunPool i; RunPool i;
   Tick [(i, PayloadBarrier)] (in_phase "finished") (in_phase "finished")].

Definition opened_machine : machine :=
  match open_supervisor sample_host (new_ledger (id_of "e")) ∅ with
  | Ok u => mkMachine u [] ∅
  | Err _ => mkMachine (mkSup (new_ledger (id_of "e")) ∅ ∅ ∅ ∅ ∅ false) [] ∅
  end.

Definition after (es : list event) : machine :=
  match performs sample_host opened_machine es with Some m => m | None => opened_machine end.

Lemma opened_within : within (u_ledger (mc_sup opened_machine)).
Proof.
  exists sample_offer. split; [vm_compute; reflexivity|].
  split; intros r _; vm_compute; by destruct r.
Qed.

Lemma opened_started : started_machine sample_host opened_machine.
Proof.
  unfold opened_machine.
  destruct (open_supervisor sample_host (new_ledger (id_of "e")) ∅) as [u|e] eqn:H.
  - by eapply started_new.
  - assert (Hok : is_ok (open_supervisor sample_host (new_ledger (id_of "e")) ∅) = true)
      by (vm_compute; reflexivity). by rewrite H in Hok.
Qed.

Lemma performs_after es :
  match performs sample_host opened_machine es with Some _ => true | None => false end = true →
  performs sample_host opened_machine es = Some (after es).
Proof. unfold after. by destruct (performs sample_host opened_machine es). Qed.

Lemma after_reachable es :
  Forall (allowed valid) es →
  match performs sample_host opened_machine es with Some _ => true | None => false end = true →
  reachable sample_host (after es).
Proof.
  intros Hall H. exists opened_machine, es. split; [apply opened_started|]. split; [done|].
  by apply performs_after.
Qed.

Lemma admission_allowed : Forall (allowed steady) admission_events.
Proof. repeat constructor; vm_compute; reflexivity. Qed.

Lemma life_allowed : Forall (allowed valid) life_events.
Proof. repeat constructor; vm_compute; reflexivity. Qed.

Lemma admission_reachable : reachable sample_host (after admission_events).
Proof.
  apply after_reachable; [repeat constructor; vm_compute; reflexivity|vm_compute; reflexivity].
Qed.

Lemma life_reachable : reachable sample_host (after life_events).
Proof. apply after_reachable; [apply life_allowed|vm_compute; reflexivity]. Qed.

(** After its admission [plan_a] holds its GPU. *)
Lemma executor_exclusive_witness :
  l_devices (u_ledger (mc_sup (after admission_events))) !! "GPU-0" = Some (id_of "a")
  ∧ exact (u_ledger (mc_sup (after admission_events))).
Proof.
  split; [vm_compute; reflexivity|].
  apply (executor_exclusive sample_host (after admission_events) admission_reachable).
Defined.

(** At the end of its life it has succeeded. *)
Lemma success_observed_witness :
  ∃ a, get (u_ledger (mc_sup (after life_events))) (attempt_id plan_a) = Some a
    ∧ a_state a = Succeeded ∧ a_payload_released a = true ∧ a_exit_code a = Some 0%Z.
Proof.
  destruct (get (u_ledger (mc_sup (after life_events))) (attempt_id plan_a)) as [a|] eqn:Ha.
  - assert (Hs : a_state a = Succeeded).
    { assert (H : a_state <$> get (u_ledger (mc_sup (after life_events))) (attempt_id plan_a)
                  = Some Succeeded) by (vm_compute; reflexivity).
      rewrite Ha in H. by injection H. }
    destruct (success_observed sample_host (after life_events) (attempt_id plan_a) a
                life_reachable Ha) as [Hsucc _].
    exists a. split; [reflexivity|]. split; [exact Hs|]. apply Hsucc. by left.
  - assert (H : match get (u_ledger (mc_sup (after life_events))) (attempt_id plan_a) with
                | Some _ => true | None => false end = true) by (vm_compute; reflexivity).
    rewrite Ha in H. discriminate H.
Defined.

Lemma executor_within_offer_witness : within (u_ledger (mc_sup (after admission_events))).
Proof.
  refine (executor_within_offer sample_host opened_machine admission_events _ _ _ _ admission_allowed _).
  - exists opened_machine, []. split; [apply opened_started|]. split; [constructor|reflexivity].
  - split; vm_compute; reflexivity.
  - exact opened_within.
  - apply performs_after. vm_compute. reflexivity.
Defined.
