(* ===== verification/SupervisorProps.v ===== *)
(** * What single supervisor methods guarantee

    The decision taken by [prepare], the fencing done by a monitor tick, the stops
    recorded by a withdrawn offer, and the capacity a snapshot publishes. *)

From Stdlib Require Import SpecFloat.
From S2P Require Import Prelude Float64 Json Clock Spec Offer Ledger LedgerStep Samples LedgerProps Settings Protocol Inputs LedgerProtocol Supervisor Monitor SupervisorProtocol Machine ExecutorProps.

(** ** Admission *)

Lemma smallest_elem l s : smallest l = Some s → s ∈ l.
Proof.
  revert s. induction l as [|a l IH]; intros s H; simpl in H; [done|].
  destruct (smallest l) as [b|]; [|injection H as <-; by left].
  destruct (slot_le a b); injection H as <-; [by left|right; by apply IH].
Qed.

(** A slot [prepare] may choose: configured, unheld, within the admitted storage
    and large enough for the declared inputs. *)
Record suitable (st : Settings) (l : ledger) (p : Plan) (s : Slot) : Prop := {
  su_configured : s ∈ slots st;
  su_free i a : get l i = Some a → a_slot a ≠ Some (slot_id s);
  su_bytes : (slot_bytes s <= storage_bytes (limits (job p)))%Z;
  su_inodes : (slot_inodes s <= storage_inodes (limits (job p)))%Z;
  su_inputs : (sumZ object_bytes (inputs (job p)) <= slot_bytes s)%Z }.

Lemma choices_suitable st u p s : s ∈ choices st u p ↔ suitable st (u_ledger u) p s.
Proof.
  unfold choices. rewrite elem_of_List_filter, !andb_true_iff, !Z.leb_le, negb_true_iff,
    bool_decide_eq_false. split.
  - intros [[[[Hh Hb] Hi] Hin] Hs]. split; try done. intros i a Ha He. apply Hh.
    apply list_elem_of_omap. exists a. split; [|done]. apply elem_of_List_filter.
    unfold held. rewrite He. split; [done|]. apply all_elem. eauto.
  - intros [Hs Hf Hb Hi Hin]. repeat split; try done.
    intros (a & [_ Ha]%elem_of_List_filter & He)%list_elem_of_omap.
    apply all_elem in Ha as [i Ha]. by eapply Hf.
Qed.

Section prepare.
Context (st : Settings) (adm : Admission) (w : world) (later : Reading).
Let p := adm_plan adm.

(** What [prepare] leaves behind for a plan it had not seen: a reservation with an
    active lease in a suitable slot, or a recorded refusal without a slot. *)
Definition decided (l : ledger) (a : attempt) : Prop :=
  a_plan a = p
  ∧ ((∃ s, suitable st l p s ∧ a_slot a = Some (slot_id s) ∧ a_state a = Prepared
        ∧ active (a_sequence a) (a_expires_at a) (a_timing a) (w_now w) = true)
     ∨ a_slot a = None ∧ is_Some (a_rejection a) ∧ a_state a = Failed ∧ a_cleanup a = true).
Lemma find_configured (slots : list Slot) s :
  s ∈ slots → is_Some (List.find (fun x => bool_decide (slot_id x = slot_id s)) (rev slots)).
Proof.
  intros Hs. destruct (List.find _ (rev slots)) as [x|] eqn:Hf; [by exists x|]. exfalso.
  assert (Hin : In s (rev slots)) by (apply in_rev; rewrite rev_involutive; by apply list_elem_of_In).
  pose proof (List.find_none _ _ Hf s Hin) as Hn. simpl in Hn. by rewrite bool_decide_true in Hn.
Qed.

(** The preparation of an attempt in a configured slot can always be queued. *)
Lemma queue_preparation_Ok a s u :
  a_slot a = Some (slot_id s) → s ∈ slots st → ∃ u', queue_preparation st a u = (u', Ok tt).
Proof.
  intros Ha Hs. destruct (find_configured _ _ Hs) as [x Hx].
  assert (∃ c, ctx_of st a = Ok c) as [c Hc].
  { unfold ctx_of, slot_of. rewrite Ha. run. rewrite Hx. run. by eexists. }
  unfold queue_preparation, mbind, M_bind, gets, lift. rewrite Hc.
  destruct (match u_pending u !! _ with Some _ => true | None => false end || _ || _ || _);
    [by eexists|].
  destruct (_ && _); [by eexists|]. unfold when. destruct (complete _ _); by eexists.
Qed.

Lemma reject_decided l a l' :
  get l (attempt_id p) = None → reject l p (wall later) None = Ok (l', a) →
  get l' (attempt_id p) = Some a ∧ a_digest a = plan_digest p ∧ decided l a.
Proof.
  unfold reject. intros Hnew H. rewrite Hnew in H. apply raise_if_bind_Ok in H as [_ H].
  apply bind_Ok in H as (l1 & Hi & H). apply insert_attempt_Ok in Hi as (-> & _).
  injection H as <- <-. rewrite get_put, decide_True by done. split; [done|]. split; [done|].
  split; [done|]. right. simpl. by repeat split.
Qed.

Lemma reserve_slot_cases u u' r :
  reserve_slot st adm w u = (u', r) →
  match r with
  | Ok (a, flag) =>
      ∃ s binding, suitable st (u_ledger u) p s
        ∧ admit_ (u_ledger u) adm (slot_id s) binding (w_now w) (maximum_lease_seconds st)
          = Ok (u_ledger u', (a, flag))
  | Err _ => u_ledger u' = u_ledger u
  end.
Proof.
  intros H. unfold reserve_slot, mbind, M_bind, gets, lift, on_ledger in H.
  destruct (smallest _) as [s|] eqn:Hs; simpl in H; [|by injection H as <- <-].
  apply smallest_elem, choices_suitable in Hs.
  destruct (w_probe w s None true) as [binding|e]; [|by injection H as <- <-].
  destruct (admit_ _ _ _ _ _ _) as [[l [a flag]]|e] eqn:Ha; injection H as <- <-; [|done].
  by exists s, binding.
Qed.

(** [prepare] always settles an admission durably.  When it returns, the plan
    is stored under its identity: one seen before unchanged, a new one either
    reserved in a free, configured slot that fits, with an active lease, or
    recorded as refused without any slot.  When it raises, nothing is stored. *)
Theorem prepare_settles u u' r :
  wf (u_ledger u) → admission_ok adm = true → prepare st adm w later u = (u', r) →
  match r with
  | Ok a =>
      get (u_ledger u') (attempt_id p) = Some a ∧ a_digest a = plan_digest p
      ∧ (if get (u_ledger u) (attempt_id p) then u_ledger u' = u_ledger u
         else decided (u_ledger u) a)
  | Err _ => u_ledger u' = u_ledger u
  end.
Proof.
  intros Hwf Hok H. unfold prepare in H. fold p in H.
  unfold mbind, M_bind, lift, gets, catch, fmap, M_fmap in H.
  destruct (check_identity st p) as [[]|e]; [|by injection H as <- <-].
  destruct (get (u_ledger u) (attempt_id p)) as [b|] eqn:Hget.
  { unfold id in H. injection H as <- <-. destruct (fenced _ _) as [a|e] eqn:Hf; [|done].
    apply fenced_Ok in Hf as (Ha & _ & Hd). done. }
  destruct (reserve_slot st adm w u) as [u1 [[a flag]|e]] eqn:Hs; apply reserve_slot_cases in Hs; simpl in H.
  - destruct Hs as (s & binding & Hsuit & Hadm).
    apply admit_Ok in Hadm as [(Hx & _)|(-> & o & tm & Hrsv & Hdl & Ha & Hl)]; try done.
    { fold p in Hx. congruence. }
    fold p in Ha, Hl. unfold when in H.
    destruct (queue_preparation_Ok a s u1) as [u2 Hq]; [by subst a|apply Hsuit|].
    pose proof (queue_preparation_ledger st a u1) as Hql. rewrite Hq in H, Hql. simpl in Hql.
    injection H as <- <-. rewrite Hql, Hl, get_assign, get_put, decide_True by done.
    subst a. split; [done|]. split; [done|]. split; [done|]. left. exists s.
    split; [done|]. split; [done|]. split; [done|]. simpl.
    eapply deadline_active; [exact Hdl|]. by apply admission_binding in Hok as (_ & -> & _).
  - rewrite <- Hs. destruct (refusable e); [|by injection H as <- <-].
    unfold on_ledger in H. destruct (reject (u_ledger u1) p (wall later) None) as [[l' a]|e'] eqn:Hr;
      simpl in H; injection H as <- <-; [|done].
    apply reject_decided in Hr; [|by rewrite Hs]. done.
Qed.
End prepare.

(** [prepare] of [plan_a] on the open executor. *)
Lemma prepare_settles_witness :
  ∃ u' a,
    prepare sample_host (mkAdmission plan_a (sample_lease plan_a 1 30)) (calm (sample_reading 0))
      (sample_reading 0) (mc_sup opened_machine) = (u', Ok a)
    ∧ get (u_ledger u') (attempt_id plan_a) = Some a
    ∧ decided sample_host (mkAdmission plan_a (sample_lease plan_a 1 30)) (calm (sample_reading 0))
        (u_ledger (mc_sup opened_machine)) a.
Proof.
  set (adm := mkAdmission plan_a (sample_lease plan_a 1 30)).
  assert (Hok : is_ok (prepare sample_host adm (calm (sample_reading 0)) (sample_reading 0)
                         (mc_sup opened_machine)).2 = true) by (vm_compute; reflexivity).
  destruct (prepare sample_host adm (calm (sample_reading 0)) (sample_reading 0) (mc_sup opened_machine))
    as [u' [a|e]] eqn:Hp; [|discriminate Hok].
  exists u', a. split; [reflexivity|].
  assert (Hwf : wf (u_ledger (mc_sup opened_machine)))
    by apply (sd_wf _ _ (started_sound sample_host any_op _ opened_started)).
  assert (Hadm : admission_ok adm = true) by (vm_compute; reflexivity).
  destruct (prepare_settles sample_host adm _ _ _ _ _ Hwf Hadm Hp) as (Hg & _ & Hd).
  assert (Hnew : get (u_ledger (mc_sup opened_machine)) (attempt_id (adm_plan adm)) = None)
    by (vm_compute; reflexivity).
  rewrite Hnew in Hd. split; [exact Hg|exact Hd].
Defined.

(** ** Fencing *)

(** A row the monitor has nothing to fear from: past its running phases, or with
    its stop recorded. *)
Definition fenced_off (b : attempt) : Prop := stop_pending b = true ∨ 3 ≤ phase (a_state b).

Section tick.
Context (st : Settings).

Lemma reason_or_nonempty reason d : d ≠ "" → reason_or reason d ≠ "".
Proof. intros Hd. destruct reason as [s|]; simpl; [|done]. by case_bool_decide. Qed.

Lemma stop_reason_nonempty a e d : d ≠ "" → stop_reason a e d ≠ "".
Proof.
  intros Hd. unfold stop_reason, stop_pending. destruct (a_pending_stop a) as [s|]; simpl.
  - case_bool_decide; simpl; [|done]. repeat case_match; done.
  - repeat case_match; done.
Qed.

(** What [finish] does to the ledger, case by case. *)
Inductive finish_effect (l : ledger) (a : attempt) : ledger → res unit → Prop :=
| fe_none r : (is_ok r = true → a_state a = Unknown ∨ stop_pending a = true) → finish_effect l a l r
| fe_pending s l' x r : s ≠ "" → annotate l (fence a) (PendingStop s) = Ok (l', x) →
    finish_effect l a l' r
| fe_result o l' r : r_fence o = fence a → Ledger.finish l o = Ok l' → finish_effect l a l' r.

Lemma record_result_effect a o u u' r :
  r_fence o = fence a → record_result a o u = (u', r) → finish_effect (u_ledger u) a (u_ledger u') r.
Proof.
  intros Hf H. unfold record_result, mbind, M_bind, on_ledger, ledger_unit in H.
  destruct (Ledger.finish (u_ledger u) (keep_uncertain a o)) as [l|e] eqn:Hl; simpl in H.
  - assert (u_ledger u' = l) as -> by (destruct (r_cleanup_confirmed _); by injection H as <- <-).
    eapply fe_result; [|exact Hl]. unfold keep_uncertain. by case_bool_decide.
  - injection H as <- <-. by apply fe_none.
Qed.

Lemma finish_effects a reason w u u' r :
  finish st a reason w u = (u', r) → finish_effect (u_ledger u) a (u_ledger u') r.
Proof.
  unfold finish. intros H. destruct (_ && _) eqn:Hg.
  { injection H as <- <-. apply fe_none. intros _. left. by bool_inv. }
  unfold mbind at 1, M_bind at 1, lift at 1 in H.
  destruct (ctx_of st a) as [c|e]; [|injection H as <- <-; by apply fe_none].
  destruct (if has_prepared a then _ else _) as [ob why].
  destruct (stop_and_judge a c why ob w) as [o|e] eqn:Hj.
  { apply stop_and_judge_Ok in Hj as (Hf & _). by eapply record_result_effect. }
  destruct (is_stop_pending e); [|by eapply (record_result_effect _ (unconfirmed a))].
  unfold await_stop, mbind, M_bind, gets, modify, lift, when, on_ledger in H.
  destruct (raise_if _ _); [|injection H as <- <-; by apply fe_none].
  destruct (negb (stop_pending a) && _) eqn:Hn; simpl in H.
  - destruct (annotate _ _ _) as [[l x]|e'] eqn:Ha; injection H as <- <-; simpl; [|by apply fe_none].
    eapply fe_pending; [|exact Ha]. by apply reason_or_nonempty.
  - injection H as <- <-. simpl. apply fe_none. intros _.
    apply andb_false_iff in Hn as [Hn|Hn]; bool_inv; [by right|by left].
Qed.

Lemma annotate_fenced l f s l' x :
  wf l → s ≠ "" → annotate l f (PendingStop s) = Ok (l', x) →
  fenced_off x ∧ get l' (f_attempt_id f) = Some x.
Proof.
  intros Hwf Hs (b & Hb & Hn & ->)%annotate_Ok; [|done]. injection Hn as <-.
  rewrite get_put, decide_True by done. split; [|done]. left. unfold stop_pending. simpl.
  by rewrite bool_decide_false.
Qed.

(** A row once fenced off stays so, and a [finish] that returns fences it off. *)
Lemma finish_effect_row l a l' r b' :
  wf l → finish_effect l a l' r → get l' (attempt_id (a_plan a)) = Some b' →
  (fenced_off b' ∨ get l (attempt_id (a_plan a)) = Some b')
  ∧ (∀ b, get l (attempt_id (a_plan a)) = Some b → fenced_off b → fenced_off b').
Proof.
  intros Hwf Heff Hb'. destruct Heff as [r Hr|s l' x r Hs Ha|o l' r Hf Ho].
  - split; [by right|]. intros b Hb. by simplify_eq.
  - destruct (annotate_fenced _ _ _ _ _ Hwf Hs Ha) as [Hx Hg]. simpl in Hg.
    rewrite Hg in Hb'. injection Hb' as <-. split; [by left|done].
  - apply finish_Ok in Ho as (b & Hb & Hnr & Hst & Hc & Ht & l1 & Hsave & ->). rewrite Hf in *.
    simpl in *. eapply (save_put (t := None)) in Hsave; [|done|exact Hb|by constructor]. subst l1.
    assert (b' = set_result o b) as ->.
    { revert Hb'. destruct (r_cleanup_confirmed o); unfold get; simpl; rewrite lookup_insert_eq; congruence. }
    assert (fenced_off (set_result o b)).
    { right. simpl. destruct Hst as [Hst|Hst]; destruct (r_state o); simpl in *; done || lia. }
    split; [by left|done].
Qed.
Lemma observe_effects a w wf u u' r :
  observe st a w wf u = (u', r) → ∃ r', finish_effect (u_ledger u) a (u_ledger u') r'.
Proof.
  assert (Hsame : ∀ u', u_ledger u' = u_ledger u →
            ∃ r', finish_effect (u_ledger u) a (u_ledger u') r').
  { intros v Hv. rewrite Hv. exists (Err (OtherError "")). by apply fe_none. }
  unfold observe. intros H.
  assert (Hlift : ∀ {A} (x : res A) (k : A → M unit), (lift x ≫= k) u = (u', r) →
            (∃ y, x = Ok y ∧ k y u = (u', r)) ∨ u' = u).
  { intros A x k Hk. unfold mbind, M_bind, lift in Hk. destruct x; [left; eauto|right].
    by injection Hk as <- <-. }
  apply Hlift in H as [(c & _ & H)|Hu]; [|apply Hsame; by subst].
  apply Hlift in H as [(ob & _ & H)|Hu]; [|apply Hsame; by subst].
  apply Hlift in H as [(un & _ & H)|Hu]; [|apply Hsame; by subst].
  apply Hlift in H as [(ph & _ & H)|Hu]; [|apply Hsame; by subst].
  destruct (bool_decide (ph = "finished")); [exists r; by eapply finish_effects|].
  destruct (unit_gone un); [exists r; by eapply finish_effects|].
  destruct (_ && _).
  { do 4 (apply Hlift in H as [(? & _ & H)|Hu]; [|apply Hsame; by subst]).
    injection H as <- _. by apply Hsame. }
  destruct (_ && _); [|injection H as <- _; by apply Hsame].
  apply Hlift in H as [(? & _ & H)|Hu]; [|apply Hsame; by subst].
  injection H as <- _. by apply Hsame.
Qed.

Lemma current_same_offer u u' a now :
  l_offer (u_ledger u') = l_offer (u_ledger u) → current u' a now = current u a now.
Proof. intros Ho. unfold current, current_offer. by rewrite Ho. Qed.

(** Live and authorised at this reading, or fenced off. *)
Definition guarded (u : sup) (w : world) (b : attempt) : Prop :=
  fenced_off b ∨ current u b (w_now w) = Ok tt.

Lemma tick_one_guards a w wf' u u' b' :
  wf (u_ledger u) → get (u_ledger u) (attempt_id (a_plan a)) = Some a →
  tick_one st a w wf' u = (u', Ok tt) → get (u_ledger u') (attempt_id (a_plan a)) = Some b' →
  guarded u' w b'.
Proof.
  intros Hwf Ha H Hb'.
  assert (Hfresh : fresh (u_ledger u) a) by by eapply fresh_stored.
  destruct (tick_one_obeys st a w wf' (u_ledger u) Hfresh u u' _ Hwf eq_refl H) as [Hpr _].
  assert (Hoff : l_offer (u_ledger u') = l_offer (u_ledger u)).
  { apply protocol_same_offer; [|done]. eapply protocol_weaken; [apply keeps_offer_on|exact Hpr]. }
  assert (Hphase : 3 ≤ phase (a_state a) → guarded u' w b').
  { intros Hph. destruct (protocol_phase _ _ _ (attempt_id (a_plan a)) 3 Hwf Hpr) as (b & Hb & ?);
      [by exists a|]. simplify_eq. left. by right. }
  unfold tick_one in H.
  destruct (bool_decide (a_state a = Unknown) && _) eqn:Hunk.
  { apply andb_true_iff in Hunk as [Hunk _]. bool_inv. apply Hphase. rewrite Hunk. simpl. lia. }
  destruct (terminal (a_state a) || _ || _) eqn:Hter.
  { apply Hphase. destruct (a_state a); simpl in *; done || lia. }
  unfold mbind, M_bind, gets, id in H.
  destruct (current u a (w_now w)) as [[]|e] eqn:Hcur.
  - assert (Hkeep : ∀ u1 r, finish_effect (u_ledger u) a (u_ledger u1) r → ∀ b,
      get (u_ledger u1) (attempt_id (a_plan a)) = Some b → fenced_off b ∨ b = a).
    { intros u1 r Heff b Hb. destruct (finish_effect_row _ _ _ _ _ Hwf Heff Hb) as [[?|Hx] _]; [by left|].
      right. congruence. }
    assert (Hdone : fenced_off b' ∨ b' = a).
    { destruct (_ || bool_decide (a_state a = Prepared)).
      { injection H as <-. right. congruence. }
      unfold catch in H. destruct (observe st a w wf' u) as [u1 [[]|e]] eqn:Hob.
      - injection H as <-. apply observe_effects in Hob as [r Heff]. by eapply Hkeep.
      - assert (Hu1 : u_ledger u1 = u_ledger u).
        { destruct (observe_unchanged st a w wf' (u_ledger u) Hfresh u u1 _ Hwf eq_refl Hob) as [_ Hx].
          by apply Hx. }
        apply finish_effects in H. rewrite Hu1 in H. by eapply Hkeep. }
    destruct Hdone as [?| ->]; [by left|]. right. by rewrite (current_same_offer u).
  - left. unfold fence_branch, mbind, M_bind, gets, id, on_ledger in H.
    destruct (annotate (u_ledger u) (fence a) _) as [[l x]|e'] eqn:Han; [|done]. simpl in H.
    assert (Hwfl : wf l) by (eapply step_wf; [eapply (annotate_step (t := None)); [exact Hwf|exact Han]|exact Hwf]).
    destruct (annotate_fenced _ _ _ _ _ Hwf (stop_reason_nonempty a e "expired" ltac:(done)) Han)
      as [Hx Hrow].
    destruct (u_pending u !! attempt_id (a_plan a)) as [k|].
    + destruct (launching k).
      * unfold lift, raise in H. destruct (ctx_of st a); [|done]. by destruct (w_stop w _).
      * injection H as <-. simpl in Hb', Hrow. congruence.
    + apply finish_effects in H. simpl in H.
      destruct (finish_effect_row l a _ _ _ Hwfl H Hb') as [_ Hstay]. by eapply Hstay.
Qed.

Lemma guarded_same_offer u u' w b :
  l_offer (u_ledger u') = l_offer (u_ledger u) → guarded u w b → guarded u' w b.
Proof. intros Ho [?|Hc]; [by left|]. right. by rewrite (current_same_offer u). Qed.

Lemma tick_all_guards l w wf' u u' :
  wf (u_ledger u) → NoDup (row_id <$> l) → (∀ a, a ∈ l → get (u_ledger u) (row_id a) = Some a) →
  tick_all st l w wf' u = (u', Ok tt) →
  (∀ a b', a ∈ l → get (u_ledger u') (row_id a) = Some b' → guarded u' w b')
  ∧ (∀ j, j ∉ row_id <$> l → get (u_ledger u') j = get (u_ledger u) j)
  ∧ l_offer (u_ledger u') = l_offer (u_ledger u).
Proof.
  revert u. induction l as [|a l IH]; intros u Hwf Hnd Hrows H.
  { injection H as <-. split; [|done]. by intros a b []%elem_of_nil. }
  simpl in H. unfold mbind, M_bind in H.
  destruct (tick_one st a w wf' u) as [u1 [[]|e]] eqn:H1; [|done].
  assert (Ha : get (u_ledger u) (row_id a) = Some a) by (apply Hrows; by left).
  destruct (tick_one_obeys st a w wf' (u_ledger u) (fresh_stored _ _ _ Hwf Ha) u u1 _ Hwf eq_refl H1)
    as [Hpr _].
  assert (Hwf1 : wf (u_ledger u1)) by by eapply protocol_wf.
  assert (Hoff1 : l_offer (u_ledger u1) = l_offer (u_ledger u)).
  { apply protocol_same_offer; [|done]. eapply protocol_weaken; [apply keeps_offer_on|exact Hpr]. }
  assert (Hframe : ∀ j, j ≠ row_id a → get (u_ledger u1) j = get (u_ledger u) j).
  { intros j Hj. apply (protocol_frame (on_attempt (attempt_id (a_plan a))) j _ _); [|exact Hpr|exact Hwf].
    unfold on_attempt. intros op Hop He. apply Hj. unfold row_id. congruence. }
  rewrite fmap_cons in Hnd. apply NoDup_cons in Hnd as [Hout Hnd].
  assert (Hdiff : ∀ b, b ∈ l → row_id b ≠ row_id a).
  { intros b Hb He. apply Hout. rewrite <- He. by apply list_elem_of_fmap_2. }
  destruct (IH u1 Hwf1 Hnd) as (Hg & Hfr & Hoff); [|exact H|].
  { intros b Hb. rewrite Hframe by by apply Hdiff. apply Hrows. by right. }
  split; [|split; [|congruence]].
  - intros b b' [->|Hb]%elem_of_cons Hb'; [|by eapply Hg].
    rewrite Hfr in Hb' by done. eapply guarded_same_offer; [exact Hoff|].
    exact (tick_one_guards a w wf' u u1 b' Hwf Ha H1 Hb').
  - intros j Hj. rewrite fmap_cons, not_elem_of_cons in Hj. destruct Hj as [Hj1 Hj2].
    rewrite Hfr by done. by apply Hframe.
Qed.

(** C13: A monitor tick that returns leaves no attempt running without authority:
    every stored attempt has ended, has its stop recorded, or has at the tick's
    reading a live lease and the consent of the current local offer.  (A tick that
    raises stops the supervisor and with it every attempt unit.) *)
Theorem tick_fences order done w wf' u u' :
  wf (u_ledger u) → tick st order done w wf' u = (u', Ok tt) →
  ∀ i b, get (u_ledger u') i = Some b → guarded u' w b.
Proof.
  intros Hwf H i b Hb. unfold tick, mbind, M_bind, gets, id in H.
  destruct (harvest st order done w u) as [u1 [[]|e]] eqn:Hh; [|done].
  destruct (harvest_obeys st order done w u u1 _ Hwf I Hh) as [Hpr _].
  assert (Hwf1 : wf (u_ledger u1)) by by eapply protocol_wf.
  destruct (tick_all_guards _ _ _ _ _ Hwf1 (retained_NoDup _ Hwf1)
    (fun a Ha => proj1 (retained_get _ a Hwf1 Ha)) H) as (Hg & Hfr & _).
  destruct (decide (i ∈ row_id <$> retained (u_ledger u1))) as [Hi|Hi].
  - apply list_elem_of_fmap in Hi as (a & -> & Ha). by eapply Hg.
  - rewrite Hfr in Hb by done. left. right.
    pose proof (wf_life _ Hwf1 _ _ Hb) as Hlife.
    destruct (decide (phase (a_state b) ≤ 2)) as [Hph|]; [|lia]. exfalso. apply Hi.
    destruct (life_active _ Hlife Hph) as [[s Hs] _].
    rewrite <- (wf_key _ Hwf1 _ _ Hb). apply list_elem_of_fmap_2, elem_of_List_filter.
    unfold held. rewrite Hs. split; [done|]. apply all_elem. eauto.
Qed.
End tick.

(** A tick after [plan_a]'s lease has expired. *)
Definition late_world : world :=
  mkWorld (sample_reading 40) f_zero (fun _ _ _ => Ok sample_binding) (fun _ => Ok tt) (fun _ => Ok JNull)
    (fun _ _ => Err (OSError "unreachable")) (fun _ => Ok (mkUnit None None None)) (fun _ => false)
    (fun _ => false).

Definition unqueued : sup := with_pending (mc_sup (after admission_events)) ∅.

Lemma tick_fences_witness :
  ∃ u' b, tick sample_host [] (fun _ => None) late_world late_world unqueued = (u', Ok tt)
    ∧ get (u_ledger u') (attempt_id plan_a) = Some b ∧ a_state b = Expired
    ∧ guarded u' late_world b.
Proof.
  assert (Hok : is_ok (tick sample_host [] (fun _ => None) late_world late_world unqueued).2 = true)
    by (vm_compute; reflexivity).
  assert (Hst : (fun u' => a_state <$> get (u_ledger u') (attempt_id plan_a))
                  (tick sample_host [] (fun _ => None) late_world late_world unqueued).1 = Some Expired)
    by (vm_compute; reflexivity).
  destruct (tick sample_host [] (fun _ => None) late_world late_world unqueued) as [u' [[]|e]] eqn:Ht;
    [|discriminate Hok].
  change (a_state <$> get (u_ledger u') (attempt_id plan_a) = Some Expired) in Hst.
  destruct (get (u_ledger u') (attempt_id plan_a)) as [b|] eqn:Hb; [|discriminate Hst].
  assert (Hwf : wf (u_ledger unqueued))
    by exact (sd_wf _ _ (reachable_sound sample_host _ admission_reachable)).
  exists u', b. split; [reflexivity|]. split; [exact Hb|]. split; [by injection Hst|].
  exact (tick_fences sample_host [] (fun _ => None) late_world late_world unqueued u' Hwf Ht _ _ Hb).
Defined.

(** ** Withdrawing an offer *)

Section offers.
Context (st : Settings).

Lemma stop_all_rows l attempts l' :
  wf l → stop_all l attempts = Ok l' →
  l_offer l' = l_offer l
  ∧ ∀ i b', get l' i = Some b' →
      fenced_off b' ∨ get l i = Some b' ∧ i ∉ row_id <$> attempts.
Proof.
  revert l. induction attempts as [|a attempts IH]; intros l Hwf H; simpl in H.
  { injection H as <-. split; [done|]. intros i b' Hb. right. split; [done|]. by apply not_elem_of_nil. }
  apply bind_Ok in H as (l1 & H1 & H). apply fmap_Ok in H1 as ([l2 x] & Ha & ->). simpl in *.
  destruct (annotate_fenced l (fence a) "cancelled" l2 x Hwf ltac:(done) Ha) as [Hx Hg].
  assert (Hwf2 : wf l2) by (eapply step_wf; [eapply (annotate_step (t := None)); [exact Hwf|exact Ha]|done]).
  destruct (IH l2 Hwf2 H) as [Ho Hrows].
  apply annotate_Ok in Ha as (b & Hb & Hn & Hl2); [|done]. split; [by rewrite Ho, Hl2|].
  intros i b' Hb'. destruct (Hrows i b' Hb') as [?|[Hi Hout]]; [by left|].
  destruct (decide (i = row_id a)) as [->|Hne].
  - left. unfold row_id in Hi. simpl in Hg. by simplify_eq.
  - right. change (get l i = Some b' ∧ i ∉ row_id a :: (row_id <$> attempts)).
    rewrite not_elem_of_cons. split; [|done].
    rewrite Hl2, get_put in Hi. simpl in Hi. rewrite decide_False in Hi; [done|].
    intros He. by apply Hne.
Qed.

(** C14: Changing the local offer is one transaction.  It succeeds only for the
    expected revision and inside the administrator's ceiling, and installs the next
    revision; a stopped offer at the same moment records the stop of every attempt
    that could still run, and any other offer changes no attempt; when it fails
    nothing changes. *)
Theorem offer_withdrawal expected proposed c u u' r :
  wf (u_ledger u) → set_offer st expected proposed c u = (u', r) →
  match r with
  | Ok o =>
      l_offer (u_ledger u') = Some o ∧ revision o = (expected + 1)%Z ∧ offer_control o = c
      ∧ settings o = proposed ∧ validate_offer proposed (ceiling st) = Ok tt
      ∧ match l_offer (u_ledger u) with Some b => revision b | None => 0%Z end = expected
      ∧ (if bool_decide (c = Stopped)
         then ∀ i a, get (u_ledger u') i = Some a → fenced_off a
         else l_attempts (u_ledger u') = l_attempts (u_ledger u))
  | Err _ => u' = u
  end.
Proof.
  intros Hwf H. unfold set_offer, on_ledger in H.
  destruct (validate_offer proposed (ceiling st)) as [[]|e] eqn:Hv; [|by injection H as <- <-].
  cbn [mbind res_bind] in H. set (o := mkOffer proposed (expected + 1) (s_mode st) c) in *.
  destruct (save_offer (u_ledger u) o expected) as [l1|e] eqn:Hs; [|by injection H as <- <-].
  cbn [mbind res_bind] in H. unfold save_offer in Hs. inv_ok. case_bool_decide as Hc; simpl in H.
  - destruct (foldM _ _ _) as [l2|e] eqn:Hf; [|by injection H as <- <-]. injection H as <- <-. simpl.
    assert (Hwf1 : wf (set_offer_row o (u_ledger u))) by (eapply (step_wf (t := None)); [apply step_offer|done]).
    destruct (stop_all_rows _ _ _ Hwf1 Hf) as [Ho Hrows]. split; [by rewrite Ho|].
    repeat split; try done.
    intros i a Ha. destruct (Hrows i a Ha) as [?|[Hi Hout]]; [done|].
    pose proof (wf_life _ Hwf1 _ _ Hi) as Hlife.
    destruct (decide (phase (a_state a) ≤ 2)) as [Hph|]; [|right; lia].
    destruct (stop_pending a) eqn:Hst; [by left|]. exfalso. apply Hout.
    rewrite <- (wf_key _ Hwf1 _ _ Hi). apply list_elem_of_fmap_2. unfold to_cancel.
    apply elem_of_List_filter. rewrite Hst. split.
    + by destruct (a_state a); simpl in *; try lia.
    + destruct (life_active _ Hlife Hph) as [[s Hsl] _]. apply elem_of_List_filter.
      unfold held. rewrite Hsl. split; [done|]. apply all_elem. eauto.
  - injection H as <- <-. simpl. by repeat split.
Qed.
End offers.

(** The contributor withdraws while [plan_a] is prepared. *)
Lemma offer_withdrawal_witness :
  ∃ u' o a, set_offer sample_host 1 sample_settings Stopped (mc_sup (after admission_events)) = (u', Ok o)
    ∧ get (u_ledger u') (attempt_id plan_a) = Some a ∧ fenced_off a.
Proof.
  set (u := mc_sup (after admission_events)).
  assert (Hok : is_ok (set_offer sample_host 1 sample_settings Stopped u).2 = true)
    by (vm_compute; reflexivity).
  assert (Hst : match get (u_ledger (set_offer sample_host 1 sample_settings Stopped u).1)
                  (attempt_id plan_a) with Some _ => true | None => false end = true)
    by (vm_compute; reflexivity).
  destruct (set_offer sample_host 1 sample_settings Stopped u) as [u' [o|e]] eqn:Hs; [|discriminate Hok].
  change (match get (u_ledger u') (attempt_id plan_a) with Some _ => true | None => false end = true) in Hst.
  destruct (get (u_ledger u') (attempt_id plan_a)) as [a|] eqn:Ha; [|discriminate Hst].
  exists u', o, a. split; [reflexivity|]. split; [exact Ha|].
  assert (Hwf : wf (u_ledger u)) by exact (sd_wf _ _ (reachable_sound sample_host _ admission_reachable)).
  destruct (offer_withdrawal sample_host 1 sample_settings Stopped u u' (Ok o) Hwf Hs)
    as (_ & _ & _ & _ & _ & _ & Hall).
  exact (Hall _ _ Ha).
Defined.

(** ** Published capacity *)

Lemma retained_running l :
  List.filter (fun a => negb (a_cleanup a)) (retained l) = List.filter running (retained l).
Proof.
  unfold retained, running. induction (all l) as [|a k IH]; [done|]. simpl.
  destruct (held a) eqn:Hh; [|done]. simpl. rewrite Hh. simpl. by destruct (a_cleanup a); simpl; rewrite IH.
Qed.

Lemma used_nonneg l (q : attempt → bool) r : plans_ok l → (0 <= used r (List.filter q (all l)))%Z.
Proof.
  intros Hok. unfold used. apply sumZ_nonneg. apply Forall_forall.
  intros a [_ Ha]%elem_of_List_filter. apply all_elem in Ha as [i Hi].
  apply amount_nonneg. by eapply Hok.
Qed.

(** What is left of one resource, when the retained attempts fit the offer. *)
Lemma remaining_within l o r :
  within l → l_offer l = Some o → r ∈ all_resources →
  remaining (o_limits (settings o)) (retained l) r
  = (amount (o_limits (settings o)) r
     - used r (if bool_decide (r ∈ storage_resources) then retained l
               else List.filter running (retained l)))%Z.
Proof.
  intros (o' & Ho' & Hcomp & Hstor) Ho Hr. rewrite Ho in Ho'. injection Ho' as <-.
  unfold remaining. rewrite retained_running. case_bool_decide as Hs.
  - specialize (Hstor r Hs). lia.
  - assert (Hc : r ∈ compute_resources).
    { unfold all_resources in Hr. apply elem_of_app in Hr as [?|?]; [done|by destruct Hs]. }
    specialize (Hcomp r Hc). unfold retained. rewrite filter_filter_and by apply running_held. lia.
Qed.

(** A GPU is free in the table exactly when no running attempt asked for it. *)
Lemma device_free l d :
  wf l → exact l →
  l_devices l !! d = None
  ↔ d ∉ List.filter running (retained l) ≫= (fun a => gpu_devices (limits (job (a_plan a)))).
Proof.
  intros Hwf Hex. rewrite list_elem_of_bind. split.
  - intros Hn (a & Hd & [Hrun [_ Ha]%elem_of_List_filter]%elem_of_List_filter).
    apply all_elem in Ha as [i Hi].
    assert (l_devices l !! d = Some i) by (apply Hex; eauto). congruence.
  - intros Hn. destruct (l_devices l !! d) as [i|] eqn:Hd; [|done]. exfalso. apply Hn.
    apply Hex in Hd as (a & Ha & Hrun & Hin). exists a. split; [done|].
    apply elem_of_List_filter. split; [done|]. apply elem_of_List_filter.
    split; [by apply running_held|]. apply all_elem. eauto.
Qed.


