(* ===== verification/Wire.v ===== *)
(** * Executor replies

    [execution/wire.py]: the replies a contributor executor sends, with their
    field constraints and validators.  A union is an inductive type; pydantic's
    JSON reader is an argument of [decode].  [SnapshotReply] bodies are what the
    controller reconciles against (see [Commands] and [Runner]). *)

From Stdlib Require Import SpecFloat.
From S2P Require Import Prelude Float64 Json Spec Offer Ledger LedgerStep Samples Settings Protocol.

Definition MAX_REPLY : Z := 2 * 1024 * 1024.

(** ** Parts of replies *)

Record Error := mkError { error_code : string; error_text : string }.

Definition error_ok (e : Error) : bool := name (error_code e) && length_between 1 240 (error_text e).

(** [wire.Attempt]: the result of an attempt with its admission binding. *)
Record WireAttempt := mkWireAttempt {
  wa_result : AttemptResult; wa_job_id : string; wa_project_id : string; wa_offer_revision : Z;
  wa_lease_sequence : Z; wa_lease_expires_at : float; wa_ready : bool; wa_outcome : option astate }.

Definition outcome_ok (s : astate) : bool := terminal s || bool_decide (s = Unknown).

Definition timestamp (x : float) : bool := is_finite x && f_le f_zero x.

Definition wire_attempt_ok (a : WireAttempt) : bool :=
  result_ok (wa_result a) && identity (wa_job_id a) && identity (wa_project_id a)
  && revision_number (wa_offer_revision a) && count (wa_lease_sequence a)
  && timestamp (wa_lease_expires_at a)
  && match wa_outcome a with Some s => outcome_ok s | None => true end.

(** [Resources]: amounts that may be zero, and any listed devices. *)
Definition resources_ok (l : Limits) : bool :=
  forallb (fun r => count (amount l r)) all_resources
  && forallb device (gpu_devices l) && (length (gpu_devices l) <=? 64)%nat.

Record SlotCapacity := mkSlotCapacity {
  sc_id : string; sc_generation : Z; sc_storage_bytes : Z; sc_storage_inodes : Z;
  sc_available : bool; sc_reason : option string }.

Definition optional_name (s : option string) : bool := match s with Some s => name s | None => true end.

Definition slot_capacity_ok (s : SlotCapacity) : bool :=
  name (sc_id s) && revision_number (sc_generation s) && positive_count (sc_storage_bytes s)
  && positive_count (sc_storage_inodes s) && optional_name (sc_reason s).

Record ProviderCapacity := mkProviderCapacity {
  pc_id : string; pc_package_digest : string; pc_available : bool; pc_reason : option string }.

Definition provider_capacity_ok (p : ProviderCapacity) : bool :=
  name (pc_id p) && digest_text (pc_package_digest p) && optional_name (pc_reason p).

Record Capacity := mkCapacity {
  cap_slots : list SlotCapacity; cap_providers : list ProviderCapacity; cap_available : Limits }.

Definition capacity_ok (c : Capacity) : bool :=
  forallb slot_capacity_ok (cap_slots c) && (length (cap_slots c) <=? 64)%nat
  && forallb provider_capacity_ok (cap_providers c) && (length (cap_providers c) <=? 64)%nat
  && resources_ok (cap_available c).

(** [Offer]'s own constraints, restated on the record. *)
Definition offer_ok (o : Offer) : bool := offer_settings_ok (settings o) && revision_number (revision o).

Record Snapshot := mkWireSnapshot {
  ss_installation_id : string; ss_ledger_id : option string; ss_admission_version : Z;
  ss_endpoint_version : Z; ss_input_chunk_bytes : Z; ss_deployment_id : string; ss_node_id : string;
  ss_maximum_lease_seconds : Z; ss_offer : Offer; ss_capacity : Capacity;
  ss_attempts : list WireAttempt; ss_next : option string }.

(** A literal [0] or [1]. *)
Definition flag (z : Z) : bool := (z =? 0)%Z || (z =? 1)%Z.

Definition present {A} (o : option A) : bool := match o with Some _ => true | None => false end.

Lemma present_Some {A} (o : option A) : present o = true → ∃ a, o = Some a.
Proof. destruct o as [a|]; [by exists a|done]. Qed.

(** [Snapshot.admission_binding]; the same rule binds a stored attempt. *)
Definition admission_binding (version : Z) (ledger_id : option string) : bool :=
  Bool.eqb (version =? 1)%Z (present ledger_id).

Definition snapshot_ok (s : Snapshot) : bool :=
  identity (ss_installation_id s)
  && match ss_ledger_id s with Some i => identity i | None => true end
  && flag (ss_admission_version s) && flag (ss_endpoint_version s)
  && (1 <=? ss_input_chunk_bytes s)%Z && (ss_input_chunk_bytes s <=? 8 * 1024 * 1024)%Z
  && identity (ss_deployment_id s) && identity (ss_node_id s)
  && (5 <=? ss_maximum_lease_seconds s)%Z && (ss_maximum_lease_seconds s <=? 30)%Z
  && offer_ok (ss_offer s) && capacity_ok (ss_capacity s)
  && forallb wire_attempt_ok (ss_attempts s) && (length (ss_attempts s) <=? 64)%nat
  && match ss_next s with Some i => identity i | None => true end
  && admission_binding (ss_admission_version s) (ss_ledger_id s).

(** ** Batch results *)

Record ReadResult := mkReadResult {
  rr_fence : Fence; rr_object : string; rr_offset : Z; rr_data : string; rr_next_offset : Z;
  rr_total_bytes : Z; rr_eof : bool; rr_complete : bool; rr_identity : string }.

Record InputResult := mkInputResult {
  xr_fence : Fence; xr_object : string; xr_offset : Z; xr_bytes : Z; xr_digest : string;
  xr_complete : bool }.

Record EndpointResult := mkEndpointResult {
  er_fence : Fence; er_stream_id : string; er_status : Z; er_data : string; er_eof : bool;
  er_error : option string }.

(** [Result | ReadResult | InputResult | EndpointResult | Refused]. *)
Inductive BatchResult :=
| ResultRow (f : Fence) (a : WireAttempt)
| ReadRow (r : ReadResult)
| InputRow (r : InputResult)
| EndpointRow (r : EndpointResult)
| RefusedRow (f : Fence) (e : Error).

Definition row_fence (r : BatchResult) : Fence :=
  match r with
  | ResultRow f _ | RefusedRow f _ => f
  | ReadRow r => rr_fence r
  | InputRow r => xr_fence r
  | EndpointRow r => er_fence r
  end.

(** [row.ok]. *)
Definition row_ok (r : BatchResult) : bool := match r with RefusedRow _ _ => false | _ => true end.

Definition read_result_ok (r : ReadResult) : bool :=
  fence_ok (rr_fence r) && readable (rr_object r) && count (rr_offset r)
  && (Z.of_nat (String.length (rr_data r)) <=? 1398104)%Z && count (rr_next_offset r)
  && count (rr_total_bytes r) && digest_text (rr_identity r).

(** [InputResult.position]. *)
Definition position_ok (r : InputResult) : bool :=
  negb ((xr_bytes r <? xr_offset r)%Z
        || xr_complete r && negb (xr_offset r =? xr_bytes r)%Z).

Definition input_result_ok (r : InputResult) : bool :=
  fence_ok (xr_fence r) && identity (xr_object r) && count (xr_offset r) && count (xr_bytes r)
  && digest_text (xr_digest r) && position_ok r.

Definition endpoint_result_ok (r : EndpointResult) : bool :=
  fence_ok (er_fence r) && identity (er_stream_id r) && (0 <=? er_status r)%Z && (er_status r <=? 599)%Z
  && (Z.of_nat (String.length (er_data r)) <=? 87384)%Z.

Definition batch_result_ok (r : BatchResult) : bool :=
  match r with
  | ResultRow f a => fence_ok f && wire_attempt_ok a
  | ReadRow r => read_result_ok r
  | InputRow r => input_result_ok r
  | EndpointRow r => endpoint_result_ok r
  | RefusedRow f e => fence_ok f && error_ok e
  end.

(** ** Replies *)

(** [Reply]: the request identity and the executor that answers; [version] is 1. *)
Record Header := mkHeader { h_id : string; h_deployment_id : string; h_node_id : string }.

Inductive ReplyType :=
| BatchReply (h : Header) (results : list BatchResult)
| SnapshotReply (h : Header) (s : Snapshot)
| OfferReply (h : Header) (o : Offer)
| FailureReply (h : Header) (e : Error).

Definition reply_header (r : ReplyType) : Header :=
  match r with BatchReply h _ | SnapshotReply h _ | OfferReply h _ | FailureReply h _ => h end.

Definition header_ok (h : Header) : bool :=
  identity (h_id h) && identity (h_deployment_id h) && identity (h_node_id h).

Definition reply_ok (r : ReplyType) : bool :=
  header_ok (reply_header r)
  && match r with
     | BatchReply _ rs =>
         forallb batch_result_ok rs && (1 <=? length rs)%nat && (length rs <=? 64)%nat
     | SnapshotReply _ s => snapshot_ok s
     | OfferReply _ o => offer_ok o
     | FailureReply _ e => error_ok e
     end.

(** [decode], for a reader of the JSON text. *)
Definition decode (read : string → res ReplyType) (data : string) : res ReplyType :=
  raise_if (MAX_REPLY <? Z.of_nat (String.length data))%Z
    (ValueError "The local executor reply exceeds 2 MiB.") ;;
  read data.

#[global] Instance Error_eq_dec : EqDecision Error. Proof. solve_decision. Defined.
#[global] Instance WireAttempt_eq_dec : EqDecision WireAttempt. Proof. solve_decision. Defined.
#[global] Instance SlotCapacity_eq_dec : EqDecision SlotCapacity. Proof. solve_decision. Defined.
#[global] Instance ProviderCapacity_eq_dec : EqDecision ProviderCapacity. Proof. solve_decision. Defined.
#[global] Instance Capacity_eq_dec : EqDecision Capacity. Proof. solve_decision. Defined.
#[global] Instance Snapshot_eq_dec : EqDecision Snapshot. Proof. solve_decision. Defined.
#[global] Instance ReadResult_eq_dec : EqDecision ReadResult. Proof. solve_decision. Defined.
#[global] Instance InputResult_eq_dec : EqDecision InputResult. Proof. solve_decision. Defined.
#[global] Instance EndpointResult_eq_dec : EqDecision EndpointResult. Proof. solve_decision. Defined.
#[global] Instance BatchResult_eq_dec : EqDecision BatchResult. Proof. solve_decision. Defined.
#[global] Instance Header_eq_dec : EqDecision Header. Proof. solve_decision. Defined.
#[global] Instance ReplyType_eq_dec : EqDecision ReplyType. Proof. solve_decision. Defined.
