(* ===== verification/WorkloadSchema.v ===== *)
(** * Submissions, delegations and stored attempts of the controller

    [workloads/schema.py].  A job record and an attempt keep their [state] as
    text drawn from two overlapping literals; [state] is their union and
    [job_state] and [attempt_state] are the two literals.  Row validation
    ([record_ok], [attempt_ok]) recomputes plan digests, so the tables of
    [Records] can only hold attempts bound to their immutable plans. *)

From Stdlib Require Import SpecFloat.
From S2P Require Import Prelude Float64 Json Spec Offer Wire.

(** ** States *)

Inductive state := Queued | Preparing | At (s : astate) | Abandoned.

#[global] Instance state_eq_dec : EqDecision state.
Proof. solve_decision. Defined.

(** [Record.state] and [Attempt.state]. *)
Definition job_state (s : state) : bool :=
  match s with Abandoned | At Released => false | _ => true end.
Definition attempt_state (s : state) : bool := match s with Queued => false | _ => true end.

(** [state in TERMINAL], and [TERMINAL | {"unknown"}]. *)
Definition is_terminal (s : state) : bool := match s with At s => terminal s | _ => false end.
Definition settled (s : state) : bool := is_terminal s || bool_decide (s = At Unknown).

(** [state in {"released", "abandoned"}]. *)
Definition closed_state (s : state) : bool := bool_decide (s = At Released) || bool_decide (s = Abandoned).

(** ** Submissions *)

(** [Key]. *)
Definition key_char (c : ascii) : bool := alnum c || one_of "_.:-" c.
Definition key_text (s : string) : bool := length_between 16 128 s && all_chars key_char s.

Definition hex_digest (s : string) : bool := (String.length s =? 64)%nat && all_chars is_hex s.

Record DatasetSelection := mkDataset { ds_id : string; ds_manifest_digest : string }.
Definition dataset_ok (d : DatasetSelection) : bool :=
  identity (ds_id d) && hex_digest (ds_manifest_digest d).

Record Submission := mkSubmission {
  sub_job : Job; sub_node_ids : list string; sub_dataset : option DatasetSelection;
  sub_model_revision : option string }.

(** Field constraints, [_nodes] and [input_source]. *)
Definition submission_ok (s : Submission) : bool :=
  job_ok (sub_job s)
  && forallb identity (sub_node_ids s) && (1 <=? length (sub_node_ids s))%nat
  && (length (sub_node_ids s) <=? 64)%nat
  && match sub_dataset s with Some d => dataset_ok d | None => true end
  && match sub_model_revision s with Some r => identity r | None => true end
  && distinct (sub_node_ids s)
  && negb (present (sub_dataset s) && present (sub_model_revision s)).

(** [serialize] drops the absent input sources. *)
Definition submission_dump (s : Submission) : json :=
  JObj ([("job", job_dump (sub_job s)); ("node_ids", strings_json (sub_node_ids s))]
        ++ match sub_dataset s with
           | Some d => [("dataset", JObj [("id", JStr (ds_id d));
                                          ("manifest_digest", JStr (ds_manifest_digest d))])]
           | None => []
           end
        ++ match sub_model_revision s with Some r => [("model_revision", JStr r)] | None => [] end).

(** ** Delegations *)

Record Delegation := mkDelegation {
  dg_id : string; dg_subject_id : string; dg_project_id : string; dg_credential_id : string;
  dg_scopes : list string; dg_subject_revision : Z; dg_project_revision : Z;
  dg_membership_revision : Z; dg_policy_revision : Z; dg_role_revision : Z;
  dg_policy_digest : option string; dg_publisher_revision : Z }.

Definition delegation_ok (d : Delegation) : bool :=
  identity (dg_id d) && identity (dg_subject_id d) && identity (dg_project_id d)
  && identity (dg_credential_id d) && (length (dg_scopes d) <=? 128)%nat
  && count (dg_subject_revision d) && count (dg_project_revision d)
  && count (dg_membership_revision d) && count (dg_policy_revision d) && count (dg_role_revision d)
  && match dg_policy_digest d with Some h => hex_digest h | None => true end
  && count (dg_publisher_revision d) && distinct (dg_scopes d).

(** ** Job records *)

Record JobRecord := mkRecord {
  j_id : string; j_subject_id : string; j_project_id : string; j_actor : string; j_key : string;
  j_digest : string; j_request : Submission; j_delegation : Delegation; j_state : state;
  j_reason : option string; j_current_attempt : option string; j_generation : Z; j_cancelled : bool;
  j_created_at : float; j_updated_at : float; j_revision : Z }.

(** Field constraints and [Record.ownership]. *)
Definition record_ok (j : JobRecord) : bool :=
  identity (j_id j) && identity (j_subject_id j) && identity (j_project_id j) && identity (j_actor j)
  && key_text (j_key j) && digest_text (j_digest j) && submission_ok (j_request j)
  && delegation_ok (j_delegation j) && job_state (j_state j) && optional_name (j_reason j)
  && match j_current_attempt j with Some i => identity i | None => true end
  && count (j_generation j) && timestamp (j_created_at j) && timestamp (j_updated_at j)
  && revision_number (j_revision j)
  && bool_decide (j_subject_id j = dg_subject_id (j_delegation j))
  && bool_decide (j_project_id j = dg_project_id (j_delegation j))
  && negb (f_lt (j_updated_at j) (j_created_at j))
  && Bool.eqb (negb (present (j_current_attempt j))) (j_generation j =? 0)%Z.

(** ** Attempts *)

Record Attempt := mkAttempt {
  t_id : string; t_job_id : string; t_node_id : string; t_installation_id : string;
  t_ledger_id : option string; t_admission_version : Z; t_plan : Plan; t_lease : Renewal;
  t_observed : option AttemptResult; t_outcome : option AttemptResult; t_start_requested : bool;
  t_state : state; t_created_at : float; t_updated_at : float }.

(** [(id, plan.generation, plan.digest ())]. *)
Definition attempt_fence (a : Attempt) : Fence :=
  mkFence (t_id a) (generation (t_plan a)) (plan_digest (t_plan a)).

Definition fences (f : Fence) (r : AttemptResult) : bool := bool_decide (r_fence r = f).

Definition confirmed (o : option AttemptResult) : bool :=
  match o with Some r => r_cleanup_confirmed r | None => false end.

(** [Attempt.binding]. *)
Definition binding (a : Attempt) : bool :=
  let f := attempt_fence a in
  admission_binding (t_admission_version a) (t_ledger_id a)
  && bool_decide (t_id a = attempt_id (t_plan a)) && bool_decide (t_job_id a = job_id (t_plan a))
  && bool_decide (t_node_id a = node_id (t_plan a))
  && bool_decide (n_fence (t_lease a) = f)
  && match t_observed a with Some r => fences f r | None => true end
  && match t_outcome a with Some r => fences f r && outcome_ok (r_state r) | None => true end
  && negb (bool_decide (t_state a = At Released) && negb (confirmed (t_observed a)))
  && negb (f_lt (t_updated_at a) (t_created_at a)).

Definition attempt_ok (a : Attempt) : bool :=
  identity (t_id a) && identity (t_job_id a) && identity (t_node_id a)
  && identity (t_installation_id a)
  && match t_ledger_id a with Some i => identity i | None => true end
  && flag (t_admission_version a) && plan_ok (t_plan a) && renewal_ok (t_lease a)
  && match t_observed a with Some r => result_ok r | None => true end
  && match t_outcome a with Some r => result_ok r | None => true end
  && attempt_state (t_state a) && timestamp (t_created_at a) && timestamp (t_updated_at a)
  && binding a.

#[global] Instance DatasetSelection_eq_dec : EqDecision DatasetSelection. Proof. solve_decision. Defined.
#[global] Instance Submission_eq_dec : EqDecision Submission. Proof. solve_decision. Defined.
#[global] Instance Delegation_eq_dec : EqDecision Delegation. Proof. solve_decision. Defined.
#[global] Instance JobRecord_eq_dec : EqDecision JobRecord. Proof. solve_decision. Defined.
#[global] Instance Attempt_eq_dec : EqDecision Attempt. Proof. solve_decision. Defined.

(** ** Field updates *)

Definition with_job (j : JobRecord) (s : state) (reason : option string) : JobRecord :=
  mkRecord (j_id j) (j_subject_id j) (j_project_id j) (j_actor j) (j_key j) (j_digest j) (j_request j)
    (j_delegation j) s reason (j_current_attempt j) (j_generation j) (j_cancelled j)
    (j_created_at j) (j_updated_at j) (j_revision j).

Definition with_attempt (j : JobRecord) (i : string) (gen : Z) : JobRecord :=
  mkRecord (j_id j) (j_subject_id j) (j_project_id j) (j_actor j) (j_key j) (j_digest j) (j_request j)
    (j_delegation j) (j_state j) (j_reason j) (Some i) gen (j_cancelled j)
    (j_created_at j) (j_updated_at j) (j_revision j).

Definition with_cancelled (j : JobRecord) (c : bool) : JobRecord :=
  mkRecord (j_id j) (j_subject_id j) (j_project_id j) (j_actor j) (j_key j) (j_digest j) (j_request j)
    (j_delegation j) (j_state j) (j_reason j) (j_current_attempt j) (j_generation j) c
    (j_created_at j) (j_updated_at j) (j_revision j).

Definition with_delegation (j : JobRecord) (d : Delegation) : JobRecord :=
  mkRecord (j_id j) (j_subject_id j) (j_project_id j) (j_actor j) (j_key j) (j_digest j) (j_request j)
    d (j_state j) (j_reason j) (j_current_attempt j) (j_generation j) (j_cancelled j)
    (j_created_at j) (j_updated_at j) (j_revision j).

Definition job_stamp (j : JobRecord) (updated : float) (revision : Z) : JobRecord :=
  mkRecord (j_id j) (j_subject_id j) (j_project_id j) (j_actor j) (j_key j) (j_digest j) (j_request j)
    (j_delegation j) (j_state j) (j_reason j) (j_current_attempt j) (j_generation j) (j_cancelled j)
    (j_created_at j) updated revision.

Definition with_result (a : Attempt) (observed : option AttemptResult) (outcome : option AttemptResult)
    (s : state) : Attempt :=
  mkAttempt (t_id a) (t_job_id a) (t_node_id a) (t_installation_id a) (t_ledger_id a)
    (t_admission_version a) (t_plan a) (t_lease a) observed outcome (t_start_requested a) s
    (t_created_at a) (t_updated_at a).

Definition with_start (a : Attempt) (requested : bool) : Attempt :=
  mkAttempt (t_id a) (t_job_id a) (t_node_id a) (t_installation_id a) (t_ledger_id a)
    (t_admission_version a) (t_plan a) (t_lease a) (t_observed a) (t_outcome a) requested (t_state a)
    (t_created_at a) (t_updated_at a).

Definition with_lease (a : Attempt) (n : Renewal) : Attempt :=
  mkAttempt (t_id a) (t_job_id a) (t_node_id a) (t_installation_id a) (t_ledger_id a)
    (t_admission_version a) (t_plan a) n (t_observed a) (t_outcome a) (t_start_requested a) (t_state a)
    (t_created_at a) (t_updated_at a).

Definition attempt_stamp (a : Attempt) (updated : float) : Attempt :=
  mkAttempt (t_id a) (t_job_id a) (t_node_id a) (t_installation_id a) (t_ledger_id a)
    (t_admission_version a) (t_plan a) (t_lease a) (t_observed a) (t_outcome a) (t_start_requested a)
    (t_state a) (t_created_at a) updated.

#[global] Arguments submission_dump : simpl never.
#[global] Arguments submission_ok : simpl never.
#[global] Arguments delegation_ok : simpl never.
#[global] Arguments record_ok : simpl never.
#[global] Arguments binding : simpl never.
#[global] Arguments attempt_ok : simpl never.
#[global] Arguments f_max : simpl never.
#[global] Arguments f_lt : simpl never.
#[global] Arguments f_le : simpl never.
#[global] Arguments f_add : simpl never.
#[global] Arguments f_sub : simpl never.
