(* ===== verification/Database.v ===== *)
(** * The controller database

    The tables the modelled parts of the controller keep in one SQLite database
    ([store.py] and each component's [initialize]): identities, projects and
    memberships, credentials, resource assignments, policies, contributors with
    their invitations, requests and certificates, workload jobs and attempts,
    saved offers, managed operations and the audit log.  A table is a finite map
    from its primary key; the remaining identity columns are fields of the row.

    Every operation runs inside [with store.lock, store.db], so it is a function
    to the new tables or an exception that leaves them alone; nested
    transactions join the outer one (see [Transactions]).  [sampling] holds the
    answers of [time.time ()], [secrets.token_hex] and [token_urlsafe] during
    one operation, numbered by call site. *)

From Stdlib Require Import SpecFloat.
From S2P Require Import Prelude Float64 Json Spec Offer Wire WorkloadSchema.

Record sampling := mkSampling { time : nat → float; token : nat → string }.

(** ** Failures *)

Definition not_found (text : string) : exn := Failure "not_found" text 404.
Definition refused (code text : string) : exn := Failure code text 409.
Definition denied (text : string) : exn := Failure "denied" text 403.
Definition model_error : exn := ValueError "validation error".

(** ** Rows *)

(** A row of [identities] or of [projects]. *)
Record Space := mkSpace { sp_label : string; sp_disabled : bool; sp_revision : Z }.
Record Membership := mkMembership { mb_scopes : list string; mb_revision : Z }.

(** [Workload] is the kind of the principal a delegation stands for; no stored
    credential has it. *)
Inductive credential_kind := Bootstrap | Session | Token | Remote | Workload.

Record Credential := mkCredential {
  cr_digest : string; cr_kind : credential_kind; cr_label : string; cr_scopes : list string;
  cr_nodes : option (list string); cr_expires : float; cr_csrf : string;
  cr_roots : option (list string); cr_subject_id : string; cr_project_id : string }.

(** A row of [project_resources]. *)
Record Assignment := mkAssignment {
  as_nodes : list string; as_roots : list string; as_revision : Z }.

Record Publisher := mkPublisher { pu_public_key : string; pu_enabled : bool; pu_revision : Z }.
Record Package := mkPackage {
  pk_publisher : string; pk_description : json; pk_archive : string; pk_installed : float }.
Record Binding := mkBinding { bi_roles : list string; bi_revision : Z }.

(** [policy_store]'s settings row; an absent row reads as [DEFAULT]. *)
Record PolicyState := mkPolicy {
  ps_revision : Z; ps_required : bool; ps_active : option string; ps_previous : option string;
  ps_history : list (Z * string) }.

Record Contributor := mkContributor {
  c_project_id : string; c_name : string; c_mode : mode; c_disabled : bool; c_revision : Z;
  c_created_at : float }.

Record Invitation := mkInvitation {
  iv_digest : string; iv_node_id : string; iv_project_id : string; iv_name : string; iv_mode : mode;
  iv_expires_at : float; iv_used : bool }.

Inductive request_kind := Enroll | Rotate.
Inductive request_status := AwaitingApproval | Issuing | Issued | RequestFailed.

Record Request := mkRequest {
  rq_node_id : string; rq_receipt_digest : string; rq_csr_pem : string; rq_public_key : string;
  rq_kind : request_kind; rq_base_fingerprint : option string; rq_status : request_status;
  rq_expires_at : float; rq_revision : Z; rq_certificate : option string }.

Inductive certificate_status := CertPending | CertCurrent | CertRevoked.

Record Certificate := mkCertificate {
  ct_node_id : string; ct_request_id : string; ct_public_key : string; ct_not_before : float;
  ct_expires_at : float; ct_chain : string; ct_status : certificate_status }.

(** One target of a managed SSH operation: its state and the GPUs it reserves. *)
Record Target := mkTarget { tg_state : string; tg_reservations : list string }.

(** [node_records.Observation]. *)
Record Observation := mkObservation { ob_snapshot : Snapshot; ob_observed_at : float }.

Record AuditEvent := mkAudit {
  au_at : float; au_action : string; au_target : string; au_outcome : string; au_actor : string;
  au_subject_id : option string; au_project_id : option string }.

#[global] Instance credential_kind_eq_dec : EqDecision credential_kind. Proof. solve_decision. Defined.
#[global] Instance Publisher_eq_dec : EqDecision Publisher. Proof. solve_decision. Defined.
#[global] Instance PolicyState_eq_dec : EqDecision PolicyState. Proof. solve_decision. Defined.
#[global] Instance Contributor_eq_dec : EqDecision Contributor. Proof. solve_decision. Defined.
#[global] Instance request_kind_eq_dec : EqDecision request_kind. Proof. solve_decision. Defined.
#[global] Instance request_status_eq_dec : EqDecision request_status. Proof. solve_decision. Defined.
#[global] Instance Request_eq_dec : EqDecision Request. Proof. solve_decision. Defined.
#[global] Instance certificate_status_eq_dec : EqDecision certificate_status. Proof. solve_decision. Defined.
#[global] Instance Certificate_eq_dec : EqDecision Certificate. Proof. solve_decision. Defined.

(** ** Tables *)

Record store := mkStore {
  s_users : gmap string Space;
  s_projects : gmap string Space;
  s_members : gmap (string * string) Membership;
  s_credentials : gmap string Credential;
  s_resources : gmap string Assignment;
  s_machines : gset string;
  s_windows : gset string;
  s_roots : gmap string (option string);
  s_publishers : gmap string Publisher;
  s_packages : gmap string Package;
  s_bindings : gmap (string * string) Binding;
  s_policy : PolicyState;
  s_contributors : gmap string Contributor;
  s_invitations : gmap string Invitation;
  s_requests : gmap string Request;
  s_certificates : gmap string Certificate;
  s_jobs : gmap string JobRecord;
  s_attempts : gmap string Attempt;
  s_nodes : gmap string Observation;
  s_operations : list (list Target);
  s_suspended : bool;
  s_audit : list AuditEvent }.

Definition with_users (s : store) (x : gmap string Space) : store :=
  mkStore x (s_projects s) (s_members s) (s_credentials s) (s_resources s) (s_machines s) (s_windows
    s) (s_roots s) (s_publishers s) (s_packages s) (s_bindings s) (s_policy s) (s_contributors s)
    (s_invitations s) (s_requests s) (s_certificates s) (s_jobs s) (s_attempts s) (s_nodes s)
    (s_operations s) (s_suspended s) (s_audit s).
Definition with_projects (s : store) (x : gmap string Space) : store :=
  mkStore (s_users s) x (s_members s) (s_credentials s) (s_resources s) (s_machines s) (s_windows s)
    (s_roots s) (s_publishers s) (s_packages s) (s_bindings s) (s_policy s) (s_contributors s)
    (s_invitations s) (s_requests s) (s_certificates s) (s_jobs s) (s_attempts s) (s_nodes s)
    (s_operations s) (s_suspended s) (s_audit s).
Definition with_members (s : store) (x : gmap (string * string) Membership) : store :=
  mkStore (s_users s) (s_projects s) x (s_credentials s) (s_resources s) (s_machines s) (s_windows
    s) (s_roots s) (s_publishers s) (s_packages s) (s_bindings s) (s_policy s) (s_contributors s)
    (s_invitations s) (s_requests s) (s_certificates s) (s_jobs s) (s_attempts s) (s_nodes s)
    (s_operations s) (s_suspended s) (s_audit s).
Definition with_credentials (s : store) (x : gmap string Credential) : store :=
  mkStore (s_users s) (s_projects s) (s_members s) x (s_resources s) (s_machines s) (s_windows s)
    (s_roots s) (s_publishers s) (s_packages s) (s_bindings s) (s_policy s) (s_contributors s)
    (s_invitations s) (s_requests s) (s_certificates s) (s_jobs s) (s_attempts s) (s_nodes s)
    (s_operations s) (s_suspended s) (s_audit s).
Definition with_resources (s : store) (x : gmap string Assignment) : store :=
  mkStore (s_users s) (s_projects s) (s_members s) (s_credentials s) x (s_machines s) (s_windows s)
    (s_roots s) (s_publishers s) (s_packages s) (s_bindings s) (s_policy s) (s_contributors s)
    (s_invitations s) (s_requests s) (s_certificates s) (s_jobs s) (s_attempts s) (s_nodes s)
    (s_operations s) (s_suspended s) (s_audit s).
Definition with_machines (s : store) (x : gset string) : store :=
  mkStore (s_users s) (s_projects s) (s_members s) (s_credentials s) (s_resources s) x (s_windows s)
    (s_roots s) (s_publishers s) (s_packages s) (s_bindings s) (s_policy s) (s_contributors s)
    (s_invitations s) (s_requests s) (s_certificates s) (s_jobs s) (s_attempts s) (s_nodes s)
    (s_operations s) (s_suspended s) (s_audit s).
Definition with_windows (s : store) (x : gset string) : store :=
  mkStore (s_users s) (s_projects s) (s_members s) (s_credentials s) (s_resources s) (s_machines s)
    x (s_roots s) (s_publishers s) (s_packages s) (s_bindings s) (s_policy s) (s_contributors s)
    (s_invitations s) (s_requests s) (s_certificates s) (s_jobs s) (s_attempts s) (s_nodes s)
    (s_operations s) (s_suspended s) (s_audit s).
Definition with_roots (s : store) (x : gmap string (option string)) : store :=
  mkStore (s_users s) (s_projects s) (s_members s) (s_credentials s) (s_resources s) (s_machines s)
    (s_windows s) x (s_publishers s) (s_packages s) (s_bindings s) (s_policy s) (s_contributors s)
    (s_invitations s) (s_requests s) (s_certificates s) (s_jobs s) (s_attempts s) (s_nodes s)
    (s_operations s) (s_suspended s) (s_audit s).
Definition with_publishers (s : store) (x : gmap string Publisher) : store :=
  mkStore (s_users s) (s_projects s) (s_members s) (s_credentials s) (s_resources s) (s_machines s)
    (s_windows s) (s_roots s) x (s_packages s) (s_bindings s) (s_policy s) (s_contributors s)
    (s_invitations s) (s_requests s) (s_certificates s) (s_jobs s) (s_attempts s) (s_nodes s)
    (s_operations s) (s_suspended s) (s_audit s).
Definition with_packages (s : store) (x : gmap string Package) : store :=
  mkStore (s_users s) (s_projects s) (s_members s) (s_credentials s) (s_resources s) (s_machines s)
    (s_windows s) (s_roots s) (s_publishers s) x (s_bindings s) (s_policy s) (s_contributors s)
    (s_invitations s) (s_requests s) (s_certificates s) (s_jobs s) (s_attempts s) (s_nodes s)
    (s_operations s) (s_suspended s) (s_audit s).
Definition with_bindings (s : store) (x : gmap (string * string) Binding) : store :=
  mkStore (s_users s) (s_projects s) (s_members s) (s_credentials s) (s_resources s) (s_machines s)
    (s_windows s) (s_roots s) (s_publishers s) (s_packages s) x (s_policy s) (s_contributors s)
    (s_invitations s) (s_requests s) (s_certificates s) (s_jobs s) (s_attempts s) (s_nodes s)
    (s_operations s) (s_suspended s) (s_audit s).
Definition with_policy (s : store) (x : PolicyState) : store :=
  mkStore (s_users s) (s_projects s) (s_members s) (s_credentials s) (s_resources s) (s_machines s)
    (s_windows s) (s_roots s) (s_publishers s) (s_packages s) (s_bindings s) x (s_contributors s)
    (s_invitations s) (s_requests s) (s_certificates s) (s_jobs s) (s_attempts s) (s_nodes s)
    (s_operations s) (s_suspended s) (s_audit s).
Definition with_contributors (s : store) (x : gmap string Contributor) : store :=
  mkStore (s_users s) (s_projects s) (s_members s) (s_credentials s) (s_resources s) (s_machines s)
    (s_windows s) (s_roots s) (s_publishers s) (s_packages s) (s_bindings s) (s_policy s) x
    (s_invitations s) (s_requests s) (s_certificates s) (s_jobs s) (s_attempts s) (s_nodes s)
    (s_operations s) (s_suspended s) (s_audit s).
Definition with_invitations (s : store) (x : gmap string Invitation) : store :=
  mkStore (s_users s) (s_projects s) (s_members s) (s_credentials s) (s_resources s) (s_machines s)
    (s_windows s) (s_roots s) (s_publishers s) (s_packages s) (s_bindings s) (s_policy s)
    (s_contributors s) x (s_requests s) (s_certificates s) (s_jobs s) (s_attempts s) (s_nodes s)
    (s_operations s) (s_suspended s) (s_audit s).
Definition with_requests (s : store) (x : gmap string Request) : store :=
  mkStore (s_users s) (s_projects s) (s_members s) (s_credentials s) (s_resources s) (s_machines s)
    (s_windows s) (s_roots s) (s_publishers s) (s_packages s) (s_bindings s) (s_policy s)
    (s_contributors s) (s_invitations s) x (s_certificates s) (s_jobs s) (s_attempts s) (s_nodes s)
    (s_operations s) (s_suspended s) (s_audit s).
Definition with_certificates (s : store) (x : gmap string Certificate) : store :=
  mkStore (s_users s) (s_projects s) (s_members s) (s_credentials s) (s_resources s) (s_machines s)
    (s_windows s) (s_roots s) (s_publishers s) (s_packages s) (s_bindings s) (s_policy s)
    (s_contributors s) (s_invitations s) (s_requests s) x (s_jobs s) (s_attempts s) (s_nodes s)
    (s_operations s) (s_suspended s) (s_audit s).
Definition with_jobs (s : store) (x : gmap string JobRecord) : store :=
  mkStore (s_users s) (s_projects s) (s_members s) (s_credentials s) (s_resources s) (s_machines s)
    (s_windows s) (s_roots s) (s_publishers s) (s_packages s) (s_bindings s) (s_policy s)
    (s_contributors s) (s_invitations s) (s_requests s) (s_certificates s) x (s_attempts s) (s_nodes
    s) (s_operations s) (s_suspended s) (s_audit s).
Definition with_attempts (s : store) (x : gmap string Attempt) : store :=
  mkStore (s_users s) (s_projects s) (s_members s) (s_credentials s) (s_resources s) (s_machines s)
    (s_windows s) (s_roots s) (s_publishers s) (s_packages s) (s_bindings s) (s_policy s)
    (s_contributors s) (s_invitations s) (s_requests s) (s_certificates s) (s_jobs s) x (s_nodes s)
    (s_operations s) (s_suspended s) (s_audit s).
Definition with_nodes (s : store) (x : gmap string Observation) : store :=
  mkStore (s_users s) (s_projects s) (s_members s) (s_credentials s) (s_resources s) (s_machines s)
    (s_windows s) (s_roots s) (s_publishers s) (s_packages s) (s_bindings s) (s_policy s)
    (s_contributors s) (s_invitations s) (s_requests s) (s_certificates s) (s_jobs s) (s_attempts s)
    x (s_operations s) (s_suspended s) (s_audit s).
Definition with_operations (s : store) (x : list (list Target)) : store :=
  mkStore (s_users s) (s_projects s) (s_members s) (s_credentials s) (s_resources s) (s_machines s)
    (s_windows s) (s_roots s) (s_publishers s) (s_packages s) (s_bindings s) (s_policy s)
    (s_contributors s) (s_invitations s) (s_requests s) (s_certificates s) (s_jobs s) (s_attempts s)
    (s_nodes s) x (s_suspended s) (s_audit s).
Definition with_suspended (s : store) (x : bool) : store :=
  mkStore (s_users s) (s_projects s) (s_members s) (s_credentials s) (s_resources s) (s_machines s)
    (s_windows s) (s_roots s) (s_publishers s) (s_packages s) (s_bindings s) (s_policy s)
    (s_contributors s) (s_invitations s) (s_requests s) (s_certificates s) (s_jobs s) (s_attempts s)
    (s_nodes s) (s_operations s) x (s_audit s).
Definition with_audit (s : store) (x : list AuditEvent) : store :=
  mkStore (s_users s) (s_projects s) (s_members s) (s_credentials s) (s_resources s) (s_machines s)
    (s_windows s) (s_roots s) (s_publishers s) (s_packages s) (s_bindings s) (s_policy s)
    (s_contributors s) (s_invitations s) (s_requests s) (s_certificates s) (s_jobs s) (s_attempts s)
    (s_nodes s) (s_operations s) (s_suspended s) x.

Definition LOCAL_OWNER : string := "00000000000000000000000000000001".
Definition LOCAL_PROJECT : string := "00000000000000000000000000000002".

Definition default_policy : PolicyState := mkPolicy 0 false None None [].

(** A new database: the recovery identity and project exist. *)
Definition empty_store : store :=
  mkStore {[LOCAL_OWNER := mkSpace "Local owner" false 0]} {[LOCAL_PROJECT := mkSpace "Local project" false 0]}
    ∅ ∅ ∅ ∅ ∅ ∅ ∅ ∅ ∅ default_policy ∅ ∅ ∅ ∅ ∅ ∅ ∅ [] false [].

(** ** [Store.audit]

    The owner of the event is given, or found from the acting credential.  The
    log keeps the newest 10000 events, newest first. *)
Definition audit (now : float) (action target outcome actor : string) (subject project : option string)
    (s : store) : store :=
  let owner :=
    match subject with
    | Some _ => (subject, project)
    | None =>
        match s_credentials s !! actor with
        | Some c => (Some (cr_subject_id c), Some (cr_project_id c))
        | None => if bool_decide (actor = "local-owner") then (Some LOCAL_OWNER, Some LOCAL_PROJECT)
                  else (subject, project)
        end
    end in
  with_audit s (take 10000 (mkAudit now action target outcome actor owner.1 owner.2 :: s_audit s)).

Arguments audit : simpl never.

(** ** The policy state *)

(** [policy_store.revision]. *)
Definition revision_value (z : Z) : res Z :=
  raise_if (negb ((0 <=? z) && (z <? 2 ^ 53 - 1))%Z) (ValueError "The policy revision is invalid.") ;;
  Ok z.

Definition optional_hash (h : option string) : bool :=
  match h with Some h => hex_digest h | None => true end.

(** [state_value]. *)
Definition state_value (p : PolicyState) : res PolicyState :=
  revision_value (ps_revision p) ;;
  raise_if (negb (optional_hash (ps_active p)) || negb (optional_hash (ps_previous p)))
    (ValueError "The policy package reference is invalid.") ;;
  raise_if (present (ps_active p) && negb (ps_required p))
    (ValueError "An active policy must require enforcement.") ;;
  raise_if (64 <? length (ps_history p))%nat (ValueError "The policy history is invalid.") ;;
  forM_ (fun '(r, h) =>
    raise_if (negb (hex_digest h)) (ValueError "A policy history entry is invalid.") ;;
    revision_value r ;;
    raise_if (negb ((1 <=? r) && (r <=? ps_revision p))%Z)
      (ValueError "A policy history entry is invalid.")) (ps_history p) ;;
  Ok p.

(** [PolicyStore.state]. *)
Definition policy_state (s : store) : res PolicyState := state_value (s_policy s).

(** [contributor_store.Records.get ("contributors", identity)]. *)
Definition contributor (s : store) (i : string) : res Contributor :=
  some_or (s_contributors s !! i) (not_found "The contributor record was not found.").
