(* ===== verification/Records.v ===== *)
(** * The controller's job and attempt records

    [workloads/records.py]: submission, reservation of contributor capacity,
    observed results, dispatch intents, renewals and the owner's cancel, retry,
    abandon and remove, with [inference.admission.require_free].

    A stored row is the JSON text of a validated model and is validated again
    when it is read, so every read may raise ([RecordsProps] shows it never
    does).  The identity columns of a row repeat fields its updates keep. *)

From Stdlib Require Import SpecFloat.
From S2P Require Import Prelude Float64 Json Spec Offer Wire WorkloadSchema Database.

(** [Records.audit]. *)
Definition audited (now : float) (action : string) (j : JobRecord) (target outcome : string)
    (s : store) : store :=
  audit now action target outcome (j_actor j) (Some (j_subject_id j)) (Some (j_project_id j)) s.

Arguments audited : simpl never.

Module Records.

(** ** Reading *)

(** [model_validate_json] of a stored row. *)
Definition load_job (j : JobRecord) : res JobRecord := raise_if (negb (record_ok j)) model_error ;; Ok j.
Definition load_attempt (a : Attempt) : res Attempt := raise_if (negb (attempt_ok a)) model_error ;; Ok a.

Definition get (s : store) (i : string) : res JobRecord :=
  j ← some_or (s_jobs s !! i) (not_found "The workload was not found.");
  load_job j.

Definition attempt (s : store) (i : string) : res Attempt :=
  a ← some_or (s_attempts s !! i) (not_found "The workload attempt was not found.");
  load_attempt a.

(** [if project_id]: an empty text selects everything. *)
Definition selects (wanted : option string) (value : string) : bool :=
  match wanted with
  | Some w => bool_decide (w = "") || bool_decide (w = value)
  | None => true
  end.

Definition jobs (s : store) (project : option string) : res (list JobRecord) :=
  mapM load_job (List.filter (fun j => selects project (j_project_id j)) (row_values (s_jobs s))).

Definition attempts (s : store) (node : option string) : res (list Attempt) :=
  mapM load_attempt (List.filter (fun a => selects node (t_node_id a)) (row_values (s_attempts s))).

(** ** Writing *)

(** [save_job]: stamp, validate, update. *)
Definition save_job (now : float) (j : JobRecord) (s : store) : res (store * JobRecord) :=
  let j := job_stamp j (f_max (j_updated_at j) now) (j_revision j + 1) in
  raise_if (negb (record_ok j)) model_error ;;
  Ok (with_jobs s (alter (fun _ => j) (j_id j) (s_jobs s)), j).

Definition save_attempt (now : float) (a : Attempt) (s : store) : res (store * Attempt) :=
  let a := attempt_stamp a (f_max (t_updated_at a) now) in
  raise_if (negb (attempt_ok a)) model_error ;;
  Ok (with_attempts s (alter (fun _ => a) (t_id a) (s_attempts s)), a).

Arguments save_job : simpl never.
Arguments save_attempt : simpl never.

(** An INSERT that violates the primary key. *)
Definition insert_job (j : JobRecord) (s : store) : res store :=
  raise_if (present (s_jobs s !! j_id j)) (StorageError "UNIQUE constraint failed: workload_jobs.id") ;;
  Ok (with_jobs s (<[j_id j := j]> (s_jobs s))).

Definition insert_attempt (a : Attempt) (s : store) : res store :=
  raise_if (present (s_attempts s !! t_id a))
    (StorageError "UNIQUE constraint failed: workload_attempts.id") ;;
  Ok (with_attempts s (<[t_id a := a]> (s_attempts s))).

(** ** [submit] *)

(** The row selected by [subject_id], [project_id] and [key]. *)
Definition keyed (s : store) (d : Delegation) (key : string) : option JobRecord :=
  List.find (fun j => bool_decide (j_subject_id j = dg_subject_id d)
                      && bool_decide (j_project_id j = dg_project_id d)
                      && bool_decide (j_key j = key)) (row_values (s_jobs s)).

Definition new_record (w : sampling) (r : Submission) (key : string) (d : Delegation) : JobRecord :=
  mkRecord (token w 0) (dg_subject_id d) (dg_project_id d) (dg_credential_id d) key
    (digest (submission_dump r)) r d Queued None None 0 false (time w 0) (time w 0) 1.

Definition submit (w : sampling) (r : Submission) (key : string) (d : Delegation) (s : store)
    : res (store * JobRecord) :=
  match keyed s d key with
  | Some j =>
      j ← load_job j;
      raise_if (negb (bool_decide (j_digest j = digest (submission_dump r))))
        (refused "idempotency_conflict" "This request key already identifies another workload.") ;;
      Ok (s, j)
  | None =>
      raise_if (2048 <=? Z.of_nat (size (s_jobs s)))%Z
        (refused "capacity" "Retained workload capacity is full. Remove completed records first.") ;;
      let j := new_record w r key d in
      raise_if (negb (record_ok j)) model_error ;;
      s' ← insert_job j s;
      Ok (s', j)
  end.

(** ** [reserve] *)

(** [set (a) & set (b)] is not empty. *)
Definition overlaps (a b : list string) : bool := existsb (fun d => bool_decide (d ∈ b)) a.

Definition devices_of (a : Attempt) : list string := gpu_devices (limits (job (t_plan a))).

(** [ficc_node.job_spec.TERMINAL]. *)
Definition operation_terminal (st : string) : bool :=
  bool_decide (st ∈ ["succeeded"; "failed"; "cancelled"; "interrupted"]).

(** [inference.admission.require_free]. *)
Definition require_free (s : store) (devices : list string) : res unit :=
  match devices with
  | [] => Ok tt
  | _ =>
      raise_if (existsb (existsb (fun t => negb (operation_terminal (tg_state t))
                                           && overlaps devices (tg_reservations t))) (s_operations s))
        (refused "gpu_reserved" "A selected GPU is reserved by a managed SSH job.") ;;
      l ← attempts s None;
      raise_if (existsb (fun a => overlaps devices (devices_of a)
                                  && negb (bool_decide (t_state a = At Released))
                                  && negb (confirmed (t_observed a))) l)
        (refused "gpu_reserved"
           "A selected GPU is reserved by contributor execution or an inference service.")
  end.

Definition amount_of (r : resource) (a : Attempt) : Z := amount (limits (job (t_plan a))) r.

Definition new_attempt (now : float) (p : Plan) (lease : Renewal) (installation : string)
    (ledger_id : option string) (version : Z) : Attempt :=
  mkAttempt (attempt_id p) (job_id p) (node_id p) installation ledger_id version p lease None None false
    Preparing now now.

(** The queued job still is what the plan was made for. *)
Definition plan_matches (j : JobRecord) (p : Plan) : bool :=
  negb (j_cancelled j) && bool_decide (j_state j = Queued)
  && (j_generation j + 1 =? generation p)%Z
  && bool_decide (j_subject_id j = subject_id p) && bool_decide (j_project_id j = project_id p)
  && bool_decide (node_id p ∈ sub_node_ids (j_request j)) && bool_decide (sub_job (j_request j) = job p).

Definition workload_changed : exn :=
  refused "workload_changed" "The queued workload or its authority changed.".

(** Attempts on a node whose capacity is not given back. *)
Definition holding (s : store) (node : string) : res (list Attempt) :=
  l ← attempts s (Some node); Ok (List.filter (fun a => negb (bool_decide (t_state a = At Released))) l).

Definition reserve (w : sampling) (p : Plan) (lease : Renewal) (installation : string)
    (capacity : Limits) (ledger_id : option string) (version : Z) (s : store)
    : res (store * Attempt) :=
  j ← get s (job_id p);
  raise_if (negb (plan_matches j p)) workload_changed ;;
  policy ← policy_state s;
  raise_if (negb (ps_revision policy =? policy_revision p)%Z) workload_changed ;;
  raise_if (negb (n_sequence lease =? 1)%Z || f_le (n_expires_at lease) (time w 0))
    (refused "lease_expired" "The first workload lease is invalid or expired.") ;;
  held ← holding s (node_id p);
  let l := limits (job p) in
  require_free s (gpu_devices l) ;;
  raise_if (negb (fits l capacity))
    (refused "capacity" "The workload exceeds the offered node capacity.") ;;
  raise_if (existsb (fun r => amount capacity r <? sumZ (amount_of r) held + amount l r)%Z all_resources)
    (refused "capacity" "The node capacity is reserved by another attempt.") ;;
  raise_if (existsb (fun a => overlaps (gpu_devices l) (devices_of a)) held)
    (refused "capacity" "A selected GPU is reserved by another attempt.") ;;
  raise_if (8192 <=? Z.of_nat (size (s_attempts s)))%Z
    (refused "capacity" "Retained attempt capacity is full. Remove completed records first.") ;;
  let a := new_attempt (time w 1) p lease installation ledger_id version in
  raise_if (negb (attempt_ok a)) model_error ;;
  s ← insert_attempt a s;
  '(s, j) ← save_job (time w 2) (with_job (with_attempt j (t_id a) (generation p)) Preparing None) s;
  Ok (audited (time w 3) "workload.admit" j (t_id a) "preparing" s, a).

(** ** [observation] *)

(** [model_dump (exclude={"cleanup_confirmed"})]. *)
Definition without_cleanup (r : AttemptResult) : AttemptResult :=
  mkResult (r_fence r) (r_state r) (r_reason r) (r_exit_code r) (r_output_bytes r) (r_error_bytes r) true.

(** [attempt.outcome] after the result, refused when the final outcome would change. *)
Definition next_outcome (a : Attempt) (r : AttemptResult) : res (option AttemptResult) :=
  if terminal (r_state r) || bool_decide (r_state r = Unknown) && r_cleanup_confirmed r then
    raise_if (match t_outcome a with
              | Some o => negb (bool_decide (without_cleanup o = without_cleanup r))
              | None => false
              end)
      (refused "attempt_changed" "The final workload outcome cannot change.") ;;
    Ok (Some r)
  else Ok (t_outcome a).

(** States after which a result may not be active again, or prepared again. *)
Definition regresses (a : Attempt) (r : AttemptResult) : bool :=
  is_terminal (t_state a)
  && negb (bool_decide (At (r_state r) = t_state a) || bool_decide (r_state r = Released)
           || bool_decide (r_state r = Unknown)).
Definition repeats_preparation (a : Attempt) (r : AttemptResult) : bool :=
  (t_start_requested a || bool_decide (t_state a = At Starting) || bool_decide (t_state a = At Running))
  && bool_decide (r_state r = Prepared).

(** [previous_state], [previous_cleanup] and the audit events they decide. *)
Definition observed_audit (w : sampling) (j : JobRecord) (a : Attempt) (s_name : string)
    (moved cleaned : bool) (s : store) : store :=
  let s := if moved then audited (time w 2) "workload.observe" j (t_id a) s_name s else s in
  if cleaned then audited (time w 3) "workload.cleanup" j (t_id a) "confirmed" s else s.

Definition astate_text (s : astate) : string :=
  match s with
  | Prepared => "prepared" | Starting => "starting" | Running => "running"
  | Succeeded => "succeeded" | Failed => "failed" | Cancelled => "cancelled"
  | Expired => "expired" | Unknown => "unknown" | Released => "released"
  end.

Definition observation (w : sampling) (r : AttemptResult) (node installation : string) (s : store)
    : res (store * Attempt) :=
  a ← attempt s (f_attempt_id (r_fence r));
  raise_if (bool_decide (t_state a = Abandoned))
    (refused "attempt_abandoned"
       "A retired contributor attempt cannot resume or change its recorded outcome.") ;;
  raise_if (negb (bool_decide (t_node_id a = node)) || negb (bool_decide (t_installation_id a = installation))
            || negb (f_generation (r_fence r) =? generation (t_plan a))%Z
            || negb (bool_decide (f_plan_digest (r_fence r) = plan_digest (t_plan a))))
    (refused "attempt_changed" "The result does not bind this node and immutable attempt.") ;;
  if bool_decide (t_state a = At Released) then
    raise_if (negb (bool_decide (t_observed a = Some r)))
      (refused "attempt_changed" "A released attempt cannot change its recorded result.") ;;
    Ok (s, a)
  else
    raise_if (regresses a r)
      (refused "attempt_changed" "The observed attempt cannot return to an active state.") ;;
    raise_if (repeats_preparation a r)
      (refused "attempt_changed" "The observed attempt cannot repeat preparation.") ;;
    j ← get s (t_job_id a);
    raise_if (negb (bool_decide (j_current_attempt j = Some (t_id a))))
      (refused "attempt_changed" "The result belongs to an earlier workload attempt.") ;;
    outcome ← next_outcome a r;
    let a' := with_result a (Some r) outcome (At (r_state r)) in
    '(s, j) ←
      (if negb (bool_decide (r_state r = Released)) then
         if negb (bool_decide (j_state j = At (r_state r)) && bool_decide (j_reason j = r_reason r))
         then save_job (time w 0) (with_job j (At (r_state r)) (r_reason r)) s
         else Ok (s, j)
       else
         raise_if (negb (settled (j_state j)) || negb (present outcome))
           (refused "attempt_changed" "Observe the final workload outcome before releasing its storage.") ;;
         Ok (s, j));
    '(s, a') ← save_attempt (time w 1) a' s;
    Ok (observed_audit w j a' (astate_text (r_state r)) (negb (bool_decide (t_state a = t_state a')))
          (negb (confirmed (t_observed a)) && r_cleanup_confirmed r) s, a').

(** ** [transition] and [renew] *)

Definition transition_allowed (expected next : state) : bool :=
  match expected, next with
  | At Prepared, At Starting | Preparing, At Unknown | At Starting, At Unknown
  | At Running, At Unknown | At Prepared, At Unknown => true
  | _, _ => false
  end.

Definition transition (w : sampling) (i : string) (expected next : state) (reason : option string)
    (s : store) : res (store * Attempt) :=
  raise_if (negb (transition_allowed expected next))
    (ValueError "The controller attempt transition is invalid.") ;;
  a ← attempt s i;
  j ← get s (t_job_id a);
  let starting := bool_decide (next = At Starting) in
  raise_if (negb (bool_decide (t_state a = expected)) || negb (bool_decide (j_current_attempt j = Some i))
            || j_cancelled j && starting)
    (refused "attempt_changed" "The workload attempt changed before dispatch.") ;;
  let a := with_start (with_result a (t_observed a) (t_outcome a) next) (starting || t_start_requested a) in
  '(s, a) ← save_attempt (time w 0) a s;
  '(s, j) ← save_job (time w 1) (with_job j next reason) s;
  Ok (audited (time w 2) (if starting then "workload.start" else "workload.observe") j (t_id a)
        (if starting then "starting" else "unknown") s, a).

Definition thirty : float := f_of_Z 30.
Arguments thirty : simpl never.

Definition renew (w : sampling) (i : string) (expires_at : float) (s : store)
    : res (store * Renewal) :=
  a ← attempt s i;
  j ← get s (t_job_id a);
  raise_if (negb (bool_decide (t_state a ∈ [At Prepared; At Starting; At Running])) || j_cancelled j
            || negb (bool_decide (j_current_attempt j = Some i))
            || f_le (n_expires_at (t_lease a)) (time w 0)
            || negb (f_lt (n_expires_at (t_lease a)) expires_at
                     && f_le expires_at (f_add (time w 1) thirty)))
    (refused "lease_expired" "The current workload lease cannot be renewed.") ;;
  let n := mkRenewal (mkFence i (generation (t_plan a)) (plan_digest (t_plan a)))
             (n_sequence (t_lease a) + 1) expires_at in
  raise_if (negb (renewal_ok n)) model_error ;;
  '(s, a) ← save_attempt (time w 2) (with_lease a n) s;
  Ok (s, t_lease a).

(** ** Owner operations *)

Definition cancel (w : sampling) (i : string) (revision : Z) (s : store) : res (store * JobRecord) :=
  j ← get s i;
  raise_if (negb (j_revision j =? revision)%Z)
    (refused "revision_conflict" "The workload changed. Reload it before cancelling.") ;;
  let j := with_cancelled j true in
  save_job (time w 0)
    (if bool_decide (j_state j = Queued) then with_job j (At Cancelled) (Some "cancelled_before_dispatch")
     else j) s.

Definition unresolved (text : string) : exn := refused "workload_unresolved" text.

Definition retry (w : sampling) (i : string) (revision : Z) (d : Delegation) (acknowledge_unknown : bool)
    (s : store) : res (store * JobRecord) :=
  let e := unresolved "Retry requires a completed workload with confirmed storage release." in
  j ← get s i;
  raise_if (negb (j_revision j =? revision)%Z
            || negb (is_terminal (j_state j)
                     || acknowledge_unknown && bool_decide (j_state j = At Unknown))) e ;;
  match j_current_attempt j with
  | Some c => a ← attempt s c; raise_if (negb (bool_decide (t_state a = At Released))) e
  | None => Ok tt
  end ;;
  save_job (time w 0) (with_cancelled (with_job (with_delegation j d) Queued None) false) s.

Definition pending (w : sampling) (i reason : string) (s : store) : res (store * JobRecord) :=
  j ← get s i;
  if bool_decide (j_state j = Queued) && negb (bool_decide (j_reason j = Some reason))
  then save_job (time w 0) (with_job j (j_state j) (Some reason)) s
  else Ok (s, j).

(** The outcome recorded for an attempt whose contributor is retired. *)
Definition abandoned_outcome (a : Attempt) : AttemptResult :=
  mkResult (attempt_fence a) Unknown (Some "operator_abandoned") None
    (match t_observed a with Some r => r_output_bytes r | None => 0%Z end)
    (match t_observed a with Some r => r_error_bytes r | None => 0%Z end) false.

Definition abandon (w : sampling) (i : string) (revision : Z) (s : store) : res (store * JobRecord) :=
  let e := unresolved "Reload an unknown attempt before abandoning the retired contributor record." in
  j ← get s i;
  raise_if (negb (j_revision j =? revision)%Z || negb (bool_decide (j_state j = At Unknown))) e ;;
  c ← some_or (j_current_attempt j) e;
  a ← attempt s c;
  raise_if (closed_state (t_state a))
    (refused "attempt_changed" "The workload attempt no longer holds an unresolved reservation.") ;;
  node ← contributor s (t_node_id a);
  raise_if (negb (c_disabled node))
    (refused "contributor_active"
       "Revoke this contributor identity before abandoning its unresolved attempts.") ;;
  let outcome := match t_outcome a with Some o => o | None => abandoned_outcome a end in
  raise_if (negb (result_ok outcome)) model_error ;;
  '(s, _) ← save_attempt (time w 0) (with_result a (t_observed a) (Some outcome) Abandoned) s;
  save_job (time w 1) (with_cancelled (with_job j (j_state j) (Some "operator_abandoned")) true) s.

Definition of_job (i : string) (a : Attempt) : bool := bool_decide (t_job_id a = i).

Definition remove (i : string) (revision : Z) (s : store) : res (store * unit) :=
  j ← get s i;
  l ← attempts s None;
  let own := List.filter (of_job (j_id j)) l in
  let retired := bool_decide (j_state j = At Unknown) && negb (bool_decide (own = []))
                 && forallb (fun a => closed_state (t_state a)) own in
  raise_if (negb (j_revision j =? revision)%Z || negb (is_terminal (j_state j)) && negb retired
            || existsb (fun a => negb (closed_state (t_state a))) own)
    (unresolved "Remove only completed workloads with released attempts.") ;;
  Ok (with_jobs (with_attempts s (filter (fun x => of_job i x.2 = false) (s_attempts s)))
        (delete i (s_jobs s)), tt).

(** ** [suspend] *)

(** A restored row is rewritten as text, without validation. *)
Definition suspended_job (j : JobRecord) : JobRecord :=
  job_stamp (with_cancelled j true) (j_updated_at j) (j_revision j + 1).

Definition suspend (s : store) : store := with_suspended (with_jobs s (suspended_job <$> s_jobs s)) true.

End Records.
