(* ===== verification/NodeRecords.v ===== *)
(** * Saved offers and the validation of a stored database

    [workloads/node_records.py] (the saved snapshot of each contributor, whose
    offer revision never goes back on one installation) and
    [workloads/records.py]'s [validate_records], which a backup or restore runs
    over the whole database. *)

From Stdlib Require Import SpecFloat.
From S2P Require Import Prelude Float64 Json Spec Offer Wire WorkloadSchema Database Records.

Module Nodes.

Definition observation_ok (o : Observation) : bool :=
  snapshot_ok (ob_snapshot o) && timestamp (ob_observed_at o).

Definition load (o : Observation) : res Observation := raise_if (negb (observation_ok o)) model_error ;; Ok o.

(** [all]. *)
Definition all (s : store) : res (list Observation) := mapM load (row_values (s_nodes s)).

(** The stored snapshot keeps neither attempts nor cursor. *)
Definition bare (x : Snapshot) : Snapshot :=
  mkWireSnapshot (ss_installation_id x) (ss_ledger_id x) (ss_admission_version x) (ss_endpoint_version x)
    (ss_input_chunk_bytes x) (ss_deployment_id x) (ss_node_id x) (ss_maximum_lease_seconds x)
    (ss_offer x) (ss_capacity x) [] None.

(** Another installation, or another ledger than a known one. *)
Definition replaced (previous x : Snapshot) : bool :=
  negb (bool_decide (ss_installation_id previous = ss_installation_id x))
  || present (ss_ledger_id previous) && negb (bool_decide (ss_ledger_id previous = ss_ledger_id x)).

(** The offer went back, or changed under its revision. *)
Definition stale (previous x : Snapshot) : bool :=
  (revision (ss_offer x) <? revision (ss_offer previous))%Z
  || (revision (ss_offer previous) =? revision (ss_offer x))%Z
     && negb (bool_decide (ss_offer previous = ss_offer x)).

(** [save]. *)
Definition save (w : sampling) (x : Snapshot) (s : store) : res (store * Observation) :=
  let i := ss_node_id x in
  match s_nodes s !! i with
  | None => Ok tt
  | Some o =>
      o ← load o;
      let previous := ob_snapshot o in
      (if replaced previous x then
         held ← Records.holding s i;
         raise_if (negb (bool_decide (held = [])))
           (refused "executor_replaced"
              "Resolve retained attempts before accepting a replacement executor ledger.")
       else Ok tt) ;;
      raise_if (bool_decide (ss_installation_id previous = ss_installation_id x) && stale previous x)
        (refused "offer_changed" "The local offer revision is stale or inconsistent.")
  end ;;
  let value := mkObservation (bare x) (time w 0) in
  raise_if (negb (observation_ok value)) model_error ;;
  Ok (with_nodes s (<[i := value]> (s_nodes s)), value).

(** [node_records.validate_records]. *)
Definition validate_records (s : store) : res unit :=
  forM_ (fun '(i, o) =>
    o ← load o;
    raise_if (negb (present (s_contributors s !! i)) || negb (bool_decide (ss_node_id (ob_snapshot o) = i))
              || negb (bool_decide (ss_attempts (ob_snapshot o) = [])) || present (ss_next (ob_snapshot o)))
      (ValueError "A saved execution offer has an invalid node binding.")) (rows (s_nodes s)).

End Nodes.

(** ** The whole database *)

(** One job row. *)
Definition validate_job (quiescent : bool) (s : store) (x : string * JobRecord) : res unit :=
  let '(i, j) := x in
  j ← Records.load_job j;
  raise_if (negb (bool_decide (i = j_id j)) || negb (present (s_users s !! j_subject_id j))
            || negb (present (s_projects s !! j_project_id j))
            || negb (bool_decide (j_digest j = digest (submission_dump (j_request j)))))
    (ValueError "A stored workload identity or submission is invalid.") ;;
  raise_if (quiescent && negb (settled (j_state j)))
    (ValueError "Resolve all active or unknown workloads before backup or restore.").

(** An attempt is bound to its job's submission. *)
Definition bound_to (a : Attempt) (j : JobRecord) : bool :=
  bool_decide (subject_id (t_plan a) = j_subject_id j) && bool_decide (project_id (t_plan a) = j_project_id j)
  && bool_decide (job (t_plan a) = sub_job (j_request j))
  && bool_decide (t_node_id a ∈ sub_node_ids (j_request j)).

(** One attempt row. *)
Definition validate_attempt (quiescent : bool) (s : store) (x : string * Attempt) : res unit :=
  let '(i, a) := x in
  a ← Records.load_attempt a;
  raise_if (negb (bool_decide (i = t_id a)) || negb (present (s_contributors s !! t_node_id a))
            || match s_jobs s !! t_job_id a with Some j => negb (bound_to a j) | None => true end)
    (ValueError "A stored workload attempt is not bound to its submission.") ;;
  raise_if (bool_decide (t_state a = Abandoned)
            && match s_contributors s !! t_node_id a with Some c => negb (c_disabled c) | None => true end)
    (ValueError "An abandoned attempt requires a revoked contributor identity.") ;;
  raise_if (quiescent && negb (closed_state (t_state a)))
    (ValueError "Resolve active or unknown outcomes and release workload storage before backup or restore.").

Definition generations_of (s : store) (i : string) : list Z :=
  map (fun a => generation (t_plan a)) (List.filter (Records.of_job i) (row_values (s_attempts s))).

(** The latest attempt and the retained generations of a job. *)
Definition validate_generations (quiescent : bool) (s : store) (j : JobRecord) : res unit :=
  let current := match j_current_attempt j with Some c => s_attempts s !! c | None => None end in
  raise_if (quiescent && bool_decide (j_state j = At Unknown)
            && match current with Some a => negb (bool_decide (t_state a = Abandoned)) | None => true end)
    (ValueError "Resolve all active or unknown workloads before backup or restore.") ;;
  raise_if (present (j_current_attempt j)
            && match current with
               | Some a => negb (bool_decide (t_job_id a = j_id j))
                           || negb (generation (t_plan a) =? j_generation j)%Z
               | None => true
               end)
    (ValueError "The latest workload generation is invalid.") ;;
  raise_if (negb (distinct (generations_of s (j_id j)))
            || existsb (fun g => (j_generation j <? g)%Z) (generations_of s (j_id j)))
    (ValueError "A retained workload generation is duplicated or out of order.").

(** [records.validate_records]. *)
Definition validate_records (quiescent : bool) (s : store) : res unit :=
  forM_ (validate_job quiescent s) (rows (s_jobs s)) ;;
  forM_ (validate_attempt quiescent s) (rows (s_attempts s)) ;;
  forM_ (validate_generations quiescent s) (row_values (s_jobs s)) ;;
  Nodes.validate_records s.
