(* ===== verification/RecordsProps.v ===== *)
(** * What the controller's records guarantee

    [step] is one operation of [Records] or [Nodes], or a change another
    component makes to the database ([other]; [ContributorProps] shows that the
    contributor store makes no other).  [wf] is the invariant of the job and
    attempt tables. *)

From Stdlib Require Import SpecFloat.
From S2P Require Import Prelude Float64 Json Spec Offer Wire WorkloadSchema Database Records NodeRecords.
Import Records.

(** ** Steps *)

Inductive wop :=
| DoSubmit (w : sampling) (r : Submission) (key : string) (d : Delegation)
| DoReserve (w : sampling) (p : Plan) (lease : Renewal) (installation : string) (capacity : Limits)
    (ledger_id : option string) (version : Z)
| DoObservation (w : sampling) (r : AttemptResult) (node installation : string)
| DoTransition (w : sampling) (i : string) (expected next : state) (reason : option string)
| DoRenew (w : sampling) (i : string) (expires_at : float)
| DoCancel (w : sampling) (i : string) (revision : Z)
| DoRetry (w : sampling) (i : string) (revision : Z) (d : Delegation) (acknowledge_unknown : bool)
| DoPending (w : sampling) (i reason : string)
| DoAbandon (w : sampling) (i : string) (revision : Z)
| DoRemove (i : string) (revision : Z)
| DoSaveNode (w : sampling) (x : Snapshot)
| DoSuspend.

Definition run_op (op : wop) (s : store) : res store :=
  match op with
  | DoSubmit w r key d => fst <$> submit w r key d s
  | DoReserve w p lease inst cap lid v => fst <$> reserve w p lease inst cap lid v s
  | DoObservation w r node inst => fst <$> observation w r node inst s
  | DoTransition w i e n reason => fst <$> transition w i e n reason s
  | DoRenew w i x => fst <$> renew w i x s
  | DoCancel w i r => fst <$> cancel w i r s
  | DoRetry w i r d ack => fst <$> retry w i r d ack s
  | DoPending w i reason => fst <$> pending w i reason s
  | DoAbandon w i r => fst <$> abandon w i r s
  | DoRemove i r => fst <$> remove i r s
  | DoSaveNode w x => fst <$> Nodes.save w x s
  | DoSuspend => Ok (suspend s)
  end.

(** What the callers establish: a delegation names stored identities, a plan
    and a snapshot name an enrolled contributor, and a restored database has
    revisions left to count with. *)
Definition lawful (op : wop) (s : store) : Prop :=
  match op with
  | DoSubmit _ _ _ d =>
      present (s_users s !! dg_subject_id d) = true ∧ present (s_projects s !! dg_project_id d) = true
  | DoReserve _ p _ _ _ _ _ => present (s_contributors s !! node_id p) = true
  | DoSaveNode _ x => present (s_contributors s !! ss_node_id x) = true
  | DoSuspend => ∀ i j, s_jobs s !! i = Some j → (j_revision j < 2 ^ 53 - 1)%Z
  | _ => True
  end.

Definition still {A} (m m' : gmap string A) : Prop := ∀ i, present (m !! i) = true → present (m' !! i) = true.

(** Changes of other components: identities and projects stay, contributors of
    retained attempts and saved offers stay, a revoked contributor stays revoked. *)
Record other (s s' : store) : Prop := {
  other_jobs : s_jobs s' = s_jobs s;
  other_attempts : s_attempts s' = s_attempts s;
  other_nodes : ∀ i o, s_nodes s' !! i = Some o → s_nodes s !! i = Some o ∧ present (s_contributors s' !! i) = true;
  other_users : still (s_users s) (s_users s');
  other_projects : still (s_projects s) (s_projects s');
  other_contributors : ∀ i a c, s_attempts s !! i = Some a → s_contributors s !! t_node_id a = Some c →
    ∃ c', s_contributors s' !! t_node_id a = Some c' ∧ (c_disabled c = true → c_disabled c' = true) }.

Inductive step (s s' : store) : Prop :=
| step_op op : lawful op s → run_op op s = Ok s' → step s s'
| step_other : other s s' → step s s'.

(** ** The invariant *)

Definition current_of (s : store) (j : JobRecord) : option Attempt :=
  match j_current_attempt j with Some c => s_attempts s !! c | None => None end.

Record wf (s : store) : Prop := {
  wf_job : ∀ i j, s_jobs s !! i = Some j →
    j_id j = i ∧ record_ok j = true ∧ j_digest j = digest (submission_dump (j_request j))
    ∧ present (s_users s !! j_subject_id j) = true ∧ present (s_projects s !! j_project_id j) = true;
  wf_key : ∀ i i' j j', s_jobs s !! i = Some j → s_jobs s !! i' = Some j' →
    j_subject_id j = j_subject_id j' → j_project_id j = j_project_id j' → j_key j = j_key j' → i = i';
  wf_attempt : ∀ i a, s_attempts s !! i = Some a →
    t_id a = i ∧ attempt_ok a = true
    ∧ (t_start_requested a = true → t_state a ≠ At Prepared ∧ t_state a ≠ Preparing)
    ∧ (∃ j, s_jobs s !! t_job_id a = Some j ∧ bound_to a j = true)
    ∧ ∃ c, s_contributors s !! t_node_id a = Some c ∧ (t_state a = Abandoned → c_disabled c = true);
  wf_current : ∀ i j c, s_jobs s !! i = Some j → j_current_attempt j = Some c →
    ∃ a, s_attempts s !! c = Some a ∧ t_job_id a = i ∧ generation (t_plan a) = j_generation j
         ∧ (j_state j = Queued → t_state a = At Released);
  wf_earlier : ∀ i a j, s_attempts s !! i = Some a → s_jobs s !! t_job_id a = Some j →
    j_current_attempt j ≠ Some i → t_state a = At Released ∧ (generation (t_plan a) < j_generation j)%Z;
  wf_generation : ∀ i i' a a', s_attempts s !! i = Some a → s_attempts s !! i' = Some a' →
    t_job_id a = t_job_id a' → generation (t_plan a) = generation (t_plan a') → i = i';
  wf_node : ∀ i o, s_nodes s !! i = Some o →
    Nodes.observation_ok o = true ∧ ss_node_id (ob_snapshot o) = i ∧ ss_attempts (ob_snapshot o) = []
    ∧ ss_next (ob_snapshot o) = None ∧ present (s_contributors s !! i) = true }.

Lemma records_wf_empty : wf empty_store.
Proof. split; intros *; simpl; rewrite ?lookup_empty; done. Qed.

(** ** Reading and writing *)

Lemma load_job_Ok j j' : load_job j = Ok j' ↔ j' = j ∧ record_ok j = true.
Proof.
  unfold load_job. rewrite raise_if_bind_Ok, negb_false_iff.
  split; [intros [? [= ->]]|intros [-> ?]]; done.
Qed.

Lemma load_attempt_Ok a a' : load_attempt a = Ok a' ↔ a' = a ∧ attempt_ok a = true.
Proof.
  unfold load_attempt. rewrite raise_if_bind_Ok, negb_false_iff.
  split; [intros [? [= ->]]|intros [-> ?]]; done.
Qed.

Lemma get_Ok s i j : get s i = Ok j ↔ s_jobs s !! i = Some j ∧ record_ok j = true.
Proof.
  unfold get. rewrite bind_Ok. setoid_rewrite some_or_Ok. setoid_rewrite load_job_Ok.
  split; [intros (? & ? & -> & ?); done|intros [? ?]; by exists j].
Qed.

Lemma attempt_Ok s i a : attempt s i = Ok a ↔ s_attempts s !! i = Some a ∧ attempt_ok a = true.
Proof.
  unfold attempt. rewrite bind_Ok. setoid_rewrite some_or_Ok. setoid_rewrite load_attempt_Ok.
  split; [intros (? & ? & -> & ?); done|intros [? ?]; by exists a].
Qed.

(** The identity of a job row, which no operation changes. *)
Record same_job (j j' : JobRecord) : Prop := {
  sj_id : j_id j' = j_id j; sj_subject : j_subject_id j' = j_subject_id j;
  sj_project : j_project_id j' = j_project_id j; sj_key : j_key j' = j_key j;
  sj_digest : j_digest j' = j_digest j; sj_request : j_request j' = j_request j }.

Record same_attempt (a a' : Attempt) : Prop := {
  sa_id : t_id a' = t_id a; sa_job : t_job_id a' = t_job_id a; sa_node : t_node_id a' = t_node_id a;
  sa_installation : t_installation_id a' = t_installation_id a;
  sa_ledger : t_ledger_id a' = t_ledger_id a; sa_version : t_admission_version a' = t_admission_version a;
  sa_plan : t_plan a' = t_plan a }.

Lemma save_job_Ok now j s s' j' :
  save_job now j s = Ok (s', j') →
  j' = job_stamp j (f_max (j_updated_at j) now) (j_revision j + 1) ∧ record_ok j' = true
  ∧ s' = with_jobs s (alter (fun _ => j') (j_id j) (s_jobs s)).
Proof. unfold save_job. intros H. lean_inv. auto. Qed.

Lemma save_attempt_Ok now a s s' a' :
  save_attempt now a s = Ok (s', a') →
  a' = attempt_stamp a (f_max (t_updated_at a) now) ∧ attempt_ok a' = true
  ∧ s' = with_attempts s (alter (fun _ => a') (t_id a) (s_attempts s)).
Proof. unfold save_attempt. intros H. lean_inv. auto. Qed.

Lemma alter_const {A} (m : gmap string A) i x y : m !! i = Some x → alter (fun _ => y) i m = <[i := y]> m.
Proof.
  intros H. apply map_eq. intros k. destruct (decide (k = i)) as [->|].
  - by rewrite lookup_alter_eq, H, lookup_insert_eq.
  - by rewrite lookup_alter_ne, lookup_insert_ne.
Qed.

(** ** Preservation *)

Lemma wf_ext s s' :
  s_jobs s' = s_jobs s → s_attempts s' = s_attempts s → s_nodes s' = s_nodes s →
  s_users s' = s_users s → s_projects s' = s_projects s → s_contributors s' = s_contributors s →
  wf s → wf s'.
Proof. intros H1 H2 H3 H4 H5 H6 []. split; rewrite ?H1, ?H2, ?H3, ?H4, ?H5, ?H6; done. Qed.

Lemma wf_audited now action j target outcome s : wf s → wf (audited now action j target outcome s).
Proof. by apply wf_ext. Qed.

(** The bound between an attempt and its job only reads what stays the same. *)
Lemma bound_to_same a a' j j' : same_attempt a a' → same_job j j' → bound_to a' j' = bound_to a j.
Proof. intros [_ _ E1 _ _ _ E2] [_ E3 E4 _ _ E5]. unfold bound_to. by rewrite E1, E2, E3, E4, E5. Qed.

Lemma same_job_refl j : same_job j j. Proof. done. Qed.
Lemma same_attempt_refl a : same_attempt a a. Proof. done. Qed.

Ltac lookups :=
  repeat match goal with
  | H : <[?i := _]> _ !! ?k = Some _ |- _ =>
      first [ apply lookup_insert_Some in H as [[? ?]|[? ?]] ]
  end; simplify_eq.

Lemma wf_put_job s i j j' :
  wf s → s_jobs s !! i = Some j → same_job j j' → record_ok j' = true →
  j_current_attempt j' = j_current_attempt j → j_generation j' = j_generation j →
  (j_state j' = Queued → ∀ c a, j_current_attempt j = Some c → s_attempts s !! c = Some a →
     t_state a = At Released) →
  wf (with_jobs s (<[i := j']> (s_jobs s))).
Proof.
  intros W Hj S Hok Hc Hg Hq. pose proof S as [S1 S2 S3 S4 S5 S6].
  destruct (wf_job s W i j Hj) as (Hi & _ & Hd & Hu & Hp). split; simpl.
  - intros k j0 H. lookups; [|by apply (wf_job s W)].
    rewrite S1, S2, S3, S5, S6. auto.
  - intros k k' j0 j1 H H' E1 E2 E3. lookups; try done.
    + apply (wf_key s W _ _ j0 j); congruence.
    + apply (wf_key s W _ _ j j1); congruence.
    + by apply (wf_key s W _ _ j0 j1).
  - intros k a H. destruct (wf_attempt s W k a H) as (? & ? & ? & (j0 & Hj0 & Hb) & ?).
    split_and!; try done. destruct (decide (t_job_id a = i)) as [E|E].
    + exists j'. rewrite E, lookup_insert_eq. split; [done|].
      assert (j0 = j) as -> by congruence. by rewrite (bound_to_same a a j j').
    + exists j0. by rewrite lookup_insert_ne.
  - intros k j0 c H Hcur. lookups; [|by eapply (wf_current s W)].
    rewrite Hc in Hcur. destruct (wf_current s W _ _ _ Hj Hcur) as (a & ? & ? & ? & ?).
    exists a. split_and!; eauto. congruence.
  - intros k a j0 H Hj0 Hne. lookups; [|by eapply (wf_earlier s W)].
    rewrite Hg, Hc in *. eapply (wf_earlier s W); [done| |done]. congruence.
  - apply (wf_generation s W).
  - apply (wf_node s W).
Qed.

Lemma wf_put_attempt s i a a' :
  wf s → s_attempts s !! i = Some a → same_attempt a a' → attempt_ok a' = true →
  (t_start_requested a' = true → t_state a' ≠ At Prepared ∧ t_state a' ≠ Preparing) →
  (t_state a' = Abandoned → ∀ c, s_contributors s !! t_node_id a = Some c → c_disabled c = true) →
  (t_state a = At Released → t_state a' = At Released) →
  wf (with_attempts s (<[i := a']> (s_attempts s))).
Proof.
  intros W Ha S Hok Hst Hab Hrel. pose proof S as [S1 S2 S3 S4 S5 S6 S7].
  destruct (wf_attempt s W i a Ha) as (Hi & _ & _ & (j & Hj & Hb) & (n & Hn & _)). split; simpl.
  - apply (wf_job s W).
  - apply (wf_key s W).
  - intros k a0 H. lookups; [|by apply (wf_attempt s W)]. split_and!; [congruence|done|done| |].
    + exists j. rewrite S2. split; [done|]. by rewrite (bound_to_same _ _ _ _ S (same_job_refl j)).
    + exists n. rewrite S3. eauto.
  - intros k j0 c H Hcur. destruct (wf_current s W _ _ _ H Hcur) as (a0 & Ha0 & ? & ? & ?).
    destruct (decide (c = i)) as [->|].
    + exists a'. rewrite lookup_insert_eq, S2, S7. assert (a0 = a) as -> by congruence. split_and!; auto.
    + exists a0. by rewrite lookup_insert_ne.
  - intros k a0 j0 H Hj0 Hne. lookups; [|by eapply (wf_earlier s W)].
    rewrite S2, S7 in *. destruct (wf_earlier s W _ _ _ Ha Hj0 Hne). auto.
  - intros k k' a0 a1 H H' E1 E2. lookups; try done.
    + apply (wf_generation s W _ _ a0 a); congruence.
    + apply (wf_generation s W _ _ a a1); congruence.
    + by apply (wf_generation s W _ _ a0 a1).
  - apply (wf_node s W).
Qed.

Lemma same_stamp j updated rev : same_job j (job_stamp j updated rev). Proof. done. Qed.

(** [save_job] of a row whose identity and attempt are unchanged. *)
Lemma save_job_wf now s i j j1 s' j' :
  wf s → s_jobs s !! i = Some j → same_job j j1 →
  j_current_attempt j1 = j_current_attempt j → j_generation j1 = j_generation j →
  (j_state j1 = Queued → ∀ c a, j_current_attempt j = Some c → s_attempts s !! c = Some a →
     t_state a = At Released) →
  save_job now j1 s = Ok (s', j') → wf s'.
Proof.
  intros W Hj S Hc Hg Hq H. apply save_job_Ok in H as (-> & Hok & ->).
  destruct (wf_job s W i j Hj) as (Hi & _). destruct S as [S1 S2 S3 S4 S5 S6].
  rewrite S1, Hi, (alter_const _ _ _ _ Hj). by eapply wf_put_job; eauto; split.
Qed.

Lemma save_attempt_wf now s i a a1 s' a' :
  wf s → s_attempts s !! i = Some a → same_attempt a a1 →
  (t_start_requested a1 = true → t_state a1 ≠ At Prepared ∧ t_state a1 ≠ Preparing) →
  (t_state a1 = Abandoned → ∀ c, s_contributors s !! t_node_id a = Some c → c_disabled c = true) →
  (t_state a = At Released → t_state a1 = At Released) →
  save_attempt now a1 s = Ok (s', a') → wf s'.
Proof.
  intros W Ha S Hst Hab Hrel H. apply save_attempt_Ok in H as (-> & Hok & ->).
  destruct (wf_attempt s W i a Ha) as (Hi & _). destruct S as [S1 S2 S3 S4 S5 S6 S7].
  rewrite S1, Hi, (alter_const _ _ _ _ Ha). by eapply wf_put_attempt; eauto; split.
Qed.

(** ** How rows evolve *)

Record attempt_evolves (a a' : Attempt) : Prop := {
  ae_same : same_attempt a a';
  ae_outcome : ∀ o, t_outcome a = Some o →
    ∃ o', t_outcome a' = Some o' ∧ without_cleanup o' = without_cleanup o;
  ae_start : t_start_requested a = true → t_start_requested a' = true;
  ae_closed : closed_state (t_state a) = true → t_state a' = t_state a ∧ t_observed a' = t_observed a;
  ae_lease : (n_sequence (t_lease a) <= n_sequence (t_lease a'))%Z }.

Record job_evolves (j j' : JobRecord) : Prop := {
  je_same : same_job j j';
  je_generation : (j_generation j <= j_generation j')%Z;
  je_revision : j' = j ∨ (j_revision j < j_revision j')%Z }.

#[global] Instance same_attempt_preorder : PreOrder same_attempt.
Proof. split; [done|]. intros a b c [] []. split; etrans; done. Qed.
#[global] Instance same_job_preorder : PreOrder same_job.
Proof. split; [done|]. intros a b c [] []. split; etrans; done. Qed.

#[global] Instance attempt_evolves_preorder : PreOrder attempt_evolves.
Proof.
  split; [by split; eauto|].
  intros a b c [S1 O1 T1 C1 L1] [S2 O2 T2 C2 L2]. split; [by etrans| |by auto| |lia].
  - intros o Ho. destruct (O1 o Ho) as (o' & Ho' & <-). by apply O2.
  - intros Hc. destruct (C1 Hc) as [E1 E2]. rewrite <- E1 in Hc. destruct (C2 Hc). split; by etrans.
Qed.

#[global] Instance job_evolves_preorder : PreOrder job_evolves.
Proof.
  split; [split; [done|lia|by left]|].
  intros a b c [S1 G1 R1] [S2 G2 R2]. split; [by etrans|lia|].
  destruct R1 as [->|], R2 as [->|]; auto. right. lia.
Qed.

(** The rows of one table evolve in place. *)
Definition rows_evolve {A} (R : A → A → Prop) (m m' : gmap string A) : Prop := map_relation (fun _ => R) (fun _ _ => False) (fun _ _ => False) m m'.

#[global] Instance rows_evolve_preorder {A} (R : A → A → Prop) `{!PreOrder R} : PreOrder (rows_evolve R).
Proof.
  split.
  - intros m i. destruct (m !! i); simpl; [reflexivity|done].
  - intros m1 m2 m3 H1 H2 i. specialize (H1 i). specialize (H2 i).
    destruct (m1 !! i), (m2 !! i), (m3 !! i); simpl in *; try done. by etrans.
Qed.

Lemma rows_evolve_put {A} (R : A → A → Prop) `{!PreOrder R} m i x y :
  m !! i = Some x → R x y → rows_evolve R m (<[i := y]> m).
Proof.
  intros Hx HR k. destruct (decide (k = i)) as [->|].
  - by rewrite lookup_insert_eq, Hx.
  - rewrite lookup_insert_ne by done. destruct (m !! k); simpl; [reflexivity|done].
Qed.

(** Updates of existing rows that keep the invariant. *)
Record puts (s s' : store) : Prop := {
  puts_wf : wf s → wf s';
  puts_attempts : rows_evolve attempt_evolves (s_attempts s) (s_attempts s');
  puts_jobs : rows_evolve job_evolves (s_jobs s) (s_jobs s') }.

#[global] Instance puts_preorder : PreOrder puts.
Proof.
  split; [intros s; split; [done|reflexivity..]|].
  intros a b c [W1 A1 J1] [W2 A2 J2]. split; [by auto|by etrans..].
Qed.

Lemma audited_puts now action j target outcome s : puts s (audited now action j target outcome s).
Proof. split; [apply wf_audited|reflexivity..]. Qed.

Lemma save_job_puts now s i j j1 s' j' :
  wf s → s_jobs s !! i = Some j → same_job j j1 →
  j_current_attempt j1 = j_current_attempt j → j_generation j1 = j_generation j →
  j_revision j1 = j_revision j →
  (j_state j1 = Queued → ∀ c a, j_current_attempt j = Some c → s_attempts s !! c = Some a →
     t_state a = At Released) →
  save_job now j1 s = Ok (s', j') → puts s s' ∧ s_attempts s' = s_attempts s ∧ same_job j j'
    ∧ s_contributors s' = s_contributors s.
Proof.
  intros W Hj S Hc Hg Hr Hq H. pose proof (save_job_wf _ _ _ _ _ _ _ W Hj S Hc Hg Hq H) as W'.
  apply save_job_Ok in H as (-> & Hok & ->). destruct (wf_job s W i j Hj) as (Hi & _).
  pose proof (same_stamp j1 (f_max (j_updated_at j1) now) (j_revision j1 + 1)) as S'.
  split_and!; [|done|by etrans|done]. split; [done|reflexivity|]. simpl.
  rewrite (sj_id _ _ S), Hi, (alter_const _ _ _ _ Hj). apply rows_evolve_put with j; [apply _|done|].
  split; [by etrans|simpl; lia|right; simpl; lia].
Qed.

Lemma save_attempt_puts now s i a a1 s' a' :
  wf s → s_attempts s !! i = Some a → attempt_evolves a a1 →
  (t_start_requested a1 = true → t_state a1 ≠ At Prepared ∧ t_state a1 ≠ Preparing) →
  (t_state a1 = Abandoned → ∀ c, s_contributors s !! t_node_id a = Some c → c_disabled c = true) →
  save_attempt now a1 s = Ok (s', a') →
  puts s s' ∧ s_jobs s' = s_jobs s ∧ t_state a' = t_state a1.
Proof.
  intros W Ha E Hst Hab H. pose proof E as [S _ _ C _].
  assert (Hrel : t_state a = At Released → t_state a1 = At Released).
  { intros E'. destruct C as [-> _]; [|done]. unfold closed_state. by rewrite E'. }
  pose proof (save_attempt_wf _ _ _ _ _ _ _ W Ha S Hst Hab Hrel H) as W'.
  apply save_attempt_Ok in H as (-> & Hok & ->). destruct (wf_attempt s W i a Ha) as (Hi & _).
  split_and!; [|done|done]. split; [done| |reflexivity]. simpl.
  rewrite (sa_id _ _ S), Hi, (alter_const _ _ _ _ Ha). apply rows_evolve_put with a; [apply _|done|].
  etrans; [exact E|]. split; simpl; eauto; done.
Qed.

(** ** Each operation *)

(** Reads of a well-formed store never fail validation. *)
Lemma get_wf s i j : wf s → s_jobs s !! i = Some j → get s i = Ok j.
Proof. intros W H. apply get_Ok. split; [done|]. by apply (wf_job s W i). Qed.
Lemma attempt_wf s i a : wf s → s_attempts s !! i = Some a → attempt s i = Ok a.
Proof. intros W H. apply attempt_Ok. split; [done|]. by apply (wf_attempt s W i). Qed.

Ltac split_if := match goal with H : (if ?b then _ else _) = Ok _ |- _ => destruct b eqn:? end.
Ltac rec_inv :=
  lean_inv;
  repeat match goal with
  | H : get _ _ = Ok _ |- _ => apply get_Ok in H as [H _]
  | H : attempt _ _ = Ok _ |- _ => apply attempt_Ok in H as [H _]
  end.

(** [save_job] of a row that does not become queued. *)
Lemma save_job_puts' now s i j j1 s' j' :
  wf s → s_jobs s !! i = Some j → same_job j j1 →
  j_current_attempt j1 = j_current_attempt j → j_generation j1 = j_generation j →
  j_revision j1 = j_revision j → (j_state j1 = Queued → j_state j = Queued) →
  save_job now j1 s = Ok (s', j') → puts s s' ∧ s_attempts s' = s_attempts s ∧ same_job j j'
    ∧ s_contributors s' = s_contributors s.
Proof.
  intros W Hj S Hc Hg Hr Hq. apply save_job_puts with i; try done.
  intros Hs c a Hcur Ha. destruct (wf_current s W i j c Hj Hcur) as (a' & Ha' & _ & _ & Hrel).
  rewrite Ha in Ha'. injection Ha' as <-. auto.
Qed.

(** Apply a saving lemma to the save in the hypotheses. *)
Ltac saved lemma :=
  match goal with
  | H : save_job _ _ _ = Ok _ |- _ =>
      eapply lemma in H as (? & ? & ? & ?);
      [try assumption|eassumption|eassumption|try done; try exact (same_job_refl _)..]
  | H : save_attempt _ _ _ = Ok _ |- _ =>
      eapply lemma in H as (? & ? & ?); [try assumption|eassumption|eassumption|try done..]
  end.

Lemma cancel_puts w i rev s s' j : wf s → cancel w i rev s = Ok (s', j) → puts s s'.
Proof.
  intros W H. unfold cancel in H. rec_inv.
  eapply save_job_puts'; [done|eassumption|..|eassumption]; by case_bool_decide.
Qed.

Lemma pending_puts w i reason s s' j : wf s → pending w i reason s = Ok (s', j) → puts s s'.
Proof.
  intros W H. unfold pending in H. rec_inv. split_if; [|rec_inv; reflexivity].
  eapply save_job_puts'; [done|eassumption|..|eassumption]; done.
Qed.

Lemma retry_puts w i rev d ack s s' j : wf s → retry w i rev d ack s = Ok (s', j) → puts s s'.
Proof.
  intros W H. unfold retry in H. rec_inv.
  saved save_job_puts.
  intros _ c a Hc Ha. rewrite Hc in *. rec_inv. congruence.
Qed.

Lemma renew_puts w i x s s' n : wf s → renew w i x s = Ok (s', n) → puts s s'.
Proof.
  intros W H. unfold renew in H. rec_inv.
  destruct (wf_attempt s W _ _ H0) as (_ & _ & Hst & _ & Hn).
  saved save_attempt_puts.
  - split; simpl; eauto; [done|lia].
  - simpl. intros Hab c Hc. set_solver.
Qed.

Lemma transition_puts w i e n reason s s' a :
  wf s → transition w i e n reason s = Ok (s', a) → puts s s'.
Proof.
  intros W H. unfold transition in H. rec_inv.
  destruct (wf_attempt s W _ _ H1) as (_ & _ & Hst & _ & _).
  saved save_attempt_puts.
  - etrans; [eassumption|]. etrans; [|apply audited_puts].
    match goal with H : s_jobs ?s1 = s_jobs s |- _ => rewrite <- H in H2 end.
    assert (W' : wf s0) by by eapply puts_wf.
    saved save_job_puts'. simpl. by destruct (t_state x) as [| |[]|], n as [| |[]|].
  - split; simpl; try done; [by eauto| |].
    + intros ->. by rewrite orb_true_r.
    + by destruct (t_state x) as [| |[]|], n as [| |[]|].
  - simpl. destruct (t_state x) as [| |[]|], n as [| |[]|]; simpl; try done.
  - simpl. by destruct (t_state x) as [| |[]|], n as [| |[]|].
Qed.

Lemma without_cleanup_idem r : without_cleanup (without_cleanup r) = without_cleanup r.
Proof. done. Qed.

(** The recorded outcome is the result, or stays. *)
Lemma next_outcome_Ok a r o :
  next_outcome a r = Ok o →
  ∀ x, t_outcome a = Some x → ∃ y, o = Some y ∧ without_cleanup y = without_cleanup x.
Proof.
  unfold next_outcome. intros H x Hx. split_if; lean_inv; [|by exists x].
  exists r. split; [done|]. rewrite Hx in *. symmetry. by eapply bool_decide_eq_true_1, negb_false_iff.
Qed.

Lemma observed_audit_puts w j a text moved cleaned s : puts s (observed_audit w j a text moved cleaned s).
Proof.
  unfold observed_audit. destruct moved, cleaned; [etrans| | |reflexivity]; apply audited_puts.
Qed.

(** A result does not bring a dispatched attempt back to preparation. *)
Lemma observation_started a r :
  (t_start_requested a = true → t_state a ≠ At Prepared ∧ t_state a ≠ Preparing) →
  repeats_preparation a r = false → t_start_requested a = true →
  At (r_state r) ≠ At Prepared ∧ At (r_state r) ≠ Preparing.
Proof.
  intros Hst Hr Hs. split; [|done]. intros [= E]. unfold repeats_preparation in Hr.
  rewrite Hs, E, bool_decide_true in Hr; done.
Qed.

Lemma observation_puts w r node inst s s' a :
  wf s → observation w r node inst s = Ok (s', a) → puts s s'.
Proof.
  intros W H. unfold observation in H. lean_inv. split_if; [by lean_inv|]. rec_inv.
  match goal with Hj : s_jobs s !! t_job_id x = Some ?j, Ha : s_attempts s !! _ = Some x |- _ =>
    rename Hj into Hjob; rename Ha into Hatt; rename j into j0 end.
  match goal with Ho : next_outcome x r = Ok ?o |- _ => rename Ho into Hout; rename o into out end.
  destruct (wf_attempt s W _ _ Hatt) as (_ & _ & Hst & _ & _).
  match goal with Hm : (if _ then _ else _) = Ok (?s1, ?j1) |- _ =>
    assert (Hs1 : puts s s1 ∧ s_attempts s1 = s_attempts s); [|clear Hm] end.
  { split_if; [|lean_inv; split; [reflexivity|done]]. split_if; [|lean_inv; split; [reflexivity|done]].
    saved save_job_puts'. auto. }
  destruct Hs1 as [Hp1 Hs1]. rewrite <- Hs1 in Hatt.
  etrans; [exact Hp1|]. etrans; [|apply observed_audit_puts].
  assert (W1 := puts_wf _ _ Hp1 W).
  saved save_attempt_puts.
  - split; simpl; try done.
    + intros x1 Hx. eapply next_outcome_Ok in Hout as (y & -> & Hy); [|exact Hx]. eauto.
    + unfold closed_state. by rewrite !bool_decide_false.
  - simpl. by eapply observation_started.
Qed.

Lemma abandon_puts w i rev s s' j : wf s → abandon w i rev s = Ok (s', j) → puts s s'.
Proof.
  intros W H. unfold abandon in H. rec_inv.
  match goal with Ha : s_attempts s !! _ = Some ?a |- _ => rename Ha into Hatt; rename a into a0 end.
  destruct (wf_attempt s W _ _ Hatt) as (_ & _ & Hst & _ & _).
  saved save_attempt_puts.
  - etrans; [eassumption|].
    match goal with H : s_jobs ?s1 = s_jobs s, Hj : s_jobs s !! i = _ |- _ => rewrite <- H in Hj end.
    match goal with Hp : puts s ?s1 |- _ => assert (W' := puts_wf _ _ Hp W) end.
    saved save_job_puts'.
  - split; simpl; try done; [|congruence].
    intros o Ho. rewrite Ho. eauto.
  - simpl. intros _ c Hc.
    match goal with Hn : contributor s _ = Ok _ |- _ => apply some_or_Ok in Hn end. congruence.
Qed.

(** ** New and removed rows *)

Lemma find_None {A} (f : A → bool) l x : List.find f l = None → x ∈ l → f x = false.
Proof. intros H Hx. eapply find_none in H; [done|by apply list_elem_of_In]. Qed.

Lemma find_Some {A} (f : A → bool) l x : List.find f l = Some x → x ∈ l ∧ f x = true.
Proof. intros [H ?]%find_some. split; [by apply list_elem_of_In|done]. Qed.

Lemma submit_wf w r key d s s' j :
  wf s → lawful (DoSubmit w r key d) s → submit w r key d s = Ok (s', j) → wf s'.
Proof.
  intros W [Hu Hp] H. unfold submit in H. destruct (keyed s d key) as [j0|] eqn:Hk; [by lean_inv|].
  lean_inv. unfold insert_job in *. lean_inv.
  set (j := new_record w r key d) in *.
  assert (Hnew : s_jobs s !! j_id j = None) by (by destruct (s_jobs s !! j_id j)).
  assert (Hno : ∀ k j1, s_jobs s !! k = Some j1 → j_subject_id j1 = dg_subject_id d →
                 j_project_id j1 = dg_project_id d → j_key j1 = key → False).
  { intros k j1 Hj1 E1 E2 E3. unfold keyed in Hk.
    eapply find_None in Hk; [|apply elem_of_row_values; exists k; exact Hj1].
    by rewrite E1, E2, E3, !bool_decide_true in Hk. }
  assert (Hatt : ∀ k a, s_attempts s !! k = Some a → t_job_id a ≠ j_id j).
  { intros k a Ha E. destruct (wf_attempt s W _ _ Ha) as (_ & _ & _ & (j1 & Hj1 & _) & _). congruence. }
  split; simpl.
  - intros k j1 Hj. lookups; [done|by apply (wf_job s W)].
  - intros k k' j1 j2 Hj Hj' E1 E2 E3. lookups; try done; [exfalso; eauto..|by eapply (wf_key s W)].
  - intros k a Ha. destruct (wf_attempt s W k a Ha) as (? & ? & ? & (j1 & Hj1 & Hb) & ?).
    split_and!; try done. exists j1. rewrite lookup_insert_ne; [done|]. intros E. by eapply Hatt.
  - intros k j1 c Hj Hcur. lookups. by eapply (wf_current s W).
  - intros k a j1 Ha Hj1 Hne. rewrite lookup_insert_ne in Hj1; [by eapply (wf_earlier s W)|].
    intros E. by eapply Hatt.
  - apply (wf_generation s W).
  - apply (wf_node s W).
Qed.

(** All attempts of a queued job are released and of earlier generations. *)
Lemma queued_attempts s i j k a :
  wf s → s_jobs s !! i = Some j → j_state j = Queued → s_attempts s !! k = Some a → t_job_id a = i →
  t_state a = At Released ∧ (generation (t_plan a) <= j_generation j)%Z.
Proof.
  intros W Hj Hq Ha <-. destruct (decide (j_current_attempt j = Some k)) as [E|E].
  - destruct (wf_current s W _ _ _ Hj E) as (a' & Ha' & _ & Hg & Hr).
    rewrite Ha in Ha'. injection Ha' as <-. split; [auto|lia].
  - destruct (wf_earlier s W _ _ _ Ha Hj E). split; [done|lia].
Qed.

(** A queued job takes a new attempt of the next generation. *)
Lemma wf_take s i j j' a :
  wf s → s_jobs s !! i = Some j → j_state j = Queued → same_job j j' → record_ok j' = true →
  s_attempts s !! t_id a = None → attempt_ok a = true → t_job_id a = i → bound_to a j = true →
  t_start_requested a = false → t_state a = Preparing →
  generation (t_plan a) = (j_generation j + 1)%Z →
  j_current_attempt j' = Some (t_id a) → j_generation j' = generation (t_plan a) → j_state j' ≠ Queued →
  present (s_contributors s !! t_node_id a) = true →
  wf (with_jobs (with_attempts s (<[t_id a := a]> (s_attempts s))) (<[i := j']> (s_jobs s))).
Proof.
  intros W Hj Hq S Hok Hnew Haok Hai Hb Hst Hstate Hg Hc' Hg' Hq' Hn. pose proof S as [S1 S2 S3 S4 S5 S6].
  pose proof (queued_attempts s i j) as Hqueued.
  destruct (wf_job s W i j Hj) as (Hi & _ & Hd & Hu & Hp). split; simpl.
  - intros k j0 H. lookups; [|by apply (wf_job s W)]. rewrite S1, S2, S3, S5, S6. auto.
  - intros k k' j0 j1 H H' E1 E2 E3. lookups; try done.
    + apply (wf_key s W _ _ j0 j); congruence.
    + apply (wf_key s W _ _ j j1); congruence.
    + by apply (wf_key s W _ _ j0 j1).
  - intros k a0 H. lookups.
    + split_and!; [done|done|congruence| |].
      * exists j'. rewrite lookup_insert_eq. split; [done|].
        by rewrite (bound_to_same _ _ _ _ (same_attempt_refl a0) S).
      * destruct (s_contributors s !! t_node_id a0) as [c|] eqn:Ec; [|done]. exists c. split; congruence.
    + destruct (wf_attempt s W k a0 ltac:(done)) as (? & ? & ? & (j0 & Hj0 & Hb0) & ?). split_and!; try done.
      destruct (decide (t_job_id a0 = t_job_id a)) as [E|E].
      * exists j'. rewrite E, lookup_insert_eq. split; [done|].
        rewrite E, Hj in Hj0. injection Hj0 as <-.
        by rewrite (bound_to_same _ _ _ _ (same_attempt_refl a0) S).
      * exists j0. by rewrite lookup_insert_ne.
  - intros k j0 c H Hcur. lookups.
    + exists a. rewrite lookup_insert_eq. split_and!; [done|done|congruence|done].
    + destruct (wf_current s W _ _ _ ltac:(eassumption) Hcur) as (a0 & Ha0 & ? & ? & ?).
      exists a0. rewrite lookup_insert_ne by congruence. done.
  - intros k a0 j0 H Hj0 Hne. lookups; try done.
    + match goal with H : s_attempts s !! k = Some a0, E : t_job_id _ = t_job_id a0 |- _ =>
        destruct (Hqueued k a0 W Hj Hq H (eq_sym E)) end. split; [done|lia].
    + by eapply (wf_earlier s W).
  - intros k k' a0 a1 H H' E1 E2. lookups; try done.
    + match goal with H : s_attempts s !! k = Some a0 |- _ =>
        destruct (Hqueued k a0 W Hj Hq H ltac:(done)) end. lia.
    + match goal with H : s_attempts s !! k' = Some a1 |- _ =>
        destruct (Hqueued k' a1 W Hj Hq H ltac:(done)) end. lia.
    + by apply (wf_generation s W _ _ a0 a1).
  - apply (wf_node s W).
Qed.

(** What a successful reservation has checked and done. *)
Record reserved (w : sampling) (p : Plan) (lease : Renewal) (inst : string) (cap : Limits)
    (lid : option string) (v : Z) (s s' : store) (a : Attempt) (j : JobRecord) (held : list Attempt) : Prop := {
  rs_job : s_jobs s !! job_id p = Some j;
  rs_matches : plan_matches j p = true;
  rs_policy : ps_revision (s_policy s) = policy_revision p;
  rs_lease : n_sequence lease = 1%Z ∧ f_le (n_expires_at lease) (time w 0) = false;
  rs_held : holding s (node_id p) = Ok held;
  rs_free : require_free s (gpu_devices (limits (job p))) = Ok tt;
  rs_fits : fits (limits (job p)) cap = true;
  rs_sum : ∀ r, r ∈ all_resources →
    (sumZ (amount_of r) held + amount (limits (job p)) r <= amount cap r)%Z;
  rs_devices : ∀ b, b ∈ held → overlaps (gpu_devices (limits (job p))) (devices_of b) = false;
  rs_fresh : s_attempts s !! attempt_id p = None;
  rs_attempt : a = new_attempt (time w 1) p lease inst lid v;
  rs_ok : attempt_ok a = true;
  rs_stored : ∃ j', same_job j j' ∧ record_ok j' = true ∧ j_current_attempt j' = Some (attempt_id p)
    ∧ j_generation j' = generation p ∧ j_state j' = Preparing
    ∧ s' = audited (time w 3) "workload.admit" j' (attempt_id p) "preparing"
             (with_jobs (with_attempts s (<[attempt_id p := a]> (s_attempts s)))
                (<[job_id p := j']> (s_jobs s))) }.

Lemma policy_state_Ok s p : policy_state s = Ok p → p = s_policy s.
Proof. unfold policy_state, state_value. intros H. by lean_inv. Qed.

Lemma records_reserve_Ok w p lease inst cap lid v s s' a :
  wf s → reserve w p lease inst cap lid v s = Ok (s', a) →
  ∃ j held, reserved w p lease inst cap lid v s s' a j held.
Proof.
  intros W H. unfold reserve in H. rec_inv. unfold insert_attempt in *. rec_inv.
  match goal with H : save_job _ _ _ = Ok _ |- _ => apply save_job_Ok in H as (-> & Hok & ->) end.
  match goal with H : s_jobs s !! job_id p = Some ?j |- _ => rename H into Hj; rename j into j0 end.
  match goal with H : holding _ _ = Ok ?l |- _ => rename H into Hheld; rename l into held end.
  match goal with H : policy_state _ = Ok _ |- _ => apply policy_state_Ok in H as -> end.
  destruct (wf_job s W _ _ Hj) as (Hi & _).
  exists j0, held. split; try done.
  - match goal with H : require_free _ _ = Ok ?u |- _ => by destruct u end.
  - intros r Hr. match goal with H : existsb _ all_resources = false |- _ => rewrite existsb_false in H;
      specialize (H r Hr) end. lia.
  - intros b Hb. match goal with H : existsb _ held = false |- _ => rewrite existsb_false in H; by apply H end.
  - match goal with H : present _ = false |- _ => revert H end. simpl. by destruct (s_attempts s !! attempt_id p).
  - eexists. split_and!; [|exact Hok|done|done|done|].
    + by split.
    + f_equal. simpl. rewrite Hi. by erewrite alter_const.
Qed.

Lemma reserve_wf w p lease inst cap lid v s s' a :
  wf s → present (s_contributors s !! node_id p) = true →
  reserve w p lease inst cap lid v s = Ok (s', a) → wf s'.
Proof.
  intros W Hn H. apply records_reserve_Ok in H as (j & held & R); [|done].
  destruct R as [Hj Hm _ _ _ _ _ _ _ Hnew -> Hok (j' & S & Hok' & Hc & Hg & Hs & ->)].
  unfold plan_matches in Hm. bool_inv. apply wf_audited.
  eapply (wf_take s _ j j' (new_attempt (time w 1) p lease inst lid v)); try done.
  - unfold bound_to. simpl. by rewrite !bool_decide_true.
  - congruence.
Qed.

Lemma remove_wf i rev s s' u : wf s → remove i rev s = Ok (s', u) → wf s'.
Proof.
  intros W H. unfold remove in H. rec_inv.
  match goal with H : s_jobs s !! i = Some ?j |- _ => rename H into Hj; rename j into j0 end.
  assert (Hkeep : ∀ k a, filter (λ x : string * Attempt, of_job i x.2 = false) (s_attempts s) !! k = Some a →
                    s_attempts s !! k = Some a ∧ t_job_id a ≠ i).
  { intros k a Ha. apply map_lookup_filter_Some in Ha as [? Ha]. unfold of_job in Ha. simpl in Ha.
    by bool_inv. }
  split; simpl.
  - intros k j H'. apply lookup_delete_Some in H' as [_ H']. by apply (wf_job s W).
  - intros k k' j j' H' H''. apply lookup_delete_Some in H' as [_ H'].
    apply lookup_delete_Some in H'' as [_ H'']. by apply (wf_key s W).
  - intros k a [Ha Hne]%Hkeep. destruct (wf_attempt s W k a Ha) as (? & ? & ? & (j & ? & ?) & ?).
    split_and!; try done. exists j. by rewrite lookup_delete_ne.
  - intros k j c H' Hcur. apply lookup_delete_Some in H' as [Hne H'].
    destruct (wf_current s W _ _ _ H' Hcur) as (a & Ha & Hai & ?). exists a. split; [|done].
    apply map_lookup_filter_Some. split; [done|]. unfold of_job. simpl. apply bool_decide_false. congruence.
  - intros k a j [Ha _]%Hkeep Hj' Hne. apply lookup_delete_Some in Hj' as [_ Hj']. by eapply (wf_earlier s W).
  - intros k k' a a' [Ha _]%Hkeep [Ha' _]%Hkeep. by apply (wf_generation s W).
  - apply (wf_node s W).
Qed.

Lemma save_node_wf w x s s' o :
  wf s → present (s_contributors s !! ss_node_id x) = true → Nodes.save w x s = Ok (s', o) → wf s'.
Proof.
  intros W Hn H. unfold Nodes.save in H. lean_inv.
  destruct W as [W1 W2 W3 W4 W5 W6 W7]. split; simpl; try done.
  intros k o H'. lookups; [done|by apply W7].
Qed.

Lemma suspended_same j : same_job j (suspended_job j). Proof. done. Qed.

Lemma revision_number_succ z : revision_number z = true → (z < 2 ^ 53 - 1)%Z → revision_number (z + 1) = true.
Proof. unfold revision_number. intros. bool_inv. apply andb_true_intro. split; apply Z.leb_le; lia. Qed.

Lemma suspended_ok j : record_ok j = true → (j_revision j < 2 ^ 53 - 1)%Z → record_ok (suspended_job j) = true.
Proof.
  unfold record_ok, suspended_job, job_stamp, with_cancelled.
  cbn [j_id j_subject_id j_project_id j_actor j_key j_digest j_request j_delegation j_state j_reason
       j_current_attempt j_generation j_created_at j_updated_at j_revision].
  intros H Hr. destruct (revision_number (j_revision j)) eqn:E.
  - by rewrite (revision_number_succ _ E Hr).
  - by rewrite !andb_false_r in H.
Qed.

Lemma suspend_wf s : wf s → lawful DoSuspend s → wf (suspend s).
Proof.
  intros W Hr. assert (Hj : ∀ i j, (suspended_job <$> s_jobs s) !! i = Some j →
    ∃ j0, s_jobs s !! i = Some j0 ∧ j = suspended_job j0).
  { intros i j H. rewrite lookup_fmap in H. by apply fmap_Some in H. }
  split; simpl.
  - intros i j (j0 & H & ->)%Hj. destruct (wf_job s W _ _ H) as (? & ? & ? & ? & ?).
    split_and!; try done. apply suspended_ok; [done|by eapply Hr].
  - intros i i' j j' (j0 & H & ->)%Hj (j1 & H' & ->)%Hj. by apply (wf_key s W _ _ j0 j1).
  - intros i a H. destruct (wf_attempt s W i a H) as (? & ? & ? & (j & Hja & ?) & ?). split_and!; try done.
    exists (suspended_job j). by rewrite lookup_fmap, Hja.
  - intros i j c (j0 & H & ->)%Hj Hc. exact (wf_current s W i j0 c H Hc).
  - intros i a j Ha (j0 & H & ->)%Hj Hne. exact (wf_earlier s W i a j0 Ha H Hne).
  - apply (wf_generation s W).
  - apply (wf_node s W).
Qed.

Lemma other_wf s s' : wf s → other s s' → wf s'.
Proof.
  intros W [O1 O2 O3 O4 O5 O6]. split; rewrite ?O1, ?O2.
  - intros i j H. destruct (wf_job s W i j H) as (? & ? & ? & ? & ?). split_and!; auto.
  - apply (wf_key s W).
  - intros i a H. destruct (wf_attempt s W i a H) as (? & ? & ? & ? & (c & Hc & Hab)).
    split_and!; try done. destruct (O6 i a c H Hc) as (c' & ? & ?). eauto.
  - apply (wf_current s W).
  - apply (wf_earlier s W).
  - apply (wf_generation s W).
  - intros i o [H ?]%O3. destruct (wf_node s W i o H) as (? & ? & ? & ? & _). auto.
Qed.

(** Rows present before and after. *)
Definition kept {A} (R : A → A → Prop) (m m' : gmap string A) : Prop :=
  ∀ i x y, m !! i = Some x → m' !! i = Some y → R x y.

Lemma kept_refl {A} (R : A → A → Prop) `{!Reflexive R} m : kept R m m.
Proof. intros i x y H1 H2. assert (x = y) as -> by congruence. reflexivity. Qed.

Lemma rows_evolve_kept {A} (R : A → A → Prop) m m' : rows_evolve R m m' → kept R m m'.
Proof. intros H i x y Hx Hy. specialize (H i). by rewrite Hx, Hy in H. Qed.

Record steps_ok (s s' : store) : Prop := {
  so_wf : wf s';
  so_attempts : kept attempt_evolves (s_attempts s) (s_attempts s');
  so_jobs : kept job_evolves (s_jobs s) (s_jobs s') }.

Lemma puts_ok s s' : wf s → puts s s' → steps_ok s s'.
Proof. intros W [P1 P2 P3]. split; [auto|by apply rows_evolve_kept..]. Qed.

Ltac finish_op :=
  match goal with H : fst <$> ?m = Ok _ |- _ =>
    let E := fresh "E" in destruct m as [[? ?]|] eqn:E; [|discriminate H];
    injection H as <-; cbn [fst]
  end.

Lemma submit_jobs w r key d s s' j : submit w r key d s = Ok (s', j) →
  s_attempts s' = s_attempts s ∧ kept job_evolves (s_jobs s) (s_jobs s').
Proof.
  intros H. unfold submit in H. destruct (keyed s d key); lean_inv.
  - split; [done|by apply kept_refl, _].
  - unfold insert_job in *. lean_inv. split; [done|]. intros i x y Hx Hy. simpl in *.
    destruct (decide (token w 0 = i)) as [<-|]; [by rewrite Hx in *|].
    rewrite lookup_insert_ne in Hy by done. assert (x = y) as -> by congruence. reflexivity.
Qed.

Lemma reserve_rows w p lease inst cap lid v s s' a : wf s → reserve w p lease inst cap lid v s = Ok (s', a) →
  kept attempt_evolves (s_attempts s) (s_attempts s') ∧ kept job_evolves (s_jobs s) (s_jobs s').
Proof.
  intros W H. unfold reserve in H. rec_inv. unfold insert_attempt in *. rec_inv.
  match goal with H : save_job _ _ _ = Ok _ |- _ => apply save_job_Ok in H as (-> & Hok & ->) end.
  match goal with H : s_jobs s !! job_id p = Some ?j |- _ => rename H into Hj; rename j into j0 end.
  destruct (wf_job s W _ _ Hj) as (Hi & _). split; simpl.
  - intros i x y Hx Hy. lookups; [|reflexivity].
    match goal with H : present _ = false |- _ => cbn [t_id new_attempt] in H; by rewrite Hx in H end.
  - rewrite Hi. erewrite alter_const by exact Hj. intros i x y Hx Hy. lookups; [|reflexivity].
    match goal with H : plan_matches _ _ = true |- _ => unfold plan_matches in H end. bool_inv.
    split; [by split|simpl; lia|right; simpl; lia].
Qed.

Lemma run_op_ok op s s' : wf s → lawful op s → run_op op s = Ok s' → steps_ok s s'.
Proof.
  intros W L H.
  destruct op; simpl in H; try finish_op;
    try (apply puts_ok; [done|]; by eauto using observation_puts, transition_puts, renew_puts, cancel_puts,
           retry_puts, pending_puts, abandon_puts).
  - destruct (submit_jobs _ _ _ _ _ _ _ E) as [Ea ?].
    split; [by eapply submit_wf|rewrite Ea; by apply kept_refl, _|done].
  - destruct (reserve_rows _ _ _ _ _ _ _ _ _ _ W E). split; [by eapply reserve_wf|done..].
  - split; [by eapply remove_wf|..]; unfold remove in E; rec_inv; intros k a1 a2 Hx Hy; simpl in Hy.
    + apply map_lookup_filter_Some in Hy as [Hy _]. assert (a1 = a2) as -> by congruence. reflexivity.
    + apply lookup_delete_Some in Hy as [_ Hy]. assert (a1 = a2) as -> by congruence. reflexivity.
  - split; [by eapply save_node_wf|..]; unfold Nodes.save in E; lean_inv; by apply kept_refl, _.
  - injection H as <-. split; [by apply suspend_wf|by apply kept_refl, _|].
    intros k x y Hx Hy. simpl in Hy. rewrite lookup_fmap, Hx in Hy. injection Hy as <-.
    split; [done|simpl; lia|right; simpl; lia].
Qed.

Lemma step_ok s s' : wf s → step s s' → steps_ok s s'.
Proof.
  intros W [op L H|H]; [by eapply run_op_ok|].
  split; [by eapply other_wf|..]; [rewrite (other_attempts _ _ H)|rewrite (other_jobs _ _ H)]; by apply kept_refl, _.
Qed.

(** ** Reachable databases *)

Definition reachable : store → Prop := rtc step empty_store.

Lemma records_steps_wf s s' : rtc step s s' → wf s → wf s'.
Proof. induction 1 as [|x y z Hxy _ IH]; [done|]. intros W. apply IH. by apply (step_ok x y). Qed.

Lemma records_reachable_wf s : reachable s → wf s.
Proof. intros H. eapply records_steps_wf; [exact H|apply records_wf_empty]. Qed.

Lemma load_attempts s node : wf s →
  attempts s node = Ok (List.filter (fun a => selects node (t_node_id a)) (row_values (s_attempts s))).
Proof.
  intros W. apply mapM_Ok_id. intros a [_ [i Ha]%elem_of_row_values]%elem_of_List_filter.
  apply load_attempt_Ok. split; [done|]. by apply (wf_attempt s W i).
Qed.

Lemma load_jobs s project : wf s →
  jobs s project = Ok (List.filter (fun j => selects project (j_project_id j)) (row_values (s_jobs s))).
Proof.
  intros W. apply mapM_Ok_id. intros j [_ [i Hj]%elem_of_row_values]%elem_of_List_filter.
  apply load_job_Ok. split; [done|]. by apply (wf_job s W i).
Qed.

Lemma generations_NoDup s i : wf s → NoDup (generations_of s i).
Proof.
  intros W. unfold generations_of.
  assert (Hsub : ∀ l, NoDup l.*1 → (∀ k a, (k, a) ∈ l → s_attempts s !! k = Some a) →
            NoDup (map (fun a => generation (t_plan a)) (List.filter (of_job i) l.*2))).
  { induction l as [|[k a] l IH]; simpl; intros Hnd Hl; [constructor|].
    apply NoDup_cons in Hnd as [Hk Hnd]. specialize (IH Hnd (fun k' a' H' => Hl k' a' (list_elem_of_further _ _ _ H'))).
    destruct (of_job i a) eqn:Ha; [|done]. simpl. constructor; [|done].
    intros (b & Hg & [Hb Hin]%elem_of_List_filter)%list_elem_of_fmap.
    apply list_elem_of_fmap in Hin as ([k' b'] & -> & Hin). simpl in *.
    unfold of_job in Ha, Hb. bool_inv. apply Hk. apply list_elem_of_fmap.
    exists (k', b'). split; [|done]. simpl.
    apply (wf_generation s W k k' a b'); [by apply Hl; left|by apply Hl; right|congruence|done]. }
  apply Hsub; [apply rows_keys_NoDup|]. intros k a. apply elem_of_rows.
Qed.

Lemma validate_wf s : wf s → validate_records false s = Ok tt.
Proof.
  intros W. unfold validate_records.
  assert (forM_ (validate_job false s) (rows (s_jobs s)) = Ok tt) as ->.
  { apply forM_Ok. intros [i j] Hj%elem_of_rows. destruct (wf_job s W i j Hj) as (Hi & Hok & Hd & Hu & Hp).
    unfold validate_job, load_job. rewrite Hok. cbn. by rewrite Hu, Hp, !bool_decide_true. }
  assert (forM_ (validate_attempt false s) (rows (s_attempts s)) = Ok tt) as ->.
  { apply forM_Ok. intros [i a] Ha%elem_of_rows.
    destruct (wf_attempt s W i a Ha) as (Hi & Hok & _ & (j & Hj & Hb) & (c & Hc & Hab)).
    unfold validate_attempt, load_attempt. rewrite Hok. cbn [negb raise_if mbind res_bind].
    rewrite (bool_decide_true (i = t_id a)), Hj, Hc, Hb by done. cbn.
    case_bool_decide; [|done]. by rewrite Hab. }
  assert (forM_ (validate_generations false s) (row_values (s_jobs s)) = Ok tt) as ->.
  { apply forM_Ok. intros j [i Hj]%elem_of_row_values. destruct (wf_job s W i j Hj) as (Hi & _).
    unfold validate_generations. cbn [andb raise_if mbind res_bind].
    assert (Hg : negb (distinct (generations_of s (j_id j))) = false).
    { apply negb_false_iff, bool_decide_true. by apply generations_NoDup. }
    rewrite Hg. assert (He : existsb (λ g : Z, (j_generation j <? g)%Z) (generations_of s (j_id j)) = false).
    { apply existsb_false. intros g (a & -> & [Ha [k Hk]%elem_of_row_values]%elem_of_List_filter)%list_elem_of_fmap.
      unfold of_job in Ha. bool_inv. apply Z.ltb_ge. rewrite <- Hi in Hj. rewrite <- Ha in Hj.
      destruct (decide (j_current_attempt j = Some k)) as [E|E].
      - destruct (wf_current s W _ _ _ Hj E) as (a' & Ha' & _ & Hgen & _).
        assert (a' = a) as -> by congruence. lia.
      - destruct (wf_earlier s W _ _ _ Hk Hj E). lia. }
    rewrite He. destruct (j_current_attempt j) as [c|] eqn:Ec; [|done].
    destruct (wf_current s W _ _ _ Hj Ec) as (a & -> & Hai & Hgen & _). simpl.
    rewrite Hgen, Z.eqb_refl, bool_decide_true by congruence. done. }
  cbn. apply forM_Ok. intros [i o] Ho%elem_of_rows. destruct (wf_node s W i o Ho) as (Hok & Hi & Ha & Hn & Hc).
  unfold Nodes.load. rewrite Hok. cbn. rewrite Hc, Ha, Hn, !bool_decide_true by done. done.
Qed.

Lemma submission_dump_inj r r' : canon (submission_dump r) = canon (submission_dump r') → r = r'.
Proof.
  unfold submission_dump. intros H.
  assert (Hk : ∀ k l l', canon (JObj l) = canon (JObj l') → bool_decide (k ∈ l.*1) = bool_decide (k ∈ l'.*1)).
  { intros k l l' E%canon_obj_keys. apply bool_decide_ext. by rewrite E. }
  pose proof (Hk "dataset" _ _ H) as H1. pose proof (Hk "model_revision" _ _ H) as H2. clear Hk.
  destruct r as [a b [[c d]|] [e|]], r' as [a' b' [[c' d']|] [e'|]];
    try (vm_compute in H1; discriminate H1); try (vm_compute in H2; discriminate H2); clear H1 H2;
    cbn [sub_job sub_node_ids sub_dataset sub_model_revision app] in H; fields H;
    repeat match goal with
    | E : canon (JObj _) = canon (JObj _) |- _ => fields E
    | E : canon (job_dump _) = canon (job_dump _) |- _ => apply job_dump_inj in E
    | E : canon (strings_json _) = canon (strings_json _) |- _ => apply strings_json_inj in E
    end; simpl in *; by subst.
Qed.

Lemma submission_digest_inj r r' :
  digest (submission_dump r) = digest (submission_dump r') →
  r = r' ∨ sha256_collision (encoded (submission_dump r)) (encoded (submission_dump r')).
Proof. intros [H|H]%digest_binding; [left; by apply submission_dump_inj|by right]. Qed.

(** A path along which a row is never removed. *)
Definition keeping_attempt (i : string) (s s' : store) : Prop :=
  step s s' ∧ present (s_attempts s' !! i) = true.
Definition keeping_job (i : string) (s s' : store) : Prop :=
  step s s' ∧ present (s_jobs s' !! i) = true.

Lemma keeping_attempt_evolves i s s' a :
  wf s → rtc (keeping_attempt i) s s' → s_attempts s !! i = Some a →
  wf s' ∧ ∃ a', s_attempts s' !! i = Some a' ∧ attempt_evolves a a'.
Proof.
  intros W H. revert a W. induction H as [s|s s1 s' [Hs Hp] _ IH]; intros a W Ha; [by split; [|exists a]|].
  destruct (step_ok _ _ W Hs) as [W1 K _].
  destruct (s_attempts s1 !! i) as [a1|] eqn:Ha1; [|done].
  destruct (IH a1 W1 eq_refl) as (W' & a' & Ha' & E). split; [done|]. exists a'. split; [done|].
  etrans; [by eapply K|done].
Qed.

Lemma keeping_job_evolves i s s' j :
  wf s → rtc (keeping_job i) s s' → s_jobs s !! i = Some j →
  wf s' ∧ ∃ j', s_jobs s' !! i = Some j' ∧ job_evolves j j'.
Proof.
  intros W H. revert j W. induction H as [s|s s1 s' [Hs Hp] _ IH]; intros j W Hj; [by split; [|exists j]|].
  destruct (step_ok _ _ W Hs) as [W1 _ K].
  destruct (s_jobs s1 !! i) as [j1|] eqn:Hj1; [|done].
  destruct (IH j1 W1 eq_refl) as (W' & j' & Hj' & E). split; [done|]. exists j'. split; [done|].
  etrans; [by eapply K|done].
Qed.

(** C21: every database the controller's operations can reach passes the
    validation a backup or restore performs on active databases; every stored
    row revalidates when it is read; and of the attempts of one job at most one
    holds capacity. *)
Theorem records_invariant s (H : reachable s) :
  validate_records false s = Ok tt
  ∧ (∀ i j, s_jobs s !! i = Some j → get s i = Ok j)
  ∧ (∀ i a, s_attempts s !! i = Some a → attempt s i = Ok a)
  ∧ (∀ i i' a a', s_attempts s !! i = Some a → s_attempts s !! i' = Some a' →
       t_job_id a = t_job_id a' → t_state a ≠ At Released → t_state a' ≠ At Released → i = i').
Proof.
  apply records_reachable_wf in H as W. split_and!.
  - by apply validate_wf.
  - intros i j. by apply get_wf.
  - intros i a. by apply attempt_wf.
  - intros i i' a a' Ha Ha' E Hs Hs'. destruct (wf_attempt s W i a Ha) as (_ & _ & _ & (j & Hj & _) & _).
    destruct (decide (j_current_attempt j = Some i)) as [Ei|Ei]; [|by destruct (wf_earlier s W _ _ _ Ha Hj Ei)].
    destruct (decide (j_current_attempt j = Some i')) as [Ei'|Ei']; [congruence|].
    rewrite E in Hj. by destruct (wf_earlier s W _ _ _ Ha' Hj Ei').
Qed.

(** C23: while an attempt is retained, no operation of any component rebinds it
    to another plan, node or ledger, changes its recorded outcome (except to
    confirm cleanup), forgets that its start was requested, reopens it once
    released or abandoned, or steps its lease sequence back. *)
Theorem attempt_history i s s' a
    (H : reachable s) (Hp : rtc (keeping_attempt i) s s') (Ha : s_attempts s !! i = Some a) :
  ∃ a', s_attempts s' !! i = Some a' ∧ attempt_evolves a a'.
Proof. apply records_reachable_wf in H as W. by destruct (keeping_attempt_evolves i s s' a W Hp Ha) as [_ ?]. Qed.

(** The transition to [starting] records the intent. *)
Lemma transition_started w i reason s s' a :
  wf s → transition w i (At Prepared) (At Starting) reason s = Ok (s', a) →
  ∃ a', s_attempts s' !! i = Some a' ∧ t_start_requested a' = true.
Proof.
  intros W H. unfold transition in H. rec_inv.
  repeat match goal with
  | H : save_job _ _ _ = Ok _ |- _ => apply save_job_Ok in H as (-> & ? & ->)
  | H : save_attempt _ _ _ = Ok _ |- _ => apply save_attempt_Ok in H as (-> & ? & ->)
  end.
  match goal with H : s_attempts s !! i = Some _ |- _ => rename H into Ha end.
  destruct (wf_attempt s W i _ Ha) as (Hi & _). eexists. split.
  - change (s_attempts (audited ?t ?a ?j ?g ?o ?s)) with (s_attempts s). simpl. rewrite Hi.
    erewrite alter_const by exact Ha. by rewrite lookup_insert_eq.
  - done.
Qed.

(** C24: the controller records the intent to start an attempt at most once: after
    one successful transition to [starting], and whatever happens while the
    attempt is retained, every further such transition is refused. *)
Theorem start_dispatched_once w i reason s s1 a s2 w' reason'
    (H : reachable s)
    (Hfirst : transition w i (At Prepared) (At Starting) reason s = Ok (s1, a))
    (Hp : rtc (keeping_attempt i) s1 s2) :
  is_ok (transition w' i (At Prepared) (At Starting) reason' s2) = false.
Proof.
  apply records_reachable_wf in H as W. pose proof (transition_started _ _ _ _ _ _ W Hfirst) as (a1 & Ha1 & Hst).
  assert (W1 : wf s1) by (eapply puts_wf; [by eapply transition_puts|done]).
  destruct (keeping_attempt_evolves i s1 s2 a1 W1 Hp Ha1) as (W2 & a2 & Ha2 & E).
  destruct (wf_attempt s2 W2 i a2 Ha2) as (_ & _ & Hne & _).
  destruct Hne as [Hne _]; [by apply (ae_start _ _ E)|].
  destruct (transition w' i (At Prepared) (At Starting) reason' s2) as [[s3 a3]|] eqn:H3; [|done].
  exfalso. unfold transition in H3. rec_inv. congruence.
Qed.

(** Attempts on a node whose capacity is not given back. *)
Definition unreleased (node : string) (s : store) : list Attempt :=
  List.filter (fun a => bool_decide (t_node_id a = node) && negb (bool_decide (t_state a = At Released)))
    (row_values (s_attempts s)).

Lemma holding_unreleased s node l :
  wf s → node ≠ "" → holding s node = Ok l → l = unreleased node s.
Proof.
  intros W Hne. unfold holding. rewrite load_attempts by done. cbn. intros [= <-].
  unfold unreleased. rewrite filter_filter. apply filter_ext. intros a. f_equal. simpl.
  rewrite (bool_decide_false (node = "")) by done. simpl. apply bool_decide_ext. done.
Qed.

Lemma identity_nonempty i : identity i = true → i ≠ "".
Proof. by intros H ->. Qed.

(** C22: a successful reservation keeps the attempts on the contributor within
    the capacity it was made for: for each counted resource the unreleased
    attempts sum to at most the offered amount, the new attempt fits by itself,
    and its devices are held by no unreleased attempt of the contributor and by
    no attempt anywhere whose cleanup is unconfirmed. *)
Theorem reserve_within_capacity w p lease inst cap lid v s s' a
    (H : reachable s) (Hr : reserve w p lease inst cap lid v s = Ok (s', a)) :
  fits (limits (job p)) cap = true
  ∧ (∀ r, r ∈ all_resources → (sumZ (amount_of r) (unreleased (node_id p) s') <= amount cap r)%Z)
  ∧ (∀ b d, b ∈ unreleased (node_id p) s' → b ≠ a → d ∈ devices_of a → d ∉ devices_of b)
  ∧ (∀ b d, b ∈ row_values (s_attempts s') → b ≠ a → t_state b ≠ At Released →
       confirmed (t_observed b) = false → d ∈ devices_of a → d ∉ devices_of b).
Proof.
  apply records_reachable_wf in H as W. destruct (records_reserve_Ok _ _ _ _ _ _ _ _ _ _ W Hr) as (j & held & R).
  destruct R as [_ _ _ _ Hheld Hfree Hfits Hsum Hdev Hnew Ha Hok (j' & _ & _ & _ & _ & _ & ->)].
  assert (Hne : node_id p ≠ "").
  { apply identity_nonempty. clear -Hok Ha. subst a. unfold attempt_ok in Hok. simpl in Hok. bool_inv. done. }
  apply (holding_unreleased _ _ _ W Hne) in Hheld as ->.
  assert (Hrows : row_values (<[attempt_id p := a]> (s_attempts s)) ≡ₚ a :: row_values (s_attempts s))
    by by apply row_values_insert.
  assert (Hun : unreleased (node_id p) (with_attempts s (<[attempt_id p := a]> (s_attempts s)))
                ≡ₚ a :: unreleased (node_id p) s).
  { unfold unreleased. simpl. rewrite (filter_Permutation_bool _ _ _ Hrows). simpl. subst a. simpl.
    by rewrite bool_decide_true. }
  change (unreleased (node_id p) (audited ?t ?c ?j ?g ?o (with_jobs ?s ?m))) with (unreleased (node_id p) s).
  change (s_attempts (audited ?t ?c ?j ?g ?o (with_jobs ?s ?m))) with (s_attempts s).
  split_and!; [done|..].
  - intros r Hin. rewrite (sumZ_Permutation _ _ _ Hun). simpl. specialize (Hsum r Hin). subst a. unfold amount_of in *. simpl. lia.
  - intros b d Hb Hba Hd Hd'. rewrite Hun in Hb. apply elem_of_cons in Hb as [?|Hb]; [done|].
    apply Hdev in Hb. unfold overlaps in Hb. rewrite existsb_false in Hb. subst a.
    specialize (Hb d Hd). by bool_inv.
  - intros b d Hb Hba Hs Hc Hd Hd'. simpl in Hb. rewrite Hrows in Hb.
    apply elem_of_cons in Hb as [?|Hb]; [done|]. subst a. unfold require_free in Hfree.
    change (devices_of _) with (gpu_devices (limits (job p))) in Hd.
    destruct (gpu_devices (limits (job p))) as [|d0 ds] eqn:Eds; [by apply elem_of_nil in Hd|].
    rewrite load_attempts in Hfree by done. lean_inv.
    match goal with H : existsb _ (List.filter _ _) = false |- _ => rename H into Hex end.
    rewrite existsb_false in Hex. specialize (Hex b).
    assert (Hf : overlaps (d0 :: ds) (devices_of b) = true).
    { unfold overlaps. apply existsb_true. exists d. split; [done|]. by apply bool_decide_true. }
    rewrite Hf, Hc, bool_decide_false in Hex by done. discriminate Hex. by apply elem_of_List_filter.
Qed.

Lemma keyed_row s i j d :
  wf s → s_jobs s !! i = Some j → j_subject_id j = dg_subject_id d → j_project_id j = dg_project_id d →
  keyed s d (j_key j) = Some j.
Proof.
  intros W Hj E1 E2. unfold keyed. destruct (List.find _ _) as [j'|] eqn:E.
  - apply find_Some in E as [[k Hk]%elem_of_row_values E]. bool_inv. f_equal.
    assert (k = i) as -> by (apply (wf_key s W _ _ _ _ Hk Hj); congruence). congruence.
  - eapply find_None in E; [|apply elem_of_row_values; exists i; exact Hj].
    by rewrite E1, E2, !bool_decide_true in E.
Qed.

(** Where a successful submission leaves its row. *)
Lemma submit_row w r key d s s' j :
  wf s → submit w r key d s = Ok (s', j) →
  s_jobs s' !! j_id j = Some j ∧ j_subject_id j = dg_subject_id d ∧ j_project_id j = dg_project_id d
  ∧ j_key j = key ∧ j_digest j = digest (submission_dump r).
Proof.
  intros W H. unfold submit in H. destruct (keyed s d key) as [j0|] eqn:Hk.
  - lean_inv. match goal with H : load_job _ = Ok _ |- _ => apply load_job_Ok in H as [-> _] end.
    apply find_Some in Hk as [[k Hk]%elem_of_row_values E]. bool_inv.
    destruct (wf_job s' W k _ Hk) as (-> & _). done.
  - lean_inv. unfold insert_job in *. lean_inv. split_and!; [|done..].
    cbn [s_jobs with_jobs]. by rewrite lookup_insert_eq.
Qed.

(** C25: submission is idempotent under its key.  Once a submission has returned a
    job, and whatever happens while that job is retained, submitting the same
    request again under the key returns the same job and changes nothing; a
    submission under the key that succeeds is the same request, unless the two
    requests are a SHA-256 collision. *)
Theorem submit_idempotent w r key d s s1 j s2 w' r' d'
    (H : reachable s) (Hl : lawful (DoSubmit w r key d) s) (Hs : submit w r key d s = Ok (s1, j))
    (Hp : rtc (keeping_job (j_id j)) s1 s2)
    (Hd : dg_subject_id d' = dg_subject_id d ∧ dg_project_id d' = dg_project_id d) :
  (∃ j2, submit w' r key d' s2 = Ok (s2, j2) ∧ same_job j j2)
  ∧ (∀ s3 j3, submit w' r' key d' s2 = Ok (s3, j3) → s3 = s2 ∧ same_job j j3
       ∧ (r' = r ∨ sha256_collision (encoded (submission_dump r')) (encoded (submission_dump r)))).
Proof.
  apply records_reachable_wf in H as W. destruct (submit_row _ _ _ _ _ _ _ W Hs) as (Hj & E1 & E2 & E3 & E4).
  assert (W1 : wf s1) by by eapply submit_wf.
  destruct (keeping_job_evolves _ _ _ _ W1 Hp Hj) as (W2 & j2 & Hj2 & [S _ _]).
  pose proof S as [S1 S2 S3 S4 S5 S6]. destruct Hd as [Hd1 Hd2].
  assert (Hk : keyed s2 d' key = Some j2).
  { rewrite <- E3, <- S4. apply (keyed_row s2 (j_id j)); congruence. }
  assert (Hload : load_job j2 = Ok j2).
  { apply load_job_Ok. split; [done|]. by apply (wf_job s2 W2 _ _ Hj2). }
  unfold submit. rewrite Hk, Hload. cbn [mbind res_bind]. split.
  - exists j2. by rewrite S5, E4, bool_decide_true.
  - intros s3 j3 H3. lean_inv. split_and!; [done|done|]. apply submission_digest_inj. congruence.
Qed.
