(* ===== verification/WorkloadSamples.v ===== *)
(** * Concrete inputs of the controller

    A project, its owner and two contributors, with the submissions, plans,
    results and snapshots the witnesses of the controller's theorems use. *)

From Stdlib Require Import SpecFloat.
From S2P Require Import Prelude Float64 Json Clock Spec Offer Ledger LedgerStep Samples.
From S2P Require Import Wire WorkloadSchema Database Records NodeRecords RecordsProps.

Definition at_time (z : Z) : float := f_of_Z (1700000000 + z).

(** Every clock reading of one operation is [z] seconds after the epoch of the
    samples; every random identity is made of [c]. *)
Definition sample_world (z : Z) (c : ascii) : sampling :=
  mkSampling (fun _ => at_time z) (fun _ => id_of c).

Definition sample_submission (gpus : list string) : Submission :=
  mkSubmission (sample_job gpus) [id_of "2"] None None.

Definition sample_delegation : Delegation :=
  mkDelegation (id_of "7") (id_of "4") (id_of "3") (id_of "8")
    ["contributors:read"; "jobs:execute"] 0 0 1 0 0 None 0.

Definition sample_contributor : Contributor :=
  mkContributor (id_of "3") "Node" Voluntary false 1 (at_time 0).

(** A project with a user and a contributor. *)
Definition base_store : store :=
  with_contributors
    (with_projects (with_users empty_store (<[id_of "4" := mkSpace "User" false 0]> (s_users empty_store)))
       (<[id_of "3" := mkSpace "Project" false 0]> (s_projects empty_store)))
    {[id_of "2" := sample_contributor]}.

Definition sample_key : string := "submission-key-0001".

(** The job submitted as [id_of "5"] is what [plan_a] plans. *)
Definition submit_a : wop := DoSubmit (sample_world 0 "5") (sample_submission ["GPU-0"]) sample_key sample_delegation.
Definition reserve_a : wop :=
  DoReserve (sample_world 1 "0") plan_a (sample_lease plan_a 1 30) (id_of "9") (sample_limits 2 ["GPU-0"; "GPU-1"])
    (Some (id_of "e")) 1.
Definition observe_a (z : Z) (st : astate) (cleanup : bool) : wop :=
  DoObservation (sample_world z "0") (sample_result plan_a st cleanup) (id_of "2") (id_of "9").

(** The decidable part of [lawful]. *)
Definition lawfulb (op : wop) (s : store) : bool :=
  match op with
  | DoSubmit _ _ _ d => present (s_users s !! dg_subject_id d) && present (s_projects s !! dg_project_id d)
  | DoReserve _ p _ _ _ _ _ => present (s_contributors s !! node_id p)
  | DoSaveNode _ x => present (s_contributors s !! ss_node_id x)
  | DoSuspend => false
  | _ => true
  end.

Lemma lawfulb_lawful op s : lawfulb op s = true → lawful op s.
Proof. by destruct op; simpl; intros ?; bool_inv. Qed.

Lemma base_reachable : reachable base_store.
Proof.
  apply rtc_once, step_other. split; simpl; try done.
  - intros i Hi. destruct (decide (i = id_of "4")) as [->|]; [by rewrite lookup_insert_eq|by rewrite lookup_insert_ne].
  - intros i Hi. destruct (decide (i = id_of "3")) as [->|]; [by rewrite lookup_insert_eq|by rewrite lookup_insert_ne].
Qed.

(** ** A whole life

    A workload is submitted, placed on the contributor, prepared, started, runs,
    has its lease renewed, succeeds, and is released.  Each database is evaluated
    from the one before it. *)

Definition or_base (r : res store) : store := match r with Ok s => s | Err _ => base_store end.

Definition starts_a : wop := DoTransition (sample_world 3 "0") (id_of "a") (At Prepared) (At Starting) None.

Definition submitted : store := Eval vm_compute in or_base (run_op submit_a base_store).
Definition holding_a : store := Eval vm_compute in or_base (run_op reserve_a submitted).
Definition prepared : store := Eval vm_compute in or_base (run_op (observe_a 2 Prepared false) holding_a).
Definition dispatched : store := Eval vm_compute in or_base (run_op starts_a prepared).
Definition running : store := Eval vm_compute in or_base (run_op (observe_a 4 Running false) dispatched).
Definition renewed : store :=
  Eval vm_compute in or_base (run_op (DoRenew (sample_world 5 "0") (id_of "a") (at_time 32)) running).
Definition succeeded : store := Eval vm_compute in or_base (run_op (observe_a 6 Succeeded true) renewed).
Definition finished : store := Eval vm_compute in or_base (run_op (observe_a 7 Released true) succeeded).

(** The operations with the databases they lead to. *)
Definition life : list (wop * store) :=
  [(submit_a, submitted); (reserve_a, holding_a); (observe_a 2 Prepared false, prepared);
   (starts_a, dispatched); (observe_a 4 Running false, running);
   (DoRenew (sample_world 5 "0") (id_of "a") (at_time 32), renewed);
   (observe_a 6 Succeeded true, succeeded); (observe_a 7 Released true, finished)].

Fixpoint follows (s : store) (l : list (wop * store)) : Prop :=
  match l with
  | [] => True
  | (op, s') :: l => lawfulb op s = true ∧ run_op op s = Ok s' ∧ follows s' l
  end.

Definition last_of (s : store) (l : list (wop * store)) : store :=
  match last l with Some x => x.2 | None => s end.

Lemma life_follows : follows base_store life.
Proof. cbn [follows life]. split_and!; first [exact I|vm_compute; reflexivity]. Qed.

Lemma last_of_cons s x l : last_of s (x :: l) = last_of x.2 l.
Proof. unfold last_of. rewrite last_cons. by destruct (last l). Qed.

Lemma follows_app s l k : follows s (l ++ k) ↔ follows s l ∧ follows (last_of s l) k.
Proof.
  revert s. induction l as [|[op s'] l IH]; intros s; [unfold last_of; simpl; tauto|].
  rewrite last_of_cons. simpl. rewrite IH. tauto.
Qed.

(** The databases along a trace, all of which keep something. *)
Lemma follows_steps (keep : store → bool) s l :
  follows s l → forallb (fun x => keep x.2) l = true →
  rtc (fun s s' => step s s' ∧ keep s' = true) s (last_of s l).
Proof.
  revert s. induction l as [|[op s'] l IH]; intros s Hf Hk; [done|].
  simpl in Hf, Hk. destruct Hf as (Hl & Hop & Hf). apply andb_true_iff in Hk as [Hk1 Hk2].
  rewrite last_of_cons. eapply rtc_l; [|by apply IH]. split; [|done].
  eapply step_op; [by apply lawfulb_lawful|exact Hop].
Qed.

Lemma follows_reachable n : reachable (last_of base_store (take n life)).
Proof.
  unfold reachable. etrans; [apply base_reachable|].
  assert (Hf : follows base_store (take n life)).
  { pose proof life_follows as H. rewrite <- (take_drop n life) in H. by apply follows_app in H as [H _]. }
  eapply rtc_subrel; [|apply (follows_steps (fun _ => true) base_store _ Hf), forallb_true; done].
  by intros x y [? _].
Qed.

Lemma follows_rest n : follows (last_of base_store (take n life)) (drop n life).
Proof. pose proof life_follows as H. rewrite <- (take_drop n life) in H. by apply follows_app in H as [_ H]. Qed.

Lemma submit_id w r key d s s' j :
  Records.submit w r key d s = Ok (s', j) → Records.keyed s d key = None → j_id j = token w 0.
Proof. unfold Records.submit. intros H Hk. rewrite Hk in H. by lean_inv. Qed.

Definition has_attempt (i : string) (s : store) : bool := present (s_attempts s !! i).
Definition has_job (i : string) (s : store) : bool := present (s_jobs s !! i).

Lemma submitted_reachable : reachable submitted. Proof. exact (follows_reachable 1). Qed.
Lemma prepared_reachable : reachable prepared. Proof. exact (follows_reachable 3). Qed.
Lemma dispatched_reachable : reachable dispatched. Proof. exact (follows_reachable 4). Qed.
Lemma finished_reachable : reachable finished. Proof. exact (follows_reachable 8). Qed.

Lemma dispatched_finished : rtc (keeping_attempt (id_of "a")) dispatched finished.
Proof. exact (follows_steps (has_attempt (id_of "a")) _ _ (follows_rest 4) eq_refl). Qed.

Lemma submitted_finished : rtc (keeping_job (id_of "5")) submitted finished.
Proof. exact (follows_steps (has_job (id_of "5")) _ _ (follows_rest 1) eq_refl). Qed.

Lemma submit_run : run_op submit_a base_store = Ok submitted.
Proof. apply life_follows. Qed.
Lemma reserve_run : run_op reserve_a submitted = Ok holding_a.
Proof. apply (follows_rest 1). Qed.
Lemma starts_run : run_op starts_a prepared = Ok dispatched.
Proof. apply (follows_rest 3). Qed.

Definition devices_of_store (s : store) : list string := row_values (s_attempts s) ≫= Records.devices_of.

Definition states_of (s : store) : list (state * Z) :=
  map (fun a => (t_state a, n_sequence (t_lease a))) (row_values (s_attempts s)).

Example life_states :
  map states_of [holding_a; running; finished]
  = [[(Preparing, 1%Z)]; [(At Running, 1%Z)]; [(At Released, 2%Z)]].
Proof. vm_compute. reflexivity. Qed.

(** ** The theorems at these inputs *)

Lemma records_invariant_witness :
  ∃ s, reachable s ∧ states_of s = [(At Released, 2%Z)] ∧ validate_records false s = Ok tt.
Proof.
  exists finished. split; [apply finished_reachable|]. split; [vm_compute; reflexivity|].
  apply (records_invariant finished finished_reachable).
Defined.

(** A lookup that is known to succeed. *)
Lemma lookup_present {A} (m : gmap string A) i : present (m !! i) = true → ∃ a, m !! i = Some a.
Proof. destruct (m !! i) as [a|]; [by exists a|done]. Qed.

Lemma attempt_history_witness :
  ∃ s s' a a', reachable s ∧ rtc (keeping_attempt (id_of "a")) s s'
    ∧ s_attempts s !! id_of "a" = Some a ∧ s_attempts s' !! id_of "a" = Some a'
    ∧ states_of s = [(At Starting, 1%Z)] ∧ states_of s' = [(At Released, 2%Z)] ∧ attempt_evolves a a'.
Proof.
  destruct (lookup_present (s_attempts dispatched) (id_of "a")) as [a Ha]; [vm_compute; reflexivity|].
  destruct (attempt_history (id_of "a") dispatched finished a dispatched_reachable dispatched_finished Ha)
    as (a' & Ha' & E).
  exists dispatched, finished, a, a'.
  split; [apply dispatched_reachable|]. split; [apply dispatched_finished|].
  split; [exact Ha|]. split; [exact Ha'|].
  split; [vm_compute; reflexivity|]. split; [vm_compute; reflexivity|exact E].
Defined.

Lemma fst_Ok {A} (r : res (store * A)) s : fst <$> r = Ok s → ∃ a, r = Ok (s, a).
Proof. destruct r as [[s' a]|]; [intros [= ->]; by exists a|done]. Qed.

Lemma start_dispatched_once_witness :
  ∃ s s1 a s2, reachable s
    ∧ Records.transition (sample_world 3 "0") (id_of "a") (At Prepared) (At Starting) None s = Ok (s1, a)
    ∧ rtc (keeping_attempt (id_of "a")) s1 s2 ∧ states_of s2 = [(At Released, 2%Z)]
    ∧ is_ok (Records.transition (sample_world 9 "0") (id_of "a") (At Prepared) (At Starting) None s2) = false.
Proof.
  pose proof starts_run as Ht. apply fst_Ok in Ht as [a Ht].
  exists prepared, dispatched, a, finished.
  split; [apply prepared_reachable|]. split; [exact Ht|]. split; [apply dispatched_finished|].
  split; [vm_compute; reflexivity|].
  exact (start_dispatched_once _ _ _ _ _ _ _ _ _ prepared_reachable Ht dispatched_finished).
Defined.

Lemma reserve_within_capacity_witness :
  ∃ s a, Records.reserve (sample_world 1 "0") plan_a (sample_lease plan_a 1 30) (id_of "9")
           (sample_limits 2 ["GPU-0"; "GPU-1"]) (Some (id_of "e")) 1 submitted = Ok (s, a)
    ∧ reachable submitted ∧ devices_of_store s = ["GPU-0"]
    ∧ ∀ r, r ∈ all_resources →
        (sumZ (Records.amount_of r) (unreleased (node_id plan_a) s)
         <= amount (sample_limits 2 ["GPU-0"; "GPU-1"]) r)%Z.
Proof.
  pose proof reserve_run as Ht. apply fst_Ok in Ht as [a Ht].
  exists holding_a, a. split; [exact Ht|]. split; [apply submitted_reachable|]. split; [vm_compute; reflexivity|].
  exact (proj1 (proj2 (reserve_within_capacity _ _ _ _ _ _ _ _ _ _ submitted_reachable Ht))).
Defined.

Lemma submit_idempotent_witness :
  ∃ j s2, Records.submit (sample_world 0 "5") (sample_submission ["GPU-0"]) sample_key sample_delegation base_store
            = Ok (submitted, j)
    ∧ rtc (keeping_job (j_id j)) submitted s2 ∧ states_of s2 = [(At Released, 2%Z)]
    ∧ ∃ j2, Records.submit (sample_world 20 "6") (sample_submission ["GPU-0"]) sample_key sample_delegation s2
              = Ok (s2, j2) ∧ same_job j j2.
Proof.
  pose proof submit_run as Ht. apply fst_Ok in Ht as [j Ht].
  assert (Hj : j_id j = id_of "5").
  { pose proof (submit_id _ _ _ _ _ _ _ Ht eq_refl) as Hid. exact Hid. }
  exists j, finished. split; [exact Ht|]. rewrite Hj.
  split; [apply submitted_finished|]. split; [vm_compute; reflexivity|].
  apply (submit_idempotent (sample_world 0 "5") (sample_submission ["GPU-0"]) sample_key sample_delegation base_store
           submitted j finished (sample_world 20 "6") (sample_submission ["GPU-0"]) sample_delegation).
  - apply base_reachable.
  - by apply lawfulb_lawful.
  - exact Ht.
  - rewrite Hj. apply submitted_finished.
  - by split.
Defined.
