(* ===== verification/Identity.v ===== *)
(** * Identities, projects, memberships and credentials

    [identity_store.py], [auth.py] and the assignments of [resource_store.py]
    that credentials read.  Text is a sequence of characters; [strip] removes
    Python's white space among the first 256.  The policy engine a principal
    consults, the check of an external identity provider and the listeners told
    about revocations are arguments. *)

From Stdlib Require Import SpecFloat.
From S2P Require Import Prelude Float64 Sha256 Json Spec Offer Wire WorkloadSchema Database.

(** ** Scopes *)

(** [settings.SCOPES]. *)
Definition SCOPES : list string :=
  ["nodes:read"; "nodes:write"; "resources:read"; "observations:read"; "observations:resources";
   "tokens:manage"; "identities:manage"; "policies:manage"; "audit:read";
   "jobs:read"; "jobs:execute"; "jobs:cancel"; "jobs:logs";
   "federation:read"; "federation:manage"; "federation:invoke";
   "models:read"; "models:manage"; "inference:read"; "inference:manage"; "inference:invoke";
   "files:read"; "files:write"; "files:mode"; "files:delete";
   "data:read"; "data:export"; "data:write"; "data:manage";
   "terminals:read"; "terminals:execute"; "terminals:stop";
   "agents:read"; "agents:execute"; "agents:stop"; "bus:read"; "bus:send";
   "workspaces:read"; "workspaces:write"; "modules:read"; "modules:manage";
   "modules:execute"; "audio:playback"; "vm:read"; "vm:power"; "vm:console"; "providers:write";
   "container:read"; "container:logs"; "container:power";
   "admin:read"; "admin:logs"; "admin:services"; "admin:power"; "contributors:read"; "contributors:manage"].

Definition PROJECT_SCOPES : list string :=
  ["workspaces:read"; "workspaces:write"; "modules:read"; "modules:execute"; "audio:playback";
   "nodes:read"; "resources:read"; "observations:read"; "observations:resources";
   "jobs:read"; "jobs:execute"; "jobs:cancel"; "jobs:logs";
   "federation:read"; "federation:manage"; "federation:invoke";
   "models:read"; "models:manage"; "inference:read"; "inference:manage"; "inference:invoke";
   "files:read"; "files:write"; "files:delete"; "files:mode";
   "data:read"; "data:export"; "data:write"; "data:manage";
   "terminals:read"; "terminals:execute"; "terminals:stop";
   "vm:read"; "vm:power"; "vm:console"; "container:read"; "container:logs"; "container:power";
   "admin:read"; "admin:logs"; "admin:services"; "admin:power"; "contributors:read"; "contributors:manage"].

Definition MAX_NODES : nat := 64.

(** [a & b], [a - b == set ()] and [sorted (set (l))]. *)
Definition intersect (a b : list string) : list string := List.filter (fun x => bool_decide (x ∈ b)) a.
Definition included (a b : list string) : bool := forallb (fun x => bool_decide (x ∈ b)) a.
Definition sorted_set (l : list string) : list string := merge_sort String.le (remove_dups l).

(** ** Text *)

Definition is_space (c : ascii) : bool :=
  let n := N_of_ascii c in
  ((9 <=? n) && (n <=? 13))%N || ((28 <=? n) && (n <=? 32))%N || (n =? 133)%N || (n =? 160)%N.

Fixpoint lstrip (s : string) : string :=
  match s with String c r => if is_space c then lstrip r else s | EmptyString => s end.
Fixpoint rev_string (s acc : string) : string :=
  match s with String c r => rev_string r (String c acc) | EmptyString => acc end.
Definition strip (s : string) : string := rev_string (lstrip (rev_string (lstrip s) "")) "".

Definition label_ok (label : string) : bool :=
  negb (bool_decide (strip label = "")) && (String.length label <=? 80)%nat.

(** ** Identities *)

Module Identities.

Inductive kind := User | Project.

Definition missing : exn := not_found "The identity or project was not found.".
Definition invalid_identity : exn :=
  Failure "invalid_identity" "Select an identity type and a label of 1 to 80 characters." 400.
Definition unauthenticated (text : string) : exn := Failure "unauthenticated" text 401.
Definition revision_conflict (text : string) : exn := refused "revision_conflict" text.

Definition user (s : store) (i : string) : res Space := some_or (s_users s !! i) missing.
Definition project (s : store) (i : string) : res Space := some_or (s_projects s !! i) missing.
Definition users (s : store) : list (string * Space) := rows (s_users s).

(** [projects (subject)]: what the owner, or a member with some scope, sees. *)
Definition projects (s : store) (subject : string) : list (string * Space) :=
  if bool_decide (subject = LOCAL_OWNER) then rows (s_projects s)
  else List.filter (fun x =>
         match s_members s !! (x.1, subject) with
         | Some m => negb (sp_disabled x.2) && negb (bool_decide (mb_scopes m = []))
         | None => false
         end) (rows (s_projects s)).

Definition table (k : kind) (s : store) : gmap string Space :=
  match k with User => s_users s | Project => s_projects s end.
Definition with_table (k : kind) (s : store) (m : gmap string Space) : store :=
  match k with User => with_users s m | Project => with_projects s m end.

(** [create]. *)
Definition create (w : sampling) (k : kind) (label : string) (s : store) : res (store * string) :=
  raise_if (negb (label_ok label)) invalid_identity ;;
  raise_if (256 <=? Z.of_nat (size (table k s)))%Z
    (refused "capacity" "The identity or project limit was reached.") ;;
  let i := token w 0 in
  raise_if (present (table k s !! i)) (StorageError "UNIQUE constraint failed") ;;
  Ok (with_table k s (<[i := mkSpace (strip label) false 0]> (table k s)), i).

(** The credentials that survive [DELETE FROM credentials WHERE ...]. *)
Definition drop_credentials (s : store) (drop : Credential → bool) : store :=
  with_credentials s (filter (fun x => drop x.2 = false) (s_credentials s)).

Definition of_space (k : kind) (i : string) (c : Credential) : bool :=
  match k with
  | User => bool_decide (cr_subject_id c = i)
  | Project => bool_decide (cr_project_id c = i)
  end.

(** [update]. *)
Definition update (k : kind) (i label : string) (disabled : bool) (revision : Z) (s : store)
    : res (store * Space) :=
  raise_if (negb (label_ok label)) invalid_identity ;;
  raise_if (bool_decide (i ∈ [LOCAL_OWNER; LOCAL_PROJECT]) && disabled)
    (refused "recovery_required" "Keep the local recovery identity and project enabled.") ;;
  old ← some_or (table k s !! i) missing;
  raise_if (negb (sp_revision old =? revision)%Z)
    (revision_conflict "The saved value changed. Reload it before saving.") ;;
  let new := mkSpace (strip label) disabled (sp_revision old + 1) in
  let s := with_table k s (<[i := new]> (table k s)) in
  Ok (if disabled then drop_credentials s (of_space k i) else s, new).

(** [members]. *)
Definition members (s : store) (i : string) : res (list (string * Membership)) :=
  project s i ;;
  Ok (merge_sort key_le (map (fun x => (x.1.2, x.2))
        (List.filter (fun x => bool_decide (x.1.1 = i)) (map_to_list (s_members s))))).

(** [membership]. *)
Definition membership (i subject : string) (scopes : list string) (revision : Z) (s : store)
    : res (store * Membership) :=
  raise_if (bool_decide (subject = LOCAL_OWNER))
    (refused "recovery_required" "The local recovery identity has fixed owner access.") ;;
  raise_if (negb (included scopes PROJECT_SCOPES))
    (Failure "invalid_scope" "Select supported project permission scopes." 400) ;;
  project s i ;;
  user s subject ;;
  let old := s_members s !! (i, subject) in
  raise_if (negb ((match old with Some m => mb_revision m | None => 0 end) =? revision)%Z)
    (revision_conflict "The membership changed. Reload it before saving.") ;;
  raise_if (negb (present old) && (4096 <=? Z.of_nat (size (s_members s)))%Z)
    (refused "capacity" "The membership limit was reached.") ;;
  let new := mkMembership (sorted_set scopes) (revision + 1) in
  let s := with_members s (<[(i, subject) := new]> (s_members s)) in
  Ok (match scopes with
      | [] => drop_credentials s (fun c => bool_decide (cr_project_id c = i) && bool_decide (cr_subject_id c = subject))
      | _ => s
      end, new).

(** [access]: the scopes an identity has in a project now. *)
Definition access (s : store) (subject i : string) : res (list string) :=
  u ← user s subject;
  p ← project s i;
  raise_if (sp_disabled u || sp_disabled p) (unauthenticated "The identity or project is disabled.") ;;
  if bool_decide (subject = LOCAL_OWNER) then Ok SCOPES
  else
    match s_members s !! (i, subject) with
    | None | Some {| mb_scopes := [] |} => Err (unauthenticated "Project membership is required.")
    | Some m => Ok (intersect (mb_scopes m) PROJECT_SCOPES)
    end.

End Identities.

(** ** Registered endpoints and folders *)

(** [Store.endpoint_kind]. *)
Definition endpoint_kind (s : store) (i : string) : res string :=
  let linux := bool_decide (i ∈ s_machines s) in
  let windows := bool_decide (i ∈ s_windows s) in
  raise_if (linux && windows) (refused "endpoint_conflict" "Multiple endpoint types use this identity.") ;;
  raise_if (negb linux && negb windows) (not_found "The registered endpoint was not found.") ;;
  Ok (if linux then "linux-ssh" else "windows").

(** [Resources.get]. *)
Definition assignment (s : store) (project : string) : Assignment :=
  default (mkAssignment [] [] 0) (s_resources s !! project).

Definition invalid_resources (text : string) : exn := Failure "invalid_resources" text 400.

(** [Resources.save]. *)
Definition save_resources (project : string) (nodes roots : list string) (revision : Z) (s : store)
    : res (store * Assignment) :=
  raise_if ((2 * MAX_NODES <? length nodes)%nat || (64 <? length roots)%nat
            || negb (distinct nodes) || negb (distinct roots)
            || negb ((0 <=? revision) && (revision <? 2 ^ 53 - 1))%Z)
    (invalid_resources "Select distinct registered machines and folders.") ;;
  raise_if (negb (present (s_projects s !! project))) (not_found "The project was not found.") ;;
  raise_if (negb (as_revision (assignment s project) =? revision)%Z)
    (Identities.revision_conflict "Project resources changed. Reload them before saving.") ;;
  forM_ (fun n => endpoint_kind s n ;; Ok tt) nodes ;;
  forM_ (fun r =>
    owner ← some_or (s_roots s !! r) (invalid_resources "The registered folder was not found.");
    raise_if (match owner with Some n => negb (bool_decide (n ∈ nodes)) | None => false end)
      (invalid_resources "Assign the folder's machine to this project too.")) roots ;;
  let new := mkAssignment (merge_sort String.le nodes) (merge_sort String.le roots) (revision + 1) in
  Ok (with_resources s (<[project := new]> (s_resources s)), new).

Inductive resource_kind := NodeResource | RootResource.

(** The assignment of one project without a removed machine or folder. *)
Definition without (k : resource_kind) (i : string) (a : Assignment) : Assignment :=
  let drop := List.filter (fun x => negb (bool_decide (x = i))) in
  match k with
  | NodeResource =>
      if bool_decide (i ∈ as_nodes a) then mkAssignment (drop (as_nodes a)) (as_roots a) (as_revision a + 1) else a
  | RootResource =>
      if bool_decide (i ∈ as_roots a) then mkAssignment (as_nodes a) (drop (as_roots a)) (as_revision a + 1) else a
  end.

(** [Resources.remove]. *)
Definition remove_resource (k : resource_kind) (i : string) (s : store) : store :=
  with_resources s (without k i <$> s_resources s).

(** [Store.delete_node]. *)
Definition delete_node (i : string) (s : store) : store :=
  let s := remove_resource NodeResource i s in with_machines s (s_machines s ∖ {[i]}).

(** ** Credentials *)

(** [auth.digest]. *)
Definition secret_digest (value : string) : string := hex (sha256 (bytes_of value)).

Record Principal := mkPrincipal {
  pr_id : string; pr_label : string; pr_scopes : list string; pr_node_ids : option (list string);
  pr_csrf : string; pr_kind : credential_kind; pr_expires_at : float; pr_root_ids : option (list string);
  pr_subject_id : string; pr_project_id : string; pr_project_nodes : list string;
  pr_project_roots : list string }.

Definition local_owner (p : Principal) : bool := bool_decide (pr_subject_id p = LOCAL_OWNER).

(** A list that is no ceiling when absent. *)
Definition within_ceiling (i : string) (ceiling : option (list string)) : bool :=
  match ceiling with Some l => bool_decide (i ∈ l) | None => true end.

(** [Principal.permits_node]. *)
Definition permits_node (p : Principal) (node : string) : bool :=
  within_ceiling node (pr_node_ids p) && (local_owner p || bool_decide (node ∈ pr_project_nodes p)).

(** [Principal.effective]. *)
Definition effective (p : Principal) (k : resource_kind) : option (list string) :=
  let ceiling := match k with NodeResource => pr_node_ids p | RootResource => pr_root_ids p end in
  let assigned := match k with NodeResource => pr_project_nodes p | RootResource => pr_project_roots p end in
  if local_owner p then ceiling
  else Some (sorted_set (match ceiling with None => assigned | Some c => intersect assigned c end)).

(** [Principal.sees_record], for a record with these owners. *)
Definition sees_record (p : Principal) (project subject : option string) (private : bool) : bool :=
  bool_decide (project = Some (pr_project_id p))
  && (negb private || local_owner p || bool_decide (subject = Some (pr_subject_id p))).

Definition require_record (p : Principal) (project subject : option string) (private : bool) : res unit :=
  raise_if (negb (sees_record p project subject private)) (not_found "The operation was not found.").

(** [Principal.require_host]. *)
Definition require_host (p : Principal) (scope : string) (node root : option string) : res unit :=
  raise_if (negb (bool_decide (scope ∈ pr_scopes p))
            || match node with Some n => negb (permits_node p n) | None => false end
            || match root with
               | Some r =>
                   negb (within_ceiling r (pr_root_ids p))
                   || negb (present node) && present (pr_node_ids p)
                   || negb (local_owner p) && negb (bool_decide (r ∈ pr_project_roots p))
               | None => false
               end)
    (denied "This credential does not permit the action.").

Section auth.
(** The policy engine's check, and the external identity provider's if there is one. *)
Context (policy_check : Principal → string → option string → option string → res unit).
Context (external_check : option (string → string → res unit)).

(** [Principal.require]. *)
Definition require (p : Principal) (scope : string) (node root : option string) : res unit :=
  require_host p scope node root ;; policy_check p scope node root.

(** [Principal.permits]: only a denial is an answer. *)
Definition permits (p : Principal) (scope : string) (node root : option string) : res bool :=
  match require p scope node root with
  | Ok _ => Ok true
  | Err (Failure c m st) => if (st =? 403)%Z then Ok false else Err (Failure c m st)
  | Err e => Err e
  end.

Definition sign_in : exn := Identities.unauthenticated "Sign in to continue.".

(** [Auth._resources]. *)
Definition resources_for (s : store) (p : Principal) : Principal :=
  if local_owner p then p
  else
    let a := assignment s (pr_project_id p) in
    mkPrincipal (pr_id p) (pr_label p) (pr_scopes p) (pr_node_ids p) (pr_csrf p) (pr_kind p)
      (pr_expires_at p) (pr_root_ids p) (pr_subject_id p) (pr_project_id p) (as_nodes a) (as_roots a).

Definition invalid (code text : string) : exn := Failure code text 400.

(** The checks of [Auth.issue] on the requested grant. *)
Definition grant (s : store) (k : credential_kind) (label : string) (scopes : option (list string))
    (nodes roots : option (list string)) (lifetime : Z) (subject project : string)
    : res (string * list string) :=
  permitted ← Identities.access s subject project;
  label ← (if bool_decide (label = "Local owner") && negb (bool_decide (subject = LOCAL_OWNER))
           then u ← Identities.user s subject; Ok (sp_label u) else Ok label);
  let scopes := sorted_set (match scopes with None => permitted | Some l => l end) in
  raise_if (negb (included scopes permitted)) (denied "The credential exceeds the identity's project access.") ;;
  raise_if (bool_decide (k = Remote) && bool_decide (subject = LOCAL_OWNER))
    (denied "External identities cannot use the local recovery owner.") ;;
  raise_if (bool_decide (scopes = []) || negb (included scopes SCOPES))
    (invalid "invalid_scope" "Select supported permission scopes.") ;;
  raise_if (negb ((1 <=? lifetime) && (lifetime <=? 2592000))%Z || negb (length_between 1 80 label))
    (invalid "invalid_credential" "Credential label or lifetime is invalid.") ;;
  match nodes with
  | None => Ok tt
  | Some l =>
      raise_if (MAX_NODES <? length l)%nat (invalid "invalid_nodes" "The machine selection is invalid.") ;;
      forM_ (fun n => endpoint_kind s n ;; Ok tt) l
  end ;;
  match roots with
  | None => Ok tt
  | Some l =>
      raise_if (64 <? length l)%nat (invalid "invalid_roots" "The folder selection is invalid.") ;;
      forM_ (fun r => raise_if (negb (present (s_roots s !! r)))
                        (invalid "invalid_roots" "The registered folder was not found.")) l
  end ;;
  Ok (label, scopes).

(** [DELETE FROM credentials WHERE expires < now]. *)
Definition prune_credentials (now : float) (s : store) : store :=
  Identities.drop_credentials s (fun c => f_lt (cr_expires c) now).

Definition digest_taken (s : store) (d : string) : bool :=
  existsb (fun c => bool_decide (cr_digest c = d)) (row_values (s_credentials s)).

(** [INSERT INTO credentials]. *)
Definition insert_credential (i : string) (c : Credential) (s : store) : res store :=
  raise_if (present (s_credentials s !! i) || digest_taken s (cr_digest c))
    (StorageError "UNIQUE constraint failed") ;;
  Ok (with_credentials s (<[i := c]> (s_credentials s))).

Definition new_principal (i : string) (c : Credential) : Principal :=
  mkPrincipal i (cr_label c) (cr_scopes c) (cr_nodes c) (cr_csrf c) (cr_kind c) (cr_expires c)
    (cr_roots c) (cr_subject_id c) (cr_project_id c) [] [].

(** [Auth.issue]: the secret and the principal. *)
Definition issue (w : sampling) (k : credential_kind) (label : string) (scopes : option (list string))
    (nodes : option (list string)) (lifetime : Z) (roots : option (list string))
    (subject project : string) (s : store) : res (store * (string * Principal)) :=
  '(label, scopes) ← grant s k label scopes nodes roots lifetime subject project;
  let secret := token w 0 in
  let c := mkCredential (secret_digest secret) k label scopes nodes
             (f_add (time w 0) (f_of_Z lifetime)) (token w 2) roots subject project in
  permitted ← Identities.access s subject project;
  raise_if (negb (included scopes permitted)) (denied "Project access changed before credential creation.") ;;
  let s := prune_credentials (time w 1) s in
  raise_if (512 <=? Z.of_nat (size (s_credentials s)))%Z
    (refused "capacity" "The credential limit was reached.") ;;
  s ← insert_credential (token w 1) c s;
  Ok (s, (secret, resources_for s (new_principal (token w 1) c))).

(** [_access_row]: the credential joined with its identity and project. *)
Definition access_row (s : store) (found : option (string * Credential))
    : option (string * Credential * Space * Space) :=
  match found with
  | Some (i, c) =>
      match s_users s !! cr_subject_id c, s_projects s !! cr_project_id c with
      | Some u, Some p => Some (i, c, u, p)
      | _, _ => None
      end
  | None => None
  end.

Definition by_digest (s : store) (d : string) : option (string * Credential) :=
  List.find (fun x => bool_decide (cr_digest x.2 = d)) (rows (s_credentials s)).
Definition by_id (s : store) (i : string) : option (string * Credential) :=
  c ← s_credentials s !! i; Some (i, c).

(** [_principal]. *)
Definition principal (s : store) (row : string * Credential * Space * Space) : res Principal :=
  let '(i, c, u, p) := row in
  (if bool_decide (cr_kind c = Remote) then
     match external_check with
     | None => Err (Identities.unauthenticated "External sign-in is unavailable.")
     | Some f => f i (cr_subject_id c)
     end
   else Ok tt) ;;
  raise_if (sp_disabled u || sp_disabled p)
    (Identities.unauthenticated "The identity or project is disabled.") ;;
  permitted ← (if bool_decide (cr_subject_id c = LOCAL_OWNER) then Ok SCOPES
               else match s_members s !! (cr_project_id c, cr_subject_id c) with
                    | None | Some {| mb_scopes := [] |} =>
                        Err (Identities.unauthenticated "Project membership is required.")
                    | Some m => Ok (intersect (mb_scopes m) PROJECT_SCOPES)
                    end);
  let a := assignment s (cr_project_id c) in
  Ok (mkPrincipal i (cr_label c) (sorted_set (intersect (cr_scopes c) permitted)) (cr_nodes c)
        (cr_csrf c) (cr_kind c) (cr_expires c) (cr_roots c) (cr_subject_id c) (cr_project_id c)
        (as_nodes a) (as_roots a)).

(** [Auth.resolve]. *)
Definition resolve (now : float) (value : string) (kinds : list credential_kind) (consume : bool)
    (s : store) : res (store * Principal) :=
  raise_if (negb (length_between 1 128 value)) sign_in ;;
  row ← some_or (access_row s (by_digest s (secret_digest value))) sign_in;
  let accepted := if bool_decide (Session ∈ kinds) then kinds ++ [Remote] else kinds in
  raise_if (negb (bool_decide (cr_kind row.1.1.2 ∈ accepted)) || f_le (cr_expires row.1.1.2) now) sign_in ;;
  p ← principal s row;
  Ok (if consume then with_credentials s (delete row.1.1.1 (s_credentials s)) else s, p).

(** [Auth.current]. *)
Definition current (now : float) (s : store) (i : string) : res Principal :=
  row ← some_or (access_row s (by_id s i)) sign_in;
  raise_if (negb (bool_decide (cr_kind row.1.1.2 ∈ [Session; Token; Remote])) || f_le (cr_expires row.1.1.2) now)
    sign_in ;;
  principal s row.

(** [Auth.ownership], [Auth.record]. *)
Definition ownership (now : float) (s : store) (actor : string) : res (string * string) :=
  p ← current now s actor; Ok (pr_subject_id p, pr_project_id p).
Definition record (now : float) (s : store) (actor : string) (project subject : option string)
    (private : bool) : res Principal :=
  p ← current now s actor; require_record p project subject private ;; Ok p.

(** [Auth.revoke]. *)
Definition revoke (w : sampling) (i actor : string) (s : store) : store :=
  let owner := s_credentials s !! actor in
  let s := with_credentials s (delete i (s_credentials s)) in
  audit (time w 0) "credential.revoke" i "success" actor (cr_subject_id <$> owner) (cr_project_id <$> owner) s.

(** [Auth.switch_project]. *)
Definition switch_project (w : sampling) (i project : string) (s : store)
    : res (store * (string * Principal)) :=
  c ← current (time w 0) s i;
  raise_if (negb (bool_decide (pr_kind c ∈ [Session; Remote])))
    (denied "Only a browser session can change its selected project.") ;;
  scopes ← match Identities.access s (pr_subject_id c) project with
           | Ok l => Ok l
           | Err (Failure _ _ _) => Err (denied "The selected project is unavailable to this identity.")
           | Err e => Err e
           end;
  row ← some_or (s_credentials s !! i) (OtherError "TypeError");
  let secret := token w 0 in
  let j := token w 1 in
  let new := mkCredential (secret_digest secret) (pr_kind c) (pr_label c)
               (if bool_decide (pr_kind c = Remote) then sorted_set scopes else cr_scopes row)
               (cr_nodes row) (pr_expires_at c) (token w 2) (cr_roots row) (pr_subject_id c) project in
  s ← insert_credential j new s;
  let s := with_credentials s (delete i (s_credentials s)) in
  value ← current (time w 1) s j;
  Ok (s, (secret, value)).

(** [Auth.tokens], in label order. *)
Definition label_le (a b : string * Credential) : Prop := String.le (cr_label a.2) (cr_label b.2).
#[local] Instance label_le_dec : RelDecision label_le.
Proof. intros a b. unfold label_le. apply _. Defined.

Definition tokens (now : float) (s : store) : list (string * Credential) :=
  merge_sort label_le
    (List.filter (fun x => bool_decide (cr_kind x.2 = Token) && f_lt now (cr_expires x.2))
       (rows (s_credentials s))).

End auth.
