(* ===== verification/IdentityProps.v ===== *)
(** * Confinement and revocation of credentials

    [iop] is one operation on identities, memberships, assignments or
    credentials.  [confined] is what a principal may be relative to the tables
    it was read from; [gone] is what an ended credential leaves behind. *)

From Stdlib Require Import SpecFloat.
From S2P Require Import Prelude Float64 Sha256 Json Spec Offer Wire WorkloadSchema Database Identity.
Import Identities.

Section props.
Context (external_check : option (string → string → res unit)).

(** ** Confinement *)

(** The principal of a live credential: nobody disabled, the membership there,
    and every scope granted by the credential and by the membership. *)
Record confined (now : float) (s : store) (p : Principal) (c : Credential) : Prop := {
  cf_row : s_credentials s !! pr_id p = Some c;
  cf_live : f_le (cr_expires c) now = false;
  cf_owner : pr_subject_id p = cr_subject_id c ∧ pr_project_id p = cr_project_id c;
  cf_user : ∃ u, s_users s !! cr_subject_id c = Some u ∧ sp_disabled u = false;
  cf_project : ∃ u, s_projects s !! cr_project_id c = Some u ∧ sp_disabled u = false;
  cf_granted : ∀ x, x ∈ pr_scopes p → x ∈ cr_scopes c;
  cf_member : cr_subject_id c ≠ LOCAL_OWNER → ∃ m,
    s_members s !! (cr_project_id c, cr_subject_id c) = Some m ∧ mb_scopes m ≠ []
    ∧ ∀ x, x ∈ pr_scopes p → x ∈ mb_scopes m ∧ x ∈ PROJECT_SCOPES;
  cf_remote : cr_kind c = Remote → ∃ f, external_check = Some f ∧ f (pr_id p) (cr_subject_id c) = Ok tt }.

Lemma elem_of_intersect a b x : x ∈ intersect a b ↔ x ∈ a ∧ x ∈ b.
Proof. unfold intersect. rewrite elem_of_List_filter, bool_decide_eq_true. tauto. Qed.

Lemma elem_of_sorted_set l x : x ∈ sorted_set l ↔ x ∈ l.
Proof. unfold sorted_set. by rewrite merge_sort_Permutation, elem_of_remove_dups. Qed.

Lemma principal_confined now s i c u v p :
  s_credentials s !! i = Some c → s_users s !! cr_subject_id c = Some u →
  s_projects s !! cr_project_id c = Some v → f_le (cr_expires c) now = false →
  principal external_check s (i, c, u, v) = Ok p → pr_id p = i ∧ confined now s p c.
Proof.
  intros Hc Hu Hv Hlive H. unfold principal in H.
  assert (Hr : cr_kind c = Remote → ∃ f, external_check = Some f ∧ f i (cr_subject_id c) = Ok tt).
  { intros E. rewrite (bool_decide_true _ E) in H. destruct external_check as [f|]; [|discriminate H].
    exists f. split; [done|]. apply bind_Ok in H as ([] & H & _). done. }
  destruct (if bool_decide (cr_kind c = Remote) then _ else _) as [[]|] eqn:_E in H; [|done]. clear _E.
  cbn [mbind res_bind] in H.
  apply raise_if_bind_Ok in H as [Hdis H]. apply orb_false_iff in Hdis as [Hdu Hdv].
  apply bind_Ok in H as (permitted & Hperm & H). injection H as <-. split; [done|].
  split; cbn [pr_id pr_subject_id pr_project_id pr_scopes]; eauto.
  - intros x Hx. by apply elem_of_sorted_set, elem_of_intersect in Hx as [? _].
  - intros Ho. rewrite bool_decide_false in Hperm by done.
    destruct (s_members s !! (cr_project_id c, cr_subject_id c)) as [[[|x0 l0] rev]|]; try done.
    cbn [mb_scopes] in Hperm. apply Ok_inj in Hperm as <-. eexists. split_and!; [done|done|].
    intros x Hx. apply elem_of_sorted_set, elem_of_intersect in Hx as [_ Hx].
    apply elem_of_intersect in Hx. exact Hx.
Qed.

Lemma find_Some_elem {A} (f : A → bool) l x : List.find f l = Some x → x ∈ l ∧ f x = true.
Proof. intros [H ?]%find_some. split; [by apply list_elem_of_In|done]. Qed.

Lemma by_digest_Some s d i c : by_digest s d = Some (i, c) → s_credentials s !! i = Some c ∧ cr_digest c = d.
Proof.
  intros [H%elem_of_rows E]%find_Some_elem. by bool_inv.
Qed.

Lemma access_row_Some s found i c u v :
  access_row s found = Some (i, c, u, v) →
  found = Some (i, c) ∧ s_users s !! cr_subject_id c = Some u ∧ s_projects s !! cr_project_id c = Some v.
Proof.
  destruct found as [[i' c']|]; [|done]. simpl.
  destruct (s_users s !! _) eqn:Hu, (s_projects s !! _) eqn:Hv; try done. by intros [= -> -> -> ->].
Qed.

(** What [resolve] has looked up. *)
Lemma resolve_Ok now value kinds consume s s' p :
  resolve external_check now value kinds consume s = Ok (s', p) →
  ∃ c, cr_digest c = secret_digest value ∧ confined now s p c
    ∧ (cr_kind c ∈ kinds ∨ cr_kind c = Remote ∧ Session ∈ kinds)
    ∧ s' = (if consume then with_credentials s (delete (pr_id p) (s_credentials s)) else s).
Proof.
  unfold resolve. intros H. lean_inv.
  match goal with H : access_row s _ = Some ?r |- _ => destruct r as [[[i c] u] v]; rename H into Hrow end.
  apply access_row_Some in Hrow as ([Hc Hd]%by_digest_Some & Hu & Hv). cbn [fst snd] in *.
  match goal with H : principal _ _ _ = Ok p |- _ =>
    eapply principal_confined in H as [<- Hcf]; [|done..] end.
  exists c. split_and!; [done|done| |done].
  match goal with H : cr_kind c ∈ _ |- _ => rename H into Hk end.
  case_bool_decide; [|by left]. apply elem_of_app in Hk as [?|Hk]; [by left|right].
  apply list_elem_of_singleton in Hk. done.
Qed.

Lemma current_Ok now s i p : current external_check now s i = Ok p → pr_id p = i ∧ ∃ c, confined now s p c.
Proof.
  unfold current. intros H. lean_inv.
  match goal with H : access_row s _ = Some ?r |- _ => destruct r as [[[i' c] u] v]; rename H into Hrow end.
  apply access_row_Some in Hrow as (Hi & Hu & Hv). cbn [fst snd] in *.
  unfold by_id in Hi. destruct (s_credentials s !! i) as [c'|] eqn:Hc; [|done]. injection Hi as -> ->.
  match goal with H : principal _ _ _ = Ok p |- _ =>
    eapply principal_confined in H as [<- Hcf]; [|done..] end. eauto.
Qed.
(** C26: whoever presents a secret gets a principal only for a credential with that
    secret's digest that has not expired, whose identity and project are enabled
    and, except for the recovery owner, whose membership is not empty; its scopes
    are granted both by the credential and by the current membership within the
    project scopes, and a remote credential was confirmed by the external
    provider. *)
Theorem principal_authority now value kinds consume s s' p
    (H : resolve external_check now value kinds consume s = Ok (s', p)) :
  ∃ c, cr_digest c = secret_digest value ∧ confined now s p c
    ∧ (cr_kind c ∈ kinds ∨ cr_kind c = Remote ∧ Session ∈ kinds).
Proof. destruct (resolve_Ok _ _ _ _ _ _ _ H) as (c & ? & ? & ? & _). eauto. Qed.

(** ** Operations *)

Inductive iop :=
| ICreate (w : sampling) (k : kind) (label : string)
| IUpdate (k : kind) (i label : string) (disabled : bool) (revision : Z)
| IMember (i subject : string) (scopes : list string) (revision : Z)
| IIssue (w : sampling) (k : credential_kind) (label : string) (scopes nodes : option (list string))
    (lifetime : Z) (roots : option (list string)) (subject project : string)
| IResolve (now : float) (value : string) (kinds : list credential_kind) (consume : bool)
| ISwitch (w : sampling) (i project : string)
| IRevoke (w : sampling) (i actor : string)
| IResources (project : string) (nodes roots : list string) (revision : Z)
| IRemoveNode (i : string).

Definition run_iop (op : iop) (s : store) : res store :=
  match op with
  | ICreate w k label => fst <$> create w k label s
  | IUpdate k i label disabled rev => fst <$> update k i label disabled rev s
  | IMember i subject scopes rev => fst <$> membership i subject scopes rev s
  | IIssue w k label scopes nodes lifetime roots subject project =>
      fst <$> issue w k label scopes nodes lifetime roots subject project s
  | IResolve now value kinds consume => fst <$> resolve external_check now value kinds consume s
  | ISwitch w i project => fst <$> switch_project external_check w i project s
  | IRevoke w i actor => Ok (revoke w i actor s)
  | IResources project nodes roots rev => fst <$> save_resources project nodes roots rev s
  | IRemoveNode i => Ok (delete_node i s)
  end.

(** The digest of the secret an operation creates. *)
Definition inserted (op : iop) : option string :=
  match op with
  | IIssue w _ _ _ _ _ _ _ _ | ISwitch w _ _ => Some (secret_digest (token w 0))
  | _ => None
  end.

(** The [UNIQUE] constraint on digests. *)
Definition unique_digests (s : store) : Prop :=
  ∀ i j c d, s_credentials s !! i = Some c → s_credentials s !! j = Some d → cr_digest c = cr_digest d → i = j.

(** Credentials are dropped, and those inserted carry a new digest. *)
Record creds_step (fresh : option string) (s s' : store) : Prop := {
  cs_old : ∀ i c, s_credentials s' !! i = Some c → s_credentials s !! i = Some c ∨ fresh = Some (cr_digest c);
  cs_unique : unique_digests s → unique_digests s' }.

Lemma creds_shrink f s s' :
  (∀ i c, s_credentials s' !! i = Some c → s_credentials s !! i = Some c) → creds_step f s s'.
Proof. intros H. split; [by auto|]. intros U i j c d Hc Hd. by apply U; apply H. Qed.

Lemma creds_trans f s s1 s' : creds_step None s s1 → creds_step f s1 s' → creds_step f s s'.
Proof.
  intros [A1 A2] [B1 B2]. split; [|auto]. intros i c Hc. destruct (B1 i c Hc) as [H1|]; [|by right].
  destruct (A1 i c H1); [by left|done].
Qed.

Lemma creds_trans' f s s1 s' : creds_step f s s1 → creds_step None s1 s' → creds_step f s s'.
Proof.
  intros [A1 A2] [B1 B2]. split; [|auto]. intros i c Hc. destruct (B1 i c Hc) as [H1|]; [|done]. auto.
Qed.

Lemma drop_shrink f s drop : creds_step f s (drop_credentials s drop).
Proof. apply creds_shrink. intros i c H. by apply map_lookup_filter_Some in H as [? _]. Qed.

Lemma delete_shrink f s i : creds_step f s (with_credentials s (delete i (s_credentials s))).
Proof. apply creds_shrink. intros j c H. cbn [s_credentials with_credentials] in H. by apply lookup_delete_Some in H as [_ ?]. Qed.

Lemma insert_creds i c s s' : insert_credential i c s = Ok s' → creds_step (Some (cr_digest c)) s s'.
Proof.
  unfold insert_credential. intros H. lean_inv.
  match goal with H : digest_taken _ _ = false |- _ => rename H into Ht end.
  unfold digest_taken in Ht. rewrite existsb_false in Ht.
  assert (Hno : ∀ j d, s_credentials s !! j = Some d → cr_digest d ≠ cr_digest c).
  { intros j d Hd E. specialize (Ht d). rewrite bool_decide_true in Ht by done.
    discriminate Ht. apply elem_of_row_values. by exists j. }
  split; unfold unique_digests; cbn [s_credentials with_credentials].
  - intros j d Hd. apply lookup_insert_Some in Hd as [[_ <-]|[_ ?]]; auto.
  - intros U j k d e Hd He E. apply lookup_insert_Some in Hd as [[<- <-]|[? Hd]], He as [[<- <-]|[? He]].
    + done.
    + exfalso. by eapply Hno.
    + exfalso. by eapply Hno.
    + by eapply U.
Qed.

Lemma same_creds f s s' : s_credentials s' = s_credentials s → creds_step f s s'.
Proof. intros E. apply creds_shrink. by rewrite E. Qed.

Lemma table_creds k s m : s_credentials (with_table k s m) = s_credentials s.
Proof. by destruct k. Qed.

Lemma run_iop_creds op s s' : run_iop op s = Ok s' → creds_step (inserted op) s s'.
Proof.
  intros H. destruct op; simpl in H;
    try match goal with H : fst <$> ?m = Ok _ |- _ =>
      let E := fresh "E" in destruct m as [[? ?]|] eqn:E; [|discriminate H]; injection H as <- end.
  - unfold create in E. lean_inv. apply same_creds, table_creds.
  - unfold update in E. lean_inv. destruct disabled; [|apply same_creds, table_creds].
    eapply creds_trans; [apply same_creds, table_creds|apply drop_shrink].
  - unfold membership in E. lean_inv. destruct scopes; [|by apply same_creds].
    eapply creds_trans; [|apply drop_shrink]. by apply same_creds.
  - unfold issue in E. lean_inv.
    match goal with H : insert_credential _ _ _ = Ok _ |- _ => apply insert_creds in H end.
    eapply creds_trans; [apply drop_shrink|eassumption].
  - destruct (resolve_Ok _ _ _ _ _ _ _ E) as (c & _ & _ & _ & ->).
    destruct consume; [apply delete_shrink|by apply same_creds].
  - unfold switch_project in E. lean_inv.
    match goal with H : insert_credential _ _ _ = Ok _ |- _ => apply insert_creds in H end.
    eapply creds_trans'; [eassumption|apply delete_shrink].
  - injection H as <-. unfold revoke. eapply creds_trans; [apply delete_shrink|by apply same_creds].
  - unfold save_resources in E. lean_inv. by apply same_creds.
  - injection H as <-. by apply same_creds.
Qed.

(** ** Revocation *)

(** The operation ends this credential. *)
Definition ends (op : iop) (i : string) (c : Credential) : Prop :=
  match op with
  | IResolve _ value _ true => secret_digest value = cr_digest c
  | IUpdate User x _ true _ => x = cr_subject_id c
  | IUpdate Project x _ true _ => x = cr_project_id c
  | IMember x subject [] _ => x = cr_project_id c ∧ subject = cr_subject_id c
  | IRevoke _ j _ => j = i
  | _ => False
  end.

Definition gone (d : string) (s : store) : Prop := ∀ i c, s_credentials s !! i = Some c → cr_digest c ≠ d.

Lemma ends_gone op i c s s' :
  unique_digests s → s_credentials s !! i = Some c → ends op i c → run_iop op s = Ok s' → gone (cr_digest c) s'.
Proof.
  intros U Hc He H.
  assert (Hdrop : ∀ drop, drop c = true → gone (cr_digest c) (drop_credentials s drop)).
  { intros drop Hd j d Hj E. apply map_lookup_filter_Some in Hj as [Hj Hk].
    assert (j = i) as -> by by eapply U. simpl in Hk. congruence. }
  assert (Hdel : gone (cr_digest c) (with_credentials s (delete i (s_credentials s)))).
  { intros j d Hj E. cbn [s_credentials with_credentials] in Hj. apply lookup_delete_Some in Hj as [Hne Hj]. apply Hne. by eapply U. }
  destruct op; simpl in He, H; try done;
    try match goal with H : fst <$> ?m = Ok _ |- _ =>
      let E := fresh "E" in destruct m as [[? ?]|] eqn:E; [|discriminate H]; injection H as <- end.
  - unfold update in E. lean_inv. destruct k, disabled; try done; subst;
      intros j d Hj Ed; apply map_lookup_filter_Some in Hj as [Hj Hk]; simpl in Hj, Hk;
      (assert (j = i) as -> by by eapply U); rewrite Hc in Hj; injection Hj as <-;
      by rewrite bool_decide_true in Hk.
  - destruct scopes as [|]; [|done]. destruct He as [-> ->]. unfold membership in E. lean_inv.
    intros j d Hj Ed. apply map_lookup_filter_Some in Hj as [Hj Hk]. simpl in Hj, Hk.
    assert (j = i) as -> by by eapply U. rewrite Hc in Hj. injection Hj as <-.
    by rewrite !bool_decide_true in Hk.
  - destruct consume; [|done]. destruct (resolve_Ok _ _ _ _ _ _ _ E) as (c' & Hd & [Hrow _ _ _ _ _ _ _] & _ & ->).
    assert (pr_id p = i) as -> by (eapply U; [done..|congruence]). exact Hdel.
  - subst. injection H as <-. exact Hdel.
Qed.

Inductive creates (P : option string → Prop) (s s' : store) : Prop :=
| creates_op op : P (inserted op) → run_iop op s = Ok s' → creates P s s'.

Lemma gone_steps d s s' : gone d s → rtc (creates (fun f => f ≠ Some d)) s s' → gone d s'.
Proof.
  intros G H. induction H as [|s s1 s' [op Hf Hop] _ IH]; [done|]. apply IH.
  intros i c Hc E. destruct (cs_old _ _ _ (run_iop_creds _ _ _ Hop) i c Hc) as [Hc'|Hc']; [by eapply G|].
  congruence.
Qed.

Definition reachable : store → Prop := rtc (creates (fun _ => True)) empty_store.

Lemma reachable_unique s : reachable s → unique_digests s.
Proof.
  unfold reachable. intros H.
  assert (unique_digests empty_store) as U by (intros i j c d Hc; exfalso; exact (lookup_empty_Some i c Hc)).
  revert U. induction H as [|x y z [op _ Hop] _ IH]; [done|]. intros U. apply IH.
  by eapply (cs_unique _ _ _ (run_iop_creds _ _ _ Hop)).
Qed.

(** C27: an ended credential never works again.  Once a credential has been used as
    a one-time secret, revoked, or its identity or project disabled, or its
    membership emptied, no secret with its digest resolves in any later state -
    also after the identity is enabled or the membership restored - unless the
    generator produces a secret with the same digest again. *)
Theorem revocation_permanent s i c op s1 s2 now value kinds consume
    (H : reachable s) (Hc : s_credentials s !! i = Some c) (He : ends op i c) (H1 : run_iop op s = Ok s1)
    (H2 : rtc (creates (fun f => f ≠ Some (cr_digest c))) s1 s2) (Hv : secret_digest value = cr_digest c) :
  is_ok (resolve external_check now value kinds consume s2) = false.
Proof.
  pose proof (ends_gone _ _ _ _ _ (reachable_unique s H) Hc He H1) as G.
  apply (gone_steps _ _ _ G) in H2.
  destruct (resolve external_check now value kinds consume s2) as [[s3 p]|] eqn:E; [|done].
  destruct (resolve_Ok _ _ _ _ _ _ _ E) as (c' & Hd & [Hrow _ _ _ _ _ _ _] & _).
  exfalso. eapply H2; [exact Hrow|congruence].
Qed.
End props.

(** ** The theorems at concrete inputs *)

Definition tokens_at (z : Z) (l : list string) : sampling :=
  mkSampling (fun _ => f_of_Z (1700000000 + z)) (fun n => default "" (l !! n)).

Definition member_id : string := String.concat "" (repeat "4" 32).
Definition space_id : string := String.concat "" (repeat "3" 32).
Definition first_id : string := String.concat "" (repeat "8" 32).
Definition second_id : string := String.concat "" (repeat "9" 32).

(** A user and a project, a membership, and a session credential. *)
Definition sign_up : list iop :=
  [ICreate (tokens_at 0 [member_id]) User "User"; ICreate (tokens_at 0 [space_id]) Project "Project";
   IMember space_id member_id ["jobs:execute"; "jobs:read"] 0;
   IIssue (tokens_at 1 ["secret-one"; first_id; "csrf"]) Session "Laptop" None None 3600 None member_id space_id].

Definition disable_user : iop := IUpdate User member_id "User" true 0.

(** Enabling the user again and issuing another credential. *)
Definition return_later : list iop :=
  [IUpdate User member_id "User" false 1;
   IIssue (tokens_at 3 ["secret-two"; second_id; "csrf"]) Session "Laptop" None None 3600 None member_id space_id].

Fixpoint run_iops (ops : list iop) (s : store) : res store :=
  match ops with
  | [] => Ok s
  | op :: ops => s ← run_iop None op s; run_iops ops s
  end.

Definition done_ops (ops : list iop) (s : store) : store :=
  match run_iops ops s with Ok s' => s' | Err _ => s end.

Lemma done_ops_steps P ops s :
  Forall (fun op => P (inserted op)) ops → rtc (creates None P) s (done_ops ops s).
Proof.
  intros HP. unfold done_ops. destruct (run_iops ops s) as [s'|] eqn:H; [|done].
  revert s H. induction HP as [|op ops Hop _ IH]; intros s H; simpl in H; lean_inv; [done|].
  eapply rtc_l; [by eapply creates_op|by apply IH].
Qed.

Definition signed_up : store := done_ops sign_up empty_store.
Definition disabled_store : store := done_ops [disable_user] signed_up.
Definition returned : store := done_ops return_later disabled_store.

Lemma signed_up_reachable : reachable None signed_up.
Proof. apply done_ops_steps. by repeat constructor. Qed.

Lemma principal_authority_witness :
  ∃ s p c, resolve None (f_of_Z 1700000002) "secret-one" [Session] false signed_up = Ok (s, p)
    ∧ pr_scopes p = ["jobs:execute"; "jobs:read"]
    ∧ cr_digest c = secret_digest "secret-one" ∧ confined None (f_of_Z 1700000002) signed_up p c.
Proof.
  destruct (is_ok_Ok (resolve None (f_of_Z 1700000002) "secret-one" [Session] false signed_up)) as [[s p] E];
    [vm_compute; reflexivity|].
  destruct (principal_authority None _ _ _ _ _ _ _ E) as (c & Hd & Hcf & _).
  exists s, p, c. split; [exact E|]. split; [|split; [exact Hd|exact Hcf]].
  assert (Hs : (x ← resolve None (f_of_Z 1700000002) "secret-one" [Session] false signed_up; Ok (pr_scopes x.2))
               = Ok ["jobs:execute"; "jobs:read"]) by (vm_compute; reflexivity).
  rewrite E in Hs. exact (Ok_inj _ _ Hs).
Defined.

Lemma revocation_permanent_witness :
  ∃ s s1 s2, reachable None s ∧ run_iop None disable_user s = Ok s1
    ∧ is_ok (resolve None (f_of_Z 1700000002) "secret-one" [Session] false s) = true
    ∧ is_ok (resolve None (f_of_Z 1700000004) "secret-two" [Session] false s2) = true
    ∧ rtc (creates None (fun f => f ≠ Some (secret_digest "secret-one"))) s1 s2
    ∧ is_ok (resolve None (f_of_Z 1700000004) "secret-one" [Session] false s2) = false.
Proof.
  assert (H1 : run_iop None disable_user signed_up = Ok disabled_store) by (vm_compute; reflexivity).
  assert (H2 : rtc (creates None (fun f => f ≠ Some (secret_digest "secret-one"))) disabled_store returned).
  { apply done_ops_steps. repeat constructor; [done|]. intros E. vm_compute in E. discriminate E. }
  destruct (present_Some (s_credentials signed_up !! first_id)) as [c Hc]; [vm_compute; reflexivity|].
  assert (Hd : cr_digest <$> (s_credentials signed_up !! first_id) = Some (secret_digest "secret-one"))
    by (vm_compute; reflexivity).
  assert (Hs : cr_subject_id <$> (s_credentials signed_up !! first_id) = Some member_id) by (vm_compute; reflexivity).
  apply (fmap_value _ _ _ _ Hc) in Hd, Hs.
  exists signed_up, disabled_store, returned.
  split; [apply signed_up_reachable|]. split; [exact H1|]. split; [vm_compute; reflexivity|].
  split; [vm_compute; reflexivity|]. split; [exact H2|].
  apply (revocation_permanent None signed_up first_id c disable_user disabled_store returned
           (f_of_Z 1700000004) "secret-one" [Session] false).
  - apply signed_up_reachable.
  - exact Hc.
  - symmetry. exact Hs.
  - exact H1.
  - rewrite Hd. exact H2.
  - symmetry. exact Hd.
Defined.
