(* ===== verification/Contributors.v ===== *)
(** * Contributor enrollment, certificates and live leases

    [contributor_store.py]: invitations, enrollment and rotation requests,
    issued certificates, activation, revocation and removal; the live connection
    leases of [contributors.py]; [retained_for_node] of [workloads/authority.py].
    The certificate request parser ([contributor_certificates.request], X.509)
    is the argument [request_key]. *)

From Stdlib Require Import SpecFloat.
From S2P Require Import Prelude Float64 Sha256 Json Spec Offer Wire WorkloadSchema Database Identity.

(** [ContributorSettings], as far as the store reads it. *)
Record ContributorSettings := mkContributorSettings {
  cs_certificate_seconds : Z; cs_invitation_seconds : Z; cs_lease_seconds : Z;
  cs_heartbeat_seconds : Z; cs_max_nodes : Z }.

(** The bounds of [configuration]. *)
Definition contributor_settings_ok (c : ContributorSettings) : bool :=
  (60 <=? cs_certificate_seconds c)%Z && (cs_certificate_seconds c <=? 86400)%Z
  && (60 <=? cs_invitation_seconds c)%Z && (cs_invitation_seconds c <=? 3600)%Z
  && (5 <=? cs_lease_seconds c)%Z && (cs_lease_seconds c <=? 30)%Z
  && (1 <=? cs_heartbeat_seconds c)%Z && (cs_heartbeat_seconds c <=? 10)%Z
  && (1 <=? cs_max_nodes c)%Z && (cs_max_nodes c <=? 64)%Z
  && (cs_heartbeat_seconds c * 2 <=? cs_lease_seconds c)%Z.

(** [min (a, b)]. *)
Definition f_min (a b : float) : float := if f_lt b a then b else a.

Definition is_ascii (s : string) : bool := all_chars (fun c => (N_of_ascii c <? 128)%N) s.

Module Contributors.

(** [digest]. *)
Definition invitation_digest (secret : string) : res string :=
  raise_if (negb (length_between 43 128 secret && is_ascii secret))
    (Failure "invalid_invitation" "The invitation or receipt is invalid." 403) ;;
  Ok (secret_digest secret).

Definition missing : exn := not_found "The contributor record was not found.".

Definition request (s : store) (i : string) : res Request := some_or (s_requests s !! i) missing.
Definition certificate (s : store) (f : string) : res Certificate := some_or (s_certificates s !! f) missing.

(** [update]. *)
Definition update_contributor (i : string) (c : Contributor) (s : store) : store :=
  with_contributors s (alter (fun _ => c) i (s_contributors s)).
Definition update_invitation (i : string) (v : Invitation) (s : store) : store :=
  with_invitations s (alter (fun _ => v) i (s_invitations s)).
Definition update_request (i : string) (r : Request) (s : store) : store :=
  with_requests s (alter (fun _ => r) i (s_requests s)).
Definition update_certificate (f : string) (c : Certificate) (s : store) : store :=
  with_certificates s (alter (fun _ => c) f (s_certificates s)).

(** [Records.audit]: by an actor, or by the node itself. *)
Definition audit (now : float) (action i outcome : string) (actor : option Principal) (s : store) : store :=
  Database.audit now action i outcome
    (match actor with Some p => pr_id p | None => "node:" +:+ i end)
    (pr_subject_id <$> actor) (pr_project_id <$> actor) s.

(** [project]. *)
Definition project_enabled (s : store) (i : string) : res unit :=
  p ← Identities.project s i;
  raise_if (sp_disabled p) (Failure "project_disabled" "This contributor project is disabled." 403).

(** [prune]. *)
Definition prune (now : float) (s : store) : store :=
  let s := with_invitations s (filter (fun x => f_le (iv_expires_at x.2) now = false) (s_invitations s)) in
  let s := with_certificates s (filter (fun x => f_le (ct_expires_at x.2) now = false) (s_certificates s)) in
  with_requests s (filter (fun x => f_le (rq_expires_at x.2) now = false) (s_requests s)).

Section enrollment.
Context (st : ContributorSettings).
(** [request (csr, settings.uri (node_id), node_id)]: the key fingerprint. *)
Context (request_key : string → string → res string).

(** [invite]: the invitation, its identity and its secret. *)
Definition invite (w : sampling) (name : string) (m : mode) (actor : Principal) (s : store)
    : res (store * (string * Invitation * string)) :=
  project_enabled s (pr_project_id actor) ;;
  let s := prune (time w 0) s in
  raise_if (128 <=? Z.of_nat (size (s_invitations s)))%Z
    (refused "capacity" "The pending invitation limit was reached.") ;;
  let secret := token w 0 in
  let i := token w 1 in
  d ← invitation_digest secret;
  let v := mkInvitation d (token w 2) (pr_project_id actor) name m
             (f_add (time w 1) (f_of_Z (cs_invitation_seconds st))) false in
  raise_if (present (s_invitations s !! i)
            || existsb (fun x => bool_decide (iv_digest x = d)) (row_values (s_invitations s)))
    (StorageError "UNIQUE constraint failed") ;;
  let s := with_invitations s (<[i := v]> (s_invitations s)) in
  Ok (audit (time w 2) "contributor.invite" i "success" (Some actor) s, (i, v, secret)).

(** The invitation with this digest. *)
Definition invitation_of (s : store) (d : string) : option (string * Invitation) :=
  List.find (fun x => bool_decide (iv_digest x.2 = d)) (rows (s_invitations s)).

(** [claim]: the pending request, its identity and the receipt. *)
Definition claim (w : sampling) (secret csr node : string) (s : store)
    : res (store * (string * Request * string)) :=
  d ← invitation_digest secret;
  let s := prune (time w 0) s in
  raise_if (512 <=? Z.of_nat (size (s_requests s)))%Z
    (refused "capacity" "Wait for retained enrollment requests to expire.") ;;
  '(i, v) ← some_or (invitation_of s d)
              (Failure "invalid_invitation" "The invitation expired or was already used." 403);
  raise_if (iv_used v || f_le (iv_expires_at v) (time w 1) || negb (bool_decide (iv_node_id v = node)))
    (Failure "invalid_invitation" "The invitation expired or was already used." 403) ;;
  project_enabled s (iv_project_id v) ;;
  raise_if (cs_max_nodes st <=? Z.of_nat (size (s_contributors s)))%Z
    (refused "capacity" "The contributor limit was reached.") ;;
  key ← request_key csr node;
  raise_if (present (s_contributors s !! node)) (StorageError "UNIQUE constraint failed") ;;
  let c := mkContributor (iv_project_id v) (iv_name v) (iv_mode v) false 1 (time w 2) in
  let s := with_contributors s (<[node := c]> (s_contributors s)) in
  let receipt := token w 0 in
  rd ← invitation_digest receipt;
  let r := mkRequest node rd csr key Enroll None AwaitingApproval (iv_expires_at v) 1 None in
  raise_if (present (s_requests s !! token w 1)) (StorageError "UNIQUE constraint failed") ;;
  let s := with_requests s (<[token w 1 := r]> (s_requests s)) in
  let s := update_invitation i (mkInvitation (iv_digest v) (iv_node_id v) (iv_project_id v) (iv_name v)
                                  (iv_mode v) (iv_expires_at v) true) s in
  Ok (audit (time w 3) "contributor.request" node "success" None s, (token w 1, r, receipt)).

(** [receipt]: the status and, once issued, the chain and its expiry. *)
Definition receipt (w : sampling) (i secret : string) (s : store)
    : res (string * request_status * option (string * float)) :=
  d ← invitation_digest secret;
  let e := Failure "invalid_receipt" "The enrollment receipt is invalid." 403 in
  r ← some_or (s_requests s !! i) e;
  raise_if (negb (bool_decide (rq_receipt_digest r = d))) e ;;
  node ← contributor s (rq_node_id r);
  project_enabled s (c_project_id node) ;;
  raise_if (c_disabled node || f_le (rq_expires_at r) (time w 0))
    (Failure "enrollment_expired" "The enrollment request is disabled or expired." 403) ;;
  issued ← (if bool_decide (rq_status r = Issued) then
              c ← match rq_certificate r with Some f => certificate s f | None => Err missing end;
              raise_if (bool_decide (ct_status c = CertRevoked) || f_le (ct_expires_at c) (time w 1))
                (Failure "certificate_revoked" "This certificate is no longer accepted." 403) ;;
              Ok (Some (ct_chain c, ct_expires_at c))
            else Ok None);
  Ok (rq_node_id r, rq_status r, issued).

(** [authenticate]: the node and the certificate behind a fingerprint. *)
Definition authenticate (now : float) (s : store) (f : string) (pending : bool)
    : res (string * Contributor * Certificate) :=
  let e := not_found "The contributor certificate was not found." in
  c ← some_or (s_certificates s !! f) e;
  node ← some_or (s_contributors s !! ct_node_id c) e;
  p ← some_or (s_projects s !! c_project_id node) e;
  raise_if (sp_disabled p) (Failure "project_disabled" "This contributor project is disabled." 403) ;;
  raise_if (c_disabled node
            || negb (bool_decide (ct_status c = CertCurrent) || pending && bool_decide (ct_status c = CertPending))
            || negb (f_le (ct_not_before c) now && f_lt now (ct_expires_at c)))
    (Failure "node_unauthorized" "The contributor certificate is not currently authorized." 403) ;;
  Ok (ct_node_id c, node, c).

(** [active_certificates]: the pairs of node and fingerprint that are live now. *)
Definition active_certificates (now : float) (s : store) (fs : list string) : list (string * string) :=
  omap (fun f =>
    c ← s_certificates s !! f;
    node ← s_contributors s !! ct_node_id c;
    p ← s_projects s !! c_project_id node;
    if negb (sp_disabled p) && negb (c_disabled node) && bool_decide (ct_status c = CertCurrent)
       && f_le (ct_not_before c) now && f_lt now (ct_expires_at c)
    then Some (ct_node_id c, f) else None) (remove_dups fs).

Definition with_status (r : Request) (st : request_status) (cert : option string) : Request :=
  mkRequest (rq_node_id r) (rq_receipt_digest r) (rq_csr_pem r) (rq_public_key r) (rq_kind r)
    (rq_base_fingerprint r) st (rq_expires_at r) (rq_revision r + 1) cert.

Definition request_changed (text : string) : exn := refused "request_changed" text.

(** Rotation continues only from a live base certificate. *)
Definition base_live (now : float) (s : store) (r : Request) : res unit :=
  if bool_decide (rq_kind r = Rotate) then
    match rq_base_fingerprint r with
    | Some f => authenticate now s f false ;; Ok tt
    | None => Err (not_found "The contributor certificate was not found.")
    end
  else Ok tt.

(** [begin_issue]. *)
Definition begin_issue (w : sampling) (i expected : string) (revision : Z) (actor : option Principal)
    (s : store) : res (store * Request) :=
  r ← request s i;
  node ← contributor s (rq_node_id r);
  project_enabled s (c_project_id node) ;;
  raise_if (match actor with Some p => negb (bool_decide (c_project_id node = pr_project_id p)) | None => false end)
    (not_found "The contributor request was not found.") ;;
  raise_if (c_disabled node || f_le (rq_expires_at r) (time w 0) || negb (rq_revision r =? revision)%Z
            || negb (bool_decide (rq_public_key r = expected))
            || negb (bool_decide (rq_status r ∈ [AwaitingApproval; RequestFailed; Issuing])))
    (request_changed "Reload the current request and confirm its public key.") ;;
  base_live (time w 1) s r ;;
  let r := with_status r Issuing (rq_certificate r) in
  Ok (audit (time w 2) "contributor.approve" (rq_node_id r) "success" actor (update_request i r s), r).

(** [issued]: the request as it was when issuance began, and the verified certificate. *)
Definition issued (w : sampling) (i : string) (pending : Request) (f : string) (cert : Certificate)
    (s : store) : res (store * Request) :=
  r ← request s i;
  node ← contributor s (rq_node_id pending);
  project_enabled s (c_project_id node) ;;
  raise_if (negb (bool_decide (r = pending)) || c_disabled node || f_le (rq_expires_at pending) (time w 0))
    (request_changed "The contributor request no longer permits issuance.") ;;
  base_live (time w 1) s pending ;;
  let s := prune (time w 2) s in
  raise_if (256 <=? Z.of_nat (size (s_certificates s)))%Z
    (refused "capacity" "Wait for retained certificates to expire.") ;;
  let c := mkCertificate (rq_node_id pending) i (ct_public_key cert) (ct_not_before cert) (ct_expires_at cert)
             (ct_chain cert) CertPending in
  raise_if (present (s_certificates s !! f)) (StorageError "UNIQUE constraint failed") ;;
  let s := with_certificates s (<[f := c]> (s_certificates s)) in
  let r := with_status r Issued (Some f) in
  Ok (audit (time w 3) "contributor.certificate" (rq_node_id pending) "success" None (update_request i r s), r).

(** [failed]. *)
Definition failed (w : sampling) (i : string) (pending : Request) (s : store) : store :=
  match s_requests s !! i with
  | Some r =>
      if bool_decide (r = pending) then
        audit (time w 0) "contributor.certificate" (rq_node_id pending) "failed" None
          (update_request i (with_status r RequestFailed (rq_certificate r)) s)
      else s
  | None => s
  end.

Definition certificate_status_of (c : Certificate) (st : certificate_status) : Certificate :=
  mkCertificate (ct_node_id c) (ct_request_id c) (ct_public_key c) (ct_not_before c) (ct_expires_at c)
    (ct_chain c) st.

(** The certificates of a node that are not revoked, but for one. *)
Definition others_of (node : string) (except : option string) (s : store) : list (string * Certificate) :=
  List.filter (fun x => bool_decide (ct_node_id x.2 = node) && negb (bool_decide (ct_status x.2 = CertRevoked))
                        && negb (bool_decide (Some x.1 = except))) (rows (s_certificates s)).

(** Mark each as revoked. *)
Definition revoke_all (l : list (string * Certificate)) (s : store) : store :=
  foldl (fun s x => update_certificate x.1 (certificate_status_of x.2 CertRevoked) s) s l.

Definition with_node_revision (c : Contributor) (disabled : bool) : Contributor :=
  mkContributor (c_project_id c) (c_name c) (c_mode c) disabled (c_revision c + 1) (c_created_at c).

(** [activate]: the node and the certificates it supersedes. *)
Definition activate (w : sampling) (f : string) (s : store)
    : res (store * (string * list (string * Certificate))) :=
  '(i, node, c) ← authenticate (time w 0) s f true;
  if bool_decide (ct_status c = CertCurrent) then Ok (s, (i, []))
  else
    r ← request s (ct_request_id c);
    raise_if (f_le (rq_expires_at r) (time w 1) || negb (bool_decide (rq_status r = Issued)))
      (Failure "enrollment_expired" "The certificate activation window expired." 403) ;;
    base_live (time w 2) s r ;;
    let previous := others_of i (Some f) s in
    let s := revoke_all previous s in
    let s := update_certificate f (certificate_status_of c CertCurrent) s in
    let s := update_contributor i (with_node_revision node (c_disabled node)) s in
    Ok (audit (time w 3) "contributor.activate" i "success" None s, (i, previous)).

(** The search of [rotation] through the retained requests, in table order. *)
Fixpoint rotation_request (s : store) (node i csr f : string) (l : list (string * Request))
    : res (option Request) :=
  match l with
  | [] => Ok None
  | (k, r) :: l =>
      if bool_decide (k = i) then
        raise_if (negb (bool_decide (rq_node_id r = node) && bool_decide (rq_csr_pem r = csr)
                        && bool_decide (rq_base_fingerprint r = Some f)))
          (refused "request_conflict" "The rotation request identifier was already used.") ;;
        Ok (Some r)
      else
        (if bool_decide (rq_node_id r = node) && bool_decide (rq_kind r = Rotate)
            && negb (bool_decide (rq_status r = RequestFailed)) then
           match rq_certificate r with
           | None => Err (refused "rotation_pending" "Complete or let the pending rotation expire.")
           | Some cf =>
               c ← certificate s cf;
               raise_if (bool_decide (ct_status c = CertPending))
                 (refused "rotation_pending" "Complete or let the pending rotation expire.")
           end
         else Ok tt) ;;
        rotation_request s node i csr f l
  end.

(** [rotation]; [order] lists the retained requests as the table returns them. *)
Definition rotation (w : sampling) (order : list (string * Request)) (f i csr : string) (s : store)
    : res (store * Request) :=
  '(node, _, cur) ← authenticate (time w 0) s f false;
  key ← request_key csr node;
  raise_if (bool_decide (key = ct_public_key cur))
    (refused "key_rotation_required" "Generate a new node key before rotation.") ;;
  let s := prune (time w 1) s in
  raise_if (512 <=? Z.of_nat (size (s_requests s)))%Z
    (refused "capacity" "Wait for retained rotation requests to expire.") ;;
  found ← rotation_request s node i csr f order;
  match found with
  | Some r => Ok (s, r)
  | None =>
      let r := mkRequest node "" csr key Rotate (Some f) AwaitingApproval
                 (f_min (ct_expires_at cur) (f_add (time w 2) (f_of_Z (cs_invitation_seconds st)))) 1 None in
      raise_if (present (s_requests s !! i)) (StorageError "UNIQUE constraint failed") ;;
      Ok (with_requests s (<[i := r]> (s_requests s)), r)
  end.

Definition own_node (s : store) (i : string) (actor : Principal) : res Contributor :=
  node ← contributor s i;
  raise_if (negb (bool_decide (c_project_id node = pr_project_id actor)))
    (not_found "The contributor was not found.") ;;
  Ok node.

(** [disable]: the revoked certificates. *)
Definition disable (w : sampling) (i : string) (revision : Z) (actor : Principal) (s : store)
    : res (store * list (string * Certificate)) :=
  node ← own_node s i actor;
  raise_if (negb (c_revision node =? revision)%Z)
    (refused "revision_conflict" "The contributor changed. Reload it before revocation.") ;;
  let s := update_contributor i (with_node_revision node true) s in
  let revoked := others_of i None s in
  let s := revoke_all revoked s in
  Ok (audit (time w 0) "contributor.disable" i "success" (Some actor) s, revoked).

(** [retained_for_node]. *)
Definition retained_for_node (s : store) (i : string) : bool :=
  existsb (fun a => bool_decide (t_node_id a = i)) (row_values (s_attempts s))
  || existsb (fun j => bool_decide (i ∈ sub_node_ids (j_request j)) && negb (is_terminal (j_state j)))
       (row_values (s_jobs s)).

(** [remove]. *)
Definition remove (w : sampling) (i : string) (revision : Z) (actor : Principal) (s : store)
    : res (store * unit) :=
  node ← own_node s i actor;
  raise_if (negb (c_revision node =? revision)%Z || negb (c_disabled node))
    (refused "revision_conflict" "Revoke the contributor and reload it before removal.") ;;
  raise_if (retained_for_node s i)
    (refused "workload_retained" "Resolve and remove retained workloads before removing this contributor.") ;;
  let s := with_requests s (filter (fun x => rq_node_id x.2 ≠ i) (s_requests s)) in
  let s := with_certificates s (filter (fun x => ct_node_id x.2 ≠ i) (s_certificates s)) in
  let s := with_invitations s (filter (fun x => iv_node_id x.2 ≠ i) (s_invitations s)) in
  let s := with_nodes s (delete i (s_nodes s)) in
  let s := with_contributors s (delete i (s_contributors s)) in
  Ok (audit (time w 0) "contributor.remove" i "success" (Some actor) s, tt).

End enrollment.
End Contributors.

(** ** Live connections

    [Contributors.sessions] of [contributors.py], on the monotonic clock. *)
Module Sessions.
Import Contributors.

Record Session := mkSession {
  se_id : string; se_fingerprint : string; se_sequence : Z; se_deadline : float; se_verified_at : float;
  se_sample : option json; se_transport : option string; se_seen : option float }.

(** [contributor_schema.Heartbeat]. *)
Record Heartbeat := mkHeartbeat { hb_session : option string; hb_sequence : Z; hb_sample : json }.

Definition heartbeat_ok (h : Heartbeat) : bool :=
  match hb_session h with Some i => identity i | None => true end && revision_number (hb_sequence h).

Definition lease_expired : exn :=
  Failure "node_lease_expired" "The contributor connection lease expired or was replaced." 403.

Section sessions.
Context (st : ContributorSettings).

(** [connection]; the monotonic clock is read twice. *)
Definition connection (m1 m2 : float) (live : gmap string Session) (i session f : string) : res unit :=
  x ← some_or (live !! i) lease_expired;
  raise_if (negb (bool_decide (se_id x = session)) || negb (bool_decide (se_fingerprint x = f))
            || f_le (se_deadline x) m1
            || f_lt (f_of_Z (cs_lease_seconds st)) (f_sub m2 (se_verified_at x)))
    lease_expired.

(** [guard]. *)
Definition guard (now m1 m2 : float) (s : store) (live : gmap string Session) (i session f : string) : res unit :=
  authenticate now s f false ;; connection m1 m2 live i session f.

(** The session a message belongs to: a new one for sequence 1, or the live one. *)
Definition addressed (m m1 m2 : float) (fresh f : string) (i : string) (h : Heartbeat)
    (live : gmap string Session) : res (gmap string Session * Session) :=
  match hb_session h with
  | None =>
      raise_if (negb (hb_sequence h =? 1)%Z)
        (refused "invalid_sequence" "A new contributor channel starts at sequence one.") ;;
      let x := mkSession fresh f 0 m m None None None in
      Ok (<[i := x]> live, x)
  | Some session =>
      connection m1 m2 live i session f ;;
      x ← some_or (live !! i) (OtherError "AssertionError");
      Ok (live, x)
  end.

(** The session after a message whose sequence is current. *)
Definition advanced (w : sampling) (m : float) (c : Certificate) (h : Heartbeat) (transport : string)
    (x : Session) : Session :=
  if (se_sequence x <? hb_sequence h)%Z then
    mkSession (se_id x) (se_fingerprint x) (hb_sequence h)
      (f_add m (f_min (f_of_Z (cs_lease_seconds st)) (f_sub (ct_expires_at c) (time w 1)))) m
      (Some (hb_sample h)) (Some transport) (Some (time w 2))
  else
    mkSession (se_id x) (se_fingerprint x) (se_sequence x) (se_deadline x) m (se_sample x)
      (se_transport x) (se_seen x).

(** [heartbeat]: the sessions after the message, also when it is refused, and the
    session to report.  [m n] are the readings of the monotonic clock. *)
Definition heartbeat (w : sampling) (m : nat → float) (f : string) (h : Heartbeat) (transport : string)
    (s : store) (live : gmap string Session) : gmap string Session * res Session :=
  match authenticate (time w 0) s f false with
  | Err e => (live, Err e)
  | Ok (i, _, c) =>
      match addressed (m 0%nat) (m 1%nat) (m 2%nat) (token w 0) f i h live with
      | Err e => (live, Err e)
      | Ok (live, x) =>
          if negb ((hb_sequence h =? se_sequence x) || (hb_sequence h =? se_sequence x + 1))%Z then
            (live, Err (refused "invalid_sequence" "The contributor message sequence is not current."))
          else
            let x := advanced w (m 0%nat) c h transport x in
            let live := <[i := x]> live in
            (live, connection (m 3%nat) (m 4%nat) live i (se_id x) f ;; Ok x)
      end
  end.

(** One pass of [poll] over the sessions. *)
Definition sweep (now m : float) (s : store) (live : gmap string Session) : gmap string Session :=
  let active := active_certificates now s (map se_fingerprint (row_values live)) in
  (fun x => mkSession (se_id x) (se_fingerprint x) (se_sequence x) (se_deadline x) m (se_sample x)
              (se_transport x) (se_seen x))
  <$> filter (fun x => bool_decide ((x.1, se_fingerprint x.2) ∈ active) && negb (f_le (se_deadline x.2) m) = true)
        live.

(** The sessions after [activate], [disable] and [remove]. *)
Definition superseded (i : string) (previous : list (string * Certificate)) (live : gmap string Session)
    : gmap string Session :=
  match previous with [] => live | _ => delete i live end.

End sessions.
End Sessions.
