(* ===== verification/ContributorProps.v ===== *)
(** * What contributor enrollment guarantees

    [cop] is one operation of the contributor store.  [enrolled] is its
    invariant: certificates and requests belong to a stored contributor, a
    contributor has at most one current certificate, and a revoked contributor
    has none that is not revoked.  [run_cop_other] shows that these operations are
    changes the workload records allow ([RecordsProps.other]). *)

From Stdlib Require Import SpecFloat.
From S2P Require Import Prelude Float64 Sha256 Json Spec Offer Wire WorkloadSchema Database.
From S2P Require Import Records NodeRecords RecordsProps Identity Contributors.
Import Contributors.

Section props.
Context (st : ContributorSettings) (request_key : string → string → res string).

Inductive cop :=
| CInvite (w : sampling) (name : string) (m : mode) (actor : Principal)
| CClaim (w : sampling) (secret csr node : string)
| CBeginIssue (w : sampling) (i expected : string) (revision : Z) (actor : option Principal)
| CIssued (w : sampling) (i : string) (pending : Request) (f : string) (cert : Certificate)
| CFailed (w : sampling) (i : string) (pending : Request)
| CActivate (w : sampling) (f : string)
| CRotation (w : sampling) (order : list (string * Request)) (f i csr : string)
| CDisable (w : sampling) (i : string) (revision : Z) (actor : Principal)
| CRemove (w : sampling) (i : string) (revision : Z) (actor : Principal).

Definition run_cop (op : cop) (s : store) : res store :=
  match op with
  | CInvite w name m actor => fst <$> invite st w name m actor s
  | CClaim w secret csr node => fst <$> claim st request_key w secret csr node s
  | CBeginIssue w i expected rev actor => fst <$> begin_issue w i expected rev actor s
  | CIssued w i pending f cert => fst <$> issued w i pending f cert s
  | CFailed w i pending => Ok (failed w i pending s)
  | CActivate w f => fst <$> activate w f s
  | CRotation w order f i csr => fst <$> rotation st request_key w order f i csr s
  | CDisable w i rev actor => fst <$> disable w i rev actor s
  | CRemove w i rev actor => fst <$> remove w i rev actor s
  end.

(** ** The invariant *)

Record enrolled (s : store) : Prop := {
  en_certificate : ∀ f c, s_certificates s !! f = Some c → present (s_contributors s !! ct_node_id c) = true;
  en_current : ∀ f f' c c', s_certificates s !! f = Some c → s_certificates s !! f' = Some c' →
    ct_node_id c = ct_node_id c' → ct_status c = CertCurrent → ct_status c' = CertCurrent → f = f';
  en_disabled : ∀ f c n, s_certificates s !! f = Some c → s_contributors s !! ct_node_id c = Some n →
    c_disabled n = true → ct_status c = CertRevoked }.

Lemma enrolled_empty : enrolled empty_store.
Proof. split; intros *; simpl; rewrite ?lookup_empty; done. Qed.

(** Only the two tables matter. *)
Lemma enrolled_ext s s' :
  s_certificates s' = s_certificates s → s_contributors s' = s_contributors s → enrolled s → enrolled s'.
Proof. intros H1 H2 []. split; rewrite ?H1, ?H2; done. Qed.

(** Dropping certificates keeps it. *)
Lemma enrolled_drop s s' :
  (∀ f c, s_certificates s' !! f = Some c → s_certificates s !! f = Some c) →
  s_contributors s' = s_contributors s → enrolled s → enrolled s'.
Proof.
  intros Hc Hn [E1 E2 E3]. split.
  - intros f c H. rewrite Hn. by eapply E1; eauto.
  - intros f f' c c' H H'. eapply E2; eauto.
  - intros f c n H. rewrite Hn. eapply E3; eauto.
Qed.

Lemma prune_certificates now s f c :
  s_certificates (prune now s) !! f = Some c → s_certificates s !! f = Some c.
Proof. intros H. by apply map_lookup_filter_Some in H as [? _]. Qed.

Lemma prune_enrolled now s : enrolled s → enrolled (prune now s).
Proof. apply enrolled_drop; [apply prune_certificates|done]. Qed.

(** [revoke_all] replaces exactly the listed certificates. *)
Lemma revoke_all_lookup l s f :
  (∀ x, x ∈ l → s_certificates s !! x.1 = Some x.2) → NoDup l.*1 →
  s_certificates (revoke_all l s) !! f =
    if bool_decide (f ∈ l.*1)
    then (fun c => certificate_status_of c CertRevoked) <$> s_certificates s !! f
    else s_certificates s !! f.
Proof.
  revert s. induction l as [|x l IH]; intros s Hl Hnd; [done|]. cbn [revoke_all foldl].
  apply NoDup_cons in Hnd as [Hx Hnd].
  set (s1 := update_certificate x.1 (certificate_status_of x.2 CertRevoked) s).
  assert (Hs1 : s_certificates s1 = <[x.1 := certificate_status_of x.2 CertRevoked]> (s_certificates s)).
  { unfold s1, update_certificate. cbn [s_certificates with_certificates].
    apply alter_const with x.2. apply Hl. by left. }
  change (foldl _ s1 l) with (revoke_all l s1). rewrite IH; [|intros y Hy|done].
  - rewrite Hs1. destruct (decide (f = x.1)) as [->|Hf].
    + rewrite bool_decide_false by done. rewrite bool_decide_true by by left.
      rewrite lookup_insert_eq. by rewrite (Hl x) by by left.
    + rewrite lookup_insert_ne by done.
      assert (bool_decide (f ∈ (x :: l).*1) = bool_decide (f ∈ l.*1)) as ->; [|done].
      apply bool_decide_ext. rewrite fmap_cons, elem_of_cons. naive_solver.
  - rewrite Hs1, lookup_insert_ne; [apply Hl; by right|].
    intros E. apply Hx. rewrite E. by apply list_elem_of_fmap_2.
Qed.

Lemma revoke_all_contributors l s : s_contributors (revoke_all l s) = s_contributors s.
Proof. revert s. induction l as [|x l IH]; intros s; simpl; [done|]. by rewrite IH. Qed.

Lemma others_of_lookup node except s x :
  x ∈ others_of node except s ↔
  s_certificates s !! x.1 = Some x.2 ∧ ct_node_id x.2 = node ∧ ct_status x.2 ≠ CertRevoked ∧ Some x.1 ≠ except.
Proof.
  unfold others_of. rewrite elem_of_List_filter. destruct x as [f c]. rewrite elem_of_rows. simpl.
  rewrite !andb_true_iff, !negb_true_iff, bool_decide_eq_true, !bool_decide_eq_false. tauto.
Qed.

Lemma NoDup_List_filter_fst {A B} (p : A * B → bool) (l : list (A * B)) :
  NoDup l.*1 → NoDup (List.filter p l).*1.
Proof.
  induction l as [|x l IH]; simpl; [done|]. intros [Hx Hnd]%NoDup_cons. destruct (p x); [|by apply IH].
  simpl. apply NoDup_cons. split; [|by apply IH]. intros (y & Ey & [_ Hy]%elem_of_List_filter)%list_elem_of_fmap.
  apply Hx. rewrite Ey. by apply list_elem_of_fmap_2.
Qed.

Lemma others_of_NoDup node except s : NoDup (others_of node except s).*1.
Proof. apply NoDup_List_filter_fst, rows_keys_NoDup. Qed.

(** A certificate after its siblings are revoked: itself, or revoked. *)
Lemma revoked_siblings node except s f c :
  s_certificates (revoke_all (others_of node except s) s) !! f = Some c →
  ∃ c0, s_certificates s !! f = Some c0 ∧ ct_node_id c = ct_node_id c0
    ∧ (c = c0 ∧ (ct_node_id c0 = node → ct_status c0 = CertRevoked ∨ Some f = except) ∨ ct_status c = CertRevoked).
Proof.
  rewrite revoke_all_lookup; [|intros x Hx; by apply others_of_lookup in Hx as [? _]|apply others_of_NoDup].
  case_bool_decide as Hf.
  - destruct (s_certificates s !! f) as [c0|]; [|done]. intros [= <-]. exists c0. split_and!; [done|done|by right].
  - intros Hc. exists c. split_and!; [done|done|]. left. split; [done|]. intros Hn.
    destruct (decide (ct_status c = CertRevoked)) as [|Hr]; [by left|right].
    destruct (decide (Some f = except)) as [|He]; [done|]. exfalso. apply Hf.
    apply (list_elem_of_fmap_2 fst _ (f, c)). by apply others_of_lookup.
Qed.

(** Replacing the row of a contributor. *)
Lemma update_contributor_lookup i c c' s k :
  s_contributors s !! i = Some c → s_contributors (update_contributor i c' s) !! k = (<[i := c']> (s_contributors s)) !! k.
Proof. intros H. unfold update_contributor. simpl. by rewrite (alter_const _ _ _ _ H). Qed.

Lemma update_certificate_lookup f c c' s k :
  s_certificates s !! f = Some c → s_certificates (update_certificate f c' s) !! k = (<[f := c']> (s_certificates s)) !! k.
Proof. intros H. unfold update_certificate. simpl. by rewrite (alter_const _ _ _ _ H). Qed.

Lemma contributor_Ok s i c : contributor s i = Ok c ↔ s_contributors s !! i = Some c.
Proof. apply some_or_Ok. Qed.

Lemma authenticate_Ok now s f pending i n c :
  authenticate now s f pending = Ok (i, n, c) →
  s_certificates s !! f = Some c ∧ i = ct_node_id c ∧ s_contributors s !! i = Some n
  ∧ (∃ p, s_projects s !! c_project_id n = Some p ∧ sp_disabled p = false)
  ∧ c_disabled n = false ∧ (ct_status c = CertCurrent ∨ pending = true ∧ ct_status c = CertPending)
  ∧ f_le (ct_not_before c) now = true ∧ f_lt now (ct_expires_at c) = true.
Proof.
  unfold authenticate. intros H. lean_inv.
  match goal with H : _ || _ = true |- _ => apply orb_true_iff in H; rename H into Hs end.
  split_and!; try done; [by eauto|].
  destruct Hs as [Hs|Hs]; bool_inv; auto.
Qed.

(** The activated certificate takes the place of every other of its node. *)
Lemma activate_enrolled w f s s' r : enrolled s → activate w f s = Ok (s', r) → enrolled s'.
Proof.
  intros E H. unfold activate in H. apply bind_Ok in H as ([[i n] c] & Ha & H).
  apply authenticate_Ok in Ha as (Hc & -> & Hn & _ & Hdis & _). split_if; [by lean_inv|].
  lean_inv. set (node := ct_node_id c) in *.
  set (s1 := revoke_all (others_of node (Some f) s) s).
  assert (Hf : s_certificates s1 !! f = Some c).
  { unfold s1. rewrite revoke_all_lookup;
      [|intros y Hy; by apply others_of_lookup in Hy as [? _]|apply others_of_NoDup].
    case_bool_decide as Hin; [|done]. apply list_elem_of_fmap in Hin as (y & -> & Hy).
    by apply others_of_lookup in Hy as (_ & _ & _ & ?). }
  assert (Hn1 : s_contributors s1 !! node = Some n) by (unfold s1; by rewrite revoke_all_contributors).
  assert (Hcert : ∀ k d, s_certificates (update_certificate f (certificate_status_of c CertCurrent) s1) !! k = Some d →
    k = f ∧ d = certificate_status_of c CertCurrent ∨
    k ≠ f ∧ ∃ d0, s_certificates s !! k = Some d0 ∧ ct_node_id d = ct_node_id d0
      ∧ (d = d0 ∧ ct_node_id d0 ≠ node ∨ ct_status d = CertRevoked)).
  { intros k d Hd. rewrite (update_certificate_lookup _ _ _ _ _ Hf) in Hd.
    apply lookup_insert_Some in Hd as [[<- <-]|[Hne Hd]]; [by left|right]. split; [done|].
    apply revoked_siblings in Hd as (d0 & Hd0 & Hnode & [[-> Hs]|Hs]); exists d0; split_and!; try done; [|by right].
    destruct (decide (ct_node_id d0 = node)) as [En|En]; [right|by left].
    destruct (Hs En) as [?|?]; [done|congruence]. }
  assert (Hnode : ∀ k, s_contributors (update_contributor node (with_node_revision n (c_disabled n))
      (update_certificate f (certificate_status_of c CertCurrent) s1)) !! k
      = (<[node := with_node_revision n (c_disabled n)]> (s_contributors s)) !! k).
  { intros k. rewrite (update_contributor_lookup _ n) by exact Hn1. simpl. unfold s1. by rewrite revoke_all_contributors. }
  destruct E as [E1 E2 E3].
  split; [intros k d Hd|intros k k' d d' Hd Hd' En Hs Hs'|intros k d m Hd Hm Hmd].
  - change (s_contributors (audit ?a ?b ?c ?d ?e ?s)) with (s_contributors s). rewrite Hnode.
    apply Hcert in Hd as [[-> ->]|(_ & d0 & Hd0 & -> & _)]; [simpl; by rewrite lookup_insert_eq|].
    destruct (decide (ct_node_id d0 = node)) as [->|]; [by rewrite lookup_insert_eq|].
    rewrite lookup_insert_ne by done. by eapply E1.
  - apply Hcert in Hd, Hd'.
    destruct Hd as [[-> ->]|(_ & d0 & Hd0 & En0 & [[-> Hd1]|Hr])]; [| |congruence];
      destruct Hd' as [[-> ->]|(_ & d0' & Hd0' & En0' & [[-> Hd1']|Hr'])]; try congruence.
    + exfalso. apply Hd1'. by rewrite <- En.
    + exfalso. apply Hd1. by rewrite En.
    + by eapply E2.
  - change (s_contributors (audit ?a ?b ?c ?d ?e ?s)) with (s_contributors s) in Hm. rewrite Hnode in Hm.
    apply Hcert in Hd as [[-> ->]|(_ & d0 & Hd0 & En & Hcase)].
    + simpl in Hm. rewrite lookup_insert_eq in Hm. injection Hm as <-. simpl in Hmd. congruence.
    + destruct Hcase as [[-> Hne]|?]; [|done]. rewrite lookup_insert_ne in Hm by done. by eapply E3.
Qed.

Lemma disable_enrolled w i rev actor s s' r : enrolled s → disable w i rev actor s = Ok (s', r) → enrolled s'.
Proof.
  intros E H. unfold disable, own_node in H. lean_inv.
  match goal with H : contributor s i = Ok ?n |- _ => apply contributor_Ok in H; rename n into node; rename H into Hn end.
  set (s1 := update_contributor i (with_node_revision node true) s).
  assert (Hn1 : ∀ k, s_contributors (revoke_all (others_of i None s1) s1) !! k
                     = (<[i := with_node_revision node true]> (s_contributors s)) !! k).
  { intros k. rewrite revoke_all_contributors. by apply update_contributor_lookup with node. }
  destruct E as [E1 E2 E3].
  split; [intros f c Hc|intros f f' c c' Hc Hc' En Hs Hs'|intros f c m Hc Hm Hmd];
    change (s_certificates (audit ?a ?b ?c ?d ?e ?s)) with (s_certificates s) in *;
    change (s_contributors (audit ?a ?b ?c ?d ?e ?s)) with (s_contributors s) in *.
  - rewrite Hn1. apply revoked_siblings in Hc as (c0 & Hc0 & -> & _).
    destruct (decide (ct_node_id c0 = i)) as [->|]; [by rewrite lookup_insert_eq|].
    rewrite lookup_insert_ne by done. by eapply E1.
  - apply revoked_siblings in Hc as (c0 & Hc0 & _ & [[-> _]|?]); [|congruence].
    apply revoked_siblings in Hc' as (c0' & Hc0' & _ & [[-> _]|?]); [|congruence]. by eapply E2.
  - rewrite Hn1 in Hm. apply revoked_siblings in Hc as (c0 & Hc0 & En & [[-> Hs]|?]); [|done].
    destruct (decide (ct_node_id c0 = i)) as [Ei|Ei]; [by destruct (Hs Ei)|].
    rewrite lookup_insert_ne in Hm by done. by eapply E3.
Qed.

Lemma enrolled_new_contributor s node n :
  enrolled s → s_contributors s !! node = None →
  enrolled (with_contributors s (<[node := n]> (s_contributors s))).
Proof.
  intros [E1 E2 E3] Hn.
  assert (Hne : ∀ f c, s_certificates s !! f = Some c → node ≠ ct_node_id c).
  { intros f c Hc ->. specialize (E1 f c Hc). by rewrite Hn in E1. }
  split; cbn [s_certificates s_contributors with_contributors].
  - intros f c Hc. rewrite lookup_insert_ne by eauto. by eapply E1.
  - exact E2.
  - intros f c m Hc Hm. rewrite lookup_insert_ne in Hm by eauto. by eapply E3.
Qed.

Lemma enrolled_new_certificate s f c n :
  enrolled s → s_contributors s !! ct_node_id c = Some n → c_disabled n = false → ct_status c = CertPending →
  enrolled (with_certificates s (<[f := c]> (s_certificates s))).
Proof.
  intros [E1 E2 E3] Hn Hd Hs. split; cbn [s_certificates s_contributors with_certificates].
  - intros k d Hk. apply lookup_insert_Some in Hk as [[_ <-]|[_ Hk]]; [by rewrite Hn|by eapply E1].
  - intros k k' d d' Hk Hk' En Hs1 Hs2. apply lookup_insert_Some in Hk as [[_ <-]|[_ Hk]]; [congruence|].
    apply lookup_insert_Some in Hk' as [[_ <-]|[_ Hk']]; [congruence|by eapply E2].
  - intros k d m Hk Hm Hmd. apply lookup_insert_Some in Hk as [[_ <-]|[_ Hk]]; [congruence|by eapply E3].
Qed.

Lemma enrolled_remove s i :
  enrolled s →
  enrolled (with_contributors (with_certificates s (filter (fun x => ct_node_id x.2 ≠ i) (s_certificates s)))
              (delete i (s_contributors s))).
Proof.
  intros [E1 E2 E3]. split; cbn [s_certificates s_contributors with_certificates with_contributors].
  - intros f c Hc. apply map_lookup_filter_Some in Hc as [Hc Hne]. cbn [snd] in Hne.
    rewrite lookup_delete_ne by done. by eapply E1.
  - intros f f' c c' Hc Hc'. apply map_lookup_filter_Some in Hc as [Hc _].
    apply map_lookup_filter_Some in Hc' as [Hc' _]. by eapply E2.
  - intros f c m Hc Hm. apply map_lookup_filter_Some in Hc as [Hc _].
    apply lookup_delete_Some in Hm as [_ Hm]. by eapply E3.
Qed.

Lemma claim_enrolled w secret csr node s s' r :
  enrolled s → claim st request_key w secret csr node s = Ok (s', r) → enrolled s'.
Proof.
  intros E H. unfold claim in H. lean_inv.
  match goal with H : present (s_contributors ?s1 !! ?n) = false |- context [mkContributor ?a ?b ?c ?d ?e ?f] =>
    eapply (enrolled_ext (with_contributors s1 (<[n := mkContributor a b c d e f]> (s_contributors s1))));
      [done|done|]; apply enrolled_new_contributor; [by apply prune_enrolled|by destruct (s_contributors s1 !! n)]
  end.
Qed.

Lemma issued_enrolled w i pending f cert s s' r :
  enrolled s → issued w i pending f cert s = Ok (s', r) → enrolled s'.
Proof.
  intros E H. unfold issued in H. lean_inv.
  match goal with H : contributor s _ = Ok ?n |- _ => apply contributor_Ok in H; rename n into node; rename H into Hn end.
  match goal with |- context [with_certificates ?s1 ?m] => apply (enrolled_ext (with_certificates s1 m)); [done|done|] end.
  by apply enrolled_new_certificate with node; [apply prune_enrolled|..].
Qed.

Lemma remove_enrolled w i rev actor s s' r : enrolled s → remove w i rev actor s = Ok (s', r) → enrolled s'.
Proof.
  intros E H. unfold remove, own_node in H. lean_inv.
  eapply enrolled_ext; [..|exact (enrolled_remove s i E)]; done.
Qed.

Lemma run_cop_enrolled op s s' : enrolled s → run_cop op s = Ok s' → enrolled s'.
Proof.
  intros E H. destruct op; simpl in H; try finish_op.
  - unfold invite in E0. lean_inv. by apply (enrolled_ext (prune (time w 0) s)); [..|apply prune_enrolled].
  - by eapply claim_enrolled.
  - unfold begin_issue in E0. lean_inv. by apply (enrolled_ext s).
  - by eapply issued_enrolled.
  - injection H as <-. unfold failed. destruct (s_requests s !! i); [|done].
    case_bool_decide; [|done]. by apply (enrolled_ext s).
  - by eapply activate_enrolled.
  - unfold rotation in E0. lean_inv.
    match goal with H : match ?o with Some _ => _ | None => _ end = Ok _ |- _ => destruct o end; lean_inv;
      by apply (enrolled_ext (prune (time w 1) s)); [..|apply prune_enrolled].
  - by eapply disable_enrolled.
  - by eapply remove_enrolled.
Qed.

(** ** Composition with the workload records *)

Lemma retained_false s i : retained_for_node s i = false → ∀ k a, s_attempts s !! k = Some a → t_node_id a ≠ i.
Proof.
  unfold retained_for_node. intros [H _]%orb_false_iff k a Ha E. rewrite existsb_false in H.
  specialize (H a). rewrite bool_decide_true in H by done. discriminate H. apply elem_of_row_values. by exists k.
Qed.

(** Tables of workloads that no contributor operation writes, and the contributor rows. *)
Record cop_step (s s' : store) : Prop := {
  cp_jobs : s_jobs s' = s_jobs s;
  cp_attempts : s_attempts s' = s_attempts s;
  cp_users : s_users s' = s_users s;
  cp_projects : s_projects s' = s_projects s;
  cp_nodes : ∀ i o, s_nodes s' !! i = Some o → s_nodes s !! i = Some o
    ∧ (present (s_contributors s !! i) = true → present (s_contributors s' !! i) = true);
  cp_rows : ∀ i c, s_contributors s !! i = Some c →
    (∃ c', s_contributors s' !! i = Some c' ∧ (c_disabled c = true → c_disabled c' = true))
    ∨ ∀ k a, s_attempts s !! k = Some a → t_node_id a ≠ i }.

(** The contributor rows are untouched. *)
Lemma cop_same s s' :
  s_jobs s' = s_jobs s → s_attempts s' = s_attempts s → s_users s' = s_users s → s_projects s' = s_projects s →
  s_nodes s' = s_nodes s → s_contributors s' = s_contributors s → cop_step s s'.
Proof.
  intros H1 H2 H3 H4 H5 H6. split; try done.
  - intros i o H. rewrite H5 in H. by rewrite H6.
  - intros i c H. left. exists c. by rewrite H6.
Qed.

(** One contributor row changes, and stays revoked. *)
Lemma cop_put s s' i c c' :
  s_jobs s' = s_jobs s → s_attempts s' = s_attempts s → s_users s' = s_users s → s_projects s' = s_projects s →
  s_nodes s' = s_nodes s → (∀ k, s_contributors s' !! k = (<[i := c']> (s_contributors s)) !! k) →
  (∀ c0, s_contributors s !! i = Some c0 → c0 = c) → (c_disabled c = true → c_disabled c' = true) →
  cop_step s s'.
Proof.
  intros H1 H2 H3 H4 H5 H6 H7 H8. split; try done.
  - intros k o H. rewrite H5 in H. split; [done|]. rewrite H6. intros Hp.
    destruct (decide (k = i)) as [->|]; [by rewrite lookup_insert_eq|by rewrite lookup_insert_ne].
  - intros k d Hd. left. rewrite H6. destruct (decide (k = i)) as [->|Hk].
    + rewrite lookup_insert_eq. exists c'. split; [done|]. by rewrite (H7 d Hd).
    + rewrite lookup_insert_ne by done. by exists d.
Qed.

Lemma revoke_all_tables l s :
  s_jobs (revoke_all l s) = s_jobs s ∧ s_attempts (revoke_all l s) = s_attempts s
  ∧ s_users (revoke_all l s) = s_users s ∧ s_projects (revoke_all l s) = s_projects s
  ∧ s_nodes (revoke_all l s) = s_nodes s ∧ s_contributors (revoke_all l s) = s_contributors s.
Proof. revert s. induction l as [|x l IH]; intros s; [done|]. simpl. destruct (IH (update_certificate x.1 (certificate_status_of x.2 CertRevoked) s)) as (-> & -> & -> & -> & -> & ->). done. Qed.

Lemma run_cop_step op s s' : run_cop op s = Ok s' → cop_step s s'.
Proof.
  intros H. destruct op; simpl in H; try finish_op.
  - unfold invite in E. lean_inv. by apply cop_same.
  - unfold claim in E. lean_inv.
    match goal with H : present (s_contributors ?s1 !! ?n) = false |- context [mkContributor ?a ?b ?c ?d ?e ?f] =>
      eapply (cop_put _ _ n (mkContributor a b c d e f)); try done;
      intros c0 Hc0; change (s_contributors s1) with (s_contributors s) in H; by rewrite Hc0 in H end.
  - unfold begin_issue in E. lean_inv. by apply cop_same.
  - unfold issued in E. lean_inv. by apply cop_same.
  - injection H as <-. unfold failed. destruct (s_requests s !! i); [|by apply cop_same].
    case_bool_decide; by apply cop_same.
  - unfold activate in E. apply bind_Ok in E as ([[i n] c] & Ha & E).
    apply authenticate_Ok in Ha as (Hc & -> & Hn & _). split_if; [lean_inv; by apply cop_same|]. lean_inv.
    destruct (revoke_all_tables (others_of (ct_node_id c) (Some f) s) s) as (? & ? & ? & ? & ? & Hcs).
    eapply (cop_put _ _ (ct_node_id c) n (with_node_revision n (c_disabled n))); try done; [|congruence].
    intros k. change (s_contributors (audit ?a ?b ?c ?d ?e ?s)) with (s_contributors s).
    rewrite (update_contributor_lookup _ n);
      unfold update_certificate; cbn [s_contributors with_certificates]; rewrite Hcs; [done|exact Hn].
  - unfold rotation in E. lean_inv.
    match goal with H : match ?o with Some _ => _ | None => _ end = Ok _ |- _ => destruct o end; lean_inv;
      by apply cop_same.
  - unfold disable, own_node in E. lean_inv.
    match goal with H : contributor s i = Ok ?n |- _ => apply contributor_Ok in H; rename n into node; rename H into Hn end.
    match goal with |- context [revoke_all ?l ?s1] =>
      destruct (revoke_all_tables l s1) as (? & ? & ? & ? & ? & Hcs); set (s2 := revoke_all l s1) in * end.
    eapply (cop_put _ _ i node (with_node_revision node true)); try done; [|congruence].
    intros k. change (s_contributors (audit ?a ?b ?c ?d ?e ?s)) with (s_contributors s).
    rewrite Hcs. by apply update_contributor_lookup with node.
  - unfold remove, own_node in E. lean_inv.
    match goal with H : retained_for_node _ _ = false |- _ => pose proof (retained_false _ _ H) as Hret end.
    split; try done.
    + intros k o Hk. change (s_nodes (audit ?a ?b ?c ?d ?e ?s)) with (s_nodes s) in Hk.
      cbn [s_nodes with_nodes with_contributors] in Hk. apply lookup_delete_Some in Hk as [Hne Hk]. split; [done|].
      change (s_contributors (audit ?a ?b ?c ?d ?e ?s)) with (s_contributors s).
      cbn [s_contributors with_contributors with_nodes with_invitations with_certificates with_requests].
      by rewrite lookup_delete_ne.
    + intros k c Hc. destruct (decide (k = i)) as [->|Hne]; [by right|left]. exists c. split; [|done].
      change (s_contributors (audit ?a ?b ?c ?d ?e ?s)) with (s_contributors s).
      cbn [s_contributors with_contributors with_nodes with_invitations with_certificates with_requests].
      by rewrite lookup_delete_ne.
Qed.

(** A contributor operation is a change the workload records allow. *)
Lemma run_cop_other op s s' : RecordsProps.wf s → run_cop op s = Ok s' → other s s'.
Proof.
  intros W H. apply run_cop_step in H as [C1 C2 C3 C4 C5 C6]. split; try done.
  - intros i o Ho. destruct (C5 i o Ho) as [Ho' Hp]. split; [done|]. apply Hp. by apply (wf_node s W i o).
  - unfold still. by rewrite C3.
  - unfold still. by rewrite C4.
  - intros i a c Ha Hc. destruct (C6 _ c Hc) as [?|Hno]; [done|]. by destruct (Hno i a Ha).
Qed.
End props.
