(* ===== verification/DatabaseProps.v ===== *)
(** * One database, three writers

    Workload records, contributor enrollment and identities share the store.
    [dop] is an operation of any of them.  The frame lemmas say which tables an
    operation leaves alone; with the invariants of the three components they give
    the invariant of every interleaving. *)

From Stdlib Require Import SpecFloat.
From S2P Require Import Prelude Float64 Sha256 Json Spec Offer Samples Wire WorkloadSchema Database.
From S2P Require Import Records NodeRecords RecordsProps WorkloadSamples Identity IdentityProps Contributors ContributorProps.
Import Records.

(** ** Frames *)

(** The tables of enrollment and of credentials. *)
Definition foreign (s : store) := (s_certificates s, s_contributors s, s_credentials s).

Lemma foreign_audited now action j target outcome s :
  foreign (audited now action j target outcome s) = foreign s.
Proof. reflexivity. Qed.

Lemma foreign_save_job now j s r : save_job now j s = Ok r → foreign r.1 = foreign s.
Proof. unfold save_job. intros H. lean_inv. reflexivity. Qed.

Lemma foreign_save_attempt now a s r : save_attempt now a s = Ok r → foreign r.1 = foreign s.
Proof. unfold save_attempt. intros H. lean_inv. reflexivity. Qed.

Lemma foreign_insert_attempt a s s' : insert_attempt a s = Ok s' → foreign s' = foreign s.
Proof. unfold insert_attempt. intros H. lean_inv. reflexivity. Qed.

Lemma foreign_observed w j a text moved cleaned s :
  foreign (observed_audit w j a text moved cleaned s) = foreign s.
Proof. unfold observed_audit. by destruct moved, cleaned. Qed.

(** Every write of an operation of the records is one of these. *)
Ltac framed :=
  rec_inv;
  repeat (match goal with
          | H : (if ?b then _ else _) = Ok _ |- _ => destruct b
          | H : match ?o with Some _ => _ | None => _ end = Ok _ |- _ => destruct o
          end; rec_inv);
  repeat match goal with
  | H : save_job _ _ _ = Ok _ |- _ => apply foreign_save_job in H; cbn [fst] in H
  | H : save_attempt _ _ _ = Ok _ |- _ => apply foreign_save_attempt in H; cbn [fst] in H
  | H : insert_attempt _ _ = Ok _ |- _ => apply foreign_insert_attempt in H
  end;
  rewrite ?foreign_audited, ?foreign_observed;
  repeat match goal with H : foreign _ = foreign _ |- _ => first [rewrite H; clear H | clear H] end;
  try reflexivity.

Lemma run_op_foreign op s s' : run_op op s = Ok s' → foreign s' = foreign s.
Proof.
  intros H. destruct op; simpl in H; try finish_op.
  - unfold submit in E. destruct (keyed s d key); lean_inv; [done|].
    unfold insert_job in *. by lean_inv.
  - unfold reserve in E. framed.
  - unfold observation in E. framed.
  - unfold transition in E. framed.
  - unfold renew in E. framed.
  - unfold cancel in E. framed.
  - unfold retry in E. framed.
  - unfold pending in E. framed.
  - unfold abandon in E. framed.
  - unfold remove in E. framed.
  - unfold Nodes.save in E. by lean_inv.
  - by injection H as <-.
Qed.

(** Enrollment writes no credential. *)
Lemma revoke_all_credentials l s : s_credentials (Contributors.revoke_all l s) = s_credentials s.
Proof. revert s. induction l as [|x l IH]; intros s; [done|]. simpl. by rewrite IH. Qed.

Section interleaving.
Context (st : ContributorSettings) (request_key : string → string → res string).
Context (external_check : option (string → string → res unit)).

Lemma run_cop_credentials op s s' : run_cop st request_key op s = Ok s' → s_credentials s' = s_credentials s.
Proof.
  intros H. destruct op; simpl in H; try finish_op.
  - unfold Contributors.invite in E. by lean_inv.
  - unfold Contributors.claim in E. by lean_inv.
  - unfold Contributors.begin_issue in E. by lean_inv.
  - unfold Contributors.issued in E. by lean_inv.
  - injection H as <-. unfold Contributors.failed. destruct (s_requests s !! i); [|done]. by case_bool_decide.
  - unfold Contributors.activate in E. lean_inv. split_if; lean_inv; [done|]. exact (revoke_all_credentials _ _).
  - unfold Contributors.rotation in E. lean_inv.
    match goal with H : match ?o with Some _ => _ | None => _ end = Ok _ |- _ => destruct o end; by lean_inv.
  - unfold Contributors.disable in E. lean_inv. exact (revoke_all_credentials _ _).
  - unfold Contributors.remove in E. by lean_inv.
Qed.

(** An identity operation: workload and enrollment tables stay, identities and
    projects are never deleted. *)
Record iop_frame (s s' : store) : Prop := {
  if_jobs : s_jobs s' = s_jobs s;
  if_attempts : s_attempts s' = s_attempts s;
  if_nodes : s_nodes s' = s_nodes s;
  if_certificates : s_certificates s' = s_certificates s;
  if_contributors : s_contributors s' = s_contributors s;
  if_users : still (s_users s) (s_users s');
  if_projects : still (s_projects s) (s_projects s') }.

Lemma still_refl {A} (m : gmap string A) : still m m.
Proof. by intros i H. Qed.

Lemma still_insert {A} (m : gmap string A) i x : still m (<[i := x]> m).
Proof. intros k H. destruct (decide (k = i)) as [->|]; [by rewrite lookup_insert_eq|by rewrite lookup_insert_ne]. Qed.

Lemma run_iop_frame op s s' : run_iop external_check op s = Ok s' → iop_frame s s'.
Proof.
  intros H. destruct op; simpl in H; try finish_op.
  - unfold Identities.create in E. lean_inv. destruct k; split; try done; first [apply still_refl|apply still_insert].
  - unfold Identities.update in E. lean_inv.
    destruct k, disabled; split; try done; first [apply still_refl|apply still_insert].
  - unfold Identities.membership in E. lean_inv. destruct scopes; split; try done; apply still_refl.
  - unfold issue in E. lean_inv. unfold insert_credential in *. lean_inv. split; try done; apply still_refl.
  - destruct (resolve_Ok _ _ _ _ _ _ _ _ E) as (c & _ & _ & _ & ->).
    destruct consume; split; try done; apply still_refl.
  - unfold switch_project in E. lean_inv. unfold insert_credential in *. lean_inv. split; try done; apply still_refl.
  - injection H as <-. split; try done; apply still_refl.
  - unfold save_resources in E. lean_inv. split; try done; apply still_refl.
  - injection H as <-. split; try done; apply still_refl.
Qed.

Lemma iop_frame_other s s' : RecordsProps.wf s → iop_frame s s' → other s s'.
Proof.
  intros W [F1 F2 F3 F4 F5 F6 F7]. split; try done.
  - intros i o Ho. rewrite F3 in Ho. split; [done|]. rewrite F5. by apply (wf_node s W i o).
  - intros i a c Ha Hc. rewrite F5. by exists c.
Qed.

(** ** Interleavings *)

Inductive dop := W (op : wop) | C (op : cop) | I (op : iop).

Definition run_dop (op : dop) (s : store) : res store :=
  match op with
  | W op => run_op op s
  | C op => run_cop st request_key op s
  | I op => run_iop external_check op s
  end.

Definition admissible (op : dop) (s : store) : Prop := match op with W op => lawful op s | _ => True end.

Definition dstep (s s' : store) : Prop := ∃ op, admissible op s ∧ run_dop op s = Ok s'.

Record sound (s : store) : Prop := {
  sd_records : RecordsProps.wf s;
  sd_enrolled : enrolled s;
  sd_credentials : unique_digests s }.

Lemma sound_empty : sound empty_store.
Proof.
  split; [apply records_wf_empty|apply enrolled_empty|]. intros i j c d Hc. exfalso. exact (lookup_empty_Some i c Hc).
Qed.

Lemma unique_digests_ext s s' : s_credentials s' = s_credentials s → unique_digests s → unique_digests s'.
Proof. unfold unique_digests. by intros ->. Qed.

Lemma dstep_sound s s' : sound s → dstep s s' → sound s'.
Proof.
  intros [S1 S2 S3] ([op|op|op] & Ha & H); simpl in H, Ha.
  - pose proof (run_op_foreign _ _ _ H) as [= Hc Hn Hd]. split.
    + by apply (run_op_ok op s s').
    + by apply (enrolled_ext s).
    + by apply (unique_digests_ext s).
  - split.
    + eapply other_wf; [exact S1|by eapply run_cop_other].
    + by eapply run_cop_enrolled.
    + by eapply unique_digests_ext; [eapply run_cop_credentials|].
  - pose proof (run_iop_frame _ _ _ H) as F. split.
    + eapply other_wf; [exact S1|by apply iop_frame_other].
    + by apply (enrolled_ext s); [apply F..|].
    + by apply (cs_unique _ _ _ (run_iop_creds _ _ _ _ H)).
Qed.

(** C28: whatever interleaving of workload, enrollment and identity operations has run
    on one database, a check of the whole database accepts the workload records, every
    certificate belongs to a stored contributor, a contributor has at most one
    current certificate and a revoked contributor only revoked ones, and no two
    credentials share a secret. *)
Theorem database_invariant s (H : rtc dstep empty_store s) :
  validate_records false s = Ok tt ∧ enrolled s ∧ unique_digests s.
Proof.
  assert (S : sound s).
  { revert H. generalize sound_empty. generalize empty_store. intros e S0 H.
    revert S0. induction H as [|x y z Hxy _ IH]; [done|]. intros S0. apply IH. by apply (dstep_sound x y). }
  split_and!; [apply validate_wf|..]; apply S.
Qed.

End interleaving.

(** ** The theorem at a concrete interleaving *)

Definition enrollment_settings : ContributorSettings := mkContributorSettings 86400 600 30 10 8.

(** A request parser that takes the text of a request for its key. *)
Definition sample_key_of (csr node : string) : res string := Ok csr.

Definition sample_actor : Principal :=
  mkPrincipal first_id "Laptop" ["contributors:manage"] None "csrf" Session (at_time 3600) None
    member_id space_id [] [].

Definition sample_secret (c : ascii) : string := String.concat "" (repeat (String c EmptyString) 43).

(** The request as issuance left it. *)
Definition pending_request (s : store) : Request :=
  default (mkRequest "" "" "" "" Enroll None RequestFailed (at_time 0) 0 None) (s_requests s !! id_of "6").

Definition run_dop_with := run_dop enrollment_settings sample_key_of None.

(** Run admissible operations in order. *)
Fixpoint run_dops (ops : list (store → dop)) (s : store) : res store :=
  match ops with
  | [] => Ok s
  | op :: ops =>
      raise_if (match op s with W o => negb (lawfulb o s) | _ => false end) (OtherError "unlawful") ;;
      s' ← run_dop_with (op s) s; run_dops ops s'
  end.

Lemma run_dops_steps ops s s' :
  run_dops ops s = Ok s' → rtc (dstep enrollment_settings sample_key_of None) s s'.
Proof.
  revert s. induction ops as [|op ops IH]; intros s H; simpl in H; lean_inv; [done|].
  eapply rtc_l; [|by apply IH]. exists (op s). split; [|done].
  destruct (op s) as [o|o|o]; [|done..]. simpl. apply lawfulb_lawful. by destruct (lawfulb o s).
Qed.

(** A user signs up and submits a workload; a contributor is invited, claims the
    invitation, is issued a certificate, activates it, and is revoked. *)
Definition enrollment : list (store → dop) :=
  map (fun op s => I op) sign_up ++
  [fun _ => W submit_a;
   fun _ => C (CInvite (tokens_at 5 [sample_secret "s"; id_of "7"; id_of "2"]) "Node" Voluntary sample_actor);
   fun _ => C (CClaim (tokens_at 6 [sample_secret "r"; id_of "6"]) (sample_secret "s") "csr" (id_of "2"));
   fun _ => C (CBeginIssue (tokens_at 7 []) (id_of "6") "csr" 1 (Some sample_actor));
   fun s => C (CIssued (tokens_at 8 []) (id_of "6") (pending_request s) "fingerprint"
                 (mkCertificate (id_of "2") (id_of "6") "csr" (at_time 0) (at_time 4000) "chain" CertPending));
   fun _ => C (CActivate (tokens_at 9 []) "fingerprint")].

Definition revocation (s : store) : dop := C (CDisable (tokens_at 10 []) (id_of "2") 2 sample_actor).

Definition status_of (s : store) : option certificate_status :=
  ct_status <$> s_certificates s !! "fingerprint".

Lemma database_invariant_witness :
  ∃ s s', run_dops enrollment empty_store = Ok s ∧ status_of s = Some CertCurrent
    ∧ run_dops (enrollment ++ [revocation]) empty_store = Ok s' ∧ status_of s' = Some CertRevoked
    ∧ validate_records false s' = Ok tt ∧ enrolled s' ∧ unique_digests s'.
Proof.
  destruct (is_ok_Ok (run_dops enrollment empty_store)) as [s E]; [vm_compute; reflexivity|].
  destruct (is_ok_Ok (run_dops (enrollment ++ [revocation]) empty_store)) as [s' E']; [vm_compute; reflexivity|].
  exists s, s'. split; [exact E|]. split.
  { assert (Hs : status_of <$> run_dops enrollment empty_store = Ok (Some CertCurrent)) by (vm_compute; reflexivity).
    rewrite E in Hs. exact (Ok_inj _ _ Hs). }
  split; [exact E'|]. split.
  { assert (Hs : status_of <$> run_dops (enrollment ++ [revocation]) empty_store = Ok (Some CertRevoked))
      by (vm_compute; reflexivity).
    rewrite E' in Hs. exact (Ok_inj _ _ Hs). }
  exact (database_invariant enrollment_settings sample_key_of None s' (run_dops_steps _ _ _ E')).
Defined.
