(* ===== verification/PolicyPackages.v ===== *)
(** * Signed policy packages

    [policy_packages.py]: the manifest rules, the archive rules and the signature
    check.  The readers of the standard library that turn bytes into JSON and into
    archive members, and the external [ssh-keygen], are arguments; a number that is
    not an integer is no value of [json], and every field that could hold one must
    be a text, an integer or a container. *)

From Stdlib Require Import SpecFloat.
From S2P Require Import Prelude Float64 Sha256 Json Spec Protocol Wire WorkloadSchema Database Identity.

(** ** Text *)

Definition ends_with (p s : string) : bool := starts_with (rev_string p "") (rev_string s "").

(** [s.split ()]. *)
Fixpoint words_from (s : string) (word : string) : list string :=
  match s with
  | EmptyString => if bool_decide (word = "") then [] else [rev_string word ""]
  | String c s =>
      if is_space c then (if bool_decide (word = "") then [] else [rev_string word ""]) ++ words_from s ""
      else words_from s (String c word)
  end.
Definition words (s : string) : list string := words_from s "".

Definition text_of (bytes : list Z) : string :=
  String.string_of_list_ascii (map (fun b => ascii_of_N (Z.to_N b)) bytes).

(** [s.rstrip (c)]. *)
Definition rstrip_char (c : ascii) (s : string) : string :=
  let fix drop (s : string) : string :=
    match s with String d r => if Ascii.eqb c d then drop r else s | EmptyString => s end in
  rev_string (drop (rev_string s "")) "".

Module Packages.

Definition MAX_ARCHIVE : Z := 512 * 1024.
Definition MAX_PAYLOAD : Z := 8 * 1024 * 1024.
Definition NAMESPACE : string := "ficc-policy-v1".

(** [IDENTIFIER] and [identifier]. *)
Definition is_identifier (s : string) : bool :=
  leading is_lower (fun c => is_lower c || is_digit c || one_of "_-" c) 63 s.
Definition identifier (s : string) : res string :=
  raise_if (negb (is_identifier s))
    (ValueError "Use a policy identifier with lowercase letters, digits, underscores, or hyphens.") ;;
  Ok s.

Definition str (j : json) (e : exn) : res string := match j with JStr s => Ok s | _ => Err e end.

(** [identifier] of an untyped value. *)
Definition identifier_value (j : json) : res string :=
  s ← str j (ValueError "Use a policy identifier with lowercase letters, digits, underscores, or hyphens.");
  identifier s.

(** [text]. *)
Definition text (j : json) (maximum : Z) : res unit :=
  let e := ValueError "A policy label or version is invalid." in
  s ← str j e;
  raise_if (negb (length_between 1 maximum s && all_chars (fun c => (32 <=? N_of_ascii c)%N) s)) e.

(** [pairs], at every object of a document. *)
Fixpoint unique_fields (j : json) : bool :=
  match j with
  | JArr l => forallb unique_fields l
  | JObj l => distinct l.*1 && forallb (fun x => unique_fields x.2) l
  | _ => true
  end.

(** [set (value) == fields], for an object with distinct keys. *)
Definition has_fields (l : list (string * json)) (fields : list string) : bool :=
  (length l =? length fields)%nat && forallb (fun f => bool_decide (f ∈ l.*1)) fields.

Definition field (l : list (string * json)) (f : string) : json :=
  match List.find (fun x => bool_decide (x.1 = f)) l with Some x => x.2 | None => JNull end.

(** [public_key]: the key without its comment, and its fingerprint. *)
Definition public_key (value : string) : res (string * string) :=
  let e := ValueError "Select one Ed25519 public key." in
  raise_if ((1024 <? Z.of_nat (String.length value))%Z || contains_char "010" (strip value)) e ;;
  match words (strip value) with
  | kind :: key :: _ =>
      raise_if (negb (bool_decide (kind = "ssh-ed25519"))) e ;;
      raw ← some_or (b64decode key) (ValueError "The policy public key is invalid.");
      let header := text_of [0; 0; 0; 11]%Z +:+ "ssh-ed25519" +:+ text_of [0; 0; 0; 32]%Z in
      raise_if (negb (starts_with header raw) || negb (String.length raw =? 51)%nat)
        (ValueError "The policy public key is invalid.") ;;
      Ok ("ssh-ed25519 " +:+ key,
          "SHA256:" +:+ rstrip_char "=" (b64encode (text_of (sha256 (bytes_of raw)))))
  | _ => Err e
  end.

(** [payload_path]. *)
Definition word_char (c : ascii) : bool := alnum c || one_of "_-" c.
Definition payload_path (name : string) : res string :=
  raise_if ((160 <? Z.of_nat (String.length name))%Z || starts_with "/" name
            || negb (forallb (leading word_char (fun c => word_char c || Ascii.eqb c ".") 160) (split_on "/" name))
            || negb (ends_with ".rego" name || ends_with ".json" name))
    (ValueError "A policy payload path is invalid.") ;;
  Ok name.

(** One role of the manifest, and the identifiers before it. *)
Definition role (seen : list string) (j : json) : res (list string) :=
  match j with
  | JObj l =>
      raise_if (negb (has_fields l ["id"; "label"; "description"]))
        (ValueError "A policy role description is invalid.") ;;
      key ← identifier_value (field l "id");
      text (field l "label") 80 ;;
      text (field l "description") 400 ;;
      raise_if (bool_decide (key ∈ seen)) (ValueError "Policy role identifiers must be distinct.") ;;
      Ok (key :: seen)
  | _ => Err (ValueError "A policy role description is invalid.")
  end.

(** One declared file. *)
Definition declared (x : string * json) : res unit :=
  payload_path x.1 ;;
  d ← str x.2 (ValueError "A policy payload digest is invalid.");
  raise_if (negb (hex_digest d)) (ValueError "A policy payload digest is invalid.").

Definition manifest_fields : list string :=
  ["format"; "version"; "id"; "release"; "publisher"; "decision_api"; "roles"; "files"].

(** [manifest]: the publisher and the declared files, in the manifest's order. *)
Definition manifest (value : json) : res (string * list (string * string)) :=
  let unsupported := ValueError "The policy package format is not supported." in
  match value with
  | JObj l =>
      raise_if (negb (has_fields l manifest_fields)
                || negb (bool_decide (field l "format" = JStr "ficc-policy"))
                || negb (bool_decide (field l "version" = JInt 1))
                || negb (bool_decide (field l "decision_api" = JInt 1))) unsupported ;;
      identifier_value (field l "id") ;;
      publisher ← identifier_value (field l "publisher");
      text (field l "release") 80 ;;
      (match field l "roles" with
       | JArr roles =>
           raise_if (negb ((1 <=? length roles)%nat && (length roles <=? 64)%nat))
             (ValueError "A policy package must describe its roles.") ;;
           foldM role [] roles ;; Ok tt
       | _ => Err (ValueError "A policy package must describe its roles.")
       end) ;;
      (match field l "files" with
       | JObj files =>
           raise_if (negb ((1 <=? length files)%nat && (length files <=? 64)%nat
                           && existsb (fun x => ends_with ".rego" x.1) files))
             (ValueError "A policy package must contain a declared policy.") ;;
           forM_ declared files ;;
           l ← mapM (fun x => d ← str x.2 unsupported; Ok (x.1, d)) files;
           Ok (publisher, l)
       | _ => Err (ValueError "A policy package must contain a declared policy.")
       end)
  | _ => Err unsupported
  end.

(** ** Archives *)

(** A member of the archive: [ZipInfo] with what reading it one byte past its
    declared size returns. *)
Record Member := mkMember {
  m_filename : string; m_size : Z; m_flags : Z; m_attributes : Z; m_data : option string }.

(** [stat.S_IFMT (external_attr >> 16)]; 61440 is 0o170000 and 32768 [S_IFREG]. *)
Definition member_type (m : Member) : Z := Z.land (Z.shiftr (m_attributes m) 16) 61440.

Definition member_refused (m : Member) : bool :=
  ends_with "/" (m_filename m) || Z.testbit (m_flags m) 0 || (m_size m <? 0)%Z
  || negb (bool_decide (member_type m ∈ [0; 32768]%Z)).

Definition archive_invalid : exn := ValueError "The policy archive is invalid.".

(** [archive.getinfo] and the local [read]. *)
Definition getinfo (l : list Member) (n : string) : res Member :=
  some_or (List.find (fun m => bool_decide (m_filename m = n)) l) archive_invalid.
Definition read_member (l : list Member) (n : string) : res string :=
  m ← getinfo l n;
  d ← some_or (m_data m) archive_invalid;
  raise_if (negb (Z.of_nat (String.length d) =? m_size m)%Z) (ValueError "A policy member has an invalid size.") ;;
  Ok d.

Definition content_digest (data : string) : string := hex (sha256 (bytes_of data)).

Section packages.
(** [json.loads] on bytes and [zipfile.ZipFile (...).infolist ()]. *)
Context (loads : string → option json) (unzip : string → option (list Member)).
(** [ssh-keygen -Y verify] with the signers file, identity, namespace, signature
    and signed text: whether it accepts, or fails to run. *)
Context (keygen : string → string → string → string → string → res bool).

(** [decode]. *)
Definition decode (raw : string) : res json :=
  j ← some_or (loads raw) (ValueError "Policy JSON is invalid.");
  raise_if (negb (unique_fields j)) (ValueError "Policy JSON contains a duplicate field.") ;;
  Ok j.

Record Inspected := mkInspected {
  in_value : json; in_publisher : string; in_signed : string; in_signature : string;
  in_payload : list (string * string) }.

(** [inspect]. *)
Definition inspect (raw : string) : res Inspected :=
  raise_if (negb (length_between 1 MAX_ARCHIVE raw)) (ValueError "The policy archive exceeds its size limit.") ;;
  members ← some_or (unzip raw) archive_invalid;
  let names := map m_filename members in
  raise_if (negb (distinct names) || negb ((3 <=? length names)%nat && (length names <=? 66)%nat)
            || (MAX_PAYLOAD <? sumZ m_size members)%Z || existsb member_refused members)
    (ValueError "The policy archive member set is invalid.") ;;
  m ← getinfo members "manifest.json";
  raise_if (65536 <? m_size m)%Z (ValueError "The policy signature or manifest exceeds its limit.") ;;
  m ← getinfo members "manifest.sig";
  raise_if (8192 <? m_size m)%Z (ValueError "The policy signature or manifest exceeds its limit.") ;;
  signed ← read_member members "manifest.json";
  value ← decode signed;
  '(publisher, files) ← manifest value;
  let expected := ["manifest.json"; "manifest.sig"] ++ map (fun x => "payload/" +:+ x.1) files in
  raise_if (negb (forallb (fun n => bool_decide (n ∈ expected)) names
                  && forallb (fun n => bool_decide (n ∈ names)) expected))
    (ValueError "Every policy archive member must be declared.") ;;
  payload ← mapM (fun x =>
    data ← read_member members ("payload/" +:+ x.1);
    raise_if (negb (bool_decide (content_digest data = x.2)))
      (ValueError "A policy payload digest does not match.") ;;
    Ok (x.1, data)) files;
  signature ← read_member members "manifest.sig";
  Ok (mkInspected value publisher signed signature payload).

(** The line of the signers file. *)
Definition signers (publisher key : string) : string :=
  publisher +:+ " namespaces=" +:+ String quote (NAMESPACE +:+ String quote (" " +:+ key +:+ String "010" EmptyString)).

(** [verify]: the value, the fingerprint and the payload. *)
Definition verify (raw key : string) : res (Inspected * string) :=
  i ← inspect raw;
  '(key, fingerprint) ← public_key key;
  accepted ← keygen (signers (in_publisher i) key) (in_publisher i) NAMESPACE (in_signature i) (in_signed i);
  raise_if (negb accepted) (ValueError "The policy signature does not match its trusted publisher.") ;;
  Ok (i, fingerprint).

End packages.
End Packages.
