(* ===== verification/Policy.v ===== *)
(** * The policy store and its enforcement

    [policy_store.py] (publishers, packages, role bindings, activation), the
    decision envelope of [policy_provider.py] and the enforcement of
    [policies.py].  The evaluator an installed driver prepares is an argument: its
    preparation, each evaluation and its close.  Evaluation runs outside code
    under the store's lock, so [check_many] takes the database before and after
    it.  Previews, which decide nothing, are not modelled. *)

From Stdlib Require Import SpecFloat.
From S2P Require Import Prelude Float64 Sha256 Json Spec Protocol Wire WorkloadSchema Database Identity PolicyPackages.
Import Packages.

Module PolicyStore.

(** [role_ids]. *)
Definition role_ids (roles : list string) : res (list string) :=
  raise_if (64 <? length roles)%nat (ValueError "Select at most 64 distinct policy roles.") ;;
  forM_ (fun r => identifier r ;; Ok tt) roles ;;
  raise_if (negb (distinct roles)) (ValueError "Select distinct policy roles.") ;;
  Ok (merge_sort String.le roles).

(** [bump]. *)
Definition bump (s : store) : res store :=
  p ← policy_state s;
  r ← revision_value (ps_revision p);
  Ok (with_policy s (mkPolicy (r + 1) (ps_required p) (ps_active p) (ps_previous p) (ps_history p))).

(** A row of [publishers]. *)
Record PublisherView := mkPublisherView {
  pv_id : string; pv_public_key : string; pv_fingerprint : string; pv_enabled : bool; pv_revision : Z }.

#[global] Instance PublisherView_eq_dec : EqDecision PublisherView.
Proof. solve_decision. Defined.

Definition view (x : string * Publisher) : res PublisherView :=
  '(_, fingerprint) ← public_key (pu_public_key x.2);
  Ok (mkPublisherView x.1 (pu_public_key x.2) fingerprint (pu_enabled x.2) (pu_revision x.2)).

Definition publishers (s : store) : res (list PublisherView) := mapM view (rows (s_publishers s)).

Definition find_publisher (i : string) (l : list PublisherView) : option PublisherView :=
  List.find (fun v => bool_decide (pv_id v = i)) l.

(** [publisher]. *)
Definition publisher (s : store) (i : string) : res PublisherView :=
  identifier i ;;
  l ← publishers s;
  match find_publisher i l with
  | Some v => if pv_enabled v then Ok v
              else Err (Failure "policy_publisher_untrusted" "The policy publisher is not trusted." 403)
  | None => Err (Failure "policy_publisher_untrusted" "The policy publisher is not trusted." 403)
  end.

(** [trust]. *)
Definition trust (i key : string) (enabled : bool) (expected : Z) (s : store) : res (store * PublisherView) :=
  identifier i ;;
  '(key, _) ← public_key key;
  revision_value expected ;;
  l ← publishers s;
  let old := find_publisher i l in
  raise_if (negb ((match old with Some v => pv_revision v | None => 0 end) =? expected)%Z)
    (refused "revision_conflict" "Publisher trust changed. Reload it before saving.") ;;
  raise_if (match old with Some v => negb (bool_decide (pv_public_key v = key)) | None => false end)
    (refused "policy_key_changed" "Use a new publisher identifier for a different key.") ;;
  raise_if (negb (present old) && (64 <=? length l)%nat)
    (refused "capacity" "The policy publisher limit was reached.") ;;
  let row := match s_publishers s !! i with
             | Some p => mkPublisher (pu_public_key p) enabled (expected + 1)
             | None => mkPublisher key enabled (expected + 1)
             end in
  s ← bump (with_publishers s (<[i := row]> (s_publishers s)));
  v ← view (i, row);
  Ok (s, v).

Section packages.
Context (loads : string → option json) (unzip : string → option (list Member)).
Context (keygen : string → string → string → string → string → res bool).

(** [package]: the inspected package and its publisher. *)
Definition package (s : store) (d : string) : res (Inspected * PublisherView) :=
  raise_if (negb (hex_digest d)) (ValueError "The policy package digest is invalid.") ;;
  row ← some_or (s_packages s !! d) (not_found "The policy package was not found.");
  let raw := pk_archive row in
  raise_if (negb (bool_decide (content_digest raw = d)))
    (refused "policy_changed" "The stored policy package does not match its digest.") ;;
  i ← inspect loads unzip raw;
  v ← publisher s (in_publisher i);
  '(i, _) ← verify loads unzip keygen raw (pv_public_key v);
  Ok (i, v).

(** [install]; [s0] is the database when the signature was checked. *)
Definition install (w : sampling) (raw : string) (s0 s : store) : res (store * string) :=
  i ← inspect loads unzip raw;
  v ← publisher s0 (in_publisher i);
  verify loads unzip keygen raw (pv_public_key v) ;;
  let d := content_digest raw in
  v' ← publisher s (in_publisher i);
  raise_if (negb (bool_decide (v' = v)))
    (refused "revision_conflict" "Publisher trust changed during package inspection.") ;;
  if present (s_packages s !! d) then Ok (s, d)
  else
    raise_if (64 <=? size (s_packages s))%nat (refused "capacity" "The policy package limit was reached.") ;;
    Ok (with_packages s (<[d := mkPackage (in_publisher i) (in_value i) raw (time w 0)]> (s_packages s)), d).
End packages.

(** [bindings], [roles]. *)
Definition bindings (s : store) (project : string) : res (list (string * Binding)) :=
  Identities.project s project ;;
  mapM (fun x => l ← role_ids (bi_roles x.2); Ok (x.1, mkBinding l (bi_revision x.2)))
    (merge_sort key_le (map (fun x => (x.1.2, x.2))
       (List.filter (fun x => bool_decide (x.1.1 = project)) (map_to_list (s_bindings s))))).

Definition roles (s : store) (project subject : string) : res (list string) :=
  match s_bindings s !! (project, subject) with
  | Some b => role_ids (bi_roles b)
  | None => Ok []
  end.

(** [bind]. *)
Definition bind (project subject : string) (l : list string) (expected : Z) (s : store)
    : res (store * Binding) :=
  l ← role_ids l;
  revision_value expected ;;
  Identities.access s subject project ;;
  bindings s project ;;
  let old := s_bindings s !! (project, subject) in
  raise_if (negb ((match old with Some b => bi_revision b | None => 0 end) =? expected)%Z)
    (refused "revision_conflict" "Policy roles changed. Reload them before saving.") ;;
  raise_if (negb (present old) && (4096 <=? Z.of_nat (size (s_bindings s)))%Z)
    (refused "capacity" "The policy role binding limit was reached.") ;;
  let new := mkBinding l (expected + 1) in
  s ← bump (with_bindings s (<[(project, subject) := new]> (s_bindings s)));
  Ok (s, new).

(** [activate]. *)
Definition activate (d : string) (expected : Z) (s : store) : res (store * PolicyState) :=
  p ← policy_state s;
  r ← revision_value expected;
  raise_if (negb (ps_revision p =? r)%Z)
    (refused "revision_conflict" "Policy state changed. Reload it before activation.") ;;
  let history := ps_history p ++ [((r + 1)%Z, d)] in
  new ← state_value (mkPolicy (r + 1) true (Some d) (ps_active p)
                       (drop (length history - 64) history));
  Ok (with_policy s new, new).

End PolicyStore.

(** ** The decision envelope *)

Module PolicyProvider.

Definition MAX_ENVELOPE : Z := 256 * 1024.

Record Request := mkRequest {
  q_id : string; q_action : string; q_authority : list (string * json); q_labels : list (string * json) }.

Definition request_dump (q : Request) : json :=
  JObj [("id", JStr (q_id q)); ("action", JStr (q_action q)); ("authority", JObj (q_authority q));
        ("labels", JObj (q_labels q))].

(** [envelope]: the size is that of [json.dumps] without sorting. *)
Definition envelope (l : list Request) (revision : Z) : res json :=
  raise_if (negb ((1 <=? length l)%nat && (length l <=? 64)%nat))
    (ValueError "Select from one to 64 policy decisions.") ;;
  let value := JObj [("version", JInt 1); ("revision", JInt revision); ("requests", JArr (map request_dump l))] in
  raise_if (MAX_ENVELOPE <? Z.of_nat (String.length (print (JObj [("input", value)]) "")))%Z
    (ValueError "The complete policy request exceeds 256 KiB. Reduce the batch or its labels.") ;;
  Ok value.

Record Decision := mkDecision { d_id : string; d_allow : bool; d_reason : string }.

Definition reason_text (s : string) : bool :=
  leading is_lower (fun c => is_lower c || is_digit c || one_of "_.-" c) 79 s.

(** One decision of a reply, for the request it answers. *)
Definition decision (x : json * Request) : res Decision :=
  let e := ValueError "The policy evaluator returned an invalid decision." in
  match x.1 with
  | JObj l =>
      raise_if (negb (has_fields l ["id"; "allow"; "reason"])) e ;;
      match field l "id", field l "allow", field l "reason" with
      | JStr i, JBool allow, JStr reason =>
          raise_if (negb (bool_decide (i = q_id x.2) && reason_text reason)) e ;;
          Ok (mkDecision i allow reason)
      | _, _, _ => Err e
      end
  | _ => Err e
  end.

(** [evaluate]: the evaluator answers a value, or raises. *)
Definition evaluate (run : json → option json) (l : list Request) (revision : Z) : res (list Decision) :=
  value ← envelope l revision;
  result ← some_or (run value) (ValueError "The trusted policy provider could not evaluate this request.");
  match result with
  | JArr items =>
      raise_if (negb (length items =? length l)%nat)
        (ValueError "The policy evaluator returned an incomplete decision batch.") ;;
      mapM decision (zip items l)
  | _ => Err (ValueError "The policy evaluator returned an incomplete decision batch.")
  end.

End PolicyProvider.

(** ** Enforcement *)

Module Policies.
Import PolicyStore PolicyProvider.

Section service.
(** The evaluator a driver prepares; preparing it from a payload, asking it, and
    closing it. *)
Context {R : Type} (driver : list (string * string) → res R) (run : R → json → option json).
Context (loads : string → option json) (unzip : string → option (list Member)).
Context (keygen : string → string → string → string → string → res bool).
Context (external_check : option (string → string → res unit)).

(** [Prepared]: the payload it was made from, and the evaluator until it is closed. *)
Record Prepared := mkPrepared { pp_payload : list (string * string); pp_runner : option R }.

Record policies := mkPolicies {
  po_prepared : option Prepared; po_digest : option string; po_publisher : option PublisherView;
  po_error : bool; po_retired : list Prepared; po_required : bool }.

Definition with_error (p : policies) : policies :=
  mkPolicies (po_prepared p) (po_digest p) (po_publisher p) true (po_retired p) (po_required p).
Definition with_retired (p : policies) (l : list Prepared) : policies :=
  mkPolicies (po_prepared p) (po_digest p) (po_publisher p) (po_error p) l (po_required p).
Definition without_prepared (p : policies) : policies :=
  mkPolicies None (po_digest p) (po_publisher p) (po_error p) (po_retired p) (po_required p).

Definition probe (i : string) : Request :=
  mkRequest i "policy:probe"
    [("local_owner", JBool false); ("roles", JArr []); ("scopes", JArr []);
     ("contributor_enforcement", JBool false)] [].

(** [Prepared (state, payload)]: the driver, then one decision. *)
Definition prepared (i : string) (payload : list (string * string)) : res Prepared :=
  r ← driver payload;
  evaluate (run r) [probe i] 0 ;;
  Ok (mkPrepared payload (Some r)).

(** [decisions], with the state of the policy and the evaluator a preview may pass. *)
Definition decisions (p : policies) (s : store) (l : list Request) (st : PolicyState)
    (candidate : option Prepared) : policies * res (list Decision) :=
  match envelope l (ps_revision st) with
  | Err e => (p, Err e)
  | Ok _ =>
      let answer :=
        r ← some_or (c ← match candidate with Some c => Some c | None => po_prepared p end; pp_runner c)
              (ValueError "No prepared evaluator");
        match candidate with
        | Some _ => Ok tt
        | None =>
            raise_if (po_error p || negb (bool_decide (po_digest p = ps_active st)))
              (ValueError "The active publisher or package changed") ;;
            v ← some_or (po_publisher p) (ValueError "The active publisher or package changed");
            v' ← publisher s (pv_id v);
            raise_if (negb (bool_decide (v = v'))) (ValueError "The active publisher or package changed")
        end ;;
        evaluate (run r) l (ps_revision st) in
      match answer with
      | Ok d => (p, Ok d)
      | Err e =>
          if is_value_error e || is_os_error e || match e with Failure _ _ _ => true | _ => false end then
            (match candidate with None => with_error p | Some _ => p end,
             Err (Failure "policy_unavailable" "The required policy evaluator is unavailable. Access is denied." 503))
          else (p, Err e)
      end
  end.

(** [authority]: the fields a decision is asked about. *)
Definition optional (o : option string) : json := match o with Some s => JStr s | None => JNull end.

Definition authority (s : store) (a : Principal) (node root : option string) : res (list (string * json)) :=
  l ← roles s (pr_project_id a) (pr_subject_id a);
  Ok [("subject_id", JStr (pr_subject_id a)); ("project_id", JStr (pr_project_id a));
      ("credential_id", JStr (pr_id a)); ("local_owner", JBool (local_owner a));
      ("roles", strings_json l); ("scopes", strings_json (pr_scopes a));
      ("node_id", optional node); ("root_id", optional root);
      ("contributor_enforcement", JBool false)].

(** [list (dict.fromkeys (l))]. *)
Fixpoint uniq {A} `{EqDecision A} (l : list A) : list A :=
  match l with
  | [] => []
  | x :: l => x :: List.filter (fun y => negb (bool_decide (y = x))) (uniq l)
  end.

Definition requirement : Type := string * option string * option string.

Definition host_permits (a : Principal) (r : requirement) : res unit := require_host a r.1.1 r.1.2 r.2.

(** The batches of at most 64, in order, up to the first failure. *)
Fixpoint decide_all (p : policies) (s : store) (st : PolicyState) (batches : list (list Request))
    : policies * res (list Decision) :=
  match batches with
  | [] => (p, Ok [])
  | b :: batches =>
      match decisions p s b st None with
      | (p, Err e) => (p, Err e)
      | (p, Ok d) => match decide_all p s st batches with
                     | (p, Ok ds) => (p, Ok (d ++ ds))
                     | (p, Err e) => (p, Err e)
                     end
      end
  end.

(** The requests of [check_many] for an authority. *)
Definition asked (w : sampling) (s : store) (a : Principal) (l : list requirement) : res (list Request) :=
  mapM (fun x => au ← authority s a x.2.1.2 x.2.2; Ok (mkRequest (token w x.1) x.2.1.1 au []))
    (zip (seq 0 (length l)) l).

Definition policy_changed (text : string) : exn := refused "policy_changed" text.

(** [check_many]; the evaluation takes the database from [s] to [s']. *)
Definition check_many (w : sampling) (p : policies) (i : string) (requirements : list requirement)
    (s s' : store) : policies * res unit :=
  let selected := uniq requirements in
  match selected with
  | [] => (p, Ok tt)
  | _ =>
      match
        (current ← Identity.current external_check (time w 0) s i;
         forM_ (host_permits current) selected ;;
         if negb (po_required p) then Ok None
         else
           st ← policy_state s;
           if negb (ps_required st) then Ok None
           else
             au ← authority s current None None;
             l ← asked w s current selected;
             Ok (Some (st, au, l)))
      with
      | Err e => (p, Err e)
      | Ok None => (p, Ok tt)
      | Ok (Some (st, au, l)) =>
          match decide_all p s st (chunks 64 l) with
          | (p, Err e) => (p, Err e)
          | (p, Ok results) =>
              (p,
               fresh ← Identity.current external_check (time w 1) s' i;
               forM_ (host_permits fresh) selected ;;
               au' ← authority s' fresh None None;
               st' ← (if bool_decide (au = au') then policy_state s' else Ok st);
               raise_if (negb (bool_decide (au = au')) || negb (bool_decide (st = st')))
                 (policy_changed "Access changed during policy evaluation. Retry the request.") ;;
               match List.find (fun d => negb (d_allow d)) results with
               | Some d => Err (Failure "policy_denied"
                                  ("The active policy denies this action: " +:+ d_reason d +:+ ".") 403)
               | None => Ok tt
               end)
          end
      end
  end.

(** [check]. *)
Definition check (w : sampling) (p : policies) (i action : string) (node root : option string) (s s' : store)
    : policies * res unit :=
  if negb (po_required p) then (p, Ok tt) else check_many w p i [(action, node, root)] s s'.

(** ** Administration *)

(** [Service.live]: the simulated console changes nothing. *)
Definition live (demo : bool) : res unit :=
  raise_if demo (Failure "demo_read_only" "Live changes are disabled in the simulated console." 403).

(** [owner]. *)
Definition owner (now : float) (s : store) (i : string) : res Principal :=
  v ← Identity.current external_check now s i;
  require_host v "policies:manage" None None ;;
  raise_if (negb (local_owner v) || present (pr_node_ids v) || present (pr_root_ids v))
    (denied "Local owner policy administration is required.") ;;
  Ok v.

(** [event]. *)
Definition event (now : float) (action target outcome : string) (a : Principal) (s : store) : store :=
  audit now ("policy." +:+ action) target outcome (pr_id a) (Some (pr_subject_id a)) (Some (pr_project_id a)) s.

(** [cleanup]: the evaluator is closed, or kept among the retired ones. *)
Definition cleanup (now : float) (closed : bool) (old : Prepared) (a : Principal) (target : string) (p : policies)
    (s : store) : policies * store * res unit :=
  if closed then (p, s, Ok tt)
  else (with_retired (with_error p) (po_retired p ++ [old]),
        event now "cleanup" target "failed" a s,
        Err (Failure "policy_unavailable"
               "Policy cleanup failed. The saved change remains committed. Restart the evaluator to restore access." 503)).

(** [trust]; [closed] is whether the evaluator of the publisher closes. *)
Definition trust (w : sampling) (demo closed : bool) (i key : string) (enabled : bool) (expected : Z) (actor : string)
    (p : policies) (s : store) : policies * store * res unit :=
  match (live demo ;;
         a ← owner (time w 0) s actor;
         '(s', v) ← PolicyStore.trust i key enabled expected s;
         Ok (a, event (time w 1) "publisher" i "success" a s')) with
  | Err e => (p, s, Err e)
  | Ok (a, s) =>
      match po_publisher p, po_prepared p with
      | Some v, Some old =>
          if bool_decide (pv_id v = i) then cleanup (time w 2) closed old a i (without_prepared p) s
          else (p, s, Ok tt)
      | _, _ => (p, s, Ok tt)
      end
  end.

(** [bind]. *)
Definition bind (w : sampling) (demo : bool) (project subject : string) (l : list string) (expected : Z)
    (actor : string) (s : store) : res store :=
  live demo ;;
  a ← owner (time w 0) s actor;
  '(s, _) ← PolicyStore.bind project subject l expected s;
  Ok (event (time w 1) "roles" (project +:+ "/" +:+ subject) "success" a s).

(** [install]. *)
Definition install (w : sampling) (demo : bool) (raw actor : string) (s : store) : res store :=
  live demo ;;
  a ← owner (time w 0) s actor;
  '(s, d) ← PolicyStore.install loads unzip keygen w raw s s;
  Ok (event (time w 1) "install" d "success" a s).

(** The retired evaluators left when one of them does not close. *)
Fixpoint close_retired (closes : nat → bool) (n : nat) (l : list Prepared) : list Prepared :=
  match l with
  | [] => []
  | x :: l => if closes n then close_retired closes (S n) l else x :: l
  end.

(** [activate]; the package is read from [s0] and the change is made in [s]. *)
Definition activate (w : sampling) (demo : bool) (closes : nat → bool) (closed : bool) (d : string)
    (expected : Z) (actor : string) (p : policies) (s0 s : store) : policies * store * res unit :=
  match (live demo ;; owner (time w 0) s0 actor) with
  | Err e => (p, s, Err e)
  | Ok _ =>
      let p := with_retired p (close_retired closes 0 (po_retired p)) in
      match po_retired p with
      | _ :: _ => (p, s, Err (Failure "policy_unavailable" "Complete pending evaluator cleanup before activation." 503))
      | [] =>
          match
            ('(i, v) ← package loads unzip keygen s0 d;
             candidate ← prepared (token w 0) (in_payload i);
             a ← owner (time w 1) s actor;
             v' ← publisher s (in_publisher i);
             raise_if (negb (bool_decide (v' = v)))
               (refused "revision_conflict" "Publisher trust changed during policy preparation.") ;;
             '(s', _) ← PolicyStore.activate d expected s;
             Ok (a, v, candidate, event (time w 2) "activate" d "success" a s'))
          with
          | Err e => (p, s, Err e)
          | Ok (a, v, candidate, s) =>
              let p' := mkPolicies (Some candidate) (Some d) (Some v) false (po_retired p) true in
              match po_prepared p with
              | Some old => cleanup (time w 3) closed old a d p' s
              | None => (p', s, Ok tt)
              end
          end
      end
  end.

(** [Policies.__init__]: the active package is prepared again, or an error kept. *)
Definition start (i : string) (s : store) : res policies :=
  st ← policy_state s;
  let none error := mkPolicies None None None error [] (ps_required st) in
  match ps_active st with
  | None => Ok (none false)
  | Some d =>
      match ('(x, v) ← package loads unzip keygen s d;
             c ← prepared i (in_payload x); Ok (c, v)) with
      | Ok (c, v) => Ok (mkPolicies (Some c) (Some d) (Some v) false [] (ps_required st))
      | Err e => if is_value_error e || is_os_error e || match e with Failure _ _ _ => true | _ => false end
                 then Ok (none true) else Err e
      end
  end.

End service.
End Policies.
