(* ===== verification/PolicyProps.v ===== *)
(** * What enforcement guarantees

    [pop] is one operation on the policy service while the database changes in
    any way between them.  [vouched] is the invariant of the prepared evaluator:
    its payload is that of an archive with the active digest, signed by the
    publisher the service remembers. *)

From Stdlib Require Import SpecFloat.
From S2P Require Import Prelude Float64 Sha256 Json Spec Protocol Wire WorkloadSchema Database Identity IdentityProps PolicyPackages Policy.
Import Packages PolicyStore PolicyProvider Policies.

Section props.
Context {R : Type} (driver : list (string * string) → res R) (run : R → json → option json).
Context (loads : string → option json) (unzip : string → option (list Member)).
Context (keygen : string → string → string → string → string → res bool).
Context (external_check : option (string → string → res unit)).

Notation policies := (@policies R).
Notation Prepared := (@Prepared R).

(** ** Decisions *)

(** An answered request: the evaluator decided exactly its batch, and this
    decision is the one for the request. *)
Definition allowed (r : R) (revision : Z) (q : Request) : Prop :=
  ∃ batch ds d, q ∈ batch ∧ evaluate (run r) batch revision = Ok ds ∧ d ∈ ds
    ∧ d_id d = q_id q ∧ d_allow d = true.

Lemma decision_id j q d : decision (j, q) = Ok d → d_id d = q_id q.
Proof.
  unfold decision. cbn [fst snd]. intros H. destruct j; try done. lean_inv.
  destruct (field l "id"), (field l "allow"), (field l "reason"); try done. lean_inv. done.
Qed.

Lemma evaluate_answers (ev : json → option json) l revision ds q :
  evaluate ev l revision = Ok ds → q ∈ l → ∃ d, d ∈ ds ∧ d_id d = q_id q.
Proof.
  unfold evaluate. intros H Hq. lean_inv. destruct x0; try done. lean_inv.
  match goal with H : mapM decision _ = Ok _ |- _ => apply mapM_Ok in H; rename H into Hm end.
  match goal with H : (_ =? _) = true |- _ => apply Nat.eqb_eq in H; rename H into Hl end.
  apply list_elem_of_lookup in Hq as [n Hn].
  destruct (lookup_lt_is_Some_2 l0 n) as [j Hj]; [rewrite Hl; by eapply lookup_lt_Some|].
  assert (Hz : zip l0 l !! n = Some (j, q)) by (apply lookup_zip_with_Some; by exists j, q).
  destruct (Forall2_lookup_l _ _ _ _ _ Hm Hz) as (d & Hd & E).
  exists d. split; [by eapply list_elem_of_lookup_2|by eapply decision_id].
Qed.

(** What [decisions] of the active evaluator has checked. *)
Record serves (p : policies) (s : store) (st : PolicyState) (r : R) : Prop := {
  sv_runner : ∃ c, po_prepared p = Some c ∧ pp_runner c = Some r;
  sv_digest : po_digest p = ps_active st;
  sv_publisher : ∃ v, po_publisher p = Some v ∧ publisher s (pv_id v) = Ok v }.

Lemma decisions_Ok p s l st p' ds :
  decisions run p s l st None = (p', Ok ds) →
  p' = p ∧ ∃ r, serves p s st r ∧ evaluate (run r) l (ps_revision st) = Ok ds.
Proof.
  unfold decisions. intros H. destruct (envelope l (ps_revision st)); [|done].
  match type of H with (match ?m with Ok _ => _ | Err _ => _ end) = _ => destruct m as [d|e] eqn:E end;
    [|match type of H with (if ?b then _ else _) = _ => by destruct b end].
  injection H as <- <-. split; [done|]. lean_inv.
  match goal with H : _ = Some ?r |- _ => exists r; apply bind_Some in H as (c & Hc & Hr) end.
  split; [|done]. split; [by exists c|done|].
  eexists. split; [eassumption|]. congruence.
Qed.

Lemma decide_all_Ok p s st batches p' ds :
  decide_all run p s st batches = (p', Ok ds) →
  p' = p ∧ ∀ b, b ∈ batches → ∃ r k, serves p s st r ∧ evaluate (run r) b (ps_revision st) = Ok k
                              ∧ ∀ d, d ∈ k → d ∈ ds.
Proof.
  revert ds. induction batches as [|b l IH]; intros ds H; simpl in H.
  { injection H as <- <-. split; [done|]. by intros b ?%elem_of_nil. }
  destruct (decisions run p s b st None) as [p1 [d|]] eqn:E1; [|done].
  apply decisions_Ok in E1 as (-> & r & Hs & He).
  destruct (decide_all run p s st l) as [p2 [d'|]] eqn:E2; [|done]. injection H as <- <-.
  destruct (IH _ eq_refl) as [-> IH']. split; [done|].
  intros b' [->|Hb]%elem_of_cons.
  - exists r, d. split_and!; [done|done|]. intros x Hx. apply elem_of_app. by left.
  - destruct (IH' b' Hb) as (r' & k & ? & ? & Hk). exists r', k. split_and!; [done|done|].
    intros x Hx. apply elem_of_app. right. by apply Hk.
Qed.

Lemma elem_of_uniq {A} `{EqDecision A} (l : list A) x : x ∈ uniq l ↔ x ∈ l.
Proof.
  induction l as [|y l IH]; simpl; [done|]. rewrite !elem_of_cons, elem_of_List_filter, IH.
  destruct (decide (x = y)) as [->|]; [tauto|]. rewrite bool_decide_false by done. simpl. tauto.
Qed.

Lemma asked_Ok w s a l k x :
  asked w s a l = Ok k → x ∈ l → ∃ q, q ∈ k ∧ q_action q = x.1.1 ∧ authority s a x.1.2 x.2 = Ok (q_authority q).
Proof.
  unfold asked. intros Hm%mapM_Ok Hx. apply list_elem_of_lookup in Hx as [n Hn].
  assert (Hz : zip (seq 0 (length l)) l !! n = Some (n, x)).
  { apply lookup_zip_with_Some. exists n, x. split_and!; [done| |done].
    apply lookup_seq. split; [done|]. by eapply lookup_lt_Some. }
  destruct (Forall2_lookup_l _ _ _ _ _ Hm Hz) as (q & Hq & E). lean_inv.
  eexists. split; [by eapply list_elem_of_lookup_2|]. split; [done|]. simpl. done.
Qed.

Lemma serves_inj p s st r r' : serves p s st r → serves p s st r' → r = r'.
Proof. intros [(c & Hc & Hr) _ _] [(c' & Hc' & Hr') _ _]. congruence. Qed.

Lemma forM_elem {A} (f : A → res unit) l u x : forM_ f l = Ok u → x ∈ l → f x = Ok tt.
Proof.
  revert u. induction l as [|y l IH]; intros u H Hx; [by apply elem_of_nil in Hx|].
  simpl in H. apply bind_Ok in H as ([] & Hy & H). apply elem_of_cons in Hx as [->|Hx]; [done|by eapply IH].
Qed.

(** A decision that stands: every other outcome of [check_many] is an exception
    or asks nobody. *)
Lemma check_many_Ok w p i l s s' p' :
  check_many run external_check w p i l s s' = (p', Ok tt) →
  po_required p = true → ps_required (s_policy s) = true → l ≠ [] →
  ∃ a st r, Identity.current external_check (time w 0) s i = Ok a ∧ policy_state s = Ok st ∧ serves p s st r
    ∧ ∀ x, x ∈ l → host_permits a x = Ok tt
        ∧ ∃ q, q_action q = x.1.1 ∧ authority s a x.1.2 x.2 = Ok (q_authority q) ∧ allowed r (ps_revision st) q.
Proof.
  intros H Hp Hs Hl. unfold check_many in H.
  assert (Hu : ∀ x, x ∈ uniq l ↔ x ∈ l) by (intros; apply elem_of_uniq).
  destruct (uniq l) as [|u0 us] eqn:Eu.
  { destruct l as [|x l]; [done|]. exfalso. assert (x ∈ x :: l) as Hx by by left. apply Hu in Hx. by apply elem_of_nil in Hx. }
  rewrite <- Eu in *. clear Eu u0 us.
  match type of H with (match ?m with Ok _ => _ | Err _ => _ end) = _ => destruct m as [o|e] eqn:E end; [|done].
  rewrite Hp in E. cbn [negb] in E. lean_inv.
  match goal with H : policy_state s = Ok ?x |- _ => rename x into st; rename H into Hst end.
  assert (st = s_policy s) as -> by (unfold policy_state, state_value in Hst; by lean_inv).
  rewrite Hs in E. cbn [negb] in E. lean_inv.
  match goal with H : Identity.current _ _ _ _ = Ok ?x |- _ => rename x into a; rename H into Ha end.
  match goal with H : asked _ _ _ _ = Ok ?x |- _ => rename x into qs; rename H into Hq end.
  match goal with H : forM_ (host_permits a) _ = Ok _ |- _ => rename H into Hh end.
  destruct (decide_all run p s (s_policy s) (chunks 64 qs)) as [p2 [ds|]] eqn:Ed; [|done].
  apply decide_all_Ok in Ed as [-> Hd].
  injection H as <- H. apply bind_Ok in H as (fresh & _ & H). lean_inv.
  repeat match goal with u : unit |- _ => destruct u end.
  set (st := s_policy s) in *.
  assert (Hall : ∀ d, d ∈ ds → d_allow d = true).
  { intros d Hdd. destruct (List.find (fun d => negb (d_allow d)) ds) eqn:Ef; [done|].
    apply list_elem_of_In in Hdd. pose proof (find_none _ _ Ef d Hdd) as Hn. by apply negb_false_iff. }
  assert (Hne : ∃ x, x ∈ l) by (destruct l as [|x l]; [done|exists x; by left]).
  assert (Hask : ∀ x, x ∈ l → ∃ q b r k, q_action q = x.1.1 ∧ authority s a x.1.2 x.2 = Ok (q_authority q)
      ∧ q ∈ b ∧ serves p s st r ∧ evaluate (run r) b (ps_revision st) = Ok k ∧ ∀ d, d ∈ k → d ∈ ds).
  { intros x Hx. apply Hu in Hx. destruct (asked_Ok _ _ _ _ _ _ Hq Hx) as (q & Hqq & Ha1 & Ha2).
    destruct (elem_of_chunks 64 qs q) as (b & Hb & Hqb); [lia|done|].
    destruct (Hd b Hb) as (r & k & ? & ? & ?). exists q, b, r, k. done. }
  destruct Hne as [x0 Hx0]. destruct (Hask x0 Hx0) as (_ & _ & r & _ & _ & _ & _ & Hr & _).
  exists a, st, r. split_and!; [done|done|done|].
  intros x Hx. split; [by eapply forM_elem; [exact Hh|by apply Hu]|].
  destruct (Hask x Hx) as (q & b & r' & k & ? & ? & Hqb & Hr' & He & Hk).
  rewrite (serves_inj _ _ _ _ _ Hr Hr') in *. exists q. split_and!; [done|done|].
  destruct (evaluate_answers _ _ _ _ _ He Hqb) as (d & Hdk & Hid).
  exists b, k, d. split_and!; auto.
Qed.

(** ** The prepared evaluator *)

(** What the service remembers about its evaluator. *)
Definition vouched (p : policies) : Prop :=
  ∀ c, po_prepared p = Some c → ∃ d v raw i fp r,
    po_digest p = Some d ∧ po_publisher p = Some v ∧ content_digest raw = d
    ∧ verify loads unzip keygen raw (pv_public_key v) = Ok (i, fp) ∧ in_publisher i = pv_id v
    ∧ pp_payload c = in_payload i ∧ driver (in_payload i) = Ok r ∧ pp_runner c = Some r.

(** Operations that touch the service; between them the database changes freely,
    and [s0], [s'] are what it is at other moments of one operation. *)
Inductive pop :=
| PTrust (w : sampling) (demo closed : bool) (i key : string) (enabled : bool) (expected : Z) (actor : string)
| PActivate (w : sampling) (demo : bool) (closes : nat → bool) (closed : bool) (d : string) (expected : Z)
    (actor : string) (s0 : store)
| PCheck (w : sampling) (i : string) (l : list requirement) (s' : store).

Definition run_pop (op : pop) (p : policies) (s : store) : policies :=
  match op with
  | PTrust w demo closed i key enabled expected actor =>
      (trust external_check w demo closed i key enabled expected actor p s).1.1
  | PActivate w demo closes closed d expected actor s0 =>
      (activate driver run loads unzip keygen external_check w demo closes closed d expected actor p s0 s).1.1
  | PCheck w i l s' => (check_many run external_check w p i l s s').1
  end.

Inductive served : policies → Prop :=
| served_start i s p : start driver run loads unzip keygen i s = Ok p → served p
| served_op op p s : served p → served (run_pop op p s).

(** Nothing but a new evaluator needs a new proof. *)
Lemma vouched_ext p p' :
  po_prepared p' = None ∨ po_prepared p' = po_prepared p ∧ po_digest p' = po_digest p ∧ po_publisher p' = po_publisher p →
  vouched p → vouched p'.
Proof.
  intros [H|(H1 & H2 & H3)] V c Hc; [congruence|]. rewrite H1 in Hc. destruct (V c Hc) as (d & v & raw & i & fp & r & V').
  exists d, v, raw, i, fp, r. by rewrite H2, H3.
Qed.

Lemma find_publisher_id i l v : find_publisher i l = Some v → pv_id v = i.
Proof. intros [_ H]%find_some. by bool_inv. Qed.

Lemma publisher_Ok s i v : publisher s i = Ok v → pv_id v = i.
Proof.
  unfold publisher. intros H. lean_inv. destruct (find_publisher i x0) eqn:E; [|done].
  destruct (pv_enabled p); [|done]. injection H as <-. by eapply find_publisher_id.
Qed.

Lemma verify_inspect raw key i fp : verify loads unzip keygen raw key = Ok (i, fp) → inspect loads unzip raw = Ok i.
Proof. unfold verify. intros H. by lean_inv. Qed.

Lemma package_Ok s d i v :
  package loads unzip keygen s d = Ok (i, v) →
  ∃ raw fp, content_digest raw = d ∧ verify loads unzip keygen raw (pv_public_key v) = Ok (i, fp)
    ∧ in_publisher i = pv_id v.
Proof.
  unfold package. intros H. lean_inv.
  match goal with H : verify _ _ _ _ _ = Ok _ |- _ => rename H into Hv end.
  match goal with H : publisher s _ = Ok _ |- _ => apply publisher_Ok in H; rename H into Hp end.
  pose proof (verify_inspect _ _ _ _ Hv) as Hi. eexists _, _. split_and!; [done|exact Hv|]. congruence.
Qed.

Lemma prepared_Ok i payload c :
  prepared driver run i payload = Ok c → pp_payload c = payload ∧ ∃ r, driver payload = Ok r ∧ pp_runner c = Some r.
Proof. unfold prepared. intros H. lean_inv. split; [done|by eexists]. Qed.

Lemma vouched_new error retired required i s d x v c :
  package loads unzip keygen s d = Ok (x, v) → prepared driver run i (in_payload x) = Ok c →
  vouched (mkPolicies (Some c) (Some d) (Some v) error retired required).
Proof.
  intros Hp Hc c' [= <-]. apply package_Ok in Hp as (raw & fp & ? & ? & ?).
  apply prepared_Ok in Hc as (? & r & ? & ?). exists d, v, raw, x, fp, r. done.
Qed.

(** Decisions change nothing but the error. *)
Definition same_evaluator (p p' : policies) : Prop :=
  po_prepared p' = po_prepared p ∧ po_digest p' = po_digest p ∧ po_publisher p' = po_publisher p.

Lemma decisions_same p s l st c : same_evaluator p (decisions run p s l st c).1.
Proof.
  unfold decisions. destruct (envelope l (ps_revision st)); [|done].
  match goal with |- context [match ?m with Ok _ => _ | Err _ => _ end] => destruct m as [|e] end; [done|].
  match goal with |- context [if ?b then _ else _] => destruct b end; [|done]. by destruct c.
Qed.

Lemma decide_all_same p s st batches : same_evaluator p (decide_all run p s st batches).1.
Proof.
  revert p. induction batches as [|b l IH]; intros p; simpl; [done|].
  pose proof (decisions_same p s b st None) as H1.
  destruct (decisions run p s b st None) as [p1 [d|]]; simpl in *; [|done].
  specialize (IH p1). destruct (decide_all run p1 s st l) as [p2 [d'|]]; simpl in *;
    destruct H1 as (? & ? & ?), IH as (? & ? & ?); split_and!; congruence.
Qed.

Lemma check_many_same w p i l s s' : same_evaluator p (check_many run external_check w p i l s s').1.
Proof.
  unfold check_many. destruct (uniq l); [done|].
  match goal with |- context [match ?m with Ok _ => _ | Err _ => _ end] => destruct m as [[[[st au] qs]|]|] end;
    [|done|done].
  pose proof (decide_all_same p s st (chunks 64 qs)) as H.
  by destruct (decide_all run p s st (chunks 64 qs)) as [? [?|?]].
Qed.

Lemma cleanup_ext now closed old a target p s :
  same_evaluator p (cleanup now closed old a target p s).1.1.
Proof. unfold cleanup. by destruct closed. Qed.

Lemma same_vouched p p' : same_evaluator p p' → vouched p → vouched p'.
Proof. intros H. apply vouched_ext. by right. Qed.

Lemma run_pop_vouched op p s : vouched p → vouched (run_pop op p s).
Proof.
  intros V. destruct op; simpl.
  - unfold trust. match goal with |- context [match ?m with Ok _ => _ | Err _ => _ end] => destruct m as [[a s1]|] end; [|done].
    destruct (po_publisher p) as [v|]; [|done]. destruct (po_prepared p) as [old|]; [|done].
    case_bool_decide; [|done]. eapply same_vouched; [apply cleanup_ext|].
    apply (vouched_ext p); [by left|done].
  - unfold activate. match goal with |- context [match ?m with Ok _ => _ | Err _ => _ end] => destruct m as [a0|] end; [|done].
    set (q := with_retired p _).
    assert (Vq : vouched q) by (by apply (same_vouched p)).
    destruct (po_retired q); [|done].
    match goal with |- context [match ?m with Ok _ => _ | Err _ => _ end] => destruct m as [[[[a v] c] s1]|] eqn:E end; [|done].
    lean_inv. match goal with H : package _ _ _ _ _ = Ok _ |- _ => rename H into Hp end.
    match goal with H : prepared _ _ _ _ = Ok _ |- _ => rename H into Hc end.
    assert (Vn : vouched (mkPolicies (Some c) (Some d) (Some v) false (po_retired q) true)) by by eapply vouched_new.
    destruct (po_prepared q); [|done]. eapply same_vouched; [apply cleanup_ext|done].
  - eapply same_vouched; [apply check_many_same|done].
Qed.

Lemma served_vouched p : served p → vouched p.
Proof.
  induction 1 as [i s p H|op p s _ IH]; [|by apply run_pop_vouched].
  unfold start in H. lean_inv. destruct (ps_active _) as [d|]; [|lean_inv; by intros c [=]].
  match type of H with (match ?m with Ok _ => _ | Err _ => _ end) = _ => destruct m as [[c v]|e] eqn:E end.
  - lean_inv. by eapply vouched_new.
  - match type of H with (if ?b then _ else _) = _ => destruct b end; [|done]. lean_inv. by intros c [=].
Qed.

(** C29: while a policy is required, no action is permitted except by the evaluator
    of the policy: its payload is that of the archive with the active digest, the
    archive is signed by a publisher the database trusts now, the acting credential
    grants the action in itself, and the evaluator answered a request carrying
    exactly this action and the credential's current authority with an allowing
    decision.  Any failure on the way denies the action. *)
Theorem policy_enforced p s s' w i l p'
    (Hp : served p) (Hr : po_required p = true) (Hs : ps_required (s_policy s) = true) (Hl : l ≠ [])
    (H : check_many run external_check w p i l s s' = (p', Ok tt)) :
  ∃ a v raw x fp r,
    Identity.current external_check (time w 0) s i = Ok a
    ∧ ps_active (s_policy s) = Some (content_digest raw) ∧ publisher s (in_publisher x) = Ok v
    ∧ verify loads unzip keygen raw (pv_public_key v) = Ok (x, fp) ∧ driver (in_payload x) = Ok r
    ∧ ∀ y, y ∈ l → host_permits a y = Ok tt
        ∧ ∃ q, q_action q = y.1.1 ∧ authority s a y.1.2 y.2 = Ok (q_authority q)
            ∧ allowed r (ps_revision (s_policy s)) q.
Proof.
  apply check_many_Ok in H as (a & st & r & Ha & Hst & [(c & Hc & Hrun) Hd (v & Hv & Hpub)] & Hall); [|done..].
  assert (st = s_policy s) as -> by (unfold policy_state, state_value in Hst; by lean_inv).
  destruct (served_vouched p Hp c Hc) as (d & v' & raw & x & fp & r' & E1 & E2 & E3 & E4 & E5 & E6 & E7 & E8).
  rewrite Hv in E2. injection E2 as <-. rewrite Hrun in E8. injection E8 as <-.
  exists a, v, raw, x, fp, r. split_and!; [done|congruence|by rewrite E5|done|done|done].
Qed.

End props.

(** ** The theorem at a concrete policy *)

(** A package with one rule file, as the readers would return it. *)
Definition sample_rule : string := "package ficc".
Definition sample_manifest : json :=
  JObj [("format", JStr "ficc-policy"); ("version", JInt 1); ("id", JStr "example"); ("release", JStr "1");
        ("publisher", JStr "lab"); ("decision_api", JInt 1);
        ("roles", JArr [JObj [("id", JStr "user"); ("label", JStr "User"); ("description", JStr "Runs jobs")]]);
        ("files", JObj [("rules.rego", JStr (content_digest sample_rule))])].
Definition sample_members : list Member :=
  [mkMember "manifest.json" 13 0 0 (Some "manifest text"); mkMember "manifest.sig" 9 0 0 (Some "signature");
   mkMember "payload/rules.rego" 12 0 0 (Some sample_rule)].
Definition sample_archive : string := "archive".
Definition sample_loads (raw : string) : option json :=
  if bool_decide (raw = "manifest text") then Some sample_manifest else None.
Definition sample_unzip (raw : string) : option (list Member) :=
  if bool_decide (raw = sample_archive) then Some sample_members else None.
Definition accept (signers identity namespace signature signed : string) : res bool := Ok true.

Definition sample_public_key : string :=
  "ssh-ed25519 " +:+ b64encode (text_of [0; 0; 0; 11]%Z +:+ "ssh-ed25519" +:+ text_of [0; 0; 0; 32]%Z
                                +:+ String.concat "" (repeat "k" 32)).

(** A driver whose evaluator is the payload; it allows reading jobs. *)
Definition sample_driver (payload : list (string * string)) : res (list (string * string)) := Ok payload.

Definition sample_decision (q : json) : json :=
  match q with
  | JObj l => JObj [("id", field l "id");
                    ("allow", JBool (bool_decide (field l "action" ∈ [JStr "jobs:read"; JStr "policy:probe"])));
                    ("reason", JStr "rule")]
  | _ => JNull
  end.
Definition sample_run (r : list (string * string)) (value : json) : option json :=
  match value with
  | JObj l => match field l "requests" with JArr qs => Some (JArr (map sample_decision qs)) | _ => None end
  | _ => None
  end.

Definition owner_secret : iop :=
  IIssue (tokens_at 1 ["owner-secret"; first_id; "csrf"]) Session "Local owner" None None 3600 None LOCAL_OWNER LOCAL_PROJECT.
Definition owner_store : store := done_ops [owner_secret] empty_store.

(** Trust the publisher, install the package and activate it. *)
Definition active_policy : @Policies.policies (list (string * string)) * store :=
  let none := mkPolicies None None None false [] false in
  let w := tokens_at 2 ["t0"; "t1"] in
  let '(p, s, _) := trust None w false true "lab" sample_public_key true 0 first_id none owner_store in
  let s := match Policies.install sample_loads sample_unzip accept None w false sample_archive first_id s with
           | Ok s => s | Err _ => s end in
  let '(p, s, _) := activate sample_driver sample_run sample_loads sample_unzip accept None w false
                      (fun _ => true) true (content_digest sample_archive) 1 first_id p s s in
  (p, s).

Definition first_service : @Policies.policies (list (string * string)) := mkPolicies None None None false [] false.

Lemma active_policy_served : served sample_driver sample_run sample_loads sample_unzip accept None active_policy.1.
Proof.
  assert (H0 : served sample_driver sample_run sample_loads sample_unzip accept None first_service).
  { apply (served_start _ _ _ _ _ _ "t" empty_store). vm_compute. reflexivity. }
  unfold active_policy.
  set (w := tokens_at 2 ["t0"; "t1"]).
  pose proof (served_op _ _ _ _ _ _ (PTrust w false true "lab" sample_public_key true 0 first_id)
                first_service owner_store H0) as H1.
  simpl in H1. unfold first_service in H1.
  destruct (trust None w false true "lab" sample_public_key true 0 first_id _ owner_store) as [[p s] ?].
  simpl in H1. set (s1 := match Policies.install _ _ _ _ _ _ _ _ _ with Ok s => s | Err _ => s end).
  pose proof (served_op _ _ _ _ _ _
    (PActivate w false (fun _ => true) true (content_digest sample_archive) 1 first_id s1) p s1 H1) as H2.
  simpl in H2. by destruct (activate _ _ _ _ _ _ _ _ _ _ _ _ _ _ _ _) as [[? ?] ?].
Qed.

Lemma policy_enforced_witness :
  ∃ p', check_many sample_run None (tokens_at 3 ["q0"]) active_policy.1 first_id [("jobs:read", None, None)]
          active_policy.2 active_policy.2 = (p', Ok tt)
    ∧ is_ok (check_many sample_run None (tokens_at 3 ["q0"]) active_policy.1 first_id [("jobs:execute", None, None)]
               active_policy.2 active_policy.2).2 = false
    ∧ ∃ a raw r, ps_active (s_policy active_policy.2) = Some (content_digest raw)
        ∧ ∃ q, q_action q = "jobs:read" ∧ authority active_policy.2 a None None = Ok (q_authority q)
            ∧ allowed sample_run r (ps_revision (s_policy active_policy.2)) q.
Proof.
  destruct (check_many sample_run None (tokens_at 3 ["q0"]) active_policy.1 first_id [("jobs:read", None, None)]
              active_policy.2 active_policy.2) as [p' u] eqn:E.
  assert (Hu : u = Ok tt).
  { assert (H : (check_many sample_run None (tokens_at 3 ["q0"]) active_policy.1 first_id [("jobs:read", None, None)]
              active_policy.2 active_policy.2).2 = Ok tt) by (vm_compute; reflexivity).
    rewrite E in H. exact H. }
  rewrite Hu in E. exists p'. split; [rewrite <- Hu; reflexivity|]. split; [vm_compute; reflexivity|].
  destruct (policy_enforced sample_driver sample_run sample_loads sample_unzip accept None
              active_policy.1 active_policy.2 active_policy.2 (tokens_at 3 ["q0"]) first_id
              [("jobs:read", None, None)] p' active_policy_served)
    as (a & v & raw & x & fp & r & _ & H1 & _ & _ & _ & H2); [vm_compute; reflexivity..| |exact E|].
  { intros [=]. }
  exists a, raw, r. split; [exact H1|].
  destruct (H2 ("jobs:read", None, None)) as [_ Hq]; [by left|]. exact Hq.
Defined.
