(* ===== verification/Authority.v ===== *)
(** * The authority behind a queued workload

    [workloads/authority.py] and the dataset rules of [workloads/inputs.py].  A
    delegation is what remains of the submitter's credential; every check compares
    it with the current identities, memberships, roles and policy.  The registry
    of datasets and model revisions is the interface [Registry]. *)

From Stdlib Require Import SpecFloat.
From S2P Require Import Prelude Float64 Sha256 Json Spec Offer Wire WorkloadSchema Database Records Identity PolicyPackages Policy.

(** ** Datasets *)

(** A dataset as its registry returns it: name, digest and size of each file. *)
Record Dataset := mkDataset {
  da_id : string; da_manifest_digest : string; da_files : list (string * string * Z) }.

(** What the workloads rely on: [datasets.get], [safety.require], the entry
    [sensitive] of [safety.effective], and [models.bind] with [models.references]. *)
Class Registry := {
  registered : string → Principal → res Dataset;
  require_safe : Dataset → res bool;
  effective_sensitive : Dataset → res bool;
  model_inputs : string → Principal → res (list ObjectReference) }.

Module Datasets.

(** [f"{index:03}"]. *)
Definition padded_index (n : nat) : string :=
  let s := print_nat (Z.of_nat n) in
  String.concat "" (repeat "0" (3 - String.length s)) +:+ s.

Definition file_name (s : string) : bool := leading alnum (fun c => alnum c || one_of "_.-" c) 127 s.

(** One file of [references]. *)
Definition reference (d : Dataset) (index : nat) (f : string * string * Z) : res ObjectReference :=
  let '(n, sha, size) := f in
  let n := if file_name n then n else "input-" +:+ padded_index index in
  let o := mkObject
    (String.substring 0 32 (hex (sha256 (bytes_of
       (da_id d +:+ ":" +:+ print_nat (Z.of_nat index) +:+ ":" +:+ sha)))))
    ("sha256:" +:+ sha) size n Stream in
  raise_if (negb (object_ok o)) model_error ;;
  Ok o.

(** [references]. *)
Definition references (d : Dataset) : res (list ObjectReference) :=
  l ← mapM (fun x => reference d x.1 x.2) (zip (seq 0 (length (da_files d))) (da_files d));
  raise_if ((64 <? length l)%nat || negb (distinct (map object_label l)))
    (refused "dataset_inputs" "Select a dataset with at most 64 files and distinct workload input names.") ;;
  Ok l.

Section registry.
Context `{Registry}.

(** [Inputs.dataset], for the principal the authority answers. *)
Definition dataset (r : Submission) (authority : res Principal) : res (option Dataset) :=
  match sub_dataset r with
  | None => Ok None
  | Some selected =>
      p ← authority;
      d ← registered (ds_id selected) p;
      raise_if (negb (bool_decide (da_manifest_digest d = ds_manifest_digest selected)))
        (refused "dataset_changed" "The selected dataset manifest differs from the submission.") ;;
      require_safe d ;;
      Ok (Some d)
  end.

Definition with_inputs (r : Submission) (l : list ObjectReference) (sensitive : bool) : Submission :=
  let j := sub_job r in
  mkSubmission (mkJob (job_name j) (runtime j) (payload j) (limits j) l (outputs j) sensitive (endpoint j))
    (sub_node_ids r) (sub_dataset r) (sub_model_revision r).

(** [Inputs.bind]. *)
Definition bind (r : Submission) (authority : res Principal) : res Submission :=
  match sub_model_revision r with
  | Some i =>
      p ← authority;
      l ← model_inputs i p;
      raise_if (negb (bool_decide (inputs (sub_job r) = l)))
        (refused "model_inputs" "The service inputs differ from their immutable model revision.") ;;
      Ok r
  | None =>
      d ← dataset r authority;
      match d with
      | None =>
          raise_if (existsb (fun o => match delivery o with Stream => true | Local => false end) (inputs (sub_job r)))
            (Failure "dataset_required" "Streamed inputs require a registered project dataset." 400) ;;
          Ok r
      | Some d =>
          l ← references d;
          raise_if (negb (bool_decide (inputs (sub_job r) = [])) && negb (bool_decide (inputs (sub_job r) = l)))
            (refused "dataset_inputs" "The requested inputs differ from the selected dataset.") ;;
          raise_if (storage_bytes (limits (sub_job r)) <? sumZ object_bytes l)%Z
            (refused "dataset_capacity" "Input data exceeds this workload's storage allowance.") ;;
          sensitive ← (if sensitive (sub_job r) then Ok true else effective_sensitive d);
          Ok (with_inputs r l sensitive)
      end
  end.

(** [Inputs.check]: whether the dataset is sensitive, if there is one. *)
Definition check (j : JobRecord) (authority : res Principal) : res (option bool) :=
  d ← dataset (j_request j) authority;
  match d with
  | None => Ok None
  | Some d =>
      l ← references d;
      raise_if (negb (bool_decide (l = inputs (sub_job (j_request j)))))
        (refused "dataset_inputs" "The stored workload no longer matches its dataset manifest.") ;;
      sensitive ← require_safe d;
      Ok (Some sensitive)
  end.

End registry.
End Datasets.

(** ** Authority *)

Module Authority.
Import PolicyStore PolicyProvider Policies.

(** The revisions a delegation is stamped with. *)
Record Stamp := mkStamp {
  sp_subject_revision : Z; sp_project_revision : Z; sp_membership_revision : Z; sp_policy_revision : Z;
  sp_role_revision : Z; sp_policy_digest : option string; sp_publisher_revision : Z }.

#[global] Instance Stamp_eq_dec : EqDecision Stamp. Proof. solve_decision. Defined.

(** The publisher of the active package, by the join of the two tables. *)
Definition active_publisher (s : store) (d : string) : option Publisher :=
  k ← s_packages s !! d; s_publishers s !! pk_publisher k.

(** [stamp]. *)
Definition stamp (s : store) (subject project : string) : res (list string * Stamp) :=
  scopes ← Identities.access s subject project;
  u ← Identities.user s subject;
  p ← Identities.project s project;
  st ← policy_state s;
  publisher_revision ←
    match ps_active st with
    | None => Ok 0%Z
    | Some d =>
        match active_publisher s d with
        | Some v => if pu_enabled v then Ok (pu_revision v)
                    else Err (Failure "policy_publisher_untrusted" "The active policy publisher is not trusted." 403)
        | None => Err (Failure "policy_publisher_untrusted" "The active policy publisher is not trusted." 403)
        end
    end;
  Ok (scopes,
      mkStamp (sp_revision u) (sp_revision p)
        (match s_members s !! (project, subject) with Some m => mb_revision m | None => 0 end)
        (ps_revision st)
        (match s_bindings s !! (project, subject) with Some b => bi_revision b | None => 0 end)
        (ps_active st) publisher_revision).

Definition delegation_stamp (d : Delegation) : Stamp :=
  mkStamp (dg_subject_revision d) (dg_project_revision d) (dg_membership_revision d) (dg_policy_revision d)
    (dg_role_revision d) (dg_policy_digest d) (dg_publisher_revision d).

(** A stamp without the revision of the policy state. *)
Definition unversioned (x : Stamp) : Stamp :=
  mkStamp (sp_subject_revision x) (sp_project_revision x) (sp_membership_revision x) 0
    (sp_role_revision x) (sp_policy_digest x) (sp_publisher_revision x).

(** [node]. *)
Definition node (s : store) (project i : string) : res Contributor :=
  c ← contributor s i;
  raise_if (negb (bool_decide (c_project_id c = project)))
    (not_found "The contributor was not found in this project.") ;;
  raise_if (c_disabled c) (Failure "contributor_disabled" "The contributor is disabled." 403) ;;
  Ok c.

(** [current]: the principal of a delegation that still stands. *)
Definition current (s : store) (d : Delegation) : res Principal :=
  '(scopes, x) ← stamp s (dg_subject_id d) (dg_project_id d);
  raise_if (negb (bool_decide (unversioned (delegation_stamp d) = unversioned x)))
    (Failure "delegation_changed" "Project, identity, or policy authority changed after submission." 403) ;;
  Ok (mkPrincipal (dg_id d) "Workload delegation" (sorted_set (intersect scopes (dg_scopes d))) None ""
        Workload f_zero None (dg_subject_id d) (dg_project_id d) [] []).

(** A field replaced in place, or added. *)
Definition set_field (l : list (string * json)) (f : string) (v : json) : list (string * json) :=
  if existsb (fun x => bool_decide (x.1 = f)) l
  then map (fun x => if bool_decide (x.1 = f) then (f, v) else x) l
  else l ++ [(f, v)].

Definition mode_text (m : mode) : string :=
  match m with Voluntary => "voluntary" | Managed => "managed" end.

Section check.
Context `{Registry} {R : Type} (run : R → json → option json).

(** What the policy is asked about a workload. *)
Definition workload_authority (au : list (string * json)) (i : string) (n : Contributor) (enforcement : bool)
    (j : JobRecord) (p : Principal) : list (string * json) :=
  foldl (fun l x => set_field l x.1 x.2) au
    [("contributor_id", JStr i); ("contributor_mode", JStr (mode_text (c_mode n)));
     ("contributor_revision", JInt (c_revision n)); ("contributor_enforcement", JBool enforcement);
     ("job_id", JStr (j_id j)); ("delegation_id", JStr (dg_id (j_delegation j)));
     ("initiating_credential_id", JStr (j_actor j)); ("local_owner", JBool (local_owner p))].

Definition workload_labels (j : JobRecord) (i : string) (sensitive : bool) : list (string * json) :=
  let fields := match job_dump (sub_job (j_request j)) with JObj l => l | _ => [] end in
  [("workload", JObj (set_field fields "sensitive" (JBool sensitive))); ("candidate_node_id", JStr i)].

(** What is settled before the policy is asked. *)
Definition admissible (s : store) (j : JobRecord) (i : string)
    : res (Principal * Contributor * bool * PolicyState * list string) :=
  raise_if (j_cancelled j || negb (bool_decide (i ∈ sub_node_ids (j_request j))))
    (Failure "workload_cancelled" "The workload delegation no longer permits execution." 403) ;;
  p ← current s (j_delegation j);
  require_host p "jobs:execute" None None ;;
  require_host p "contributors:read" None None ;;
  safety ← match sub_dataset (j_request j) with
           | Some _ => Datasets.check j (current s (j_delegation j))
           | None => Ok None
           end;
  n ← node s (j_project_id j) i;
  let sensitive := sensitive (sub_job (j_request j))
                   || match safety with Some b => b | None => false end in
  raise_if (sensitive && negb (bool_decide (c_mode n = Managed)))
    (Failure "sensitive_workload" "Sensitive workloads require an approved managed contributor." 403) ;;
  st ← policy_state s;
  raise_if (negb (ps_required st))
    (refused "policy_required" "Activate an approved policy package before contributor execution.") ;;
  l ← roles s (pr_project_id p) (pr_subject_id p);
  Ok (p, n, sensitive, st, l).

(** What is compared after it: nothing the decision rests on has changed. *)
Definition unchanged (s : store) (j : JobRecord) (i : string) (p : Principal) (n : Contributor)
    (st : PolicyState) (l : list string) : res unit :=
  fresh ← current s (j_delegation j);
  st' ← policy_state s;
  n' ← node s (j_project_id j) i;
  l' ← roles s (j_project_id j) (j_subject_id j);
  raise_if (negb (bool_decide (pr_scopes fresh = pr_scopes p)) || negb (bool_decide (st' = st))
            || negb (bool_decide (n' = n)) || negb (bool_decide (l' = l)))
    (refused "policy_changed" "Authority changed during workload evaluation.").

(** [check]: the policy revision; evaluation takes the database from [s] to [s']. *)
Definition check (w : sampling) (pol : policies) (s s' : store) (j : JobRecord) (i : string)
    (enforcement : bool) : @policies R * res Z :=
  match (x ← admissible s j i; au ← authority s x.1.1.1.1 None None; Ok (x, au)) with
  | Err e => (pol, Err e)
  | Ok ((p, n, sensitive, st, l), au) =>
      let q := mkRequest (token w 0) "jobs:execute" (workload_authority au i n enforcement j p)
                 (workload_labels j i sensitive) in
      match decisions run pol s [q] st None with
      | (pol, Err e) => (pol, Err e)
      | (pol, Ok ds) =>
          (pol,
           unchanged s' j i p n st l ;;
           match ds with
           | d :: _ =>
               raise_if (negb (d_allow d))
                 (Failure "policy_denied" ("The active policy denies this workload: " +:+ d_reason d +:+ ".") 403) ;;
               Ok (ps_revision st)
           | [] => Err (OtherError "IndexError")
           end)
      end
  end.

End check.
End Authority.
