(* ===== verification/Control.v ===== *)
(** * The controller's dispatching tasks

    The state that [workloads/channel.py], [commands.py], [inputs.py] and [runner.py]
    share, and the programs that run on it.  The controller is one event loop: a
    task runs without interruption until it awaits a reply, a lock, or nothing in
    particular, and any other task may run there. *)

From Stdlib Require Import SpecFloat.
From S2P Require Import Prelude Float64 Json Spec Offer Scheduler Protocol Wire WorkloadSchema Database Records Identity Contributors PolicyPackages Policy Authority.

(** ** What the controller was installed with

    The policy evaluator, the scheduler provider, the contributor settings, and
    pydantic's reader of executor replies. *)
Class Controller := {
  evaluator : Type;
  run_evaluator : evaluator → json → option json;
  scheduler : Type;
  run_scheduler : scheduler → Fair.Request → scheduler * res json;
  contributor_settings : ContributorSettings;
  demo : bool;
  deployment : string;
  read_reply : json → res ReplyType }.

(** One item of a file transfer that publishes a workload output: its state, and
    whether its dataset is requested, registered, or cancelled. *)
Record Publishing := mkPublishing {
  pb_state : string; pb_requested : bool; pb_dataset : bool; pb_cancelled : bool }.

(** What one call of the outside answers: clocks and random identities, the
    monotonic clock, the registry of datasets and models, the identity provider's
    check if there is one, the transfers with the workloads they publish, and
    whether required evidence was delivered. *)
Record sample := mkSample {
  sa_draw : sampling; sa_mono : nat → float; sa_registry : Registry;
  sa_external : option (string → string → res unit);
  sa_transfers : list (option string * list Publishing); sa_evidence : res unit }.

(** ** State *)

(** The closures [check] a command carries. *)
Inductive checking :=
| NoCheck
| CheckAuthority (l : list Attempt) (starting : bool)
| CheckInput (a : Attempt) (j : JobRecord)
| CheckOwned (job : string) (actor : Principal) (scope attempt : string) (releasing : bool).

(** [channel.Pending]; [pe_future] names its future. *)
Record Pending := mkPending {
  pe_message : Envelope; pe_session : string; pe_fingerprint : string; pe_check : checking;
  pe_future : nat; pe_delivered : bool }.

(** One command handed to a contributor's connection, and the future of its reply. *)
Record Delivery := mkDelivery {
  dl_node : string; dl_session : string; dl_fingerprint : string; dl_command : Envelope; dl_future : nat }.

(** [Channel]: the pending commands, the contributors polling, whether it is closed,
    the futures that are done, the next future, and a history of what was handed out,
    which the code does not keep and no definition reads. *)
Record channel := mkChannel {
  ch_pending : gmap string Pending; ch_polling : gset string; ch_closed : bool;
  ch_futures : gmap nat (res ReplyType); ch_next : nat; ch_history : list Delivery }.

(** An entry of [Commands.observed]; each key may be missing. *)
Record Progress := mkProgress { pr_received : Z; pr_total : Z }.
Record Seen := mkSeen { se_ready : option bool; se_at : option float; se_inputs : option Progress }.

(** [inputs.Prefetch]: the bytes its task has read, or how it failed, once it is done. *)
Record Prefetch := mkPrefetch {
  pf_attempt : Attempt; pf_job : JobRecord; pf_object : string; pf_offset : Z;
  pf_done : option (res string); pf_discarded : bool }.

(** [Runner]; a binding is a session, an installation and a ledger.  [ru_readers]
    counts [Queue.readers]. *)
Definition node_binding : Type := string * string * option string.

Record runner := mkRunner {
  ru_reconciled : gmap string node_binding; ru_live : gmap string (Snapshot * float);
  ru_errors : gmap string string; ru_deferred : gmap string float; ru_locked : gset string;
  ru_running : nat; ru_readers : nat; ru_failed : bool; ru_transferring : gset string }.

Section state.
Context `{Controller}.

Record ctl := mkCtl {
  k_store : store; k_policies : @Policies.policies evaluator;
  k_sessions : gmap string Sessions.Session; k_channel : channel; k_observed : gmap string Seen;
  k_prefetches : gmap string Prefetch; k_inputs_closed : bool; k_runner : runner;
  k_scheduler : option scheduler; k_samples : nat → sample; k_time : nat }.

Definition set_store (c : ctl) (x : store) : ctl :=
  mkCtl x (k_policies c) (k_sessions c) (k_channel c) (k_observed c) (k_prefetches c)
    (k_inputs_closed c) (k_runner c) (k_scheduler c) (k_samples c) (k_time c).
Definition set_policies (c : ctl) (x : @Policies.policies evaluator) : ctl :=
  mkCtl (k_store c) x (k_sessions c) (k_channel c) (k_observed c) (k_prefetches c)
    (k_inputs_closed c) (k_runner c) (k_scheduler c) (k_samples c) (k_time c).
Definition set_channel (c : ctl) (x : channel) : ctl :=
  mkCtl (k_store c) (k_policies c) (k_sessions c) x (k_observed c) (k_prefetches c)
    (k_inputs_closed c) (k_runner c) (k_scheduler c) (k_samples c) (k_time c).
Definition set_observed (c : ctl) (x : gmap string Seen) : ctl :=
  mkCtl (k_store c) (k_policies c) (k_sessions c) (k_channel c) x (k_prefetches c)
    (k_inputs_closed c) (k_runner c) (k_scheduler c) (k_samples c) (k_time c).
Definition set_prefetches (c : ctl) (x : gmap string Prefetch) : ctl :=
  mkCtl (k_store c) (k_policies c) (k_sessions c) (k_channel c) (k_observed c) x
    (k_inputs_closed c) (k_runner c) (k_scheduler c) (k_samples c) (k_time c).
Definition set_inputs_closed (c : ctl) (x : bool) : ctl :=
  mkCtl (k_store c) (k_policies c) (k_sessions c) (k_channel c) (k_observed c) (k_prefetches c)
    x (k_runner c) (k_scheduler c) (k_samples c) (k_time c).
Definition set_runner (c : ctl) (x : runner) : ctl :=
  mkCtl (k_store c) (k_policies c) (k_sessions c) (k_channel c) (k_observed c) (k_prefetches c)
    (k_inputs_closed c) x (k_scheduler c) (k_samples c) (k_time c).
Definition set_scheduler (c : ctl) (x : option scheduler) : ctl :=
  mkCtl (k_store c) (k_policies c) (k_sessions c) (k_channel c) (k_observed c) (k_prefetches c)
    (k_inputs_closed c) (k_runner c) x (k_samples c) (k_time c).
Definition set_time (c : ctl) (x : nat) : ctl :=
  mkCtl (k_store c) (k_policies c) (k_sessions c) (k_channel c) (k_observed c) (k_prefetches c)
    (k_inputs_closed c) (k_runner c) (k_scheduler c) (k_samples c) x.

(** ** Code between two awaits: state and exceptions *)

Definition M (A : Type) : Type := ctl → ctl * res A.

#[global] Instance M_ret : MRet M := fun A a c => (c, Ok a).
#[global] Instance M_bind : MBind M := fun A B f m c =>
  match m c with (c', Ok a) => f a c' | (c', Err e) => (c', Err e) end.

Definition lift {A} (r : res A) : M A := fun c => (c, r).
Definition gets {A} (f : ctl → A) : M A := fun c => (c, Ok (f c)).
Definition modify (f : ctl → ctl) : M unit := fun c => (f c, Ok tt).
(** [try: m except: h]; what [m] changed stays. *)
Definition catch {A} (m : M A) (h : exn → M A) : M A := fun c =>
  match m c with (c', Ok a) => (c', Ok a) | (c', Err e) => h e c' end.

(** A database transaction: the tables change only when it returns. *)
Definition on_store {A} (f : store → res (store * A)) : M A := fun c =>
  match f (k_store c) with Ok (s, a) => (set_store c s, Ok a) | Err e => (c, Err e) end.
Definition reads {A} (f : store → res A) : M A := fun c => (c, f (k_store c)).

(** [with store.lock, store.db] around code that also does other things. *)
Definition transact {A} (m : M A) : M A := fun c =>
  match m c with (c', Ok a) => (c', Ok a) | (c', Err e) => (set_store c' (k_store c), Err e) end.

(** The policy engine reads the database before and after its evaluation; the task
    is not interrupted there. *)
Definition on_policies {A}
    (f : @Policies.policies evaluator → store → store → @Policies.policies evaluator * res A) : M A :=
  fun c => let '(p, r) := f (k_policies c) (k_store c) (k_store c) in (set_policies c p, r).

(** The outside answers once more. *)
Definition draw : M sample := fun c => (set_time c (S (k_time c)), Ok (k_samples c (k_time c))).
Definition drawn {A} (f : sampling → store → res (store * A)) : M A := x ← draw; on_store (f (sa_draw x)).

(** [time.time ()] and [time.monotonic ()]. *)
Definition now : M float := x ← draw; mret (time (sa_draw x) 0).
Definition monotonic : M float := x ← draw; mret (sa_mono x 0%nat).

Definition each {A} (f : A → M unit) (l : list A) : M unit := foldr (fun x m => f x ;; m) (mret tt) l.
Fixpoint collect {A B} (f : A → M B) (l : list A) : M (list B) :=
  match l with
  | [] => mret []
  | x :: l => y ← f x; ys ← collect f l; mret (y :: ys)
  end.

(** The exceptions a handler names. *)
Definition is_failure (e : exn) : bool := match e with Failure _ _ _ => true | _ => false end.
Definition is_storage (e : exn) : bool := match e with StorageError _ => true | _ => false end.
(** [except (Failure, OSError, ValueError)]. *)
Definition reported (e : exn) : bool := is_failure e || is_os_error e || is_value_error e.

(** ** Programs *)

(** What a task may hold: the lock of a contributor, or one of eight slots. *)
Inductive holding := NodeLock (i : string) | RunnerSlot | ReaderSlot.

Inductive prog (A : Type) : Type :=
| Return (r : res A)
| Atomic (m : ctl → ctl * prog A)
| Await (f : nat) (k : res ReplyType → prog A)
| Acquire (h : holding) (p : prog A)
| Yield (p : prog A).
Arguments Return {A} r.
Arguments Atomic {A} m.
Arguments Await {A} f k.
Arguments Acquire {A} h p.
Arguments Yield {A} p.

Fixpoint prog_try {A B} (p : prog A) (f : res A → prog B) : prog B :=
  match p with
  | Return r => f r
  | Atomic m => Atomic (fun c => let '(c', q) := m c in (c', prog_try q f))
  | Await n k => Await n (fun r => prog_try (k r) f)
  | Acquire h p => Acquire h (prog_try p f)
  | Yield p => Yield (prog_try p f)
  end.

#[global] Instance prog_ret : MRet prog := fun A a => Return (Ok a).
#[global] Instance prog_bind : MBind prog := fun A B f p =>
  prog_try p (fun r => match r with Ok a => f a | Err e => Return (Err e) end).

(** Code without an await. *)
Definition here {A} (m : M A) : prog A := Atomic (fun c => let '(c', r) := m c in (c', Return r)).

(** [try: p  except caught: h], for a handler that does not await. *)
Definition prog_except {A} (p : prog A) (caught : exn → bool) (h : exn → M A) : prog A :=
  prog_try p (fun r => match r with
                       | Ok a => Return (Ok a)
                       | Err e => if caught e then here (h e) else Return (Err e)
                       end).

(** [try: p  finally: m], [m] not raising. *)
Definition prog_finally {A} (p : prog A) (m : M unit) : prog A :=
  prog_try p (fun r => prog_try (here m) (fun _ => Return r)).

Fixpoint prog_each {A} (f : A → prog unit) (l : list A) : prog unit :=
  match l with
  | [] => Return (Ok tt)
  | x :: l => f x ≫= fun _ => prog_each f l
  end.

(** ** Locks *)

Definition with_locked (r : runner) (x : gset string) : runner :=
  mkRunner (ru_reconciled r) (ru_live r) (ru_errors r) (ru_deferred r) x (ru_running r) (ru_readers r) (ru_failed r)
    (ru_transferring r).
Definition with_running (r : runner) (x : nat) : runner :=
  mkRunner (ru_reconciled r) (ru_live r) (ru_errors r) (ru_deferred r) (ru_locked r) x (ru_readers r) (ru_failed r)
    (ru_transferring r).
Definition with_readers (r : runner) (x : nat) : runner :=
  mkRunner (ru_reconciled r) (ru_live r) (ru_errors r) (ru_deferred r) (ru_locked r) (ru_running r) x (ru_failed r)
    (ru_transferring r).

(** [Runner.capacity] and [Queue.readers] are semaphores of eight. *)
Definition free (h : holding) (c : ctl) : bool :=
  match h with
  | NodeLock i => negb (bool_decide (i ∈ ru_locked (k_runner c)))
  | RunnerSlot => (ru_running (k_runner c) <? 8)%nat
  | ReaderSlot => (ru_readers (k_runner c) <? 8)%nat
  end.

Definition taken (h : holding) (c : ctl) : ctl :=
  set_runner c match h with
               | NodeLock i => with_locked (k_runner c) ({[i]} ∪ ru_locked (k_runner c))
               | RunnerSlot => with_running (k_runner c) (S (ru_running (k_runner c)))
               | ReaderSlot => with_readers (k_runner c) (S (ru_readers (k_runner c)))
               end.

Definition given_back (h : holding) (c : ctl) : ctl :=
  set_runner c match h with
               | NodeLock i => with_locked (k_runner c) (ru_locked (k_runner c) ∖ {[i]})
               | RunnerSlot => with_running (k_runner c) (pred (ru_running (k_runner c)))
               | ReaderSlot => with_readers (k_runner c) (pred (ru_readers (k_runner c)))
               end.

(** [async with h: p]. *)
Definition holds {A} (h : holding) (p : prog A) : prog A :=
  Acquire h (prog_finally p (modify (given_back h))).

(** A task runs to its next await; a free lock is no reason to wait. *)
Fixpoint run {A} (p : prog A) (c : ctl) : ctl * prog A :=
  match p with
  | Atomic m => let '(c', q) := m c in run q c'
  | Acquire h q => if free h c then run q (taken h c) else (c, p)
  | _ => (c, p)
  end.

End state.

Arguments Return {_} {A} r.
Arguments Atomic {_} {A} m.
Arguments Await {_} {A} f k.
Arguments Acquire {_} {A} h p.
Arguments Yield {_} {A} p.
