(* ===== verification/Channel.v ===== *)
(** * The executor command channel

    [workloads/channel.py]: a command waits for its contributor's next poll, is
    handed out once to the connection it was made for, and its reply resolves the
    future of the task that asked.  Closing the controller is [close]; the events
    that wake a poll early are part of [Yield]. *)

From Stdlib Require Import SpecFloat.
From S2P Require Import Prelude Float64 Json Spec Offer Protocol Wire WorkloadSchema Database Records Identity Contributors PolicyPackages Policy Authority Control.

Module Channel.

(** [Exchange]: the response is untyped JSON. *)
Record Exchange := mkExchange { ex_session : string; ex_response : option json }.

Section channel.
Context `{Controller}.
(** The closures of the commands, given meaning by their callers. *)
Context (run_check : checking → M unit).

Definition guard (node session fingerprint : string) : M unit :=
  x ← draw;
  c ← gets id;
  lift (Sessions.guard contributor_settings (time (sa_draw x) 0) (sa_mono x 0%nat) (sa_mono x 1%nat)
          (k_store c) (k_sessions c) node session fingerprint).

(** [session]. *)
Definition session (node : string) : M Sessions.Session :=
  c ← gets id;
  s ← lift (some_or (k_sessions c !! node)
              (refused "contributor_disconnected" "The contributor has no current connection."));
  guard node (Sessions.se_id s) (Sessions.se_fingerprint s) ;;
  mret s.

(** ** Fields *)

Definition with_pending (h : channel) (m : gmap string Pending) : channel :=
  mkChannel m (ch_polling h) (ch_closed h) (ch_futures h) (ch_next h) (ch_history h).
Definition with_polling (h : channel) (x : gset string) : channel :=
  mkChannel (ch_pending h) x (ch_closed h) (ch_futures h) (ch_next h) (ch_history h).
Definition with_next (h : channel) (n : nat) : channel :=
  mkChannel (ch_pending h) (ch_polling h) (ch_closed h) (ch_futures h) n (ch_history h).
Definition handed_out (h : channel) (d : Delivery) : channel :=
  mkChannel (ch_pending h) (ch_polling h) (ch_closed h) (ch_futures h) (ch_next h) (d :: ch_history h).

(** [if not future.done (): future.set_result] or [set_exception]. *)
Definition settle (h : channel) (f : nat) (r : res ReplyType) : channel :=
  match ch_futures h !! f with
  | Some _ => h
  | None => mkChannel (ch_pending h) (ch_polling h) (ch_closed h) (<[f := r]> (ch_futures h)) (ch_next h) (ch_history h)
  end.

Definition on_channel (f : channel → channel) : M unit := modify (fun c => set_channel c (f (k_channel c))).

Definition delivered (p : Pending) : Pending :=
  mkPending (pe_message p) (pe_session p) (pe_fingerprint p) (pe_check p) (pe_future p) true.

(** ** [request] *)

Definition busy : exn := refused "executor_busy" "The contributor command channel is busy or stopped.".

(** Up to the await: the command is pending. *)
Definition request_begin (node : string) (e : Envelope) (k : checking) : M Pending :=
  lift (raise_if (negb (envelope_ok e)) model_error) ;;
  lift (match m_body e with
        | SetOffer _ _ _ =>
            Err (Failure "local_consent" "Change the offer through the authenticated local owner interface." 403)
        | _ => Ok tt
        end) ;;
  c ← gets id;
  lift (raise_if (ch_closed (k_channel c) || present (ch_pending (k_channel c) !! node)) busy) ;;
  s ← session node;
  run_check k ;;
  c ← gets id;
  let p := mkPending e (Sessions.se_id s) (Sessions.se_fingerprint s) k (ch_next (k_channel c)) false in
  on_channel (fun h => with_next (with_pending h (<[node := p]> (ch_pending h))) (S (ch_next h))) ;;
  mret p.

Definition reply_unknown : exn :=
  Failure "executor_reply_unknown" "The executor reply was not received. Reconcile the same attempt." 504.

(** Drop the pending command if it still is this one. *)
Definition forget (node : string) (p : Pending) (h : channel) : channel :=
  match ch_pending h !! node with
  | Some q => if (pe_future q =? pe_future p)%nat then with_pending h (delete node (ch_pending h)) else h
  | None => h
  end.

(** From the await on; [try: ...  finally: ...]. *)
Definition request_end (node : string) (p : Pending) (r : res ReplyType) : M ReplyType := fun c =>
  let '(c', r') :=
    (reply ← lift r;
     guard node (pe_session p) (pe_fingerprint p) ;;
     run_check (pe_check p) ;;
     mret reply) c in
  (set_channel c' (forget node p (k_channel c')), r').

(** [asyncio.TimeoutError] of the await. *)
Definition timed_out : exn := OtherError "TimeoutError".
Definition answered (r : res ReplyType) : res ReplyType :=
  match r with
  | Err e => if bool_decide (e = timed_out) then Err reply_unknown else Err e
  | Ok a => Ok a
  end.

Definition request (node : string) (e : Envelope) (k : checking) : prog ReplyType :=
  p ← here (request_begin node e k);
  Await (pe_future p) (fun r => here (request_end node p (answered r))).

(** ** [exchange] *)

(** [bound]. *)
Definition bound (node : string) (p : Pending) (session fingerprint : string) : M unit :=
  if bool_decide (pe_session p = session) && bool_decide (pe_fingerprint p = fingerprint)
  then guard node session fingerprint
  else
    let e := refused "node_lease_changed" "The contributor connection changed during an executor command." in
    on_channel (fun h => settle h (pe_future p) (Err e)) ;;
    lift (Err e).

(** A response resolves the command it names, if that was handed out. *)
Definition respond (node : string) (x : Exchange) (fingerprint : string) : M unit :=
  c ← gets id;
  let pending := ch_pending (k_channel c) !! node in
  match ex_response x with
  | None => mret tt
  | Some j =>
      lift (raise_if (MAX_REPLY <? Z.of_nat (String.length (encoded j)))%Z
              (Failure "response_limit" "The executor response exceeds the control limit." 413)) ;;
      reply ← lift (read_reply j);
      let h := reply_header reply in
      lift (raise_if (negb (bool_decide (h_node_id h = node)) || negb (bool_decide (h_deployment_id h = deployment)))
              (Failure "executor_identity" "The executor response belongs to another deployment or node." 403)) ;;
      match pending with
      | Some p =>
          if pe_delivered p && bool_decide (h_id h = m_id (pe_message p)) then
            bound node p (ex_session x) fingerprint ;;
            on_channel (fun h => settle h (pe_future p) (Ok reply))
          else mret tt
      | None => mret tt
      end
  end.

(** One round of the poll: the command to hand out, if there is one. *)
Definition poll_once (node : string) (x : Exchange) (fingerprint : string) : M (option Envelope) :=
  guard node (ex_session x) fingerprint ;;
  c ← gets id;
  match ch_pending (k_channel c) !! node with
  | Some p =>
      if pe_delivered p then mret None
      else
        bound node p (ex_session x) fingerprint ;;
        catch (run_check (pe_check p))
          (fun e => on_channel (fun h => settle h (pe_future p) (Err e)) ;; lift (Err e)) ;;
        on_channel (fun h =>
          handed_out (with_pending h (alter delivered node (ch_pending h)))
            (mkDelivery node (ex_session x) fingerprint (pe_message p) (pe_future p))) ;;
        mret (Some (pe_message p))
  | None => mret None
  end.

(** Ten rounds, a tenth of a second apart, then a last check of the connection. *)
Fixpoint poll (n : nat) (node : string) (x : Exchange) (fingerprint : string) : prog (option Envelope) :=
  match n with
  | O => here (guard node (ex_session x) fingerprint ;; mret None)
  | S n =>
      r ← here (poll_once node x fingerprint);
      match r with
      | Some e => mret (Some e)
      | None => Yield (poll n node x fingerprint)
      end
  end.

(** Who is asking, and that nobody polls for the same contributor. *)
Definition exchange_begin (fingerprint : string) (x : Exchange) : M string :=
  y ← draw;
  c ← gets id;
  '(node, _, _) ← lift (Contributors.authenticate (time (sa_draw y) 0) (k_store c) fingerprint false);
  guard node (ex_session x) fingerprint ;;
  c ← gets id;
  lift (raise_if (bool_decide (node ∈ ch_polling (k_channel c)))
          (refused "executor_busy" "One execution poll is already active for this contributor.")) ;;
  on_channel (fun h => with_polling h ({[node]} ∪ ch_polling h)) ;;
  mret node.

(** [exchange]: the contributor and the command handed to it. *)
Definition exchange (fingerprint : string) (x : Exchange) : prog (string * option Envelope) :=
  node ← here (exchange_begin fingerprint x);
  prog_finally
    (here (respond node x fingerprint) ≫= fun _ =>
     e ← poll 10 node x fingerprint;
     mret (node, e))
    (on_channel (fun h => with_polling h (ch_polling h ∖ {[node]}))).

(** [close]: every waiting task is told, and no command is accepted again. *)
Definition close : M unit :=
  let e := Failure "executor_stopped" "The controller execution channel stopped." 503 in
  on_channel (fun h =>
    let h := foldl (fun h p => settle h (pe_future p) (Err e)) h (row_values (ch_pending h)) in
    mkChannel ∅ (ch_polling h) true (ch_futures h) (ch_next h) (ch_history h)).

End channel.
End Channel.
