(* ===== verification/Commands.v ===== *)
(** * Commands and the observations they bring

    [workloads/commands.py]: a reply is bound to the plan, the lease and the ledger
    it was asked for before it is recorded; a command whose reply is missing leaves
    its attempts uncertain. *)

From Stdlib Require Import SpecFloat.
From S2P Require Import Prelude Float64 Json Spec Offer Protocol Wire WorkloadSchema Database Records Identity Contributors PolicyPackages Policy Authority Control Channel.

Module Commands.

(** [fence (attempt)]. *)
Definition fence (a : Attempt) : Fence :=
  mkFence (t_id a) (generation (t_plan a)) (plan_digest (t_plan a)).

Definition executor_response (text : string) : exn := Failure "executor_response" text 502.

Section commands.
Context `{Controller} (run_check : checking → M unit).

(** [call]: a fresh identity, the request, and a failure reply as an exception. *)
Definition call_begin (node : string) (m : res Message) (k : checking) : M Pending :=
  x ← draw;
  m ← lift m;
  Channel.request_begin run_check node (mkEnvelope (token (sa_draw x) 0) m) k.

Definition call_end (node : string) (p : Pending) (r : res ReplyType) : M ReplyType :=
  reply ← Channel.request_end run_check node p (Channel.answered r);
  match reply with
  | FailureReply _ e => lift (Err (refused (error_code e) (error_text e)))
  | _ => mret reply
  end.

Definition call (node : string) (m : res Message) (k : checking) : prog ReplyType :=
  p ← here (call_begin node m k);
  Await (pe_future p) (fun r => here (call_end node p r)).

(** [ids == sorted (set (ids))]: the identities are strictly increasing. *)
Fixpoint increasing (l : list string) : bool :=
  match l with
  | x :: ((y :: _) as l') => String.ltb x y && increasing l'
  | _ => true
  end.

Definition page_ids (s : Snapshot) : list string :=
  map (fun a => f_attempt_id (r_fence (wa_result a))) (ss_attempts s).

(** The cursor rules of [snapshot]. *)
Definition cursor_ok (after : option string) (s : Snapshot) : bool :=
  let ids := page_ids s in
  increasing ids
  && match after with
     | Some a => bool_decide (a = "") || forallb (fun i => String.ltb a i) ids
     | None => true
     end
  && match ss_next s with
     | Some n => match last ids with Some l => bool_decide (n = l) | None => false end
     | None => true
     end.

(** What [snapshot] makes of a reply. *)
Definition accepted_snapshot (node : string) (after : option string) (r : ReplyType) : M Snapshot :=
  match r with
  | SnapshotReply h s =>
      n ← reads (fun st => contributor st node);
      lift (raise_if (negb (bool_decide (ss_node_id s = node)) || negb (bool_decide (ss_deployment_id s = h_deployment_id h))
                      || negb (bool_decide (offer_mode (ss_offer s) = c_mode n)))
              (refused "executor_identity" "The executor capacity does not bind the approved contributor.")) ;;
      lift (raise_if (negb (cursor_ok after s))
              (executor_response "The executor snapshot has an invalid attempt cursor.")) ;;
      mret s
  | _ => lift (Err (executor_response "The executor did not return the requested capacity snapshot."))
  end.

Definition snapshot (node : string) (after : option string) : prog Snapshot :=
  r ← call node (Ok (SnapshotRequest after)) NoCheck;
  here (accepted_snapshot node after r).

(** ** Observations *)

Definition with_state (r : AttemptResult) (s : astate) : AttemptResult :=
  mkResult (r_fence r) s (r_reason r) (r_exit_code r) (r_output_bytes r) (r_error_bytes r) (r_cleanup_confirmed r).

(** [AttemptResult.model_validate]. *)
Definition validated (r : AttemptResult) : M AttemptResult := lift (raise_if (negb (result_ok r)) model_error ;; Ok r).

Definition record (r : AttemptResult) (s : Snapshot) : M Attempt :=
  drawn (fun w => Records.observation w r (ss_node_id s) (ss_installation_id s)).

(** The result belongs to the attempt the controller stored. *)
Definition binds (a : Attempt) (w : WireAttempt) (s : Snapshot) : res unit :=
  raise_if (present (t_ledger_id a)
            && negb (bool_decide (t_ledger_id a = ss_ledger_id s) && (t_admission_version a =? ss_admission_version s)%Z))
    (refused "executor_replaced" "The result belongs to another executor admission ledger.") ;;
  raise_if (negb (bool_decide (wa_job_id w = job_id (t_plan a))) || negb (bool_decide (wa_project_id w = project_id (t_plan a)))
            || negb (wa_offer_revision w =? offer_revision (t_plan a))%Z
            || (n_sequence (t_lease a) <? wa_lease_sequence w)%Z || f_lt (n_expires_at (t_lease a)) (wa_lease_expires_at w))
    (refused "attempt_changed" "The executor result does not bind the admitted workload or lease.").

Definition seen (c : ctl) (i : string) : Seen := default (mkSeen None None None) (k_observed c !! i).

(** [observation]. *)
Definition observation (w : WireAttempt) (s : Snapshot) : M Attempt :=
  let r := wa_result w in
  a ← reads (fun st => Records.attempt st (f_attempt_id (r_fence r)));
  lift (binds a w s) ;;
  (if bool_decide (r_state r = Released) && negb (bool_decide (t_state a = At Released)) then
     o ← lift (some_or (match wa_outcome w with Some o => if outcome_ok o then Some o else None | None => None end)
                 (executor_response "The released attempt has no retained outcome."));
     r' ← validated (with_state r o);
     record r' s ;;
     mret tt
   else mret tt) ;;
  r ← validated r;
  a ← record r s;
  t ← monotonic;
  modify (fun c => set_observed c (<[t_id a := mkSeen (Some (wa_ready w)) (Some t) (se_inputs (seen c (t_id a)))]> (k_observed c))) ;;
  mret a.

(** [uncertain]. *)
Definition uncertain (i reason : string) : M unit :=
  a ← reads (fun st => Records.attempt st i);
  modify (fun c => set_observed c (delete i (k_observed c))) ;;
  if bool_decide (t_state a ∈ [Preparing; At Prepared; At Starting; At Running]) then
    drawn (fun w => Records.transition w i (t_state a) (At Unknown) (Some reason)) ;;
    mret tt
  else mret tt.

(** ** Batches *)

(** The rows answer the requested attempts in order. *)
Definition row_bound (row : BatchResult) (f : Fence) : res unit :=
  raise_if (negb (bool_decide (row_fence row = f)))
    (executor_response "The executor result order or attempt binding changed.") ;;
  raise_if (row_ok row && match row with
                          | ResultRow _ a => negb (bool_decide (r_fence (wa_result a) = f))
                          | _ => true
                          end)
    (executor_response "The executor result does not contain the requested attempt.").

(** One row of a checked reply. *)
Definition settle_row (s : Snapshot) (row : BatchResult) : M (option Attempt) :=
  match row with
  | ResultRow _ a => v ← observation a s; mret (Some v)
  | RefusedRow f e => uncertain (f_attempt_id f) (error_code e) ;; mret None
  | _ => mret None
  end.

Definition batch_reply (s : Snapshot) (wanted : list Fence) (r : ReplyType) : M (list Attempt) :=
  match r with
  | BatchReply _ rows =>
      lift (raise_if (negb (length rows =? length wanted)%nat)
              (executor_response "The executor returned an invalid batch result.")) ;;
      lift (forM_ (fun x => row_bound x.1 x.2) (zip rows wanted)) ;;
      l ← collect (settle_row s) rows;
      mret (omap id l)
  | _ => lift (Err (executor_response "The executor returned an invalid batch result."))
  end.

(** [batch]: [m] is the message, which may not validate. *)
Definition batch (node : string) (s : Snapshot) (attempts : list Attempt) (m : res Message) (k : checking)
    : prog (list Attempt) :=
  match attempts with
  | [] => mret []
  | _ =>
      prog_except
        (r ← call node m k; here (batch_reply s (map fence attempts) r))
        reported
        (fun e => each (fun a => uncertain (t_id a) "executor_reply_unknown") attempts ;; lift (Err e))
  end.

(** The messages of the actions that list fences. *)
Definition control_message (a : control_action) (l : list Attempt) : res Message := Ok (Control a (map fence l)).

End commands.
End Commands.
