(* ===== verification/Checks.v ===== *)
(** * What a command is checked against

    The closures a command of [channel.py] carries are evaluated again when it is
    handed out and when its reply arrives: the authority of attempts
    ([runner.py]), the input read of a prepared attempt ([inputs.py]) and the
    owner of a job ([queue.py], [artifacts.py]). *)

From Stdlib Require Import SpecFloat.
From S2P Require Import Prelude Float64 Json Spec Offer Protocol Wire WorkloadSchema Database Records Identity Contributors PolicyPackages Policy Authority Control Channel Commands.

Module Checks.

Section checks.
Context `{Controller}.

(** [Queue.suspended]. *)
Definition suspended : M bool := gets (fun c => s_suspended (k_store c)).

(** ** [runner.py] *)

(** [Runner.available]. *)
Definition available (i : string) : M bool :=
  c ← gets id;
  match ru_live (k_runner c) !! i with
  | None => mret false
  | Some (s, at_) =>
      t ← monotonic;
      if f_lt (f_of_Z (ss_maximum_lease_seconds s)) (f_sub t at_) then mret false
      else
        catch
          (x ← Channel.session i;
           mret (bool_decide (ru_reconciled (k_runner c) !! i
                              = Some (Sessions.se_id x, ss_installation_id s, ss_ledger_id s))))
          (fun e => if is_failure e then mret false else lift (Err e))
  end.

(** [Authority.check], evaluated by one task without interruption. *)
Definition authority_check (j : JobRecord) (i : string) (enforcement : bool) : M Z :=
  x ← draw;
  on_policies (fun p s s' =>
    @Authority.check (sa_registry x) evaluator run_evaluator (sa_draw x) p s s' j i enforcement).

Definition suspended_after_restore : exn :=
  refused "workloads_suspended" "Workload dispatch is suspended after restore.".

(** [self.live[identity][0]]. *)
Definition live_snapshot (i : string) : M Snapshot :=
  c ← gets id;
  lift (some_or (fst <$> ru_live (k_runner c) !! i) (OtherError "KeyError")).

(** [Runner.authority]. *)
Definition authority (a : Attempt) (starting : bool) : M unit :=
  b ← suspended;
  lift (raise_if b suspended_after_restore) ;;
  j ← reads (fun st => Records.get st (t_job_id a));
  authority_check j (t_node_id a) true ;;
  up ← available (t_node_id a);
  lift (raise_if (negb up) (refused "executor_unavailable" "The executor has no reconciled current capacity.")) ;;
  s ← live_snapshot (t_node_id a);
  lift (raise_if (negb (bool_decide (ss_installation_id s = t_installation_id a)))
          (refused "executor_replaced" "The executor installation changed.")) ;;
  lift (raise_if (present (t_ledger_id a)
                  && negb (bool_decide (ss_ledger_id s = t_ledger_id a)
                           && (ss_admission_version s =? t_admission_version a)%Z))
          (refused "executor_replaced" "The executor admission ledger changed.")) ;;
  lift (raise_if (starting && negb (revision (ss_offer s) =? offer_revision (t_plan a))%Z)
          (refused "offer_changed" "The local offer changed before dispatch.")) ;;
  t ← now;
  reason ← lift (refusal (ss_offer s) (j_project_id j) (sub_job (j_request j)) t (negb starting));
  lift match reason with
       | Some reason => Err (refused reason "The current local offer does not permit this workload.")
       | None => Ok tt
       end.

(** ** [inputs.py] *)

(** [Inputs.current]. *)
Definition current (a : Attempt) (j : JobRecord) : M JobRecord :=
  v ← reads (fun st => Records.attempt st (t_id a));
  r ← reads (fun st => Records.get st (j_id j));
  c ← gets id;
  lift (raise_if (k_inputs_closed c || negb (bool_decide (j_current_attempt r = Some (t_id a)))
                  || negb (bool_decide (t_state v = At Prepared)) || t_start_requested v
                  || negb (bool_decide (Commands.fence v = Commands.fence a))
                  || negb (bool_decide (sub_dataset (j_request r) = sub_dataset (j_request j))))
          (refused "attempt_changed" "The input read no longer belongs to the current prepared attempt.")) ;;
  authority v true ;;
  mret r.

(** ** [queue.py] and [artifacts.py] *)

(** [Principal.require] of a principal of the controller. *)
Definition require (p : Principal) (scope : string) : M unit :=
  lift (require_host p scope None None) ;;
  x ← draw;
  on_policies (fun pol s s' =>
    Policies.check run_evaluator (sa_external x) (sa_draw x) pol (pr_id p) scope None None s s').

(** [Queue.actor]. *)
Definition actor (p : Principal) (scope : string) : M Principal :=
  x ← draw;
  v ← reads (fun st => Identity.current (sa_external x) (time (sa_draw x) 0) st (pr_id p));
  require v scope ;;
  lift (raise_if (negb (bool_decide (pr_project_id v = pr_project_id p)) || present (pr_node_ids v)
                  || present (pr_root_ids v))
          (denied "Contributor jobs require an unrestricted credential within their project.")) ;;
  mret v.

(** [Queue.owned]. *)
Definition owned (i : string) (p : Principal) (scope : string) : M JobRecord :=
  v ← actor p scope;
  j ← reads (fun st => Records.get st i);
  lift (raise_if (negb (bool_decide (j_project_id j = pr_project_id v)))
          (not_found "The workload was not found in this project.")) ;;
  mret j.

(** One item of [Publications.require_releasable]. *)
Definition publishing (removing : bool) (x : Publishing) : bool :=
  let pending_dataset := pb_requested x && negb (pb_dataset x) && negb (pb_cancelled x) in
  negb (bool_decide (pb_state x ∈ ["succeeded"; "cancelled"]))
  || removing && pending_dataset && negb (bool_decide (pb_state x = "cancelled")).

(** [Publications.require_releasable]. *)
Definition require_releasable (i : string) (removing : bool) : M unit :=
  x ← draw;
  lift (raise_if
          (existsb (fun o => bool_decide (o.1 = Some i) && existsb (publishing removing) o.2) (sa_transfers x))
          (refused "output_publication_active"
             "Finish or cancel the output publication before releasing or removing this workload.")).

Definition attempt_changed (text : string) : exn := refused "attempt_changed" text.

(** ** The closures *)

Definition run_check (k : checking) : M unit :=
  match k with
  | NoCheck => mret tt
  | CheckAuthority l starting => each (fun a => authority a starting) l
  | CheckInput a j => current a j ;; mret tt
  | CheckOwned i p scope a releasing =>
      j ← owned i p scope;
      (if releasing then require_releasable i false else mret tt) ;;
      lift (raise_if (negb (bool_decide (j_current_attempt j = Some a)))
              (attempt_changed (if releasing then "The workload attempt changed before output release."
                                else "The workload attempt changed during the output read.")))
  end.

End checks.
End Checks.
