(* ===== verification/Transfers.v ===== *)
(** * Dataset bytes for prepared attempts

    Class [Inputs] of [workloads/inputs.py], the sending side of a transfer: at most
    eight reads of dataset bytes are under way, each is bound to the attempt and the
    acknowledged offset it was started for, and a chunk is sent only while the
    attempt is still the prepared one.  A read is a task of the dataset registry;
    [completed] and [collected] are its completion and its callback.  The
    dataset rules of the class are in [Authority] ([Datasets]). *)

From Stdlib Require Import SpecFloat.
From S2P Require Import Prelude Float64 Sha256 Json Spec Offer Ledger Samples Protocol Wire WorkloadSchema Database Records Identity Contributors PolicyPackages Policy Authority Control Channel Commands Checks.

Module Transfers.

Definition PREFETCHES : nat := 8.

Section transfers.
Context `{Controller}.

(** ** Reads under way *)

Definition discarded (w : Prefetch) : Prefetch :=
  mkPrefetch (pf_attempt w) (pf_job w) (pf_object w) (pf_offset w) (pf_done w) true.

Definition on_prefetches (f : gmap string Prefetch → gmap string Prefetch) : M unit :=
  modify (fun c => set_prefetches c (f (k_prefetches c))).

(** [discard]: a read that is not done keeps its slot until it ends. *)
Definition discard_one (i : string) (m : gmap string Prefetch) : gmap string Prefetch :=
  match m !! i with
  | None => m
  | Some w => if present (pf_done w) then delete i m else <[i := discarded w]> m
  end.
Definition discard (i : string) : M unit := on_prefetches (discard_one i).

Definition discard_where (f : Prefetch → bool) : M unit :=
  c ← gets id;
  each (fun w => if f w then discard (t_id (pf_attempt w)) else mret tt) (row_values (k_prefetches c)).

Definition discard_job (i : string) : M unit := discard_where (fun w => bool_decide (j_id (pf_job w) = i)).
Definition discard_node (i : string) : M unit :=
  discard_where (fun w => bool_decide (t_node_id (pf_attempt w) = i)).

(** [stop]. *)
Definition stop : M unit :=
  modify (fun c => set_inputs_closed c true) ;;
  discard_where (fun _ => true).

(** [prune]. *)
Definition prune : M unit :=
  c ← gets id;
  each (fun w => catch (Checks.current (pf_attempt w) (pf_job w) ;; mret tt)
                   (fun e => if is_failure e || is_value_error e then discard (t_id (pf_attempt w))
                             else lift (Err e)))
    (row_values (k_prefetches c)).

(** [prefetch]: the read starts. *)
Definition prefetch (a : Attempt) (j : JobRecord) (o : ObjectReference) (offset : Z) : M unit :=
  on_prefetches (<[t_id a := mkPrefetch a j (object_id o) offset None false]>).

(** The task of a read ends, and then its callback [finished] runs. *)
Definition completed (i : string) (r : res string) (m : gmap string Prefetch) : gmap string Prefetch :=
  match m !! i with
  | Some (mkPrefetch a j o n None d) => <[i := mkPrefetch a j o n (Some r) d]> m
  | _ => m
  end.
Definition collected (i : string) (m : gmap string Prefetch) : gmap string Prefetch :=
  match m !! i with
  | Some w => if present (pf_done w) && pf_discarded w then delete i m else m
  | None => m
  end.

(** ** Receipts *)

Definition executor_response (text : string) : exn := Failure "executor_response" text 502.

(** One row of [progress]. *)
Definition receipt (a : Attempt) (x : BatchResult * ObjectReference) : res InputResult :=
  let '(row, o) := x in
  raise_if (negb (bool_decide (row_fence row = Commands.fence a)))
    (executor_response "The executor input receipt belongs to a different attempt.") ;;
  match row with
  | RefusedRow _ e => Err (refused (error_code e) (error_text e))
  | InputRow r =>
      raise_if (negb (bool_decide (xr_object r = object_id o)) || negb (xr_bytes r =? object_bytes o)%Z
                || negb (bool_decide (xr_digest r = object_digest o))
                || xr_complete r && negb (xr_offset r =? object_bytes o)%Z)
        (executor_response "The executor input receipt differs from the immutable plan.") ;;
      Ok r
  | _ => Err (executor_response "The executor input receipt differs from the immutable plan.")
  end.

(** [progress]. *)
Definition progress (r : ReplyType) (a : Attempt) (l : list ObjectReference) : res (list InputResult) :=
  match r with
  | BatchReply _ rows =>
      raise_if (negb (length rows =? length l)%nat)
        (executor_response "The executor returned an invalid input receipt.") ;;
      mapM (receipt a) (zip rows l)
  | _ => Err (executor_response "The executor returned an invalid input receipt.")
  end.

(** ** [transfer] *)

(** [observed.setdefault (attempt.id, {})["inputs"] = progress]. *)
Definition show (i : string) (p : Progress) : M unit :=
  modify (fun c => let s := Commands.seen c i in
                   set_observed c (<[i := mkSeen (se_ready s) (se_at s) (Some p)]> (k_observed c))).

(** The same dictionary, updated in place while it is still shown. *)
Definition reshow (i : string) (received : Z) : M unit :=
  modify (fun c =>
    match k_observed c !! i with
    | Some (mkSeen ready t (Some p)) =>
        set_observed c (<[i := mkSeen ready t (Some (mkProgress received (pr_total p)))]> (k_observed c))
    | _ => c
    end).

(** The first input that is not complete. *)
Fixpoint incomplete (l : list (ObjectReference * InputResult)) : option (ObjectReference * InputResult) :=
  match l with
  | [] => None
  | x :: l => if xr_complete x.2 then incomplete l else Some x
  end.

(** The read to continue with, once one that is not for this position is discarded. *)
Definition reading (a : Attempt) (o : ObjectReference) (offset : Z) : M (option Prefetch) :=
  c ← gets id;
  match k_prefetches c !! t_id a with
  | Some w =>
      if negb (bool_decide (pf_object w = object_id o)) || negb (pf_offset w =? offset)%Z
         || negb (bool_decide (Commands.fence (pf_attempt w) = Commands.fence a))
      then discard (t_id a) ;; gets (fun c => k_prefetches c !! t_id a)
      else mret (Some w)
  | None => mret None
  end.

Definition chunk (a : Attempt) (o : ObjectReference) (offset : Z) (data : string) : InputChunk :=
  mkInputChunk (Commands.fence a) (object_id o) offset (b64encode data) ("sha256:" +:+ hex (sha256 (bytes_of data))).

(** What follows a read that is done: [try: ...  finally: discard]. *)
Definition send (node : string) (a : Attempt) (j : JobRecord) (rows : list InputResult) (o : ObjectReference)
    (offset : Z) (done : res string) : prog InputResult :=
  prog_finally
    (data ← here (data ← lift done; Checks.run_check (CheckInput a j) ;; mret data);
     r ← Commands.call Checks.run_check node (Ok (InputWrite [chunk a o offset data])) (CheckInput a j);
     here (l ← lift (progress r a [o]);
           w ← lift (some_or (head l) (OtherError "IndexError"));
           lift (raise_if (negb (xr_offset w =? offset + Z.of_nat (String.length data))%Z)
                   (executor_response "The executor acknowledged a different input byte range.")) ;;
           reshow (t_id a) (sumZ xr_offset rows + xr_offset w - offset) ;;
           mret w))
    (discard (t_id a)).

(** From the receipts on. *)
Definition continue (node : string) (a : Attempt) (j : JobRecord) (rows : list InputResult) : prog bool :=
  match incomplete (zip (inputs (sub_job (j_request j))) rows) with
  | None => here (discard (t_id a) ;; mret false)
  | Some (o, row) =>
      let offset := xr_offset row in
      w ← here (reading a o offset);
      match w with
      | None =>
          here (c ← gets id;
                (if (size (k_prefetches c) <? PREFETCHES)%nat then prefetch a j o offset else mret tt) ;;
                mret false)
      | Some w =>
          match pf_discarded w, pf_done w with
          | false, Some done =>
              written ← send node a j rows o offset done;
              here ((if xr_complete written then mret tt else prefetch a j o (xr_offset written)) ;; mret true)
          | _, _ => mret false
          end
      end
  end.

(** [transfer]: whether bytes were sent. *)
Definition transfer (node : string) (a : Attempt) (j : JobRecord) : prog bool :=
  here (Checks.run_check (CheckInput a j)) ≫= fun _ =>
  let l := inputs (sub_job (j_request j)) in
  match l with
  | [] => mret false
  | _ =>
      r ← Commands.call Checks.run_check node
            (Ok (InputStatus (map (fun o => mkInputObject (Commands.fence a) (object_id o)) l))) (CheckInput a j);
      rows ← here (rows ← lift (progress r a l);
                   show (t_id a) (mkProgress (sumZ xr_offset rows) (sumZ object_bytes l)) ;;
                   mret rows);
      continue node a j rows
  end.

(** ** [advance] *)

(** [observed.get (identity, {}).get ("ready")]. *)
Definition is_ready (c : ctl) (i : string) : bool :=
  match k_observed c !! i with Some s => default false (se_ready s) | None => false end.

Definition unsent (a : Attempt) : bool := bool_decide (t_state a = At Prepared) && negb (t_start_requested a).

(** Failures that only postpone the attempt. *)
Definition postponed (code : string) : bool :=
  bool_decide (code ∈ ["inputs_preparing"; "input_offset_changed"; "input_busy"; "input_not_prepared"; "executor_busy"]).

(** A job whose inputs cannot be sent is cancelled. *)
Definition cancel_job (i code : string) : M unit :=
  drawn (fun w s =>
    j ← Records.get s i;
    if j_cancelled j then Ok (s, tt)
    else
      '(s, _) ← Records.cancel w (j_id j) (j_revision j) s;
      Ok (audit (time w 9) "workload.input" (j_id j) code (j_actor j) (Some (j_subject_id j))
            (Some (j_project_id j)) s, tt)).

(** [except Failure as exc]. *)
Definition transfer_failed (a : Attempt) (j : JobRecord) (e : exn) : M bool :=
  discard (t_id a) ;;
  match e with
  | Failure code _ status =>
      if postponed code then mret false
      else if (500 <=? status)%Z || bool_decide (code ∈ ["contributor_disconnected"; "node_lease_changed"])
           then lift (Err e)
           else cancel_job (j_id j) code ;; mret false
  | _ => lift (Err e)
  end.

Fixpoint advance_each (node : string) (l : list Attempt) : prog bool :=
  match l with
  | [] => mret false
  | a :: l =>
      if negb (unsent a) then advance_each node l
      else
        j ← here (reads (fun st => Records.get st (t_job_id a)));
        skip ← here (gets (fun c => negb (present (sub_dataset (j_request j))) && negb (present (sub_model_revision (j_request j)))
                                    || is_ready c (t_id a)));
        if skip : bool then advance_each node l
        else
          sent ← prog_except (transfer node a j) is_failure (transfer_failed a j);
          if sent : bool then mret true else advance_each node l
  end.

(** [advance]: whether bytes were sent for one of the attempts. *)
Definition advance (node : string) (l : list Attempt) : prog bool :=
  closed ← here (gets k_inputs_closed);
  if closed : bool then mret false
  else
    here (c ← gets id;
          let retained := map t_id (List.filter (fun a => unsent a && negb (is_ready c (t_id a))) l) in
          discard_where (fun w => bool_decide (t_node_id (pf_attempt w) = node)
                                  && negb (bool_decide (t_id (pf_attempt w) ∈ retained)))) ≫= fun _ =>
    advance_each node l.

End transfers.
End Transfers.
