(* ===== verification/Runner.v ===== *)
(** * Reconciliation and dispatch

    [workloads/runner.py] with the validation of a scheduler's choice
    ([workloads/provider.py]).  A contributor's turn ([node]) reconciles its
    snapshot with the records, settles what is absent, and stops, renews or
    starts its attempts; [schedule] reserves capacity for queued jobs, whose
    attempts [dispatch] then prepares. *)

From Stdlib Require Import SpecFloat.
From S2P Require Import Prelude Float64 Json Spec Offer Samples Scheduler Protocol Wire WorkloadSchema Database Records NodeRecords Identity Contributors PolicyPackages Policy Authority Control Channel Commands Checks Transfers.

(** ** The scheduler interface *)

Module Provider.

Definition pending_of (l : list JobRecord) : list Fair.PendingJob :=
  map (fun j => Fair.mkPending (j_id j) (j_project_id j) (j_created_at j))
    (List.filter (fun j => bool_decide (j_state j = Queued) && negb (j_cancelled j)) l).

Definition active_of (l : list Attempt) : list Fair.ActiveAttempt :=
  map (fun a => Fair.mkActive (t_id a) (t_job_id a) (project_id (t_plan a)))
    (List.filter (fun a => negb (closed_state (t_state a))) l).

(** A list of texts. *)
Fixpoint texts_of (l : list json) : option (list string) :=
  match l with
  | [] => Some []
  | JStr s :: l => cons s <$> texts_of l
  | _ => None
  end.
Definition texts (v : json) : option (list string) := match v with JArr l => texts_of l | _ => None end.

(** What [select] accepts of a provider's answer. *)
Definition accepted (pending : list Fair.PendingJob) (v : json) : res (list string) :=
  match texts v with
  | Some l =>
      raise_if ((64 <? length l)%nat || negb (distinct l)
                || negb (forallb (fun i => bool_decide (i ∈ map Fair.pj_id pending)) l))
        (ValueError "The scheduler returned invalid or duplicate workload identities.") ;;
      Ok l
  | None => Err (ValueError "The scheduler returned invalid or duplicate workload identities.")
  end.

Section provider.
Context `{Controller}.

(** [select]. *)
Definition select (p : scheduler) (jobs : list JobRecord) (attempts : list Attempt) : M (list string) :=
  let pending := pending_of jobs in
  let '(p, v) := run_scheduler p (Fair.mkRequest 1 pending (active_of attempts)) in
  modify (fun c => set_scheduler c (Some p)) ;;
  v ← lift v;
  lift (accepted pending v).
End provider.

(** The fair provider behind the interface, which returns its list of identities. *)
Definition fair (s : Fair.Scheduler) (r : Fair.Request) : Fair.Scheduler * res json :=
  match Fair.select s r with
  | Ok (ids, s) => (s, Ok (JArr (map JStr ids)))
  | Err e => (s, Err e)
  end.
End Provider.

Module Runner.

Definition half : float := f_div (f_of_Z 1) (f_of_Z 2).
Definition renewal_share : float := f_div (f_of_Z 6) (f_of_Z 10).

Section runner.
Context `{Controller}.
Notation call := (Commands.call Checks.run_check).
Notation snapshot_of := (Commands.snapshot Checks.run_check).
Notation batch := (Commands.batch Checks.run_check).

(** ** Fields *)

Definition on_runner (f : runner → runner) : M unit := modify (fun c => set_runner c (f (k_runner c))).

Definition with_reconciled (r : runner) (x : gmap string node_binding) : runner :=
  mkRunner x (ru_live r) (ru_errors r) (ru_deferred r) (ru_locked r) (ru_running r) (ru_readers r)
    (ru_failed r) (ru_transferring r).
Definition with_live (r : runner) (x : gmap string (Snapshot * float)) : runner :=
  mkRunner (ru_reconciled r) x (ru_errors r) (ru_deferred r) (ru_locked r) (ru_running r) (ru_readers r)
    (ru_failed r) (ru_transferring r).
Definition with_errors (r : runner) (x : gmap string string) : runner :=
  mkRunner (ru_reconciled r) (ru_live r) x (ru_deferred r) (ru_locked r) (ru_running r) (ru_readers r)
    (ru_failed r) (ru_transferring r).
Definition with_deferred (r : runner) (x : gmap string float) : runner :=
  mkRunner (ru_reconciled r) (ru_live r) (ru_errors r) x (ru_locked r) (ru_running r) (ru_readers r)
    (ru_failed r) (ru_transferring r).
Definition with_failed (r : runner) (x : bool) : runner :=
  mkRunner (ru_reconciled r) (ru_live r) (ru_errors r) (ru_deferred r) (ru_locked r) (ru_running r) (ru_readers r)
    x (ru_transferring r).
Definition with_transferring (r : runner) (x : gset string) : runner :=
  mkRunner (ru_reconciled r) (ru_live r) (ru_errors r) (ru_deferred r) (ru_locked r) (ru_running r) (ru_readers r)
    (ru_failed r) x.

(** ** [reconcile] *)

(** Between the pages of one reconciliation the executor stays the same. *)
Definition same_executor (p s : Snapshot) : bool :=
  bool_decide (ss_installation_id p = ss_installation_id s) && bool_decide (ss_ledger_id p = ss_ledger_id s)
  && (ss_admission_version p =? ss_admission_version s)%Z && bool_decide (ss_offer p = ss_offer s).

(** One result of a page: an attempt the controller does not know is stopped. *)
Definition observe_one (node : string) (s : Snapshot) (w : WireAttempt) : prog unit :=
  let r := wa_result w in
  let i := f_attempt_id (r_fence r) in
  a ← here (catch (a ← reads (fun st => Records.attempt st i); mret (Some a))
              (fun e => match e with
                        | Failure code _ _ => if bool_decide (code = "not_found") then mret None else lift (Err e)
                        | _ => lift (Err e)
                        end));
  match a with
  | None =>
      if terminal (r_state r) || bool_decide (r_state r = Released) then mret tt
      else call node (Ok (Control StopAction [r_fence r])) NoCheck ≫= fun _ => mret tt
  | Some a =>
      if closed_state (t_state a) then mret tt
      else here (Commands.observation w s ;; mret tt)
  end.

(** The results of a page, the cursor and the attempts not seen yet. *)
Fixpoint observe_page (node : string) (s : Snapshot) (l : list WireAttempt) (cursor : string)
    (missing : gset string) : prog (string * gset string) :=
  match l with
  | [] => mret (cursor, missing)
  | w :: l =>
      let i := f_attempt_id (r_fence (wa_result w)) in
      if String.leb i cursor then
        here (lift (Err (Commands.executor_response "The executor attempt cursor did not advance.")))
      else
        observe_one node s w ≫= fun _ =>
        observe_page node s l i (missing ∖ {[i]})
  end.

(** One round of the [while] loop: the attempts nobody has seen, or the next page. *)
Definition reconcile_page (node : string) (s : Snapshot) (x : Snapshot * string * gset string)
    : prog (Snapshot * string * gset string + gset string) :=
  let '(page, cursor, missing) := x in
  here (lift (raise_if (negb (same_executor page s))
                (refused "executor_changed" "The executor changed while reconciling its attempts."))) ≫= fun _ =>
  y ← observe_page node s (ss_attempts page) cursor missing;
  let '(cursor, missing) := y in
  match ss_next page with
  | None => mret (inr missing)
  | Some n =>
      if bool_decide (ss_attempts page = []) || negb (bool_decide (n = cursor)) then
        here (lift (Err (Commands.executor_response "The executor attempt cursor differs from its page.")))
      else
        page ← snapshot_of node (Some n);
        mret (inl (page, cursor, missing))
  end.

(** [2 ^ d] rounds of a loop. *)
Fixpoint rounds {S R} (d : nat) (body : S → prog (S + R)) (x : S) : prog (S + R) :=
  match d with
  | O => body x
  | S d =>
      y ← rounds d body x;
      match y with
      | inl x => rounds d body x
      | inr r => mret (inr r)
      end
  end.

Definition out_of_rounds : exn := OtherError "out of rounds".

(** Every round that continues moves the cursor forward among the 2 ^ 256 texts of 32
    characters. *)
Definition ROUNDS : nat := 257.

(** [reconcile]. *)
Definition reconcile_begin (node : string) (s : Snapshot) : M (option (node_binding * gset string)) :=
  x ← Channel.session node;
  c ← gets id;
  let b := (Sessions.se_id x, ss_installation_id s, ss_ledger_id s) in
  if bool_decide (ru_reconciled (k_runner c) !! node = Some b) then mret None
  else
    l ← reads (fun st => Records.attempts st (Some node));
    mret (Some (b, list_to_set (map t_id (List.filter (fun a => negb (closed_state (t_state a))) l)))).

Definition reconcile_end (node : string) (b : node_binding) (missing : gset string) : M unit :=
  each (fun i => Commands.uncertain i "attempt_not_observed") (elements missing) ;;
  on_runner (fun r => with_reconciled r (<[node := b]> (ru_reconciled r))).

Definition reconcile (node : string) (s : Snapshot) : prog unit :=
  x ← here (reconcile_begin node s);
  match x with
  | None => mret tt
  | Some (b, missing) =>
      y ← rounds ROUNDS (reconcile_page node s) (s, "", missing);
      match y with
      | inl _ => here (lift (Err out_of_rounds))
      | inr missing => here (reconcile_end node b missing)
      end
  end.

(** ** [reject_absent] *)

(** An attempt the executor never admitted, under the ledger it was made for. *)
Definition absent (s : Snapshot) (a : Attempt) : bool :=
  bool_decide (t_state a = At Unknown) && negb (present (t_observed a)) && negb (t_start_requested a)
  && (t_admission_version a =? ss_admission_version s)%Z && (ss_admission_version s =? 1)%Z
  && bool_decide (t_installation_id a = ss_installation_id s) && bool_decide (t_ledger_id a = ss_ledger_id s).

Definition bound_of (s : Snapshot) : res Bound :=
  i ← some_or (ss_ledger_id s) model_error;
  Ok (mkBound (ss_installation_id s) i 1).

(** A command for every 64 attempts. *)
Definition in_batches (l : list Attempt) (f : list Attempt → prog unit) : prog unit := prog_each f (chunks 64 l).

Definition reject_absent (node : string) (s : Snapshot) (l : list Attempt) : prog unit :=
  in_batches (List.filter (absent s) l) (fun l =>
    batch node s l (b ← bound_of s; Ok (RejectAbsent b (map t_plan l))) NoCheck ≫= fun _ => mret tt).

(** ** [advance] *)

(** What an attempt needs. *)
Inductive need := Nothing | Stopping | Going (renew start : bool).

(** [except Failure]. *)
Definition or_stop (m : M need) : M need :=
  catch m (fun e => if is_failure e then mret Stopping else lift (Err e)).

Definition lease_expired : exn := refused "lease_expired" "The attempt lease expired before renewal.".

Definition triage (s : Snapshot) (a : Attempt) : M need :=
  if is_terminal (t_state a) || closed_state (t_state a) then mret Nothing
  else if bool_decide (t_state a = At Unknown) then mret (if confirmed (t_observed a) then Nothing else Stopping)
  else
    n ← or_stop
          (Checks.authority a (bool_decide (t_state a = At Prepared)) ;;
           t ← now;
           lift (raise_if (f_le (n_expires_at (t_lease a)) t) lease_expired) ;;
           mret (Going false false));
    match n with
    | Going _ _ =>
        t ← now;
        c ← gets id;
        mret (Going (f_lt (f_sub (n_expires_at (t_lease a)) t) (f_mul (f_of_Z (ss_maximum_lease_seconds s)) renewal_share))
                    (Transfers.unsent a && Transfers.is_ready c (t_id a)))
    | _ => mret n
    end.

Definition with_need (f : need → bool) (l : list (Attempt * need)) : list Attempt :=
  map fst (List.filter (fun x => f x.2) l).
Definition stops (n : need) : bool := match n with Stopping => true | _ => false end.
Definition renews (n : need) : bool := match n with Going b _ => b | _ => false end.
Definition starts (n : need) : bool := match n with Going _ b => b | _ => false end.

(** [time.time () + snapshot.maximum_lease_seconds - 0.5]. *)
Definition lease_end (s : Snapshot) : M float :=
  t ← now; mret (f_sub (f_add t (f_of_Z (ss_maximum_lease_seconds s))) half).

Definition stop_batch (node : string) (s : Snapshot) (l : list Attempt) : prog unit :=
  batch node s l (Commands.control_message StopAction l) NoCheck ≫= fun _ => mret tt.

Definition renew_one (s : Snapshot) (a : Attempt) : M Renewal :=
  e ← lease_end s; drawn (fun w => Records.renew w (t_id a) e).

Definition renew_batch (node : string) (s : Snapshot) (l : list Attempt) : prog unit :=
  leases ← here (Checks.run_check (CheckAuthority l false) ;; collect (renew_one s) l);
  batch node s l (Ok (Renew leases)) (CheckAuthority l false) ≫= fun _ => mret tt.

(** The intent is recorded before the command exists; [check] sees the attempts of
    the transition, which the closure's variable names by then. *)
Definition start_one (a : Attempt) : M Attempt :=
  drawn (fun w => Records.transition w (t_id a) (At Prepared) (At Starting) None).

Definition start_batch (node : string) (s : Snapshot) (l : list Attempt) : prog unit :=
  l ← here (Checks.run_check (CheckAuthority l true) ;; collect start_one l);
  batch node s l (Commands.control_message StartAction l) (CheckAuthority l true) ≫= fun _ => mret tt.

Definition advance (node : string) (s : Snapshot) : prog unit :=
  l ← here (l ← reads (fun st => Records.attempts st (Some node));
            collect (fun a => n ← triage s a; mret (a, n)) l);
  in_batches (with_need stops l) (stop_batch node s) ≫= fun _ =>
  in_batches (with_need renews l) (renew_batch node s) ≫= fun _ =>
  in_batches (with_need starts l) (start_batch node s).

(** ** [node] *)

Definition node_failed (node : string) (e : exn) : M unit :=
  Transfers.discard_node node ;;
  on_runner (fun r => with_transferring r (ru_transferring r ∖ {[node]})) ;;
  on_runner (fun r => with_live r (delete node (ru_live r))) ;;
  on_runner (fun r => with_errors r (<[node := match e with Failure code _ _ => code | _ => "executor_unavailable" end]>
                                       (ru_errors r))).

(** The contributor answers, and what it holds is settled. *)
Definition node_turn (node : string) : prog unit :=
  s ← snapshot_of node None;
  here (drawn (fun w => Nodes.save w s)) ≫= fun _ =>
  reconcile node s ≫= fun _ =>
  attempts ← here (t ← monotonic;
                   on_runner (fun r => with_live r (<[node := (s, t)]> (ru_live r))) ;;
                   l ← reads (fun st => Records.attempts st (Some node));
                   mret (List.filter (fun a => negb (closed_state (t_state a))) l));
  reject_absent node s attempts ≫= fun _ =>
  in_batches attempts (fun l => batch node s l (Commands.control_message ObserveAction l) NoCheck ≫= fun _ => mret tt) ≫= fun _ =>
  advance node s ≫= fun _ =>
  l ← here (reads (fun st => Records.attempts st (Some node)));
  sent ← Transfers.advance node l;
  here (on_runner (fun r => with_transferring r
                      (if sent : bool then {[node]} ∪ ru_transferring r else ru_transferring r ∖ {[node]})) ;;
        on_runner (fun r => with_errors r (delete node (ru_errors r)))).

Definition turn_handled (e : exn) : bool := reported e || is_storage e.

(** [node]. *)
Definition node (i : string) : prog unit :=
  locked ← here (gets (fun c => negb (free (NodeLock i) c)));
  if locked : bool then mret tt
  else holds (NodeLock i) (holds RunnerSlot (prog_except (node_turn i) turn_handled (node_failed i))).

(** ** [placement] *)

Definition upgrade_required : exn :=
  refused "executor_upgrade_required" "The executor needs durable admission support before new jobs can start.".

(** The contributor has room for the limits now. *)
Definition has_room (l : Limits) (s : Snapshot) : res unit :=
  raise_if (negb (fits l (cap_available (ss_capacity s))))
    (refused "capacity" "The contributor has insufficient available execution capacity.") ;;
  raise_if (negb (existsb (fun x => sc_available x && (sc_storage_bytes x <=? storage_bytes l)%Z
                                    && (sc_storage_inodes x <=? storage_inodes l)%Z) (cap_slots (ss_capacity s))))
    (refused "storage_slot_unavailable" "No independently bounded storage slot fits this workload.").

(** The admitted runtime is among the executor's providers. *)
Definition has_provider (r : Runtime) (s : Snapshot) : bool :=
  existsb (fun p => bool_decide (pc_id p = provider r) && bool_decide (pc_package_digest p = package_digest r)
                    && pc_available p) (cap_providers (ss_capacity s)).

(** Everything [placement] asks and builds before it reserves. *)
Definition planned (j : JobRecord) (i : string) : M (Plan * Renewal * Snapshot) :=
  up ← Checks.available i;
  lift (raise_if (negb up) (refused "executor_unavailable" "The contributor has no current executor capacity.")) ;;
  s ← Checks.live_snapshot i;
  lift (raise_if (negb (ss_admission_version s =? 1)%Z || negb (present (ss_ledger_id s))) upgrade_required) ;;
  rev ← Checks.authority_check j i true;
  t ← now;
  reason ← lift (refusal (ss_offer s) (j_project_id j) (sub_job (j_request j)) t false);
  lift match reason with
       | Some reason => Err (refused reason "The local offer does not admit this workload.")
       | None => Ok tt
       end ;;
  lift (raise_if (negb (has_provider (runtime (sub_job (j_request j))) s))
          (refused "runtime_unavailable" "The admitted executor provider is not available.")) ;;
  lift (has_room (limits (sub_job (j_request j))) s) ;;
  x ← draw;
  let p := mkPlan (ss_deployment_id s) i (j_project_id j) (j_subject_id j) (j_id j) (token (sa_draw x) 0)
             (j_generation j + 1) (revision (ss_offer s)) rev (sub_job (j_request j)) in
  lift (raise_if (negb (plan_ok p)) model_error) ;;
  e ← lease_end s;
  let n := mkRenewal (plan_fence p) 1 e in
  lift (raise_if (negb (renewal_ok n)) model_error) ;;
  mret (p, n, s).

Definition placement (j : JobRecord) (i : string) : M Attempt :=
  x ← planned j i;
  let '(p, n, s) := x in
  drawn (fun w => Records.reserve w p n (ss_installation_id s) (o_limits (settings (ss_offer s)))
                    (ss_ledger_id s) (ss_admission_version s)).

(** ** [dispatch] *)

Definition dispatch (node : string) (l : list Attempt) : prog unit :=
  holds (NodeLock node) (holds RunnerSlot
    (s ← here (Checks.live_snapshot node);
     prog_except
       (batch node s l
          (i ← some_or (ss_ledger_id s) model_error;
           Ok (Prepare (mkBound (ss_installation_id s) i (ss_admission_version s))
                 (map (fun a => mkAdmission (t_plan a) (t_lease a)) l)))
          (CheckAuthority l true) ≫= fun _ => mret tt)
       reported
       (fun _ => on_runner (fun r => with_errors r (<[node := "executor_reply_unknown"]> (ru_errors r)))))).

(** ** [schedule] *)

Definition groups : Type := list (string * list Attempt).

(** The first contributor of a job that takes it, or why the last one did not. *)
Fixpoint place (j : JobRecord) (nodes : list string) (g : groups) (reason : string) : M (string * Attempt + string) :=
  match nodes with
  | [] => mret (inr reason)
  | i :: nodes =>
      c ← gets id;
      if bool_decide (i ∈ map fst g) || negb (free (NodeLock i) c) then place j nodes g "executor_busy"
      else
        x ← catch (a ← placement j i; mret (inl a))
              (fun e => match e with Failure code _ _ => mret (inr code) | _ => lift (Err e) end);
        match x with
        | inl a => mret (inl (i, a))
        | inr code => place j nodes g code
        end
  end.

Definition two : float := f_of_Z 2.

(** One chosen job. *)
Definition place_job (g : groups) (i : string) : M groups :=
  j ← reads (fun st => Records.get st i);
  x ← place j (sub_node_ids (j_request j)) g "executor_unavailable";
  match x with
  | inl (n, a) => mret (g ++ [(n, [a])])
  | inr reason =>
      drawn (fun w => Records.pending w i reason) ;;
      t ← monotonic;
      on_runner (fun r => with_deferred r (<[i := f_add t two]> (ru_deferred r))) ;;
      mret g
  end.

Fixpoint place_jobs (g : groups) (l : list string) : M groups :=
  match l with
  | [] => mret g
  | i :: l => g ← place_job g i; place_jobs g l
  end.

(** The [while] loop; each round examines a job or is the last. *)
Fixpoint select_rounds (fuel : nat) (pending : list JobRecord) (examined : nat) (g : groups) : M groups :=
  match pending with
  | [] => mret g
  | _ =>
      if negb (examined <? 64)%nat then mret g
      else
        match fuel with
        | O => lift (Err out_of_rounds)
        | S fuel =>
            c ← gets id;
            p ← lift (some_or (k_scheduler c) (OtherError "AttributeError"));
            l ← reads (fun st => Records.attempts st None);
            chosen ← Provider.select p pending l;
            let chosen := take (64 - examined) chosen in
            match chosen with
            | [] => mret g
            | _ =>
                g ← place_jobs g chosen;
                select_rounds fuel (List.filter (fun j => negb (bool_decide (j_id j ∈ chosen))) pending)
                  (examined + length chosen) g
            end
        end
  end.

(** [schedule] up to the dispatching of its groups. *)
Definition schedule : M groups :=
  c ← gets id;
  off ← Checks.suspended;
  if negb (present (k_scheduler c)) || off then mret []
  else
    t ← monotonic;
    jobs ← reads (fun st => Records.jobs st None);
    on_runner (fun r => with_deferred r (filter (fun x => f_lt t x.2 = true) (ru_deferred r))) ;;
    c ← gets id;
    select_rounds 64 (List.filter (fun j => negb (present (ru_deferred (k_runner c) !! j_id j))) jobs) 0 [].

(** ** [poll] *)

(** The contributors whose turn starts. *)
Definition poll_begin : M (list string) :=
  Transfers.prune ;; gets (fun c => (rows (k_sessions c)).*1).

(** After their turns: attempts whose lease ran out unseen become uncertain. *)
Definition expire_one (a : Attempt) : M unit :=
  if bool_decide (t_state a ∈ [Preparing; At Prepared; At Starting; At Running]) then
    t ← now;
    if f_le (n_expires_at (t_lease a)) t then
      up ← Checks.available (t_node_id a);
      if up : bool then mret tt else Commands.uncertain (t_id a) "executor_unavailable"
    else mret tt
  else mret tt.

Definition poll_end : M groups :=
  l ← reads (fun st => Records.attempts st None);
  each expire_one l ;;
  schedule.

(** [self.failed]. *)
Definition poll_failed (b : bool) : M unit := on_runner (fun r => with_failed r b).

End runner.
End Runner.
