(* ===== verification/Queue.v ===== *)
(** * The owner's operations

    [workloads/queue.py] with [authority.capture] and [usage.py]: submission, cancel,
    retry, release, remove, abandon and the collection of output, each for the
    current principal of the caller's credential.  The JSON a route answers with
    is the record it shows. *)

From Stdlib Require Import SpecFloat.
From S2P Require Import Prelude Float64 Json Spec Offer Samples Scheduler Protocol Wire WorkloadSchema Database Records NodeRecords Identity Contributors PolicyPackages Policy Authority Control Channel Commands Checks Transfers Runner.

(** ** [usage.py] *)

Module Usage.

Record report := mkReport {
  u_states : gmap string Z; u_reserved : resource → Z; u_attempts : Z; u_unreleased : Z;
  u_inputs : Z; u_stdout : Z; u_stderr : Z; u_devices : Z }.

(** The rows of the join. *)
Definition attempts_of (s : store) (project : string) : res (list Attempt) :=
  mapM Records.load_attempt
    (List.filter (fun a => match s_jobs s !! t_job_id a with
                           | Some j => bool_decide (j_project_id j = project)
                           | None => false
                           end) (row_values (s_attempts s))).

(** [attempt.outcome or attempt.observed]. *)
Definition observed_of (a : Attempt) : option AttemptResult :=
  match t_outcome a with Some r => Some r | None => t_observed a end.

Definition state_text (s : state) : string :=
  match s with
  | Queued => "queued" | Preparing => "preparing" | Abandoned => "abandoned"
  | At s => Records.astate_text s
  end.

Definition counted_state (a : Attempt) : string :=
  match observed_of a with Some r => Records.astate_text (r_state r) | None => state_text (t_state a) end.

Definition held (a : Attempt) : bool := negb (bool_decide (t_state a = At Released)).

(** One attempt of the loop. *)
Definition account (u : report) (a : Attempt) : report :=
  mkReport (Fair.increment (u_states u) (counted_state a))
    (fun r => u_reserved u r + (if held a then Records.amount_of r a else 0))%Z
    (u_attempts u)
    (u_unreleased u + (if held a then 1 else 0))
    (u_inputs u + sumZ object_bytes (inputs (job (t_plan a))))
    (u_stdout u + match observed_of a with Some r => r_output_bytes r | None => 0 end)
    (u_stderr u + match observed_of a with Some r => r_error_bytes r | None => 0 end)
    (u_devices u + (if held a then Z.of_nat (length (Records.devices_of a)) else 0)).

(** [report]. *)
Definition project_report (s : store) (project : string) : res report :=
  l ← attempts_of s project;
  Ok (foldl account (mkReport ∅ (fun _ => 0%Z) (Z.of_nat (length l)) 0 0 0 0 0) l).

End Usage.

Module Queue.

Section queue.
Context `{Controller}.

(** [close], but for the scheduler provider's own [close]. *)
Definition close : M unit := Transfers.stop ;; Channel.close.

(** ** Answers *)

(** [view]: the job, its current attempt and the progress of its inputs. *)
Definition view (j : JobRecord) : M (JobRecord * option (Attempt * option Progress)) :=
  match j_current_attempt j with
  | None => mret (j, None)
  | Some i =>
      a ← reads (fun s => Records.attempt s i);
      c ← gets id;
      mret (j, Some (a, se_inputs (Commands.seen c i)))
  end.
Definition shown : Type := JobRecord * option (Attempt * option Progress).

(** [all]. *)
Definition all (p : Principal) : M (list shown * Usage.report * bool * bool * bool) :=
  p ← Checks.actor p "jobs:read";
  l ← reads (fun s => Records.jobs s (Some (pr_project_id p)));
  l ← collect view l;
  u ← reads (fun s => Usage.project_report s (pr_project_id p));
  c ← gets id;
  mret (l, u, present (k_scheduler c), s_suspended (k_store c), ru_failed (k_runner c)).

(** A snapshot that names one project only. *)
Definition for_project (x : Snapshot) (project : string) : Snapshot :=
  let o := ss_offer x in
  let st := settings o in
  mkWireSnapshot (ss_installation_id x) (ss_ledger_id x) (ss_admission_version x) (ss_endpoint_version x)
    (ss_input_chunk_bytes x) (ss_deployment_id x) (ss_node_id x) (ss_maximum_lease_seconds x)
    (mkOffer (mkSettings (List.filter (fun p => bool_decide (p = project)) (o_projects st)) (o_runtimes st)
                (o_limits st) (o_schedule_utc st) (o_accept_sensitive st))
       (revision o) (offer_mode o) (offer_control o))
    (ss_capacity x) (ss_attempts x) (ss_next x).

(** [offers]. *)
Definition offers (p : Principal) : M (list (Observation * bool * option string)) :=
  p ← Checks.actor p "contributors:read";
  c ← gets id;
  let allowed i := match s_contributors (k_store c) !! i with
                   | Some n => bool_decide (c_project_id n = pr_project_id p) && negb (c_disabled n)
                   | None => false
                   end in
  l ← reads Nodes.all;
  collect (fun o =>
    let i := ss_node_id (ob_snapshot o) in
    up ← Checks.available i;
    mret (mkObservation (for_project (ob_snapshot o) (pr_project_id p)) (ob_observed_at o), up,
          ru_errors (k_runner c) !! i))
    (List.filter (fun o => allowed (ss_node_id (ob_snapshot o))) l).

(** [audit]. *)
Definition audited (action i : string) (p : Principal) : M unit :=
  drawn (fun w s => Ok (audit (time w 0) action i "success" (pr_id p) (Some (pr_subject_id p))
                          (Some (pr_project_id p)) s, tt)).

(** ** [submit] *)

(** [Authority.capture]. *)
Definition capture (p : Principal) (r : Submission) : M Delegation :=
  x ← draw;
  v ← reads (fun s => Identity.current (sa_external x) (time (sa_draw x) 0) s (pr_id p));
  Checks.require v "jobs:execute" ;;
  Checks.require v "contributors:read" ;;
  lift (raise_if (present (pr_node_ids v) || present (pr_root_ids v))
          (denied "Contributor submission requires an unrestricted credential within its project.")) ;;
  c ← gets id;
  '(_, st) ← lift (Authority.stamp (k_store c) (pr_subject_id v) (pr_project_id v));
  lift (forM_ (fun n => Authority.node (k_store c) (pr_project_id v) n ;; Ok tt) (sub_node_ids r)) ;;
  let d := mkDelegation (token (sa_draw x) 0) (pr_subject_id v) (pr_project_id v) (pr_id v)
             (merge_sort String.le (pr_scopes v)) (Authority.sp_subject_revision st) (Authority.sp_project_revision st)
             (Authority.sp_membership_revision st) (Authority.sp_policy_revision st) (Authority.sp_role_revision st)
             (Authority.sp_policy_digest st) (Authority.sp_publisher_revision st) in
  lift (raise_if (negb (delegation_ok d)) model_error) ;;
  mret d.

(** [Inputs.bind] under the authority of a delegation. *)
Definition bind (r : Submission) (d : Delegation) : M Submission :=
  x ← draw;
  reads (fun s => @Datasets.bind (sa_registry x) r (Authority.current s d)).

(** [await audit_delivery.require (...)]: another task delivers the evidence. *)
Definition evidence : prog unit := Yield (here (x ← draw; lift (sa_evidence x))).

Definition submit_begin (r : Submission) (p : Principal) : M unit :=
  lift (Policies.live demo) ;;
  c ← gets id;
  lift (raise_if (negb (present (k_scheduler c)))
          (refused "scheduler_unavailable" "Install and configure a workload scheduler before submitting jobs.")) ;;
  off ← Checks.suspended;
  lift (raise_if off Checks.suspended_after_restore) ;;
  d ← capture p r;
  bind r d ;;
  mret tt.

Definition submit_end (r : Submission) (key : string) (p : Principal) : M shown :=
  j ← transact
        (d ← capture p r;
         r ← bind r d;
         j ← drawn (fun w => Records.submit w r key d);
         audited "workload.submit" (j_id j) p ;;
         mret j);
  view j.

Definition submit (r : Submission) (key : string) (p : Principal) : prog shown :=
  here (submit_begin r p) ≫= fun _ =>
  evidence ≫= fun _ =>
  here (submit_end r key p).

(** ** [cancel], [retry], [remove], [abandon] *)

Definition cancel (i : string) (revision : Z) (p : Principal) : M shown :=
  j ← transact
        (Checks.owned i p "jobs:cancel" ;;
         j ← drawn (fun w => Records.cancel w i revision);
         Transfers.discard_job i ;;
         audited "workload.cancel" i p ;;
         mret j);
  view j.

Definition retry_end (i : string) (revision : Z) (p : Principal) (acknowledge_unknown : bool) : M shown :=
  j ← transact
        (j ← Checks.owned i p "jobs:execute";
         lift (raise_if (negb (bool_decide (j_subject_id j = pr_subject_id p)))
                 (denied "Only the original submitter can retry this workload.")) ;;
         d ← capture p (j_request j);
         bind (j_request j) d ;;
         j ← drawn (fun w => Records.retry w i revision d acknowledge_unknown);
         audited "workload.retry" i p ;;
         mret j);
  view j.

Definition retry (i : string) (revision : Z) (p : Principal) (acknowledge_unknown : bool) : prog shown :=
  here (Checks.owned i p "jobs:execute") ≫= fun _ =>
  evidence ≫= fun _ =>
  here (retry_end i revision p acknowledge_unknown).

Definition remove (i : string) (revision : Z) (p : Principal) : M string :=
  transact
    (Checks.owned i p "jobs:cancel" ;;
     Checks.require_releasable i true ;;
     on_store (Records.remove i revision) ;;
     audited "workload.remove" i p) ;;
  mret i.

Definition abandon (i : string) (revision : Z) (p : Principal) (acknowledge_unknown : bool) : M shown :=
  lift (raise_if (negb acknowledge_unknown)
          (refused "acknowledgement_required"
             "Acknowledge that execution effects and local cleanup remain unresolved.")) ;;
  j ← transact
        (Checks.owned i p "jobs:cancel" ;;
         Checks.actor p "contributors:manage" ;;
         Checks.require_releasable i false ;;
         j ← drawn (fun w => Records.abandon w i revision);
         audited "workload.abandon" i p ;;
         mret j);
  view j.

(** ** [release] *)

Definition unresolved (text : string) : exn := refused "workload_unresolved" text.

(** The attempt whose output is released, unless it already was. *)
Definition release_begin (i : string) (revision : Z) (p : Principal) : M (shown + Attempt) :=
  j ← Checks.owned i p "jobs:cancel";
  k ← lift (match j_current_attempt j with
            | Some k => if (j_revision j =? revision)%Z && settled (j_state j) then Ok k
                        else Err (unresolved "Reload a completed or stopped workload before releasing its output.")
            | None => Err (unresolved "Reload a completed or stopped workload before releasing its output.")
            end);
  a ← reads (fun s => Records.attempt s k);
  Checks.require_releasable i false ;;
  lift (raise_if (bool_decide (t_state a = Abandoned))
          (refused "attempt_abandoned"
             "An abandoned attempt cannot reclaim storage through the revoked node identity.")) ;;
  if bool_decide (t_state a = At Released) then v ← view j; mret (inl v)
  else
    lift (raise_if (negb (confirmed (t_observed a)))
            (unresolved "Observe empty workload processes before releasing output or capacity.")) ;;
    c ← gets id;
    lift (raise_if (negb (free (NodeLock (t_node_id a)) c))
            (refused "executor_busy" "Wait for the current contributor update to finish.")) ;;
    mret (inr a).

(** The snapshot the command is checked against. *)
Definition release_snapshot (a : Attempt) : M Snapshot :=
  c ← gets id;
  let unavailable := refused "executor_unavailable" "Reconnect the executor before releasing its output." in
  s ← lift (some_or (fst <$> ru_live (k_runner c) !! t_node_id a) unavailable);
  up ← Checks.available (t_node_id a);
  lift (raise_if (negb up) unavailable) ;;
  mret s.

Definition release (i : string) (revision : Z) (p : Principal) : prog shown :=
  x ← here (release_begin i revision p);
  match x with
  | inl v => mret v
  | inr a =>
      holds (NodeLock (t_node_id a))
        (s ← here (release_snapshot a);
         Commands.batch Checks.run_check (t_node_id a) s [a] (Commands.control_message ReleaseAction [a])
           (CheckOwned i p "jobs:cancel" (t_id a) true)) ≫= fun _ =>
      here (audited "workload.release" i p ;; j ← Checks.owned i p "jobs:cancel"; view j)
  end.

(** ** [collect] *)

Definition collect_begin (i : string) (l : list (string * Z * Z)) (p : Principal) : M (Attempt * Envelope) :=
  j ← Checks.owned i p "jobs:logs";
  k ← lift (some_or (j_current_attempt j)
              (refused "output_unavailable" "This workload has no execution output."));
  a ← reads (fun s => Records.attempt s k);
  lift (raise_if (closed_state (t_state a))
          (refused "output_released" "Output is unavailable for a released or abandoned attempt.")) ;;
  x ← draw;
  let e := mkEnvelope (token (sa_draw x) 0)
             (Collect (map (fun r => mkRead (Commands.fence a) r.1.1 r.1.2 r.2) l)) in
  lift (raise_if (negb (envelope_ok e)) model_error) ;;
  c ← gets id;
  lift (raise_if (negb (free ReaderSlot c) || negb (free (NodeLock (t_node_id a)) c))
          (refused "executor_busy" "Wait for a contributor read or update to finish.")) ;;
  mret (a, e).

Definition executor_response (text : string) : exn := Failure "executor_response" text 502.

(** One row of the reply. *)
Definition collected (a : Attempt) (x : BatchResult * (string * Z * Z)) : res ReadResult :=
  let '(row, (object, offset, length)) := x in
  match row with
  | ReadRow r =>
      raise_if (negb (bool_decide (rr_fence r = Commands.fence a)) || negb (bool_decide (rr_object r = object))
                || negb (rr_offset r =? offset)%Z)
        (executor_response "The returned bytes do not bind the requested output.") ;;
      data ← some_or (b64decode (rr_data r))
               (executor_response "The executor returned an invalid byte encoding.");
      let size := Z.of_nat (String.length data) in
      raise_if ((length <? size)%Z || negb (rr_next_offset r =? rr_offset r + size)%Z
                || (rr_total_bytes r <? rr_next_offset r)%Z
                || negb (Bool.eqb (rr_eof r) (rr_next_offset r =? rr_total_bytes r)%Z))
        (executor_response "The executor output range is invalid.") ;;
      Ok r
  | _ => Err (executor_response "The returned bytes do not bind the requested output.")
  end.

Definition collect_reply (a : Attempt) (l : list (string * Z * Z)) (r : ReplyType) : res (list ReadResult) :=
  match r with
  | BatchReply _ rows =>
      raise_if (negb (length rows =? length l)%nat)
        (executor_response "The executor returned an invalid output batch.") ;;
      mapM (collected a) (zip rows l)
  | _ => Err (executor_response "The executor returned an invalid output batch.")
  end.

Definition collect (i : string) (l : list (string * Z * Z)) (p : Principal) : prog (string * list ReadResult) :=
  x ← here (collect_begin i l p);
  let '(a, e) := x in
  let k := CheckOwned i p "jobs:logs" (t_id a) false in
  holds ReaderSlot (holds (NodeLock (t_node_id a))
    (r ← Channel.request Checks.run_check (t_node_id a) e k;
     here (l ← lift (collect_reply a l r); Checks.run_check k ;; mret (t_id a, l)))).

End queue.
End Queue.
