(* ===== verification/Dispatch.v ===== *)
(** * The controller's event loop

    The tasks that use the command channel run against each other and against
    everything else the controller does.  A step of [moves] starts a task, resumes
    one whose wait is over, hands the groups of [schedule] to their tasks, lets the
    rest of the controller change what it owns, or restarts the controller. *)

From Stdlib Require Import SpecFloat.
From S2P Require Import Prelude Float64 Json Spec Offer Samples Scheduler Protocol Wire WorkloadSchema Database Records NodeRecords RecordsProps.
From S2P Require Import Identity Contributors PolicyPackages Policy Authority Control Channel Commands Checks Transfers Runner Queue.

Section dispatch.
Context `{Controller}.

(** ** Tasks *)

(** A contributor's turn and poll, the owner's requests that use the channel, and
    the end of the controller. *)
Inductive task :=
| Turn (node : string)
| Exchange (fingerprint : string) (x : Channel.Exchange)
| Release (job : string) (revision : Z) (actor : Principal)
| CollectOutput (job : string) (reads : list (string * Z * Z)) (actor : Principal)
| Close.

(** A task whose answer is not looked at. *)
Definition forgotten {A} (p : prog A) : prog unit := p ≫= fun _ => mret tt.

Definition program (t : task) : prog unit :=
  match t with
  | Turn i => Runner.node i
  | Exchange f x => forgotten (Channel.exchange Checks.run_check f x)
  | Release i r p => forgotten (Queue.release i r p)
  | CollectOutput i l p => forgotten (Queue.collect i l p)
  | Close => here Queue.close
  end.

(** ** The loop *)

Record system := mkSystem { y_ctl : ctl; y_tasks : list (prog unit) }.

(** What a wait for a reply ends with: the reply or failure of the future, the end of
    its time, or the cancellation of the task. *)
Definition cancelled : exn := OtherError "CancelledError".
Definition resumed (c : ctl) (f : nat) (r : res ReplyType) : Prop :=
  ch_futures (k_channel c) !! f = Some r ∨ r = Err Channel.timed_out ∨ r = Err cancelled.

(** Everything else: other routes and tasks change the database by the operations of
    their components, sessions begin and end, reads of inputs complete, policies and
    offers of work come and go.  None of them has the command channel. *)
Definition elsewhere (c c' : ctl) : Prop :=
  k_channel c' = k_channel c ∧ (k_store c' = k_store c ∨ step (k_store c) (k_store c')).

(** A controller that starts over its database: no command is pending.  The futures
    keep their numbers. *)
Definition restarted (c c' : ctl) : Prop :=
  k_store c' = k_store c
  ∧ k_channel c' = mkChannel ∅ ∅ false ∅ (ch_next (k_channel c)) (ch_history (k_channel c)).

Inductive moves (y y' : system) : Prop :=
| Began t :
    (let '(c, p) := run (program t) (y_ctl y) in y' = mkSystem c (p :: y_tasks y)) → moves y y'
| Answered l1 l2 f k r :
    y_tasks y = l1 ++ Await f k :: l2 → resumed (y_ctl y) f r →
    (let '(c, p) := run (k r) (y_ctl y) in y' = mkSystem c (l1 ++ p :: l2)) → moves y y'
| Acquired l1 l2 h q :
    y_tasks y = l1 ++ Acquire h q :: l2 → free h (y_ctl y) = true →
    (let '(c, p) := run q (taken h (y_ctl y)) in y' = mkSystem c (l1 ++ p :: l2)) → moves y y'
| Woken l1 l2 q :
    y_tasks y = l1 ++ Yield q :: l2 →
    (let '(c, p) := run q (y_ctl y) in y' = mkSystem c (l1 ++ p :: l2)) → moves y y'
| Finished l1 l2 r :
    y_tasks y = l1 ++ Return r :: l2 → y' = mkSystem (y_ctl y) (l1 ++ l2) → moves y y'
| Scheduled :
    (let '(c, r) := Runner.poll_end (y_ctl y) in
     y' = mkSystem c (match r with Ok g => map (fun x => Runner.dispatch x.1 x.2) g | Err _ => [] end ++ y_tasks y)) →
    moves y y'
| Elsewhere c : elsewhere (y_ctl y) c → y' = mkSystem c (y_tasks y) → moves y y'
| Restarted c : restarted (y_ctl y) c → y' = mkSystem c [] → moves y y'.

(** A controller that starts for the first time. *)
Record initial (y : system) : Prop := {
  in_tasks : y_tasks y = [];
  in_store : reachable (k_store (y_ctl y));
  in_channel : k_channel (y_ctl y) = mkChannel ∅ ∅ false ∅ 0 [] }.

(** ** Performing moves *)

(** A move of the loop that is determined: a task that starts, one whose reply is
    there, one that was only waiting for its turn. *)
Inductive event := Begin (t : task) | Reply (n : nat) | Wake (n : nat).

Definition resume (y : system) (n : nat) (q : prog unit) (c : ctl) : system :=
  let '(c, p) := run q c in mkSystem c (take n (y_tasks y) ++ p :: drop (S n) (y_tasks y)).

Definition perform (e : event) (y : system) : option system :=
  match e with
  | Begin t => let '(c, p) := run (program t) (y_ctl y) in Some (mkSystem c (p :: y_tasks y))
  | Reply n =>
      match y_tasks y !! n with
      | Some (Await f k) => r ← ch_futures (k_channel (y_ctl y)) !! f; Some (resume y n (k r) (y_ctl y))
      | _ => None
      end
  | Wake n =>
      match y_tasks y !! n with
      | Some (Yield q) => Some (resume y n q (y_ctl y))
      | Some (Acquire h q) => if free h (y_ctl y) then Some (resume y n q (taken h (y_ctl y))) else None
      | _ => None
      end
  end.

Fixpoint performs (l : list event) (y : system) : option system :=
  match l with
  | [] => Some y
  | e :: l => y ← perform e y; performs l y
  end.

Lemma perform_moves e y y' : perform e y = Some y' → moves y y'.
Proof.
  assert (Hsplit : ∀ n p, y_tasks y !! n = Some p → y_tasks y = take n (y_tasks y) ++ p :: drop (S n) (y_tasks y)).
  { intros n p E. by rewrite take_drop_middle. }
  destruct e as [t|n|n]; simpl; intros E.
  - apply (Began _ _ t). destruct (run _ _). by injection E as <-.
  - destruct (y_tasks y !! n) as [[]|] eqn:En; try done. destruct (_ !! f) as [r|] eqn:Ef; [|done].
    injection E as <-. eapply (Answered _ _ _ _ _ _ r); [by apply Hsplit|by left|]. unfold resume. by destruct (run _ _).
  - destruct (y_tasks y !! n) as [[| | |h q|q]|] eqn:En; try done.
    + destruct (free h (y_ctl y)) eqn:Hf; [|done]. injection E as <-.
      eapply Acquired; [by apply Hsplit|done|]. unfold resume. by destruct (run _ _).
    + injection E as <-. eapply Woken; [by apply Hsplit|]. unfold resume. by destruct (run _ _).
Qed.

Lemma performs_moves l y y' : performs l y = Some y' → rtc moves y y'.
Proof.
  revert y. induction l as [|e l IH]; intros y; simpl; [by intros [= ->]|].
  destruct (perform e y) as [y1|] eqn:E; [|done]. simpl. intros E'. eapply rtc_l; [by eapply perform_moves|by apply IH].
Qed.

End dispatch.
