(* ===== verification/ChannelProps.v ===== *)
(** * What the command channel keeps

    [chan_ok]: futures name commands uniquely, a delivered command is in the
    history of what was handed out, nothing is handed out twice, and a reply that
    resolved a future answers the command that was handed out for it.  [total]
    counts the start commands for one attempt that were handed out or still may
    be. *)

From Stdlib Require Import SpecFloat.
From S2P Require Import Prelude Float64 Json Spec Offer Samples Scheduler Protocol Wire WorkloadSchema Database Records RecordsProps.
From S2P Require Import Identity Contributors PolicyPackages Policy Authority Control Channel Commands.

(** ** Start commands *)

(** How often a command starts the attempt that is looked at, if one is. *)
Definition starts (i : option string) (m : Message) : Z :=
  match m with
  | Control StartAction l => sumZ (fun f => if bool_decide (Some (f_attempt_id f) = i) then 1 else 0)%Z l
  | _ => 0
  end.

Definition handed (i : option string) (l : list Delivery) : Z := sumZ (fun d => starts i (m_body (dl_command d))) l.

Definition still_starts (i : option string) (p : Pending) : Z :=
  if pe_delivered p then 0 else starts i (m_body (pe_message p)).

Definition total (i : option string) (h : channel) : Z :=
  (handed i (ch_history h) + sumZ (still_starts i) (row_values (ch_pending h)))%Z.

Lemma sumZ_zero {A} (f : A → Z) l : (∀ x, (0 <= f x)%Z) → (0 <= sumZ f l)%Z.
Proof. intros Hf. induction l as [|x l IH]; simpl; [lia|]. specialize (Hf x). lia. Qed.

Lemma starts_nonneg i m : (0 <= starts i m)%Z.
Proof. destruct m; simpl; try lia. destruct action; try lia. apply sumZ_zero. intros f. case_bool_decide; lia. Qed.

Lemma still_starts_nonneg i p : (0 <= still_starts i p)%Z.
Proof. unfold still_starts. destruct (pe_delivered p); [lia|apply starts_nonneg]. Qed.

Lemma handed_nonneg i l : (0 <= handed i l)%Z.
Proof. apply sumZ_zero. intros d. apply starts_nonneg. Qed.

Lemma handed_total i h : (handed i (ch_history h) <= total i h)%Z.
Proof. unfold total. pose proof (sumZ_zero (still_starts i) (row_values (ch_pending h)) (still_starts_nonneg i)). lia. Qed.

Section channel.
Context `{Controller}.

(** A reply that answers a command of the history. *)
Definition answers (h : channel) (f : nat) (r : ReplyType) : Prop :=
  reply_ok r = true ∧ ∃ d, d ∈ ch_history h ∧ dl_future d = f ∧ dl_node d = h_node_id (reply_header r)
    ∧ m_id (dl_command d) = h_id (reply_header r) ∧ h_deployment_id (reply_header r) = deployment.

Record chan_ok (h : channel) : Prop := {
  co_fresh : ∀ n p, ch_pending h !! n = Some p → pe_future p < ch_next h;
  co_past : ∀ d, d ∈ ch_history h → dl_future d < ch_next h;
  co_apart : ∀ n n' p p', ch_pending h !! n = Some p → ch_pending h !! n' = Some p' →
    pe_future p = pe_future p' → n = n';
  co_undelivered : ∀ n p d, ch_pending h !! n = Some p → pe_delivered p = false → d ∈ ch_history h →
    dl_future d ≠ pe_future p;
  co_delivered : ∀ n p, ch_pending h !! n = Some p → pe_delivered p = true →
    mkDelivery n (pe_session p) (pe_fingerprint p) (pe_message p) (pe_future p) ∈ ch_history h;
  co_once : NoDup (map dl_future (ch_history h));
  co_replies : ∀ f r, ch_futures h !! f = Some (Ok r) → answers h f r }.

Lemma answers_mono h h' f r : (∀ d, d ∈ ch_history h → d ∈ ch_history h') → answers h f r → answers h' f r.
Proof. intros Hh (Hr & d & Hd & E). split; [done|]. exists d. by split; [apply Hh|]. Qed.

(** The request of a new command. *)
Definition pend (n : string) (p : Pending) (h : channel) : channel :=
  Channel.with_next (Channel.with_pending h (<[n := p]> (ch_pending h))) (S (ch_next h)).

Lemma pend_ok n p h :
  chan_ok h → ch_pending h !! n = None → pe_future p = ch_next h → pe_delivered p = false → chan_ok (pend n p h).
Proof.
  intros [C1 C2 C3 C4 C5 C6 C7] Hn Hf Hd.
  assert (Hlt : ∀ n' p', ch_pending h !! n' = Some p' → pe_future p' ≠ pe_future p).
  { intros n' p' Hp'. specialize (C1 _ _ Hp'). lia. }
  split; simpl.
  - intros n' p' Hp'. lookups; [lia|]. apply Nat.lt_lt_succ_r. by eapply C1.
  - intros d Hd'. specialize (C2 d Hd'). lia.
  - intros n1 n2 p1 p2 H1 H2 E. lookups; [done|exfalso..|by eapply C3]; by eapply Hlt.
  - intros n' p' d Hp' Hd' Hin. specialize (C2 d Hin). lookups; [lia|]. by eapply C4.
  - intros n' p' Hp' Hd'. lookups; [congruence|]. by apply C5.
  - done.
  - done.
Qed.

Lemma total_pend i n p h :
  ch_pending h !! n = None → pe_delivered p = false → total i (pend n p h) = (total i h + starts i (m_body (pe_message p)))%Z.
Proof. intros Hn Hd. unfold total, pend, still_starts. simpl. rewrite sumZ_rows_insert, Hd by done. lia. Qed.

Lemma forget_ok n p h : chan_ok h → chan_ok (Channel.forget n p h).
Proof.
  intros C. unfold Channel.forget. destruct (ch_pending h !! n) as [q|] eqn:E; [|done].
  destruct (_ =? _)%nat; [|done]. destruct C as [C1 C2 C3 C4 C5 C6 C7].
  split; simpl; try done; intros *; rewrite ?lookup_delete_Some; intros; destruct_and?; eauto.
Qed.

Lemma total_forget i n p h : (total i (Channel.forget n p h) <= total i h)%Z.
Proof.
  unfold Channel.forget. destruct (ch_pending h !! n) as [q|] eqn:E; [|lia]. destruct (_ =? _)%nat; [|lia].
  unfold total. simpl. rewrite (sumZ_rows_delete _ _ _ _ E). pose proof (still_starts_nonneg i q). lia.
Qed.

Lemma settle_ok h f r :
  chan_ok h → (∀ a, r = Ok a → answers h f a) → chan_ok (Channel.settle h f r).
Proof.
  intros C Hr. unfold Channel.settle. destruct (ch_futures h !! f) eqn:E; [done|].
  destruct C as [C1 C2 C3 C4 C5 C6 C7]. split; simpl; try done.
  intros g a. destruct (decide (g = f)) as [->|]; [rewrite lookup_insert_eq|rewrite lookup_insert_ne by done; apply C7].
  intros [= ->]. by apply Hr.
Qed.

Lemma settle_rest h f r :
  ch_pending (Channel.settle h f r) = ch_pending h ∧ ch_history (Channel.settle h f r) = ch_history h
  ∧ ch_next (Channel.settle h f r) = ch_next h.
Proof. unfold Channel.settle. by destruct (ch_futures h !! f). Qed.

Lemma total_settle i h f r : total i (Channel.settle h f r) = total i h.
Proof. unfold total. destruct (settle_rest h f r) as (-> & -> & _). done. Qed.

(** A command is handed out. *)
Definition hand (n : string) (p : Pending) (h : channel) : channel :=
  Channel.handed_out (Channel.with_pending h (alter Channel.delivered n (ch_pending h)))
    (mkDelivery n (pe_session p) (pe_fingerprint p) (pe_message p) (pe_future p)).

Lemma alter_delivered (m : gmap string Pending) n p :
  m !! n = Some p → alter Channel.delivered n m = <[n := Channel.delivered p]> m.
Proof.
  intros Hn. apply map_eq. intros k. destruct (decide (k = n)) as [->|].
  - by rewrite lookup_alter_eq, Hn, lookup_insert_eq.
  - by rewrite lookup_alter_ne, lookup_insert_ne.
Qed.

Lemma hand_ok n p h :
  chan_ok h → ch_pending h !! n = Some p → pe_delivered p = false → chan_ok (hand n p h).
Proof.
  intros [C1 C2 C3 C4 C5 C6 C7] Hn Hd. unfold hand. rewrite (alter_delivered _ _ _ Hn).
  split; simpl.
  - intros n' p' Hp'. lookups; simpl; eauto.
  - intros d [->|Hd']%elem_of_cons; simpl; eauto.
  - intros n1 n2 p1 p2 H1 H2 E. lookups; simpl in *; eauto.
  - intros n' p' d Hp' Hd' Hin. lookups. apply elem_of_cons in Hin as [->|Hin]; simpl; [|eauto].
    intros E. match goal with H : n ≠ n' |- _ => apply H end. eauto.
  - intros n' p' Hp' Hd'. apply elem_of_cons. lookups; [by left|]. right. by apply C5.
  - apply NoDup_cons. split; [|done]. intros (d & E & Hin)%list_elem_of_fmap. by apply (C4 n p d).
  - intros f r Hf. eapply answers_mono; [|by apply C7]. intros d Hin. simpl. by apply elem_of_cons; right.
Qed.

Lemma total_hand i n p h :
  ch_pending h !! n = Some p → pe_delivered p = false → total i (hand n p h) = total i h.
Proof.
  intros Hn Hd. unfold total, hand. simpl. rewrite (alter_delivered _ _ _ Hn), (sumZ_rows_update _ _ _ _ _ Hn).
  unfold still_starts at 2 3. simpl. rewrite Hd. lia.
Qed.

Lemma polling_ok x h : chan_ok h → chan_ok (Channel.with_polling h x).
Proof. by intros []. Qed.

(** Every waiting task is told. *)
Definition closing (h : channel) : channel :=
  let e := Failure "executor_stopped" "The controller execution channel stopped." 503 in
  let h := foldl (fun h p => Channel.settle h (pe_future p) (Err e)) h (row_values (ch_pending h)) in
  mkChannel ∅ (ch_polling h) true (ch_futures h) (ch_next h) (ch_history h).

Lemma close_ok h : chan_ok h → chan_ok (closing h) ∧ ∀ i, (total i (closing h) <= total i h)%Z.
Proof.
  intros C. unfold closing. set (e := Failure _ _ _).
  assert (K : ∀ l h, chan_ok h →
    let h' := foldl (fun h p => Channel.settle h (pe_future p) (Err e)) h l in
    chan_ok h' ∧ ch_history h' = ch_history h).
  { induction l as [|p l IH]; intros h0 C0; [done|]. simpl.
    destruct (IH (Channel.settle h0 (pe_future p) (Err e))) as [K1 K2]; [by apply settle_ok|].
    split; [done|]. rewrite K2. apply settle_rest. }
  destruct (K (row_values (ch_pending h)) h C) as [[C1 C2 C3 C4 C5 C6 C7] E]. split.
  - split; simpl; try done; intros *; rewrite ?lookup_empty; done.
  - intros i. unfold total. simpl. rewrite E. change (row_values (∅ : gmap string Pending)) with (@nil Pending). simpl.
    pose proof (sumZ_zero (still_starts i) (row_values (ch_pending h)) (still_starts_nonneg i)). lia.
Qed.

End channel.
