(* ===== verification/ControlProps.v ===== *)
(** * Reasoning about the controller's tasks

    [Calm] code only lets attempts evolve and leaves the command channel alone;
    instances carry it through the monad, the checks and the records.  [wp] is the
    weakest precondition of a task: an invariant holds whenever it waits, and
    nothing else is known when it goes on. *)

From Stdlib Require Import SpecFloat.
From S2P Require Import Prelude Float64 Json Spec Offer Samples Scheduler Protocol Wire WorkloadSchema Database Records NodeRecords RecordsProps.
From S2P Require Import Identity Contributors PolicyPackages Policy Authority Control Channel Commands Checks Transfers Runner.
Import Records.

(** ** Attempts evolve and stay *)

Definition grows (m m' : gmap string Attempt) : Prop :=
  ∀ i a, m !! i = Some a → ∃ a', m' !! i = Some a' ∧ attempt_evolves a a'.

#[global] Instance grows_preorder : PreOrder grows.
Proof.
  split; [intros m i a Ha; by exists a|].
  intros m1 m2 m3 H1 H2 i a Ha. destruct (H1 i a Ha) as (b & Hb & E). destruct (H2 i b Hb) as (d & Hd & E').
  exists d. split; [done|by etrans].
Qed.

Lemma rows_evolve_grows m m' : rows_evolve attempt_evolves m m' → grows m m'.
Proof.
  intros R i a Ha. specialize (R i). rewrite Ha in R. destruct (m' !! i) as [a'|]; [by exists a'|done].
Qed.

(** A database operation that keeps the invariant and every attempt. *)
Definition settled_by (s s' : store) : Prop := wf s → wf s' ∧ grows (s_attempts s) (s_attempts s').

#[global] Instance settled_by_preorder : PreOrder settled_by.
Proof.
  split; [by intros s W|]. intros a b c H1 H2 W. destruct (H1 W) as [W1 G1]. destruct (H2 W1) as [W2 G2].
  split; [done|by etrans].
Qed.

Class Kept {A} (f : store → res (store * A)) : Prop :=
  kept_op : ∀ s s' a, wf s → f s = Ok (s', a) → wf s' ∧ grows (s_attempts s) (s_attempts s').

Lemma puts_settled s s' : wf s → puts s s' → wf s' ∧ grows (s_attempts s) (s_attempts s').
Proof. intros W [P1 P2 _]. split; [by apply P1|by apply rows_evolve_grows]. Qed.

Ltac by_puts := intros s s' ? W ?; apply puts_settled; [done|]; eauto using
  observation_puts, transition_puts, renew_puts, cancel_puts, retry_puts, pending_puts, abandon_puts.

#[global] Instance Kept_observation w r n i : Kept (Records.observation w r n i). Proof. by_puts. Qed.
#[global] Instance Kept_transition w i e n r : Kept (Records.transition w i e n r). Proof. by_puts. Qed.
#[global] Instance Kept_renew w i x : Kept (Records.renew w i x). Proof. by_puts. Qed.
#[global] Instance Kept_cancel w i r : Kept (Records.cancel w i r). Proof. by_puts. Qed.
#[global] Instance Kept_pending w i r : Kept (Records.pending w i r). Proof. by_puts. Qed.

(** An audit event changes neither jobs nor attempts. *)
Lemma wf_audit now action target outcome actor subject project s :
  wf s → wf (audit now action target outcome actor subject project s).
Proof. intros W. by apply (wf_ext s). Qed.

Lemma settled_audit now action target outcome actor subject project s :
  settled_by s (audit now action target outcome actor subject project s).
Proof. intros W. split; [by apply wf_audit|reflexivity]. Qed.

Section props.
Context `{Controller}.

(** ** Calm code *)

Definition calm (c c' : ctl) : Prop :=
  wf (k_store c) → wf (k_store c') ∧ grows (s_attempts (k_store c)) (s_attempts (k_store c')) ∧ k_channel c' = k_channel c.

#[global] Instance calm_preorder : PreOrder calm.
Proof.
  split; [by intros c W|]. intros a b c H1 H2 W. destruct (H1 W) as (W1 & G1 & E1). destruct (H2 W1) as (W2 & G2 & E2).
  split_and!; [done|by etrans|by rewrite E2].
Qed.

Class Calm {A} (m : M A) : Prop := calm_at : ∀ c, calm c (m c).1.

(** Code that changes neither the database nor the channel. *)
Lemma calm_same c c' : k_store c' = k_store c → k_channel c' = k_channel c → calm c c'.
Proof. intros E1 E2 W. rewrite E1. by split_and!. Qed.

Class Still {A} (m : M A) : Prop :=
  still_at : ∀ c, k_store (m c).1 = k_store c ∧ k_channel (m c).1 = k_channel c.

#[global] Instance Still_Calm {A} (m : M A) : Still m → Calm m | 20.
Proof. intros K c. by apply calm_same; apply K. Qed.

#[global] Instance Still_ret {A} (a : A) : Still (mret a). Proof. done. Qed.
#[global] Instance Still_lift {A} (r : res A) : Still (lift r). Proof. done. Qed.
#[global] Instance Still_gets {A} (f : ctl → A) : Still (gets f). Proof. done. Qed.
#[global] Instance Still_reads {A} (f : store → res A) : Still (reads f). Proof. done. Qed.
#[global] Instance Still_draw : Still draw. Proof. done. Qed.
#[global] Instance Still_on_policies {A} (f : _ → _ → _ → _ * res A) : Still (on_policies f).
Proof. intros c. unfold on_policies. by destruct (f _ _ _). Qed.

Lemma Still_modify f : (∀ c, k_store (f c) = k_store c ∧ k_channel (f c) = k_channel c) → Still (modify f).
Proof. intros K c. exact (K c). Qed.

#[global] Instance Still_bind {A B} (m : M A) (f : A → M B) : Still m → (∀ a, Still (f a)) → Still (m ≫= f).
Proof.
  intros Hm Hf c. unfold mbind, M_bind. specialize (Hm c). destruct (m c) as [c1 [a|e]]; simpl in *; [|done].
  destruct Hm as [E1 E2]. rewrite <- E1, <- E2. apply Hf.
Qed.

#[global] Instance Still_catch {A} (m : M A) (h : exn → M A) : Still m → (∀ e, Still (h e)) → Still (catch m h).
Proof.
  intros Hm Hh c. unfold catch. specialize (Hm c). destruct (m c) as [c1 [a|e]]; simpl in *; [done|].
  destruct Hm as [E1 E2]. rewrite <- E1, <- E2. apply Hh.
Qed.

#[global] Instance Still_each {A} (f : A → M unit) l : (∀ x, Still (f x)) → Still (each f l).
Proof. intros K. induction l as [|x l IH]; simpl; apply _. Qed.

#[global] Instance Calm_bind {A B} (m : M A) (f : A → M B) : Calm m → (∀ a, Calm (f a)) → Calm (m ≫= f).
Proof.
  intros Hm Hf c. unfold mbind, M_bind. specialize (Hm c). destruct (m c) as [c1 [a|e]]; simpl in *; [|done].
  etrans; [exact Hm|]. apply Hf.
Qed.

#[global] Instance Calm_catch {A} (m : M A) (h : exn → M A) : Calm m → (∀ e, Calm (h e)) → Calm (catch m h).
Proof.
  intros Hm Hh c. unfold catch. specialize (Hm c). destruct (m c) as [c1 [a|e]]; simpl in *; [done|].
  etrans; [exact Hm|]. apply Hh.
Qed.

#[global] Instance Calm_on_store {A} (f : store → res (store * A)) : Kept f → Calm (on_store f).
Proof.
  intros K c W. unfold on_store. destruct (f (k_store c)) as [[s a]|e] eqn:E; simpl; [|by split_and!].
  destruct (K _ _ _ W E). by split_and!.
Qed.

#[global] Instance Calm_drawn {A} (f : sampling → store → res (store * A)) : (∀ w, Kept (f w)) → Calm (drawn f).
Proof. intros K. unfold drawn. apply _. Qed.

#[global] Instance Calm_each {A} (f : A → M unit) l : (∀ x, Calm (f x)) → Calm (each f l).
Proof. intros K. induction l as [|x l IH]; simpl; apply _. Qed.

#[global] Instance Calm_collect {A B} (f : A → M B) l : (∀ x, Calm (f x)) → Calm (collect f l).
Proof. intros K. induction l as [|x l IH]; simpl; apply _. Qed.

#[global] Instance Calm_transact {A} (m : M A) : Calm m → Calm (transact m).
Proof.
  intros K c W. unfold transact. destruct (K c W) as (W1 & G1 & E1). destruct (m c) as [c1 [a|e]]; simpl in *; [done|].
  by split_and!.
Qed.

#[global] Instance Still_on_runner f : Still (Runner.on_runner f). Proof. by apply Still_modify. Qed.
#[global] Instance Still_on_prefetches f : Still (Transfers.on_prefetches f). Proof. by apply Still_modify. Qed.

(** ** Weakest preconditions of code *)

Definition mwp {A} (m : M A) (Q : res A → ctl → Prop) (c : ctl) : Prop := Q (m c).2 (m c).1.

Lemma mwp_bind {A B} (m : M A) (f : A → M B) Q c :
  mwp m (fun r c' => match r with Ok a => mwp (f a) Q c' | Err e => Q (Err e) c' end) c → mwp (m ≫= f) Q c.
Proof. unfold mwp, mbind, M_bind. by destruct (m c) as [c' [a|e]]. Qed.

Lemma mwp_still {A} (m : M A) `{!Still m} (Q : res A → ctl → Prop) c :
  (∀ r c', k_store c' = k_store c → k_channel c' = k_channel c → Q r c') → mwp m Q c.
Proof. intros HQ. by apply HQ; apply still_at. Qed.

Lemma mwp_calm {A} (m : M A) `{!Calm m} (Q : res A → ctl → Prop) c : (∀ r c', calm c c' → Q r c') → mwp m Q c.
Proof. intros HQ. apply HQ, calm_at. Qed.

Lemma mwp_lift {A} (r : res A) (Q : res A → ctl → Prop) c : Q r c → mwp (lift r) Q c.
Proof. done. Qed.

Lemma mwp_gets {A} (f : ctl → A) (Q : res A → ctl → Prop) c : Q (Ok (f c)) c → mwp (gets f) Q c.
Proof. done. Qed.

(** Branches are destructed. *)
#[local] Hint Extern 5 (Calm (match ?x with _ => _ end)) => destruct x : typeclass_instances.
#[local] Hint Extern 5 (Calm (let '(_, _) := ?x in _)) => destruct x : typeclass_instances.
#[local] Hint Extern 5 (Still (match ?x with _ => _ end)) => destruct x : typeclass_instances.
#[local] Hint Extern 5 (Still (let '(_, _) := ?x in _)) => destruct x : typeclass_instances.



#[global] Instance Still_now : Still now. Proof. unfold now. apply _. Qed.
#[global] Instance Still_monotonic : Still monotonic. Proof. unfold monotonic. apply _. Qed.
#[global] Instance Still_guard n s f : Still (Channel.guard n s f). Proof. unfold Channel.guard. apply _. Qed.
#[global] Instance Still_session n : Still (Channel.session n). Proof. unfold Channel.session. apply _. Qed.

(** ** The checks *)

#[global] Instance Still_suspended : Still Checks.suspended. Proof. unfold Checks.suspended. apply _. Qed.
#[global] Instance Still_available i : Still (Checks.available i). Proof. unfold Checks.available. apply _. Qed.
#[global] Instance Still_authority_check j i b : Still (Checks.authority_check j i b).
Proof. unfold Checks.authority_check. apply _. Qed.
#[global] Instance Still_live_snapshot i : Still (Checks.live_snapshot i). Proof. unfold Checks.live_snapshot. apply _. Qed.
#[global] Instance Still_authority a b : Still (Checks.authority a b). Proof. unfold Checks.authority. apply _. Qed.
#[global] Instance Still_current a j : Still (Checks.current a j). Proof. unfold Checks.current. apply _. Qed.
#[global] Instance Still_require p s : Still (Checks.require p s). Proof. unfold Checks.require. apply _. Qed.
#[global] Instance Still_actor p s : Still (Checks.actor p s). Proof. unfold Checks.actor. apply _. Qed.
#[global] Instance Still_owned i p s : Still (Checks.owned i p s). Proof. unfold Checks.owned. apply _. Qed.
#[global] Instance Still_require_releasable i b : Still (Checks.require_releasable i b).
Proof. unfold Checks.require_releasable. apply _. Qed.
#[global] Instance Still_run_check k : Still (Checks.run_check k). Proof. unfold Checks.run_check. apply _. Qed.

(** ** Commands *)

#[global] Instance Still_accepted_snapshot n a r : Still (Commands.accepted_snapshot n a r).
Proof. unfold Commands.accepted_snapshot. apply _. Qed.
#[global] Instance Still_validated r : Still (Commands.validated r). Proof. unfold Commands.validated. apply _. Qed.
#[global] Instance Calm_record r s : Calm (Commands.record r s). Proof. unfold Commands.record. apply _. Qed.
#[global] Instance Still_set_observed f : Still (modify (fun c => set_observed c (f c))). Proof. by apply Still_modify. Qed.
#[global] Instance Calm_observation w s : Calm (Commands.observation w s). Proof. unfold Commands.observation. apply _. Qed.
#[global] Instance Calm_uncertain i r : Calm (Commands.uncertain i r). Proof. unfold Commands.uncertain. apply _. Qed.
#[global] Instance Calm_settle_row s r : Calm (Commands.settle_row s r). Proof. unfold Commands.settle_row. apply _. Qed.
#[global] Instance Calm_batch_reply s l r : Calm (Commands.batch_reply s l r).
Proof. unfold Commands.batch_reply. apply _. Qed.

(** ** Transfers *)

#[global] Instance Still_discard i : Still (Transfers.discard i). Proof. unfold Transfers.discard. apply _. Qed.
#[global] Instance Still_discard_where f : Still (Transfers.discard_where f).
Proof. unfold Transfers.discard_where. apply _. Qed.
#[global] Instance Still_discard_node i : Still (Transfers.discard_node i).
Proof. unfold Transfers.discard_node. apply _. Qed.
#[global] Instance Still_stop : Still Transfers.stop.
Proof. unfold Transfers.stop. apply Still_bind; [by apply Still_modify|apply _]. Qed.
#[global] Instance Still_prefetch a j o n : Still (Transfers.prefetch a j o n). Proof. unfold Transfers.prefetch. apply _. Qed.
#[global] Instance Still_show i p : Still (Transfers.show i p). Proof. unfold Transfers.show. by apply Still_modify. Qed.
#[global] Instance Still_reshow i r : Still (Transfers.reshow i r).
Proof.
  unfold Transfers.reshow. apply Still_modify. intros c. destruct (k_observed c !! i) as [[? ? [?|]]|]; done.
Qed.
#[global] Instance Still_reading a o n : Still (Transfers.reading a o n). Proof. unfold Transfers.reading. apply _. Qed.

#[global] Instance Calm_cancel_job i code : Calm (Transfers.cancel_job i code).
Proof.
  unfold Transfers.cancel_job. apply Calm_drawn. intros w s s' u W E.
  apply bind_Ok in E as (j & _ & E). destruct (j_cancelled j); [injection E as <- _; by split|].
  apply bind_Ok in E as ([s1 j1] & E1 & E). injection E as <- _.
  destruct (Kept_cancel _ _ _ _ _ _ W E1). by split; [apply wf_audit|].
Qed.
#[global] Instance Calm_transfer_failed a j e : Calm (Transfers.transfer_failed a j e).
Proof. unfold Transfers.transfer_failed. apply _. Qed.

(** ** The runner *)

#[global] Instance Still_reconcile_begin n s : Still (Runner.reconcile_begin n s).
Proof. unfold Runner.reconcile_begin. apply _. Qed.
#[global] Instance Calm_reconcile_end n b l : Calm (Runner.reconcile_end n b l).
Proof. unfold Runner.reconcile_end. apply _. Qed.
#[global] Instance Still_triage s a : Still (Runner.triage s a).
Proof. unfold Runner.triage, Runner.or_stop. apply _. Qed.
#[global] Instance Still_lease_end s : Still (Runner.lease_end s). Proof. unfold Runner.lease_end. apply _. Qed.
#[global] Instance Calm_renew_one s a : Calm (Runner.renew_one s a). Proof. unfold Runner.renew_one. apply _. Qed.
#[global] Instance Calm_start_one a : Calm (Runner.start_one a). Proof. unfold Runner.start_one. apply _. Qed.
#[global] Instance Still_node_failed i e : Still (Runner.node_failed i e). Proof. unfold Runner.node_failed. apply _. Qed.
#[global] Instance Still_planned j i : Still (Runner.planned j i). Proof. unfold Runner.planned. apply _. Qed.
#[global] Instance Still_poll_failed b : Still (Runner.poll_failed b). Proof. unfold Runner.poll_failed. apply _. Qed.
#[global] Instance Calm_expire_one a : Calm (Runner.expire_one a). Proof. unfold Runner.expire_one. apply _. Qed.
#[global] Instance Still_select p j a : Still (Provider.select p j a).
Proof.
  unfold Provider.select. destruct (run_scheduler _ _). apply Still_bind; [by apply Still_modify|apply _].
Qed.

End props.

#[export] Hint Extern 5 (Still (match ?x with _ => _ end)) => destruct x : typeclass_instances.
#[export] Hint Extern 5 (Still (let '(_, _) := ?x in _)) => destruct x : typeclass_instances.
#[export] Hint Extern 5 (Calm (match ?x with _ => _ end)) => destruct x : typeclass_instances.
#[export] Hint Extern 5 (Calm (let '(_, _) := ?x in _)) => destruct x : typeclass_instances.

(** The search for an instance does not look inside the code. *)
#[export] Typeclasses Opaque lift gets reads modify catch on_store draw drawn on_policies transact now
  monotonic each collect Channel.guard Channel.session Channel.on_channel Channel.request_begin
  Channel.request_end Channel.bound Channel.respond Channel.poll_once Channel.exchange_begin Channel.close
  Commands.call_begin Commands.call_end Commands.accepted_snapshot Commands.validated Commands.record
  Commands.observation Commands.uncertain Commands.settle_row Commands.batch_reply Checks.suspended
  Checks.available Checks.authority_check Checks.live_snapshot Checks.authority Checks.current Checks.require
  Checks.actor Checks.owned Checks.require_releasable Checks.run_check Transfers.on_prefetches
  Transfers.discard Transfers.discard_where Transfers.discard_job Transfers.discard_node Transfers.stop
  Transfers.prune Transfers.prefetch Transfers.show Transfers.reshow Transfers.reading Transfers.cancel_job
  Transfers.transfer_failed Provider.select Runner.on_runner Runner.reconcile_begin Runner.reconcile_end
  Runner.or_stop Runner.triage Runner.lease_end Runner.renew_one Runner.start_one Runner.node_failed
  Runner.planned Runner.placement Runner.place Runner.place_job Runner.place_jobs Runner.select_rounds
  Runner.schedule Runner.poll_begin Runner.expire_one Runner.poll_end Runner.poll_failed.
