(* ===== verification/TaskLogic.v ===== *)
(** * A program logic for the controller's tasks

    [wp] is the weakest precondition of a task under an invariant of the shared
    state: the invariant holds whenever the task waits, and is all the task may rely
    on when it goes on.  [adequacy]: an invariant that every task respects in this
    sense holds in every state of the event loop. *)

From Stdlib Require Import SpecFloat.
From S2P Require Import Prelude Float64 Json Spec Offer Samples Scheduler Protocol Wire WorkloadSchema Database Records NodeRecords RecordsProps.
From S2P Require Import Identity Contributors PolicyPackages Policy Authority Control Channel Commands Checks Transfers Runner Queue Dispatch ControlProps.

Section logic.
Context `{Controller} (I : ctl → Prop).

(** Induction on tasks, through the pairs of atomic code. *)
Lemma prog_induction {A} (P : prog A → Prop) :
  (∀ r, P (Return r)) → (∀ m, (∀ c, P (m c).2) → P (Atomic m)) → (∀ f k, (∀ r, P (k r)) → P (Await f k)) →
  (∀ h q, P q → P (Acquire h q)) → (∀ q, P q → P (Yield q)) → ∀ p, P p.
Proof.
  intros HR HA HW HL HY.
  exact (fix go p : P p := match p with
    | Return r => HR r
    | Atomic m => HA m (fun c => match m c as x return P x.2 with (_, q) => go q end)
    | Await f k => HW f k (fun r => go (k r))
    | Acquire h q => HL h q (go q)
    | Yield q => HY q (go q)
    end).
Qed.

Fixpoint wp {A} (p : prog A) (Q : res A → ctl → Prop) (c : ctl) : Prop :=
  match p with
  | Return r => Q r c
  | Atomic m => wp (m c).2 Q (m c).1
  | Await f k => I c ∧ ∀ r c', I c' → resumed c' f r → wp (k r) Q c'
  | Acquire h q => I c ∧ ∀ c', I c' → wp q Q (taken h c')
  | Yield q => I c ∧ ∀ c', I c' → wp q Q c'
  end.

Lemma wp_mono {A} (p : prog A) (Q Q' : res A → ctl → Prop) :
  (∀ r c, Q r c → Q' r c) → ∀ c, wp p Q c → wp p Q' c.
Proof.
  intros HQ. induction p as [r|m IH|f k IH|h q IH|q IH] using prog_induction; simpl; intros c W; [by apply HQ|by apply IH| | |].
  - destruct W as [Hc W]. split; [done|]. intros r c' Hi Hr. by apply IH, W.
  - destruct W as [Hc W]. split; [done|]. intros c' Hi. by apply IH, W.
  - destruct W as [Hc W]. split; [done|]. intros c' Hi. by apply IH, W.
Qed.

Lemma wp_try {A B} (p : prog A) (f : res A → prog B) Q :
  ∀ c, wp p (fun r => wp (f r) Q) c → wp (prog_try p f) Q c.
Proof.
  induction p as [r|m IH|n k IH|h q IH|q IH] using prog_induction; simpl; intros c W; [done| | | |].
  - specialize (IH c). destruct (m c) as [c' q]. by apply IH.
  - destruct W as [Hc W]. split; [done|]. intros r c' Hi Hr. by apply IH, W.
  - destruct W as [Hc W]. split; [done|]. intros c' Hi. by apply IH, W.
  - destruct W as [Hc W]. split; [done|]. intros c' Hi. by apply IH, W.
Qed.

Lemma wp_bind {A B} (p : prog A) (f : A → prog B) Q c :
  wp p (fun r c => match r with Ok a => wp (f a) Q c | Err e => Q (Err e) c end) c → wp (p ≫= f) Q c.
Proof. intros W. apply wp_try. eapply wp_mono; [|exact W]. by intros [a|e] c'. Qed.

Lemma wp_here {A} (m : M A) Q c : Q (m c).2 (m c).1 → wp (here m) Q c.
Proof. intros HQ. simpl. by destruct (m c). Qed.

Lemma wp_code {A} (m : M A) Q c : mwp m Q c → wp (here m) Q c.
Proof. apply wp_here. Qed.

(** ** Safe code *)

(** Code that keeps the invariant, and tasks that do from any state of it. *)
Class Keeps {A} (m : M A) : Prop := keeps_at : ∀ c, I c → I (m c).1.
Class Safe {A} (p : prog A) : Prop := safe_at : ∀ c, I c → wp p (fun _ c' => I c') c.

Context (I_calm : ∀ c c', I c → calm c c' → I c').

#[global] Instance Keeps_Calm {A} (m : M A) : Calm m → Keeps m | 20.
Proof. intros K c Hc. by eapply I_calm. Qed.

#[global] Instance Keeps_bind {A B} (m : M A) (f : A → M B) : Keeps m → (∀ a, Keeps (f a)) → Keeps (m ≫= f).
Proof.
  intros Hm Hf c Hc. unfold mbind, M_bind. specialize (Hm c Hc). destruct (m c) as [c1 [a|e]]; simpl in *; [|done].
  by apply Hf.
Qed.

#[global] Instance Keeps_catch {A} (m : M A) (h : exn → M A) : Keeps m → (∀ e, Keeps (h e)) → Keeps (catch m h).
Proof.
  intros Hm Hh c Hc. unfold catch. specialize (Hm c Hc). destruct (m c) as [c1 [a|e]]; simpl in *; [done|].
  by apply Hh.
Qed.

#[global] Instance Safe_ret {A} (r : res A) : Safe (Return r). Proof. by intros c Hc. Qed.
#[global] Instance Safe_mret {A} (a : A) : Safe (mret a). Proof. by intros c Hc. Qed.

#[global] Instance Safe_here {A} (m : M A) : Keeps m → Safe (here m).
Proof. intros K c Hc. by apply wp_here, K. Qed.

#[global] Instance Safe_try {A B} (p : prog A) (f : res A → prog B) :
  Safe p → (∀ r, Safe (f r)) → Safe (prog_try p f).
Proof. intros Hp Hf c Hc. apply wp_try. eapply wp_mono; [|by apply Hp]. intros r c' Hc'. by apply Hf. Qed.

#[global] Instance Safe_bind {A B} (p : prog A) (f : A → prog B) :
  Safe p → (∀ a, Safe (f a)) → Safe (p ≫= f).
Proof.
  intros Hp Hf c Hc. apply wp_bind. eapply wp_mono; [|by apply Hp].
  intros [a|e] c' Hc'; [by apply Hf|done].
Qed.

#[global] Instance Safe_except {A} (p : prog A) caught (h : exn → M A) :
  Safe p → (∀ e, Keeps (h e)) → Safe (prog_except p caught h).
Proof.
  intros Hp Hh. apply Safe_try; [done|]. intros [a|e]; [apply _|]. destruct (caught e); apply _.
Qed.

#[global] Instance Safe_finally {A} (p : prog A) (m : M unit) : Safe p → Keeps m → Safe (prog_finally p m).
Proof. intros Hp Hm. unfold prog_finally. apply _. Qed.

#[global] Instance Safe_each {A} (f : A → prog unit) l : (∀ x, Safe (f x)) → Safe (prog_each f l).
Proof. intros K. induction l as [|x l IH]; simpl; apply _. Qed.

#[global] Instance Safe_yield {A} (p : prog A) : Safe p → Safe (Yield p).
Proof. intros Hp c Hc. split; [done|]. intros c' Hc'. by apply Hp. Qed.

Lemma I_taken h c : I c → I (taken h c).
Proof. intros Hc. eapply I_calm; [done|]. by apply calm_same. Qed.

#[global] Instance Safe_holds {A} h (p : prog A) : Safe p → Safe (holds h p).
Proof.
  intros Hp c Hc. split; [done|]. intros c' Hc'. apply Safe_finally; [done| |by apply I_taken].
  intros c1 H1. eapply I_calm; [done|]. by apply calm_same.
Qed.

#[global] Instance Safe_await {A} f (k : res ReplyType → prog A) : (∀ r, Safe (k r)) → Safe (Await f k).
Proof. intros Hk c Hc. split; [done|]. intros r c' Hc' _. by apply Hk. Qed.

#[local] Hint Extern 5 (Safe (match ?x with _ => _ end)) => destruct x : typeclass_instances.
#[local] Hint Extern 5 (Safe (let '(_, _) := ?x in _)) => destruct x : typeclass_instances.
#[local] Hint Extern 5 (Keeps (match ?x with _ => _ end)) => destruct x : typeclass_instances.

#[global] Instance Safe_forgotten {A} (p : prog A) : Safe p → Safe (forgotten p).
Proof. intros Hp. unfold forgotten. apply _. Qed.

#[global] Instance Safe_in_batches l f : (∀ l, Safe (f l)) → Safe (Runner.in_batches l f).
Proof. intros K. unfold Runner.in_batches. apply _. Qed.

#[global] Instance Safe_rounds {S R} d (body : S → prog (S + R)) x : (∀ x, Safe (body x)) → Safe (Runner.rounds d body x).
Proof. intros K. revert x. induction d as [|d IH]; intros x; simpl; apply _. Qed.

(** ** Adequacy *)

(** A task that waits may be resumed whenever the invariant holds. *)
Definition at_end (r : res unit) (c : ctl) : Prop := I c.
Definition waiting (p : prog unit) : Prop :=
  match p with
  | Return _ => True
  | Atomic _ => False
  | Await f k => ∀ r c, I c → resumed c f r → wp (k r) at_end c
  | Acquire h q => ∀ c, I c → wp q at_end (taken h c)
  | Yield q => ∀ c, I c → wp q at_end c
  end.

Lemma run_waiting p c : wp p at_end c → I (run p c).1 ∧ waiting (run p c).2.
Proof.
  revert c. induction p as [r|m IH|f k IH|h q IH|q IH] using prog_induction; simpl; intros c W; try (by destruct W as [? W]).
  - done.
  - specialize (IH c). destruct (m c) as [c' q]. by apply IH.
  - destruct W as [Hc W]. destruct (free h c); [by apply IH, W|]. by split.
Qed.

Definition respected (y : system) : Prop := I (y_ctl y) ∧ Forall waiting (y_tasks y).

Lemma respected_run y l1 p0 l2 p c :
  respected y → y_tasks y = l1 ++ p0 :: l2 → wp p at_end c →
  respected (mkSystem (run p c).1 (l1 ++ (run p c).2 :: l2)).
Proof.
  intros [_ F] E W. apply run_waiting in W as [Hc Hw]. rewrite E, Forall_app, Forall_cons in F.
  destruct F as (F1 & _ & F2). split; [done|]. simpl. apply Forall_app. split; [done|]. by constructor.
Qed.

Context (I_tasks : ∀ t, Safe (program t)) (I_dispatch : ∀ n l, Safe (Runner.dispatch n l)) (I_poll : Keeps Runner.poll_end).
Context (I_restarted : ∀ c c', I c → restarted c c' → I c').

(** Every move keeps the invariant, if the changes made elsewhere do. *)
Lemma adequacy y y' :
  (∀ c, elsewhere (y_ctl y) c → y' = mkSystem c (y_tasks y) → I c) →
  respected y → moves y y' → respected y'.
Proof.
  intros I_elsewhere R. pose proof R as [Hc F].
  intros [t E|l1 l2 f k r Et Hr E|l1 l2 h q Et Hf E|l1 l2 q Et E|l1 l2 r Et ->|E|c He ->|c Hr ->].
  - pose proof (run_waiting (program t) (y_ctl y) (I_tasks t _ Hc)) as [Hi Hw].
    destruct (run _ _) as [c p]. subst y'. split; [done|]. by constructor.
  - assert (W : wp (k r) at_end (y_ctl y)).
    { rewrite Et, Forall_app, Forall_cons in F. by apply F. }
    pose proof (respected_run y l1 _ l2 _ _ R Et W) as K. destruct (run _ _) as [c p]. by subst y'.
  - assert (W : wp q at_end (taken h (y_ctl y))).
    { rewrite Et, Forall_app, Forall_cons in F. by apply F. }
    pose proof (respected_run y l1 _ l2 _ _ R Et W) as K. destruct (run _ _) as [c p]. by subst y'.
  - assert (W : wp q at_end (y_ctl y)).
    { rewrite Et, Forall_app, Forall_cons in F. by apply F. }
    pose proof (respected_run y l1 _ l2 _ _ R Et W) as K. destruct (run _ _) as [c p]. by subst y'.
  - rewrite Et, Forall_app, Forall_cons in F. split; [done|]. apply Forall_app. split; apply F.
  - pose proof (I_poll _ Hc) as Hp. destruct (Runner.poll_end (y_ctl y)) as [c r]. subst y'. split; [done|].
    apply Forall_app. split; [|done]. destruct r as [g|e]; [|done]. apply Forall_fmap, Forall_forall. intros [n l] _.
    exact (proj2 (I_dispatch n l _ Hc)).
  - split; [by apply (I_elsewhere c)|done].
  - split; [by eapply I_restarted|done].
Qed.

End logic.

#[export] Hint Extern 5 (Safe _ (match ?x with _ => _ end)) => destruct x : typeclass_instances.
#[export] Hint Extern 5 (Safe _ (let '(_, _) := ?x in _)) => destruct x : typeclass_instances.
#[export] Hint Extern 5 (Keeps _ (match ?x with _ => _ end)) => destruct x : typeclass_instances.
#[export] Hint Extern 5 (Keeps _ (let '(_, _) := ?x in _)) => destruct x : typeclass_instances.

(** The search for an instance does not look inside a program. *)
#[export] Typeclasses Opaque here prog_try prog_except prog_finally prog_each holds
  Channel.request Channel.poll Channel.exchange Commands.call Commands.snapshot Commands.batch
  Transfers.send Transfers.continue Transfers.transfer Transfers.advance_each Transfers.advance
  Runner.observe_one Runner.observe_page Runner.reconcile_page Runner.rounds Runner.reconcile Runner.in_batches
  Runner.reject_absent Runner.stop_batch Runner.renew_batch Runner.start_batch Runner.advance Runner.node_turn
  Runner.node Runner.dispatch Queue.evidence Queue.submit Queue.retry Queue.release Queue.collect.
