(* ===== verification/DispatchProps.v ===== *)
(** * What the controller's dispatching guarantees

    The invariant [good] of the event loop, for an attempt that is looked at or for
    none: the database is well formed, the channel consistent, and the start commands
    for the attempt, handed out or still pending, never exceed its recorded start
    intents. *)

From Stdlib Require Import SpecFloat.
From S2P Require Import Prelude Float64 Json Spec Offer Samples Scheduler Protocol Wire WorkloadSchema Database Records NodeRecords RecordsProps.
From S2P Require Import Identity Contributors PolicyPackages Policy Authority Control Channel Commands Checks Transfers Runner Queue Dispatch ChannelProps ControlProps TaskLogic.
Import Records.

Section dispatch.
Context `{Controller} (i : option string).

(** Pydantic's reader returns models that satisfy their constraints. *)
Context (read_valid : ∀ j r, read_reply j = Ok r → reply_ok r = true).

(** ** The invariant *)

(** Whether the start of the attempt is recorded. *)
Definition requested (s : store) : Z :=
  match i ≫= (fun k => s_attempts s !! k) with
  | Some a => if t_start_requested a then 1 else 0
  | None => 0
  end.

Record good (c : ctl) : Prop := {
  gd_wf : wf (k_store c);
  gd_channel : chan_ok (k_channel c);
  gd_starts : (total i (k_channel c) <= requested (k_store c))%Z }.

(** The invariant with room for one more command. *)
Definition room (n : Z) (c : ctl) : Prop :=
  wf (k_store c) ∧ chan_ok (k_channel c) ∧ (total i (k_channel c) + n <= requested (k_store c))%Z.

Lemma good_room c : good c ↔ room 0 c.
Proof. split; [intros []; split_and!; [done..|lia]|intros (? & ? & ?); split; [done..|lia]]. Qed.

Lemma requested_grows s s' : grows (s_attempts s) (s_attempts s') → (requested s <= requested s')%Z.
Proof.
  intros G. unfold requested. destruct i as [k|]; [|done]. simpl. destruct (s_attempts s !! k) as [a|] eqn:E.
  - destruct (G k a E) as (a' & -> & V). pose proof (ae_start _ _ V) as Hs.
    destruct (t_start_requested a); [by rewrite Hs|]. destruct (t_start_requested a'); lia.
  - destruct (s_attempts s' !! k) as [a'|]; [destruct (t_start_requested a')|]; lia.
Qed.

Lemma room_calm n c c' : room n c → calm c c' → room n c'.
Proof.
  intros (W & C & S) K. destruct (K W) as (W' & G & E). apply requested_grows in G.
  unfold room. rewrite E. split_and!; [done..|lia].
Qed.

Lemma good_calm c c' : good c → calm c c' → good c'.
Proof. rewrite !good_room. apply room_calm. Qed.

#[local] Instance Keeps_calm' {A} (m : M A) : Calm m → Keeps good m | 20.
Proof. apply Keeps_Calm, good_calm. Qed.

Lemma good_after {A} (m : M A) `{!Keeps good m} c : good c → good (m c).1.
Proof. intros Hc. by apply keeps_at. Qed.

Lemma good_task {A} (p : prog A) `{!Safe good p} c : good c → wp good p (fun _ c' => good c') c.
Proof. intros Hc. by apply safe_at. Qed.

(** A change of the channel alone. *)
Lemma good_channel c h :
  good c → chan_ok h → (total i h <= total i (k_channel c))%Z → good (set_channel c h).
Proof. intros [] ? ?. split; simpl; [done..|lia]. Qed.

(** ** The channel *)

#[local] Instance Keeps_on_channel f :
  (∀ h, chan_ok h → chan_ok (f h) ∧ (total i (f h) <= total i h)%Z) → Keeps good (Channel.on_channel f).
Proof. intros K c Hc. destruct (K (k_channel c)); [apply Hc|]. by apply good_channel. Qed.

#[local] Instance Keeps_settle_err f e : Keeps good (Channel.on_channel (fun h => Channel.settle h f (Err e))).
Proof. apply Keeps_on_channel. intros h C. rewrite total_settle. split; [by apply settle_ok|lia]. Qed.

#[local] Instance Keeps_polling f : Keeps good (Channel.on_channel (fun h => Channel.with_polling h (f h))).
Proof. apply Keeps_on_channel. intros h C. split; [by apply polling_ok|done]. Qed.

#[local] Instance Keeps_close : Keeps good Channel.close.
Proof. apply Keeps_on_channel. intros h C. destruct (close_ok h C). by split. Qed.

Lemma room_good n c : (0 <= n)%Z → room n c → good c.
Proof. intros Hn (? & ? & ?). apply good_room. unfold room. split_and!; [done..|lia]. Qed.

Lemma room_same n c c' : k_store c' = k_store c → k_channel c' = k_channel c → room n c → room n c'.
Proof. unfold room. by intros -> ->. Qed.

(** Requesting a command uses the room for its starts. *)
Lemma request_begin_good node e k c :
  room (starts i (m_body e)) c → mwp (Channel.request_begin Checks.run_check node e k) (fun _ c' => good c') c.
Proof.
  pose proof (starts_nonneg i (m_body e)) as Hn. intros R. unfold Channel.request_begin.
  apply mwp_bind, mwp_lift. destruct (raise_if _ _) as [_|]; [|by eapply room_good].
  apply mwp_bind, mwp_lift. destruct (match m_body e with SetOffer _ _ _ => _ | _ => _ end) as [_|]; [|by eapply room_good].
  apply mwp_bind, mwp_gets, mwp_bind, mwp_lift.
  destruct (raise_if _ Channel.busy) as [u|] eqn:Ebusy; [|by eapply room_good].
  apply raise_if_Ok in Ebusy. bool_inv.
  apply mwp_bind, mwp_still; [apply _|]. intros r c1 S1 C1.
  apply (room_same _ _ _ S1 C1) in R. destruct r as [x|]; [|by eapply room_good].
  apply mwp_bind, mwp_still; [apply _|]. intros r c2 S2 C2.
  apply (room_same _ _ _ S2 C2) in R. destruct r as [_|]; [|by eapply room_good].
  apply mwp_bind, mwp_gets, mwp_bind. red. cbn [Channel.on_channel modify fst snd]. red.
  cbn [fst snd mret M_ret]. destruct R as (W & C & T).
  assert (Hp : ch_pending (k_channel c2) !! node = None).
  { change (id c) with c in *. rewrite C2, C1. by destruct (ch_pending (k_channel c) !! node). }
  split; [done|by apply pend_ok|]. cbn [k_channel set_channel k_store].
  etrans; [apply Z.eq_le_incl, (total_pend i node); done|]. cbn [pe_message]. lia.
Qed.

#[local] Instance Keeps_request_end node p r : Keeps good (Channel.request_end Checks.run_check node p r).
Proof.
  intros c Hc. unfold Channel.request_end.
  set (m := _ ≫= _). assert (K : Still m) by (subst m; apply _).
  destruct (K c) as [E1 E2]. destruct (m c) as [c' r']. cbn [fst snd] in *.
  assert (Hc' : good c').
  { apply good_room. eapply room_same; [exact E1|exact E2|]. by apply good_room. }
  apply good_channel; [done|by apply forget_ok, Hc'|apply total_forget].
Qed.

(** ** Commands *)

(** Messages that start nothing. *)
Class Harmless (m : res Message) : Prop := harmless : ∀ b, m = Ok b → starts i b = 0%Z.

#[local] Instance Keeps_call_end node p r : Keeps good (Commands.call_end Checks.run_check node p r).
Proof. unfold Commands.call_end. apply _. Qed.

Lemma call_begin_good node m k n c :
  (0 <= n)%Z → (∀ b, m = Ok b → (starts i b <= n)%Z) → room n c →
  mwp (Commands.call_begin Checks.run_check node m k) (fun _ c' => good c') c.
Proof.
  intros Hn Hm R. unfold Commands.call_begin. apply mwp_bind, mwp_still; [apply _|]. intros r c1 S1 C1.
  apply (room_same _ _ _ S1 C1) in R. destruct r as [x|]; [|by eapply room_good].
  apply mwp_bind, mwp_lift. destruct m as [b|]; [|by eapply room_good].
  apply request_begin_good. specialize (Hm b eq_refl). destruct R as (? & ? & ?). simpl. unfold room. split_and!; [done..|lia].
Qed.

Lemma call_good node m k n c :
  (0 <= n)%Z → (∀ b, m = Ok b → (starts i b <= n)%Z) → room n c →
  wp good (Commands.call Checks.run_check node m k) (fun _ c' => good c') c.
Proof.
  intros Hn Hm R. unfold Commands.call. apply wp_bind, wp_here.
  pose proof (call_begin_good node m k n c Hn Hm R) as G. unfold mwp in G.
  destruct (Commands.call_begin _ _ _ _ _) as [c1 [p|e]]; [|exact G]. cbn [fst snd] in *.
  exact (Safe_await good _ _ _ _ G).
Qed.

#[local] Instance Safe_call node m k : Harmless m → Safe good (Commands.call Checks.run_check node m k).
Proof.
  intros Hm c Hc. apply (call_good _ _ _ 0); [lia| |by apply good_room]. intros b Hb. by rewrite (Hm b Hb).
Qed.

#[local] Instance Safe_request node e k :
  starts i (m_body e) = 0%Z → Safe good (Channel.request Checks.run_check node e k).
Proof.
  intros Hs c Hc. unfold Channel.request. apply wp_bind, wp_here.
  assert (R : room (starts i (m_body e)) c) by (rewrite Hs; by apply good_room).
  pose proof (request_begin_good node e k c R) as G. unfold mwp in G.
  destruct (Channel.request_begin _ _ _ _ _) as [c1 [p|e']]; [|exact G]. cbn [fst snd] in *.
  exact (Safe_await good _ _ _ _ G).
Qed.

(** A batch, once its command is under way. *)
Lemma batch_good node s l m k n c :
  (0 <= n)%Z → (∀ b, m = Ok b → (starts i b <= n)%Z) → room n c →
  wp good (Commands.batch Checks.run_check node s l m k) (fun _ c' => good c') c.
Proof.
  intros Hn Hm R. unfold Commands.batch. destruct l as [|a l]; [by eapply room_good|].
  unfold prog_except. apply wp_try. apply wp_bind. eapply wp_mono; [|by eapply call_good].
  intros [r|e] c1 Hc; cbn beta iota.
  - eapply wp_mono; [|apply (Safe_here good); [|exact Hc]]; [|apply _].
    intros [v|e] c2 Hc2; [done|]. destruct (reported e); [|done]. apply (Safe_here good); [|done]. apply _.
  - destruct (reported e); [|done]. apply (Safe_here good); [|done]. apply _.
Qed.

#[local] Instance Safe_batch node s l m k : Harmless m → Safe good (Commands.batch Checks.run_check node s l m k).
Proof.
  intros Hm c Hc. apply (batch_good _ _ _ _ _ 0); [lia| |by apply good_room]. intros b Hb. by rewrite (Hm b Hb).
Qed.

(** ** Exchanges *)

(** A command is bound to the connection it was made for. *)
Lemma bound_good node p session fingerprint c :
  good c →
  mwp (Channel.bound node p session fingerprint)
    (fun r c' => good c' ∧ (is_ok r = true → k_channel c' = k_channel c ∧ session = pe_session p ∧ fingerprint = pe_fingerprint p)) c.
Proof.
  intros Hc. unfold Channel.bound. destruct (bool_decide _ && bool_decide _) eqn:E.
  - bool_inv. apply mwp_still; [apply _|]. intros r c' S1 C1. split; [|intros _; split_and!; congruence].
    apply good_room. eapply room_same; [done|done|]. by apply good_room.
  - set (e := refused _ _). split; [|done]. by apply (good_after (Channel.on_channel _ ≫= fun _ => lift (Err e))).
Qed.

#[local] Instance Keeps_respond node x fingerprint : Keeps good (Channel.respond node x fingerprint).
Proof.
  intros c Hc. unfold Channel.respond. apply (mwp_bind (gets id) _ (fun _ c' => good c')), mwp_gets. simpl.
  destruct (Channel.ex_response x) as [j|]; [|done].
  apply mwp_bind, mwp_lift. destruct (raise_if _ _) as [_|]; [|done].
  apply mwp_bind, mwp_lift. destruct (read_reply j) as [reply|] eqn:Er; [|done]. apply read_valid in Er.
  apply mwp_bind, mwp_lift. destruct (raise_if _ _) as [u|] eqn:Eid; [|done]. apply raise_if_Ok in Eid. bool_inv.
  change (id c) with c. destruct (ch_pending (k_channel c) !! node) as [p|] eqn:Ep; [|done].
  destruct (pe_delivered p && _) eqn:Ed; [|done]. bool_inv.
  apply mwp_bind. pose proof (bound_good node p (Channel.ex_session x) fingerprint c Hc) as B. unfold mwp in B |- *.
  destruct (Channel.bound _ _ _ _ c) as [c1 [v|e]]; [|apply B]. destruct B as [Hc1 B].
  destruct (B eq_refl) as (E & _ & _). cbn [fst snd] in *. apply good_channel; [done| |by rewrite total_settle].
  apply settle_ok; [apply Hc1|]. intros a [= <-]. split; [done|]. eexists. split.
  - rewrite E. apply (co_delivered _ (gd_channel _ Hc) _ _ Ep). done.
  - by split_and!.
Qed.

#[local] Instance Keeps_poll_once node x fingerprint : Keeps good (Channel.poll_once Checks.run_check node x fingerprint).
Proof.
  intros c Hc. unfold Channel.poll_once.
  apply (mwp_bind (Channel.guard _ _ _) _ (fun _ c' => good c')), mwp_still; [apply _|].
  intros r c1 S1 C1. apply good_room, (room_same _ _ _ S1 C1), good_room in Hc.
  destruct r as [_|]; [|done]. apply mwp_bind, mwp_gets. change (id c1) with c1.
  destruct (ch_pending (k_channel c1) !! node) as [p|] eqn:Ep; [|done]. destruct (pe_delivered p) eqn:Ed; [done|].
  apply mwp_bind. pose proof (bound_good node p (Channel.ex_session x) fingerprint c1 Hc) as B. unfold mwp in B. unfold mwp at 1.
  destruct (Channel.bound _ _ _ _ c1) as [c2 [v|e]]; [|apply B]. destruct B as [Hc2 B].
  destruct (B eq_refl) as (E & Es & Ef). cbn [fst snd] in *. apply mwp_bind. unfold mwp at 1, catch.
  pose proof (still_at (m := Checks.run_check (pe_check p)) c2) as [S3 C3].
  destruct (Checks.run_check (pe_check p) c2) as [c3 [w|e]]; cbn [fst snd] in *.
  - assert (Hc3 : good c3) by (apply good_room, (room_same _ _ _ S3 C3), good_room, Hc2).
    assert (Ep3 : ch_pending (k_channel c3) !! node = Some p) by (by rewrite C3, E).
    rewrite Es, Ef. apply (good_channel c3 (hand node p (k_channel c3))); [done|by apply hand_ok; [apply Hc3|..]|].
    by rewrite total_hand.
  - assert (Hc3 : good c3) by (apply good_room, (room_same _ _ _ S3 C3), good_room, Hc2).
    exact (good_after (Channel.on_channel (fun h => Channel.settle h (pe_future p) (Err e)) ≫=
                         fun _ => lift (A := unit) (Err e)) c3 Hc3).
Qed.

#[local] Instance Keeps_exchange_begin f x : Keeps good (Channel.exchange_begin f x).
Proof. unfold Channel.exchange_begin. apply _. Qed.

#[local] Instance Safe_poll n node x f : Safe good (Channel.poll Checks.run_check n node x f).
Proof. induction n as [|n IH]; cbn [Channel.poll]; apply _. Qed.

#[local] Instance Safe_exchange f x : Safe good (Channel.exchange Checks.run_check f x).
Proof. unfold Channel.exchange. apply _. Qed.

(** ** Starting *)

(** What a transition to [starting] changes for the attempt it names. *)
Lemma transition_requested w k s s' a :
  wf s → transition w k (At Prepared) (At Starting) None s = Ok (s', a) →
  t_id a = k ∧ (Some k = i → requested s = 0 ∧ requested s' = 1)%Z.
Proof.
  intros W E. destruct (transition_started _ _ _ _ _ _ W E) as (a' & Ha' & Hs').
  unfold transition in E. rec_inv.
  repeat match goal with
  | H : save_attempt _ _ _ = Ok _ |- _ => apply save_attempt_Ok in H as (-> & ? & ->)
  end.
  match goal with H : s_attempts s !! k = Some _ |- _ => rename H into Ha end.
  destruct (wf_attempt s W k _ Ha) as (Hi & _ & Hst & _). split; [done|]. intros Ei.
  unfold requested. rewrite <- Ei. cbn [mbind option_bind]. rewrite Ha, Ha', Hs'. split; [|done].
  match goal with H : t_state ?x = At Prepared |- _ => rename x into a0; rename H into Hp end.
  destruct (t_start_requested a0); [|done]. by destruct Hst.
Qed.

Definition counted (l : list Attempt) : Z := sumZ (fun a => if bool_decide (Some (t_id a) = i) then 1 else 0)%Z l.

Lemma collect_start l n c :
  (0 <= n)%Z → room n c →
  mwp (collect Runner.start_one l)
    (fun r c' => room n c' ∧ ∀ l', r = Ok l' → room (n + counted l') c') c.
Proof.
  intros Hn. revert n Hn c. induction l as [|a l IH]; intros n Hn c R.
  - split; [done|]. intros l' [= <-]. simpl. by rewrite Z.add_0_r.
  - simpl. apply mwp_bind. unfold Runner.start_one at 1, drawn.
    apply mwp_bind, mwp_still; [apply _|]. intros r c1 S1 C1. apply (room_same _ _ _ S1 C1) in R.
    destruct r as [x|]; [|by split].
    pose proof (calm_at (m := on_store (transition (sa_draw x) (t_id a) (At Prepared) (At Starting) None)) c1) as K.
    unfold on_store in K. unfold mwp at 1, on_store.
    destruct (transition _ _ _ _ _ _) as [[s v]|e] eqn:E; cbn [fst snd] in *; [|by split].
    destruct R as (W & C & T). destruct (transition_requested _ _ _ _ _ W E) as [Hv Hi].
    assert (R : room n (set_store c1 s) ∧ room (n + counted [v]) (set_store c1 s)).
    { destruct (room_calm n c1 _ ltac:(by split_and!) K) as (W' & C' & T'). split; [by split_and!|].
      split_and!; [done..|]. simpl in T' |- *. case_bool_decide as Ev; [|lia].
      rewrite Hv in Ev. destruct (Hi Ev). lia. }
    destruct R as [_ R]. apply mwp_bind.
    assert (Hn' : (0 <= n + counted [v])%Z) by (simpl; case_bool_decide; lia).
    specialize (IH _ Hn' _ R). unfold mwp in IH |- *. destruct (collect Runner.start_one l _) as [c2 [l'|e]].
    + destruct IH as [R2 IH]. cbn [fst snd] in *. specialize (IH l' eq_refl).
      assert (E2 : (n + counted [v] + counted l' = n + counted (v :: l'))%Z) by (simpl; lia).
      rewrite E2 in IH. split; [|intros l0 [= <-]; exact IH].
      destruct R2 as (? & ? & ?). split_and!; [done..|]. simpl in *. case_bool_decide; lia.
    + destruct IH as [(? & ? & ?) _]. split; [|done]. split_and!; [done..|]. simpl in *. case_bool_decide; lia.
Qed.

Lemma starts_control l : starts i (Control StartAction (map Commands.fence l)) = counted l.
Proof. simpl. induction l as [|a l IH]; [done|]. simpl. by rewrite IH. Qed.

#[local] Instance Safe_start_batch node s l : Safe good (Runner.start_batch node s l).
Proof.
  intros c Hc. unfold Runner.start_batch. apply wp_bind, wp_code, mwp_bind, mwp_still; [apply _|]. intros r c1 S1 C1. apply good_room in Hc. apply (room_same _ _ _ S1 C1) in Hc.
  destruct r as [u|]; [|by apply good_room]. pose proof (collect_start l 0 c1 ltac:(lia) Hc) as K.
  unfold mwp in K |- *. destruct (collect Runner.start_one l c1) as [c2 [l'|e]]; cbn [fst snd] in *; [|by apply good_room, K].
  destruct K as [_ K]. specialize (K l' eq_refl). apply wp_bind. eapply wp_mono; [|eapply (batch_good _ _ _ _ _ (counted l'))].
  - intros [v|e] c3 H3; exact H3.
  - unfold counted. apply sumZ_zero. intros a. case_bool_decide; lia.
  - intros b [= <-]. by rewrite starts_control.
  - done.
Qed.

(** ** A contributor's turn *)

Lemma Harmless_ok b : starts i b = 0%Z → Harmless (Ok b).
Proof. by intros E b' [= <-]. Qed.
#[local] Hint Extern 0 (Harmless _) => apply Harmless_ok; reflexivity : typeclass_instances.
#[local] Instance Harmless_err e : Harmless (Err e). Proof. done. Qed.
#[local] Instance Harmless_bind {A} (r : res A) f : (∀ a, Harmless (f a)) → Harmless (r ≫= f).
Proof. intros K. destruct r as [a|e]; [apply K|done]. Qed.

#[local] Instance Safe_snapshot n a : Safe good (Commands.snapshot Checks.run_check n a).
Proof. unfold Commands.snapshot. apply _. Qed.
#[local] Instance Safe_observe_one n s w : Safe good (Runner.observe_one n s w).
Proof. unfold Runner.observe_one. apply _. Qed.
#[local] Instance Safe_observe_page n s l c m : Safe good (Runner.observe_page n s l c m).
Proof. revert c m. induction l as [|w l IH]; intros c m; cbn [Runner.observe_page]; apply _. Qed.
#[local] Instance Safe_reconcile_page n s x : Safe good (Runner.reconcile_page n s x).
Proof. unfold Runner.reconcile_page. apply _. Qed.
#[local] Instance Safe_reconcile n s : Safe good (Runner.reconcile n s).
Proof. unfold Runner.reconcile. apply _. Qed.
#[local] Instance Safe_reject_absent n s l : Safe good (Runner.reject_absent n s l).
Proof. unfold Runner.reject_absent. apply _. Qed.
#[local] Instance Safe_stop_batch n s l : Safe good (Runner.stop_batch n s l).
Proof. unfold Runner.stop_batch. apply _. Qed.
#[local] Instance Safe_renew_batch n s l : Safe good (Runner.renew_batch n s l).
Proof. unfold Runner.renew_batch. apply _. Qed.
#[local] Instance Safe_advance n s : Safe good (Runner.advance n s).
Proof. unfold Runner.advance. apply _. Qed.

#[local] Instance Safe_send n a j rows o k d : Safe good (Transfers.send n a j rows o k d).
Proof. unfold Transfers.send. apply _. Qed.
#[local] Instance Safe_continue n a j rows : Safe good (Transfers.continue n a j rows).
Proof. unfold Transfers.continue. apply _. Qed.
#[local] Instance Safe_transfer n a j : Safe good (Transfers.transfer n a j).
Proof. unfold Transfers.transfer. apply _. Qed.
#[local] Instance Safe_advance_each n l : Safe good (Transfers.advance_each n l).
Proof. induction l as [|a l IH]; cbn [Transfers.advance_each]; apply _. Qed.
#[local] Instance Safe_input_advance n l : Safe good (Transfers.advance n l).
Proof. unfold Transfers.advance. apply _. Qed.

(** An accepted snapshot names an enrolled contributor. *)
Definition enrolled_node (n : string) (c : ctl) : Prop := present (s_contributors (k_store c) !! n) = true.

Lemma contributor_present s n v : contributor s n = Ok v → present (s_contributors s !! n) = true.
Proof. unfold contributor. by destruct (s_contributors s !! n). Qed.

Lemma accepted_snapshot_node node a r c :
  mwp (Commands.accepted_snapshot node a r) (fun r c' => k_store c' = k_store c ∧ k_channel c' = k_channel c
    ∧ ∀ s, r = Ok s → enrolled_node (ss_node_id s) c') c.
Proof.
  unfold Commands.accepted_snapshot. destruct r as [| h s | |]; try by split.
  apply mwp_bind. unfold mwp at 1, reads. cbn [fst snd]. destruct (contributor (k_store c) node) as [n|] eqn:E; [|by split].
  apply mwp_bind, mwp_lift. destruct (raise_if _ _) as [u|] eqn:Eid; [|by split].
  apply raise_if_Ok in Eid. bool_inv. apply mwp_bind, mwp_lift. destruct (raise_if _ _) as [u'|]; [|by split].
  split_and!; [done..|]. intros s' [= <-]. eapply contributor_present. by subst node.
Qed.

Lemma snapshot_node node a c :
  good c → wp good (Commands.snapshot Checks.run_check node a)
    (fun r c' => good c' ∧ ∀ s, r = Ok s → enrolled_node (ss_node_id s) c') c.
Proof.
  intros Hc. unfold Commands.snapshot. apply wp_bind. eapply wp_mono; [|exact (good_task _ c Hc)].
  intros [r|e] c1 H1; [|by split]. apply wp_code. pose proof (accepted_snapshot_node node a r c1) as K.
  unfold mwp in K |- *. destruct K as (S1 & C1 & K). split; [|done].
  apply good_room. eapply room_same; [exact S1|exact C1|]. by apply good_room.
Qed.

Lemma save_node_good s c : good c → enrolled_node (ss_node_id s) c → mwp (drawn (fun w => Nodes.save w s)) (fun _ c' => good c') c.
Proof.
  intros Hc Hn. unfold drawn. apply mwp_bind, mwp_still; [apply _|]. intros r c1 S1 C1.
  unfold enrolled_node in Hn. rewrite <- S1 in Hn. apply good_room, (room_same _ _ _ S1 C1), good_room in Hc.
  destruct r as [x|]; [|done]. unfold mwp, on_store. destruct (Nodes.save (sa_draw x) s (k_store c1)) as [[s' o]|] eqn:E; [|done].
  cbn [fst snd]. eapply good_calm; [exact Hc|]. intros W. split_and!; [by eapply save_node_wf| |done].
  unfold Nodes.save in E. lean_inv. reflexivity.
Qed.

#[local] Instance Safe_node_turn n : Safe good (Runner.node_turn n).
Proof.
  intros c Hc. unfold Runner.node_turn. apply wp_bind. eapply wp_mono; [|by apply snapshot_node].
  intros [s|e] c1 [H1 Hn]; [|done]. apply wp_bind, wp_code.
  pose proof (save_node_good s c1 H1 (Hn s eq_refl)) as K. unfold mwp in K |- *.
  destruct (drawn _ c1) as [c2 [o|e]]; cbn [fst snd] in *; [|exact K].
  set (p := Runner.reconcile n s ≫= _). assert (P : Safe good p) by (subst p; apply _). by apply P.
Qed.

#[local] Instance Safe_holds' {A} h (p : prog A) : Safe good p → Safe good (holds h p).
Proof. apply Safe_holds, good_calm. Qed.

#[local] Instance Safe_node n : Safe good (Runner.node n).
Proof. unfold Runner.node. apply _. Qed.
#[local] Instance Safe_dispatch n l : Safe good (Runner.dispatch n l).
Proof. unfold Runner.dispatch. apply _. Qed.

(** ** Placement *)

(** The authority of a workload names an enrolled contributor. *)
Lemma authority_check_node j n b c :
  mwp (Checks.authority_check j n b) (fun r c' => k_store c' = k_store c ∧ k_channel c' = k_channel c
    ∧ (is_ok r = true → enrolled_node n c')) c.
Proof.
  unfold Checks.authority_check. apply mwp_bind, mwp_still; [apply _|]. intros r c1 S1 C1.
  destruct r as [x|]; [|by split_and!]. unfold mwp, on_policies, Authority.check.
  destruct (_ ≫= _) as [[[[[[p cn] sens] st] l] au]|e] eqn:E; [|by split_and!].
  set (d := Policies.decisions _ _ _ _ _ _). destruct d as [pol [ds|e]]; [|by split_and!].
  cbn [fst snd k_store set_policies k_channel]. split_and!; [done..|]. intros _.
  apply bind_Ok in E as (y & E & _). unfold Authority.admissible in E. lean_inv.
  match goal with E : Authority.node _ _ _ = Ok _ |- _ => unfold Authority.node in E; lean_inv end.
  by eapply contributor_present.
Qed.

(** The database and the channel are those of [c]. *)
Definition same (c c' : ctl) : Prop := k_store c' = k_store c ∧ k_channel c' = k_channel c.

Lemma mwp_same {A B} (m : M A) (f : A → M B) (P : res B → ctl → Prop) c0 c :
  (∀ e c', same c0 c' → P (Err e) c') → same c0 c → Still m → (∀ a c', same c0 c' → mwp (f a) P c') →
  mwp (m ≫= f) P c.
Proof.
  intros He [S0 C0] Hm Ha. apply mwp_bind, mwp_still; [done|].
  intros [a|e] c' S1 C1; [apply Ha|apply He]; split; congruence.
Qed.

Lemma planned_node j n c :
  mwp (Runner.planned j n) (fun r c' => same c c' ∧ ∀ x, r = Ok x → node_id x.1.1 = n ∧ enrolled_node n c') c.
Proof.
  unfold Runner.planned. set (P := fun (r : res (Plan * Renewal * Snapshot)) c' => _).
  assert (He : ∀ e c', same c c' → P (Err e) c') by (intros e c' ?; by split).
  apply (mwp_same _ _ P c c He ltac:(done)); [apply _|]. intros up c1 H1.
  apply (mwp_same _ _ P c c1 He H1); [apply _|]. intros [] c2 H2.
  apply (mwp_same _ _ P c c2 He H2); [apply _|]. intros s c3 H3.
  apply (mwp_same _ _ P c c3 He H3); [apply _|]. intros [] c4 H4.
  apply mwp_bind. pose proof (authority_check_node j n true c4) as K. unfold mwp at 1. unfold mwp in K.
  destruct (Checks.authority_check j n true c4) as [c5 [rev|e]]; cbn [fst snd] in *;
    [|apply He; destruct H4, K as (? & ? & _); split; congruence].
  assert (H5 : same c c5) by (destruct H4, K as (? & ? & _); split; congruence).
  destruct K as (_ & _ & Hn). specialize (Hn eq_refl).
  assert (Hn' : ∀ c', same c c' → enrolled_node n c').
  { intros c' [E _]. unfold enrolled_node in *. destruct H5 as [E5 _]. by rewrite E, <- E5. }
  clear Hn. apply (mwp_same _ _ P c c5 He H5); [apply _|]. intros t c6 H6.
  apply (mwp_same _ _ P c c6 He H6); [apply _|]. intros reason c7 H7.
  apply (mwp_same _ _ P c c7 He H7); [apply _|]. intros [] c8 H8.
  apply (mwp_same _ _ P c c8 He H8); [apply _|]. intros [] c9 H9.
  apply (mwp_same _ _ P c c9 He H9); [apply _|]. intros [] c10 H10.
  apply (mwp_same _ _ P c c10 He H10); [apply _|]. intros x c11 H11. cbn zeta.
  apply (mwp_same _ _ P c c11 He H11); [apply _|]. intros [] c12 H12.
  apply (mwp_same _ _ P c c12 He H12); [apply _|]. intros e c13 H13.
  apply (mwp_same _ _ P c c13 He H13); [apply _|]. intros [] c14 H14.
  split; [done|]. intros y [= <-]. split; [done|by apply Hn'].
Qed.

(** A reservation adds one attempt. *)
Lemma reserve_grows w p lease inst cap lid v s s' a :
  wf s → reserve w p lease inst cap lid v s = Ok (s', a) → grows (s_attempts s) (s_attempts s').
Proof.
  intros W E. destruct (records_reserve_Ok _ _ _ _ _ _ _ _ _ _ W E) as (j & l & R).
  destruct R as [_ _ _ _ _ _ _ _ _ Hf _ _ (j' & _ & _ & _ & _ & _ & ->)].
  change (s_attempts (audited ?t ?c ?j ?g ?o ?x)) with (s_attempts x). simpl. intros k b Hb.
  exists b. split; [|reflexivity]. rewrite lookup_insert_ne; [done|]. intros <-. congruence.
Qed.

#[local] Instance Keeps_placement j n : Keeps good (Runner.placement j n).
Proof.
  intros c Hc. unfold Runner.placement. apply (mwp_bind _ _ (fun _ c' => good c')).
  pose proof (planned_node j n c) as K. unfold mwp in K |- *.
  destruct (Runner.planned j n c) as [c1 [[[p l] s]|e]]; cbn [fst snd] in *; destruct K as [[S1 C1] K].
  - destruct (K _ eq_refl) as [Hp Hn]. cbn [fst] in Hp. clear K.
    assert (Hc1 : good c1) by (apply good_room, (room_same _ _ _ S1 C1), good_room, Hc). clear S1 C1.
    unfold drawn. apply (mwp_bind _ _ (fun _ c' => good c')), mwp_still; [apply _|]. intros r c2 S2 C2.
    assert (Hc2 : good c2) by (apply good_room, (room_same _ _ _ S2 C2), good_room, Hc1).
    destruct r as [x|]; [|done]. unfold mwp, on_store.
    destruct (reserve _ _ _ _ _ _ _ _) as [[s' a]|] eqn:E; cbn [fst snd]; [|done].
    eapply good_calm; [exact Hc2|]. intros W. split_and!; [|by eapply reserve_grows|done].
    eapply reserve_wf; [exact W| |exact E]. unfold enrolled_node in Hn. by rewrite S2, Hp.
  - apply good_room, (room_same _ _ _ S1 C1), good_room, Hc.
Qed.

#[local] Instance Keeps_place j l g r : Keeps good (Runner.place j l g r).
Proof. revert r. induction l as [|n l IH]; intros r; cbn [Runner.place]; apply _. Qed.
#[local] Instance Keeps_place_job g k : Keeps good (Runner.place_job g k).
Proof. unfold Runner.place_job. apply _. Qed.
#[local] Instance Keeps_place_jobs g l : Keeps good (Runner.place_jobs g l).
Proof. revert g. induction l as [|k l IH]; intros g; cbn [Runner.place_jobs]; apply _. Qed.
#[local] Instance Keeps_select_rounds fuel l k g : Keeps good (Runner.select_rounds fuel l k g).
Proof.
  revert l k g. induction fuel as [|fuel IH]; intros l k g; cbn [Runner.select_rounds]; [apply _|].
  destruct l as [|j l]; [apply _|]. destruct (negb _); [apply _|].
  apply Keeps_bind; [apply _|]. intros c. apply Keeps_bind; [apply _|]. intros p. apply Keeps_bind; [apply _|]. intros a.
  apply Keeps_bind; [apply _|]. intros chosen. cbn zeta. destruct (take _ chosen); apply _.
Qed.
#[local] Instance Keeps_schedule : Keeps good Runner.schedule. Proof. unfold Runner.schedule. apply _. Qed.
#[local] Instance Keeps_poll_end : Keeps good Runner.poll_end. Proof. unfold Runner.poll_end. apply _. Qed.

(** ** The owner's requests *)

#[local] Instance Still_view j : Still (Queue.view j). Proof. unfold Queue.view. apply _. Qed.
#[local] Instance Calm_audited a k p : Calm (Queue.audited a k p).
Proof.
  unfold Queue.audited. apply Calm_drawn. intros w s s' u W [= <- _]. split; [by apply wf_audit|reflexivity].
Qed.
#[local] Instance Still_release_begin k r p : Still (Queue.release_begin k r p).
Proof. unfold Queue.release_begin. apply _. Qed.
#[local] Instance Still_release_snapshot a : Still (Queue.release_snapshot a).
Proof. unfold Queue.release_snapshot. apply _. Qed.
#[local] Instance Safe_release k r p : Safe good (Queue.release k r p).
Proof. unfold Queue.release. apply _. Qed.

(** A fact about results alone. *)
Lemma mwp_result {A B} (m : M A) (f : A → M B) (P : res B → Prop) c :
  (∀ e, P (Err e)) → (∀ a c', mwp (f a) (fun r _ => P r) c') → mwp (m ≫= f) (fun r _ => P r) c.
Proof. intros He Ha. apply mwp_bind. unfold mwp at 1. destruct (m c) as [c' [a|e]]; [apply Ha|apply He]. Qed.

Lemma collect_begin_body k l p c :
  mwp (Queue.collect_begin k l p) (fun r _ => ∀ x, r = Ok x → starts i (m_body x.2) = 0%Z) c.
Proof.
  unfold Queue.collect_begin. do 5 (apply mwp_result; [done|]; intros ? ?).
  cbn zeta. do 3 (apply mwp_result; [done|]; intros ? ?). by intros x [= <-].
Qed.

#[local] Instance Still_collect_begin k l p : Still (Queue.collect_begin k l p).
Proof. unfold Queue.collect_begin. apply _. Qed.

#[local] Instance Safe_collect k l p : Safe good (Queue.collect k l p).
Proof.
  intros c Hc. unfold Queue.collect. apply wp_bind, wp_code.
  pose proof (collect_begin_body k l p c) as K. pose proof (still_at (m := Queue.collect_begin k l p) c) as [S1 C1].
  unfold mwp in K |- *. destruct (Queue.collect_begin k l p c) as [c1 [[a e]|x]]; cbn [fst snd] in *;
    apply good_room, (room_same _ _ _ S1 C1), good_room in Hc; [|done].
  specialize (K _ eq_refl). cbn [snd] in K. cbn zeta.
  pose proof (Safe_request (t_node_id a) e (CheckOwned k p "jobs:logs" (t_id a) false) K) as Sr.
  apply good_task; [apply _|done].
Qed.

#[local] Instance Keeps_queue_close : Keeps good Queue.close.
Proof. unfold Queue.close. apply _. Qed.

#[local] Instance Safe_program t : Safe good (program t).
Proof. destruct t; cbn [program]; apply _. Qed.

(** ** The event loop *)

Lemma good_restarted c c' : good c → restarted c c' → good c'.
Proof.
  intros [W C S] [E1 E2]. split; rewrite ?E1, ?E2; [done| |].
  - destruct C as [C1 C2 C3 C4 C5 C6 C7]. split; simpl; try done; intros *; rewrite ?lookup_empty; done.
  - etrans; [|exact S]. unfold total. simpl. change (row_values (∅ : gmap string Pending)) with (@nil Pending).
    pose proof (sumZ_zero (still_starts i) (row_values (ch_pending (k_channel c))) (still_starts_nonneg i)). simpl. lia.
Qed.

(** No change elsewhere removes the attempt. *)
Definition keeps_row (s s' : store) : Prop :=
  ∀ k, i = Some k → present (s_attempts s !! k) = true → present (s_attempts s' !! k) = true.
Definition retains (y y' : system) : Prop := keeps_row (k_store (y_ctl y)) (k_store (y_ctl y')).
Definition moves_retaining (y y' : system) : Prop := moves y y' ∧ retains y y'.

Lemma good_elsewhere c c' :
  good c → elsewhere c c' → keeps_row (k_store c) (k_store c') → good c'.
Proof.
  intros [W C S] [E Es] K. split; rewrite ?E; [|done|].
  - destruct Es as [->|Hs]; [done|]. by apply (step_ok _ _ W Hs).
  - etrans; [exact S|]. destruct Es as [->|Hs]; [done|]. destruct (step_ok _ _ W Hs) as [_ Ka _].
    unfold requested, keeps_row in *. destruct i as [k|]; [|done]. simpl. specialize (K k eq_refl).
    destruct (s_attempts (k_store c) !! k) as [a|] eqn:Ea.
    + specialize (K eq_refl). destruct (s_attempts (k_store c') !! k) as [a'|] eqn:Ea'; [|done].
      pose proof (ae_start _ _ (Ka _ _ _ Ea Ea')) as Hst. destruct (t_start_requested a); [by rewrite Hst|].
      destruct (t_start_requested a'); lia.
    + destruct (s_attempts (k_store c') !! k) as [a'|]; [destruct (t_start_requested a')|]; lia.
Qed.

Lemma initial_good y : initial y → good (y_ctl y).
Proof.
  intros [_ Hs Hc]. split; rewrite ?Hc; [by apply records_reachable_wf| |].
  - split; simpl; try (intros *; rewrite ?lookup_empty, ?elem_of_nil; done). by constructor.
  - unfold total, requested. simpl. change (row_values (∅ : gmap string Pending)) with (@nil Pending). simpl.
    destruct (i ≫= _) as [a|]; [destruct (t_start_requested a)|]; lia.
Qed.

Lemma respected_good y0 y : initial y0 → rtc moves_retaining y0 y → respected good y.
Proof.
  intros H0 R. assert (R0 : respected good y0) by (split; [by apply initial_good|by rewrite (in_tasks _ H0)]).
  clear H0. induction R as [|y1 y2 y3 [Hm Hr] _ IH]; [done|]. apply IH.
  eapply (adequacy good _ _ _ good_restarted y1 y2); [|done|done]. intros c He ->. eapply good_elsewhere; [apply R0|done|exact Hr].
Qed.

Definition history (y : system) : list Delivery := ch_history (k_channel (y_ctl y)).

End dispatch.

Section properties.
Context `{Controller}.
Context (read_valid : ∀ j r, read_reply j = Ok r → reply_ok r = true).

(** C30: a start is handed out at most once.  Whatever the interleaving of contributor
    turns, exchanges, owner requests, scheduling, changes elsewhere and restarts, as
    long as the attempt's record is retained, at most one command that starts it ever
    reaches a contributor's connection, and only once the intent is recorded. *)
Theorem start_delivered_once i y0 y (H0 : initial y0) (R : rtc (moves_retaining (Some i)) y0 y) :
  (handed (Some i) (history y) <= 1)%Z
  ∧ ((0 < handed (Some i) (history y))%Z →
     ∃ a, s_attempts (k_store (y_ctl y)) !! i = Some a ∧ t_start_requested a = true ∧ t_state a ≠ At Prepared).
Proof.
  destruct (respected_good _ read_valid _ _ H0 R) as [[W C S] _]. pose proof (handed_total (Some i) (k_channel (y_ctl y))) as Ht.
  unfold history. unfold requested in S. cbn [mbind option_bind] in S.
  destruct (s_attempts (k_store (y_ctl y)) !! i) as [a|] eqn:Ea; [|split; lia].
  destruct (t_start_requested a) eqn:Es; [|split; lia]. split; [lia|]. intros _. exists a.
  by destruct (wf_attempt _ W _ _ Ea) as (_ & _ & Hst & _); destruct (Hst Es).
Qed.


End properties.
