(* ===== verification/ReconcileProps.v ===== *)
(** * Reconciliation ends

    Each page of a reconciliation moves the cursor forward among the identities, so
    the loop of [Runner.reconcile] ends after finitely many pages, whatever the
    executor answers; the rounds of the model are enough. *)

From Stdlib Require Import SpecFloat.
From S2P Require Import Prelude Float64 Json Spec Offer Samples Scheduler Protocol Wire WorkloadSchema Database Records NodeRecords RecordsProps.
From S2P Require Import Identity Contributors PolicyPackages Policy Authority Control Channel Commands Checks Transfers Runner Queue Dispatch ChannelProps ControlProps TaskLogic DispatchProps.

(** ** The order of texts of one length *)

Fixpoint text_rank (acc : Z) (s : string) : Z :=
  match s with
  | EmptyString => acc
  | String a s => text_rank (acc * 256 + Z.of_N (N_of_ascii a)) s
  end.

Lemma N_of_ascii_bound a : (0 <= Z.of_N (N_of_ascii a) < 256)%Z.
Proof. pose proof (N_ascii_bounded a). lia. Qed.

Lemma text_rank_bounds s : ∀ acc, (0 <= acc)%Z →
  (acc * 256 ^ Z.of_nat (String.length s) <= text_rank acc s < (acc + 1) * 256 ^ Z.of_nat (String.length s))%Z.
Proof.
  induction s as [|a s IH]; intros acc Hacc; cbn [text_rank String.length]; [rewrite Z.pow_0_r; lia|].
  pose proof (N_of_ascii_bound a) as Ha.
  assert (Hs : (0 <= acc * 256 + Z.of_N (N_of_ascii a))%Z) by lia. specialize (IH _ Hs).
  rewrite Nat2Z.inj_succ, Z.pow_succ_r by lia. set (p := (256 ^ _)%Z) in *.
  assert (0 < p)%Z by (apply Z.pow_pos_nonneg; lia). nia.
Qed.

Lemma text_rank_lt s t : ∀ acc, (0 <= acc)%Z → String.length s = String.length t → String.ltb s t = true →
  (text_rank acc s < text_rank acc t)%Z.
Proof.
  revert t. induction s as [|a s IH]; intros [|b t] acc Hacc Hl Hlt; try discriminate Hl; [done|].
  injection Hl as Hl. unfold String.ltb in Hlt. simpl in Hlt. cbn [text_rank].
  unfold Ascii.compare in Hlt. pose proof (N_of_ascii_bound a). pose proof (N_of_ascii_bound b).
  destruct (N.compare_spec (N_of_ascii a) (N_of_ascii b)) as [E|E|E]; [| |discriminate Hlt].
  - rewrite E. apply IH; [lia|done|exact Hlt].
  - pose proof (text_rank_bounds s (acc * 256 + Z.of_N (N_of_ascii a)) ltac:(lia)) as Hs.
    pose proof (text_rank_bounds t (acc * 256 + Z.of_N (N_of_ascii b)) ltac:(lia)) as Ht.
    rewrite Hl in Hs. set (p := (256 ^ _)%Z) in *. assert (0 < p)%Z by (apply Z.pow_pos_nonneg; lia). nia.
Qed.

(** The place of a cursor: the empty one comes before every identity. *)
Definition place (s : string) : Z := if bool_decide (s = "") then -1 else text_rank 0 s.
Definition is_cursor (s : string) : Prop := s = "" ∨ String.length s = 32.

Lemma place_bounds s : is_cursor s → (-1 <= place s < 2 ^ 256)%Z.
Proof.
  unfold place. intros Hs. case_bool_decide; [lia|]. destruct Hs as [?|Hs]; [done|].
  pose proof (text_rank_bounds s 0 ltac:(lia)) as B. rewrite Hs in B. simpl Z.of_nat in B.
  change (256 ^ 32)%Z with (2 ^ 256)%Z in B. lia.
Qed.

Lemma place_lt s t : is_cursor s → String.length t = 32 → String.leb t s = false → (place s < place t)%Z.
Proof.
  unfold place. intros Hs Ht Hlt. assert (t ≠ "") as Hne by (intros ->; discriminate Ht).
  rewrite (bool_decide_false (t = "")) by done. pose proof (text_rank_bounds t 0 ltac:(lia)).
  case_bool_decide as E; [lia|]. destruct Hs as [?|Hs]; [done|].
  apply text_rank_lt; [lia|congruence|]. by rewrite ltb_leb, Hlt.
Qed.

Lemma identity_length s : identity s = true → String.length s = 32.
Proof. unfold identity. intros E. bool_inv. by apply Nat.eqb_eq. Qed.

Section reconcile.
Context `{Controller}.
Context (read_valid : ∀ j r, read_reply j = Ok r → reply_ok r = true).

(** What a task may rely on: no attempt is looked at. *)
Notation sound := (good None).

#[local] Instance Safe_sound_call node m k : Safe sound (Commands.call Checks.run_check node m k).
Proof.
  intros c Hc. apply (call_good None _ _ _ 0); [lia| |by apply good_room].
  intros b _. destruct b; simpl; try lia. destruct action; try lia. induction attempts as [|f l IH]; simpl in *; lia.
Qed.

Lemma wp_and {A} I (p : prog A) (Q Q' : res A → ctl → Prop) c : wp I p Q c → wp I p Q' c → wp I p (fun r c => Q r c ∧ Q' r c) c.
Proof.
  revert c. induction p as [r|m IH|f k IH|h q IH|q IH] using prog_induction; simpl; intros c; [by split|by apply IH|..];
    intros [W1 W2] [_ W3]; (split; [done|]); eauto.
Qed.

(** A reply a command returns satisfies its model. *)
Lemma call_valid node m k c :
  sound c → wp sound (Commands.call Checks.run_check node m k) (fun r _ => ∀ a, r = Ok a → reply_ok a = true) c.
Proof.
  intros Hc. unfold Commands.call. apply wp_bind, wp_code.
  pose proof (call_begin_good None node m k 0 c ltac:(lia)) as G. unfold mwp in G |- *.
  assert (Hb : ∀ b, m = Ok b → (starts None b <= 0)%Z).
  { intros b _. destruct b; simpl; try lia. destruct action; try lia. induction attempts as [|f l IH]; simpl in *; lia. }
  specialize (G Hb ltac:(by apply good_room)). destruct (Commands.call_begin _ _ _ _ c) as [c1 [p|e]]; cbn [fst snd] in *; [|done].
  split; [done|]. intros r c' Hc' Hr. apply wp_code. unfold Commands.call_end.
  apply mwp_bind. unfold mwp at 1, Channel.request_end. set (m0 := _ ≫= _).
  assert (K : ∀ a, (m0 c').2 = Ok a → reply_ok a = true).
  { intros a. subst m0. unfold mbind, M_bind, lift at 1. destruct (Channel.answered r) as [v|e] eqn:Ea; [|done].
    destruct (Channel.guard _ _ _ c') as [c2 [u|e]]; [|done]. destruct (Checks.run_check _ c2) as [c3 [u'|e]]; [|done].
    intros [= <-]. destruct r as [v'|e]; simpl in Ea; [|by case_bool_decide]. injection Ea as <-.
    destruct Hr as [Hr|[Hr|Hr]]; [|done|done]. apply (co_replies _ (gd_channel _ _ Hc') _ _ Hr). }
  destruct (m0 c') as [c2 [v|e]]; cbn [fst snd] in *; [|done]. specialize (K v eq_refl).
  destruct v; by intros a [= <-].
Qed.

Lemma snapshot_valid node a c :
  sound c → wp sound (Commands.snapshot Checks.run_check node a)
    (fun r c' => sound c' ∧ ∀ s, r = Ok s → snapshot_ok s = true) c.
Proof.
  intros Hc. unfold Commands.snapshot. apply wp_bind.
  eapply wp_mono; [|exact (wp_and _ _ _ _ _ (Safe_sound_call node _ NoCheck c Hc) (call_valid node _ NoCheck c Hc))].
  intros [r|e] c1 [H1 Hv]; [|by split]. specialize (Hv r eq_refl). apply wp_code.
  pose proof (accepted_snapshot_node node a r c1) as K. unfold mwp in K |- *. destruct K as (S1 & C1 & _).
  split; [apply good_room; eapply room_same; [exact S1|exact C1|]; by apply good_room|].
  unfold Commands.accepted_snapshot. destruct r as [| h s | |]; try done. intros s'. clear S1 C1.
  unfold mbind, M_bind, reads, lift. destruct (contributor _ _); [|done]. destruct (raise_if _ _); [|done].
  destruct (raise_if _ _); [|done]. intros [= <-]. unfold reply_ok in Hv. by bool_inv.
Qed.

(** ** The cursor moves *)

(** The results of a page leave the cursor where it was, or further. *)
Definition moved (l : list WireAttempt) (cursor : string) (cursor' : string) : Prop :=
  l = [] ∧ cursor' = cursor ∨ (place cursor < place cursor')%Z ∧ String.length cursor' = 32.

Lemma wire_attempt_identity w : wire_attempt_ok w = true → String.length (f_attempt_id (r_fence (wa_result w))) = 32.
Proof. unfold wire_attempt_ok, result_ok, fence_ok. intros E. bool_inv. by apply identity_length. Qed.

Lemma observe_page_moves node s l cursor missing c :
  forallb wire_attempt_ok l = true → is_cursor cursor → sound c →
  wp sound (Runner.observe_page node s l cursor missing)
    (fun r c' => sound c' ∧ ∀ y, r = Ok y → moved l cursor y.1) c.
Proof.
  revert cursor missing c. induction l as [|w l IH]; intros cursor missing c Hl Hcur Hc; cbn [Runner.observe_page].
  - split; [done|]. intros y [= <-]. by left.
  - simpl in Hl. bool_inv. assert (Hw : String.length (f_attempt_id (r_fence (wa_result w))) = 32) by by apply wire_attempt_identity.
    set (k := f_attempt_id (r_fence (wa_result w))) in *. cbn zeta. destruct (String.leb k cursor) eqn:Hle.
    { apply wp_code. by split. }
    apply wp_bind. eapply wp_mono; [|exact (Safe_observe_one None node s w c Hc)].
    intros [u|e] c1 Hc1; [|by split]. eapply wp_mono; [|apply (IH k (missing ∖ {[k]}) c1); [done|by right|done]].
    intros r c2 [Hc2 Hy]. split; [done|]. intros y Er. right. specialize (Hy y Er).
    pose proof (place_lt cursor k Hcur Hw Hle). destruct Hy as [[_ ->]|[? ?]]; split; try done; lia.
Qed.

(** ** The loop ends *)

(** A round starts from a valid page and a cursor. *)
Definition round_ok (x : Snapshot * string * gset string) : Prop := snapshot_ok x.1.1 = true ∧ is_cursor x.1.2.
Definition round_place (x : Snapshot * string * gset string) : Z := place x.1.2.

Lemma reconcile_page_moves node s x c :
  round_ok x → sound c →
  wp sound (Runner.reconcile_page node s x)
    (fun r c' => sound c' ∧ ∀ y, r = Ok (inl y) → round_ok y ∧ (round_place x < round_place y)%Z) c.
Proof.
  destruct x as [[page cursor] missing]. intros [Hp Hcur] Hc. unfold Runner.reconcile_page. apply wp_bind, wp_code, mwp_lift.
  destruct (raise_if _ _) as [u|]; [|by split]. apply wp_bind.
  assert (Hl : forallb wire_attempt_ok (ss_attempts page) = true) by (cbn [fst] in Hp; unfold snapshot_ok in Hp; by bool_inv).
  eapply wp_mono; [|exact (observe_page_moves node s _ cursor missing c Hl Hcur Hc)].
  intros [[cursor' missing']|e] c1 [Hc1 Hm]; [|by split]. specialize (Hm _ eq_refl). cbn [fst] in Hm.
  destruct (ss_next page) as [n|]; [|by split]. destruct (_ || _) eqn:E; [by apply wp_code; split|].
  bool_inv. apply wp_bind. eapply wp_mono; [|exact (snapshot_valid node (Some n) c1 Hc1)].
  intros [page'|e] c2 [Hc2 Hv]; [|by split]. split; [done|]. intros y [= <-].
  destruct Hm as [[? _]|[Hlt Hlen]]; [done|]. split; [|exact Hlt]. split; [by apply Hv|by right].
Qed.

(** [2 ^ d] rounds that all continue move the cursor by as many places. *)
Lemma rounds_move node s d x c :
  round_ok x → sound c →
  wp sound (Runner.rounds d (Runner.reconcile_page node s) x)
    (fun r c' => sound c' ∧ ∀ y, r = Ok (inl y) → round_ok y ∧ (round_place x + 2 ^ Z.of_nat d <= round_place y)%Z) c.
Proof.
  revert x c. induction d as [|d IH]; intros x c Hx Hc; cbn [Runner.rounds].
  - eapply wp_mono; [|by apply reconcile_page_moves]. intros r c' [Hc1 Hy]. split; [done|]. intros y Er.
    destruct (Hy y Er). split; [done|]. simpl. lia.
  - apply wp_bind. eapply wp_mono; [|by apply IH]. intros [[y|z]|e] c1 [Hc1 Hy]; [|by split..].
    destruct (Hy y eq_refl) as [Hy1 Hy2]. eapply wp_mono; [|by apply (IH y)]. intros r c2 [Hc2 Hz]. split; [done|].
    intros z Er. destruct (Hz z Er). split; [done|]. rewrite Nat2Z.inj_succ, Z.pow_succ_r by lia. lia.
Qed.

(** C32: reconciliation ends.  From any state of the event loop and whatever replies
    the executor gives while other tasks run in between, the loop over the pages of a
    contributor's snapshot never exhausts its rounds: it returns the attempts nobody
    has seen, or fails. *)
Theorem reconcile_terminates node s missing c (Hs : snapshot_ok s = true) (Hc : sound c) :
  wp sound (Runner.rounds Runner.ROUNDS (Runner.reconcile_page node s) (s, "", missing))
    (fun r _ => match r with Ok (inl _) => False | _ => True end) c.
Proof.
  eapply wp_mono; [|apply (rounds_move node s Runner.ROUNDS (s, "", missing)); [|exact Hc]].
  - intros [[y|z]|e] c' [_ Hy]; try done. destruct (Hy y eq_refl) as [[_ Hcur] Hle].
    pose proof (place_bounds _ Hcur). change (round_place (s, "", missing)) with (-1)%Z in Hle.
    unfold round_place in Hle. change (2 ^ Z.of_nat Runner.ROUNDS)%Z with (2 ^ 257)%Z in Hle. lia.
  - split; [done|by left].
Qed.

End reconcile.
