(* ===== verification/DispatchSamples.v ===== *)
(** * A concrete controller

    One contributor, one prepared attempt, a policy evaluator that allows and the
    fair scheduler.  The run of [starting] is the whole way of a start command: the
    contributor's turn asks for a snapshot, observes the attempt, records the start
    and hands the command out. *)

From Stdlib Require Import SpecFloat.
From S2P Require Import Prelude Float64 Json Spec Offer Samples Scheduler Protocol Wire WorkloadSchema Database Records NodeRecords RecordsProps WorkloadSamples.
From S2P Require Import Identity Contributors PolicyPackages Policy PolicyProps Authority Control Channel Commands Checks Transfers Runner Queue Dispatch ChannelProps TaskLogic DispatchProps ReconcileProps ProviderProps.

(** ** The installation *)

(** A package digest and the one publisher. *)
Definition package_text : string := id_of "c" +:+ id_of "c".
Definition lab : Publisher := mkPublisher sample_public_key true 1.

Definition allowing (q : json) : json :=
  match q with
  | JObj l => JObj [("id", Packages.field l "id"); ("allow", JBool true); ("reason", JStr "rule")]
  | _ => JNull
  end.
Definition allow_all (r : unit) (value : json) : option json :=
  match value with
  | JObj l => match Packages.field l "requests" with JArr qs => Some (JArr (map allowing qs)) | _ => None end
  | _ => None
  end.

(** What the contributor reports: the attempt is prepared and ready. *)
Definition prepared_row : WireAttempt :=
  mkWireAttempt (sample_result plan_a Prepared false) (id_of "5") (id_of "3") 1 1 (at_time 30) true None.

Definition sample_capacity : Capacity :=
  mkCapacity [mkSlotCapacity "slot-a" 1 268435456 16384 true None]
    [mkProviderCapacity "example" ("sha256:" +:+ id_of "a" +:+ id_of "a") true None] (sample_limits 2 ["GPU-0"; "GPU-1"]).

Definition sample_snapshot : Snapshot :=
  mkWireSnapshot (id_of "9") (Some (id_of "e")) 1 0 1048576 (id_of "1") (id_of "2") 30 sample_offer sample_capacity
    [prepared_row] None.

Definition answer : Header := mkHeader (id_of "f") (id_of "1") (id_of "2").

(** The two replies, as the reader returns them. *)
Definition sample_reader (j : json) : res ReplyType :=
  match j with
  | JInt 0 => Ok (SnapshotReply answer sample_snapshot)
  | JInt 1 => Ok (BatchReply answer [ResultRow (plan_fence plan_a) prepared_row])
  | _ => Err model_error
  end.

#[global] Instance sample_controller : Controller := {|
  evaluator := unit; run_evaluator := allow_all;
  scheduler := Fair.Scheduler; run_scheduler := Provider.fair;
  contributor_settings := mkContributorSettings 86400 600 30 10 8; demo := false;
  deployment := id_of "1"; read_reply := sample_reader |}.

(** ** The database *)

Definition standing_delegation : Delegation :=
  mkDelegation (id_of "7") (id_of "4") (id_of "3") (id_of "8")
    ["contributors:read"; "jobs:execute"] 0 0 1 0 0 (Some package_text) 1.

(** [base_store] with a member, an active policy and a certificate. *)
Definition installed : store :=
  with_certificates
    (with_packages
       (with_publishers
          (with_policy
             (with_members base_store
                {[(id_of "3", id_of "4") := mkMembership ["contributors:read"; "jobs:execute"] 1]})
             (mkPolicy 0 true (Some package_text) None []))
          {["lab" := lab]})
       {[package_text := mkPackage "lab" JNull "" (at_time 0)]})
    {["fingerprint" := mkCertificate (id_of "2") (id_of "6") "key" (at_time 0) (at_time 4000) "chain" CertCurrent]}.

Definition submit_standing : wop :=
  DoSubmit (sample_world 0 "5") (sample_submission ["GPU-0"]) sample_key standing_delegation.

(** An operation whose conditions hold. *)
Definition run_lawful (op : wop) (s : store) : res store :=
  raise_if (negb (lawfulb op s)) model_error ;; run_op op s.

Definition prepare_standing (s : store) : res store :=
  s ← run_lawful submit_standing s; s ← run_lawful reserve_a s; run_lawful (observe_a 2 Prepared false) s.

Definition ready_store : store := Eval vm_compute in or_base (prepare_standing installed).

Lemma run_lawful_step op s s' : run_lawful op s = Ok s' → step s s'.
Proof.
  unfold run_lawful. intros E. apply raise_if_bind_Ok in E as [Hl E].
  apply (step_op _ _ op); [|exact E]. apply lawfulb_lawful. by destruct (lawfulb op s).
Qed.

Lemma ready_reachable : reachable ready_store.
Proof.
  assert (E : prepare_standing installed = Ok ready_store) by (vm_compute; reflexivity).
  apply bind_Ok in E as (s1 & E1 & E). apply bind_Ok in E as (s2 & E2 & E3).
  apply run_lawful_step in E1, E2, E3. unfold reachable. etrans; [apply base_reachable|].
  eapply rtc_l; [|eapply rtc_l; [exact E1|eapply rtc_l; [exact E2|apply rtc_once, E3]]].
  apply step_other. split; [reflexivity|reflexivity| |by intros i Hi|by intros i Hi|].
  - intros i o Ho. change ((∅ : gmap string Observation) !! i = Some o) in Ho. by rewrite lookup_empty in Ho.
  - intros i a c Ha Hc. by exists c.
Qed.

(** ** The controller at rest *)

Definition no_registry : Registry := {|
  registered := fun _ _ => Err model_error; require_safe := fun _ => Err model_error;
  effective_sensitive := fun _ => Err model_error; model_inputs := fun _ _ => Err model_error |}.

(** It is two seconds later, for every reading of every clock. *)
Definition sample_moment : sample := mkSample (sample_world 2 "f") (fun _ => f_of_Z 0) no_registry None [] (Ok tt).

Definition sample_policies : @Policies.policies unit :=
  Policies.mkPolicies (Some (Policies.mkPrepared [] (Some tt))) (Some package_text)
    (match PolicyStore.view ("lab", lab) with Ok v => Some v | Err _ => None end) false [] true.

Definition sample_session : Sessions.Session :=
  Sessions.mkSession (id_of "d") "fingerprint" 1 (f_of_Z 1000) (f_of_Z 0) None None None.

Definition idle : ctl :=
  mkCtl ready_store sample_policies {[id_of "2" := sample_session]} (mkChannel ∅ ∅ false ∅ 0 []) ∅ ∅ false
    (mkRunner ∅ ∅ ∅ ∅ ∅ 0 0 false ∅) (Some (Fair.mkScheduler 8 4 None)) (fun _ => sample_moment) 0.

Definition resting : system := mkSystem idle [].

(** ** The run *)

Definition poll_with (r : option json) : event := Begin (Exchange "fingerprint" (Channel.mkExchange (id_of "d") r)).

(** The turn asks for a snapshot; the contributor takes the command and answers. *)
Definition asking : list event := [Begin (Turn (id_of "2")); poll_with None; poll_with (Some (JInt 0))].

(** The turn observes the attempt; the answer lets it record the start, whose command
    the contributor's poll hands out. *)
Definition starting : list event := asking ++ [Reply 2; Wake 0; poll_with (Some (JInt 1)); Reply 3; Wake 0].

(** The events, checked to retain an attempt. *)
Fixpoint performs_keeping (i : string) (l : list event) (y : system) : option system :=
  match l with
  | [] => Some y
  | e :: l =>
      y ← perform e y;
      if has_attempt i (k_store (y_ctl y)) then performs_keeping i l y else None
  end.

Lemma performs_retaining i l y y' : performs_keeping i l y = Some y' → rtc (moves_retaining (Some i)) y y'.
Proof.
  revert y. induction l as [|e l IH]; intros y; simpl; [by intros [= ->]|].
  destruct (perform e y) as [y1|] eqn:E; [|done]. simpl. destruct (has_attempt _ _) eqn:Hi; [|done].
  intros E'. eapply rtc_l; [|by apply IH]. split; [by eapply perform_moves|]. by intros k [= <-] _.
Qed.

Lemma resting_initial : initial resting.
Proof. split; [done|exact ready_reachable|done]. Qed.

Lemma sample_reader_valid : ∀ j r, read_reply j = Ok r → reply_ok r = true.
Proof. intros [| |[|[]|]| | |] r; try discriminate 1; intros [= <-]; vm_compute; reflexivity. Qed.

(** ** The theorems at this controller *)

Lemma start_delivered_once_witness :
  ∃ y, initial resting ∧ rtc (moves_retaining (Some (id_of "a"))) resting y
    ∧ handed (Some (id_of "a")) (history y) = 1%Z
    ∧ ∃ a, s_attempts (k_store (y_ctl y)) !! id_of "a" = Some a ∧ t_start_requested a = true.
Proof.
  destruct (performs_keeping (id_of "a") starting resting) as [y|] eqn:E.
  2: { exfalso. assert (Hy : present (performs_keeping (id_of "a") starting resting) = true) by (vm_compute; reflexivity).
       rewrite E in Hy. discriminate Hy. }
  assert (Hh : (fun y => handed (Some (id_of "a")) (history y)) <$> performs_keeping (id_of "a") starting resting = Some 1%Z)
    by (vm_compute; reflexivity).
  rewrite E in Hh. injection Hh as Hh. apply performs_retaining in E.
  exists y. split; [apply resting_initial|]. split; [exact E|]. split; [exact Hh|].
  destruct (start_delivered_once sample_reader_valid (id_of "a") resting y resting_initial E) as [_ H].
  destruct H as (a & Ha & Hs & _); [rewrite Hh; reflexivity|]. exists a. split; [exact Ha|exact Hs].
Defined.


Lemma reconcile_terminates_witness :
  snapshot_ok sample_snapshot = true ∧ good None idle
  ∧ wp (good None)
      (Runner.rounds Runner.ROUNDS (Runner.reconcile_page (id_of "2") sample_snapshot) (sample_snapshot, "", {[id_of "a"]}))
      (fun r _ => match r with Ok (inl _) => False | _ => True end) idle.
Proof.
  assert (Hs : snapshot_ok sample_snapshot = true) by (vm_compute; reflexivity).
  split; [exact Hs|]. split; [exact (initial_good None resting resting_initial)|].
  exact (reconcile_terminates _ _ _ _ Hs (initial_good None resting resting_initial)).
Defined.

(** The submitted workload waits; the fair provider chooses it. *)
Definition waiting_jobs : list JobRecord :=
  match run_lawful submit_standing installed with Ok s => row_values (s_jobs s) | Err _ => [] end.

