(* ===== verification/AuditFormat.v ===== *)
(** * Audit batches and checkpoints

    [audit_sdk.py] and [audit_state.py]: the redacted events of a batch, its canonical
    text, its validation, the acknowledgement that names exactly one text, the reading
    of the audit table and the checkpoint of the stream.  A batch is the value that its
    canonical text denotes; the text itself is computed for its length and its digest. *)

From Stdlib Require Import SpecFloat.
From S2P Require Import Prelude Float64 Sha256 Json Spec Offer Wire WorkloadSchema Database.

(** ** [repr] of a float

    The shortest decimal that reads back as the number, nearest to it among those. *)
Module Decimal.

Definition length10 (z : Z) : Z := Z.of_nat (String.length (print_nat z)).

(** [num / den], rounded half to even. *)
Definition round_div (num den : Z) : Z :=
  let q := (num / den)%Z in
  match (2 * (num mod den) ?= den)%Z with
  | Lt => q
  | Gt => (q + 1)%Z
  | Eq => if Z.even q then q else (q + 1)%Z
  end.

(** [float ("<digits>e<exponent>")] for positive [digits]. *)
Definition read (digits exponent : Z) : float :=
  if (0 <=? exponent)%Z then f_of_Z (digits * 10 ^ exponent)
  else f_div (S754_finite false (Z.to_pos digits) 0) (S754_finite false (Z.to_pos (10 ^ (- exponent))) 0).

(** [n] digits of [num / den], which is below [10 ^ point] and not below a tenth of it,
    with the position of the decimal point. *)
Definition digits (n : nat) (num den point : Z) : Z * Z :=
  let scale := (Z.of_nat n - point)%Z in
  let q := if (0 <=? scale)%Z then round_div (num * 10 ^ scale) den else round_div num (den * 10 ^ (- scale)) in
  if (q =? 10 ^ Z.of_nat n)%Z then (1%Z, (point + 1)%Z) else (q, point).

Fixpoint shortest (fuel n : nat) (x : float) (num den point : Z) : string * Z :=
  let '(q, p) := digits n num den point in
  match fuel with
  | O => (print_nat q, p)
  | S fuel =>
      if f_eq (read q (p - length10 q)) x then (print_nat q, p) else shortest fuel (S n) x num den point
  end.

Fixpoint zeros (n : nat) : string := match n with O => "" | S n => String "0" (zeros n) end.

(** Digits and the position of the point as text. *)
Definition placed (s : string) (point : Z) : string :=
  let n := Z.of_nat (String.length s) in
  if ((-4 <? point) && (point <=? 16))%Z then
    if (point <=? 0)%Z then "0." +:+ zeros (Z.to_nat (- point)) +:+ s
    else if (n <=? point)%Z then s +:+ zeros (Z.to_nat (point - n)) +:+ ".0"
    else String.substring 0 (Z.to_nat point) s +:+ "." +:+ String.substring (Z.to_nat point) (Z.to_nat (n - point)) s
  else
    let e := (point - 1)%Z in
    String.substring 0 1 s +:+ (if (1 <? n)%Z then "." +:+ String.substring 1 (Z.to_nat (n - 1)) s else "")
    +:+ "e" +:+ (if (e <? 0)%Z then "-" else "+") +:+ (if (Z.abs e <? 10)%Z then "0" else "") +:+ print_nat (Z.abs e).

Definition repr (x : float) : string :=
  match x with
  | S754_zero s => if s then "-0.0" else "0.0"
  | S754_infinity s => if s then "-inf" else "inf"
  | S754_nan => "nan"
  | S754_finite s m e =>
      let num := (Zpos m * 2 ^ Z.max 0 e)%Z in
      let den := (2 ^ Z.max 0 (- e))%Z in
      let point := (length10 num - length10 den)%Z in
      let below := if (0 <=? point)%Z then (num <? den * 10 ^ point)%Z else (num * 10 ^ (- point) <? den)%Z in
      let '(t, p) := shortest 16 1 (S754_finite false m e) num den (if below then point else (point + 1)%Z) in
      (if s then "-" else "") +:+ placed t p
  end.

Example repr_samples :
  map repr [f_of_Z 1; f_div (f_of_Z 1) (f_of_Z 10); f_add (f_of_Z 1700000000) (f_div (f_of_Z 1234567) (f_of_Z 10000000));
            f_mul (f_of_Z (10 ^ 11)) (f_of_Z (10 ^ 11)); f_of_Z (10 ^ 16); f_of_Z 123456789012345680;
            f_div (f_of_Z (-3)) (f_of_Z 100000); S754_finite false 1 (-1074); f_div (f_of_Z 9) (f_of_Z 10)]
  = ["1.0"; "0.1"; "1700000000.1234567"; "1e+22"; "1e+16"; "1.2345678901234568e+17"; "-3e-05"; "5e-324"; "0.9"].
Proof. vm_compute. reflexivity. Qed.

End Decimal.

(** ** [audit_sdk.py] *)

Definition MAX_BATCH : Z := 65536.
Definition MAX_ACK : Z := 1024.

(** [ERRORS]. *)
Definition ERRORS : list (string * string) :=
  [("audit_unavailable", "The durable audit destination is unavailable. No protected mutation was admitted.");
   ("audit_configuration", "Configure a valid private audit destination while the controller is stopped.");
   ("audit_provider", "Install exactly one compatible trusted audit provider package.");
   ("audit_acknowledgement", "The audit destination did not acknowledge this exact batch as durable.");
   ("audit_backpressure", "Audit delivery is behind or its admission queue is full. Retry after delivery recovers.");
   ("audit_history", "Audit history moved behind its checkpoint. Reconcile the separate destination before reconfiguration.")].

(** The constructor of [AuditError]; an unknown code becomes [audit_unavailable]. *)
Definition audit_message (code : string) : option string :=
  snd <$> List.find (fun p => bool_decide (p.1 = code)) ERRORS.
Definition audit_error (code : string) : exn :=
  match audit_message code with
  | Some m => AuditError code m
  | None => AuditError "audit_unavailable" (default "" (audit_message "audit_unavailable"))
  end.

(** [str.encode ()] of code points below 256. *)
Definition utf8 (s : string) : list Z :=
  bytes_of s ≫= fun n => if (n <? 128)%Z then [n] else [Z.lor 192 (Z.shiftr n 6); Z.lor 128 (Z.land n 63)].

(** [identity]. *)
Definition identity_of (value : string) : string :=
  hex (sha256 (bytes_of "ficc-audit-identity" ++ [0%Z] ++ utf8 value)).

(** ** Events *)

(** The events of a batch: a retained row of the audit table, a range of rows that
    were not retained, the intent of a protected action, the start of a stream. *)
Inductive event :=
| RowEvent (id : Z) (at_ : float) (action outcome outcome_sha256 target_sha256 actor_sha256 : string)
    (subject_sha256 project_sha256 : option string)
| GapEvent (first_id last_id : Z)
| IntentEvent (id : string) (at_ : float) (action target_sha256 actor_sha256 subject_sha256 project_sha256 : string)
| StreamEvent (at_ : float).

Record Batch := mkBatch {
  b_stream_id : string; b_sequence : Z; b_after : Z; b_through : Z; b_events : list event }.

#[global] Instance event_eq_dec : EqDecision event. Proof. solve_decision. Defined.
#[global] Instance Batch_eq_dec : EqDecision Batch. Proof. solve_decision. Defined.

(** Texts of values, and of an object whose keys are in order. *)
Definition text_value (s : string) : string := print_string s "".
Definition optional_text (s : option string) : string := match s with Some s => text_value s | None => "null" end.
Definition object_text (l : list (string * string)) : string :=
  "{" +:+ String.concat "," (map (fun '(k, v) => text_value k +:+ ":" +:+ v) l) +:+ "}".

Definition event_text (e : event) : string :=
  match e with
  | RowEvent i at_ action outcome outcome_h target_h actor_h subject_h project_h =>
      object_text [("action", text_value action); ("actor_sha256", text_value actor_h); ("at", Decimal.repr at_);
        ("id", print_int i); ("kind", text_value "event"); ("outcome", text_value outcome);
        ("outcome_sha256", text_value outcome_h); ("project_sha256", optional_text project_h);
        ("subject_sha256", optional_text subject_h); ("target_sha256", text_value target_h)]
  | GapEvent first last =>
      object_text [("first_id", print_int first); ("kind", text_value "retention_gap"); ("last_id", print_int last)]
  | IntentEvent i at_ action target_h actor_h subject_h project_h =>
      object_text [("action", text_value action); ("actor_sha256", text_value actor_h); ("at", Decimal.repr at_);
        ("id", text_value i); ("kind", text_value "intent"); ("project_sha256", text_value project_h);
        ("subject_sha256", text_value subject_h); ("target_sha256", text_value target_h)]
  | StreamEvent at_ => object_text [("at", Decimal.repr at_); ("kind", text_value "stream")]
  end.

(** [encoded] of a batch. *)
Definition batch_text (b : Batch) : string :=
  object_text [("after", print_int (b_after b));
    ("events", "[" +:+ String.concat "," (map event_text (b_events b)) +:+ "]");
    ("sequence", print_int (b_sequence b)); ("stream_id", text_value (b_stream_id b));
    ("through", print_int (b_through b)); ("version", "1")].

Definition batch_sha256 (b : Batch) : string := hex (sha256 (bytes_of (batch_text b))).

Definition in_range (z : Z) : bool := (0 <=? z)%Z && (z <? 2 ^ 63)%Z.

(** [batch]. *)
Definition batch_ok (b : Batch) : bool :=
  (Z.of_nat (String.length (batch_text b)) <=? MAX_BATCH)%Z
  && Spec.identity (b_stream_id b)
  && in_range (b_sequence b) && in_range (b_after b) && in_range (b_through b)
  && (1 <=? b_sequence b)%Z && (b_after b <=? b_through b)%Z
  && (1 <=? length (b_events b))%nat && (length (b_events b) <=? 128)%nat.
Definition batch (b : Batch) : res unit := raise_if (negb (batch_ok b)) (audit_error "audit_acknowledgement").

(** The acknowledgement of a batch. *)
Definition receipt_of (b : Batch) : json :=
  JObj [("version", JInt 1); ("stream_id", JStr (b_stream_id b)); ("sequence", JInt (b_sequence b));
        ("sha256", JStr (batch_sha256 b)); ("durable", JBool true)].

(** [acknowledgement]. *)
Definition acknowledgement (value : json) (b : Batch) : res unit :=
  batch b ;;
  raise_if (negb (bool_decide (encoded value = encoded (receipt_of b)))) (audit_error "audit_acknowledgement").

(** ** [audit_state.py] *)

Record Configuration := mkConfiguration {
  cf_provider : string; cf_configuration : list (string * json); cf_secret_reference : string;
  cf_required : bool; cf_max_lag_events : Z; cf_stream_id : string }.

(** [secret_sdk.reference]. *)
Definition reference_ok (s : string) : bool := leading alnum (fun c => alnum c || one_of "_.-" c) 79 s.

(** [configuration], of a value that was read as these types. *)
Definition configuration (c : Configuration) : res Configuration :=
  raise_if (negb (leading is_lower (fun c => is_lower c || is_digit c || one_of "_-" c) 39 (cf_provider c)
                  && (1 <=? cf_max_lag_events c)%Z && (cf_max_lag_events c <=? 10000)%Z
                  && Spec.identity (cf_stream_id c) && reference_ok (cf_secret_reference c)))
    (audit_error "audit_configuration") ;;
  Ok c.

(** The value of a checkpoint file. *)
Record Checkpoint := mkCheckpoint {
  cp_stream_id : string; cp_sequence : Z; cp_cursor : Z; cp_last_seen : Z; cp_last_ack_at : option float;
  cp_gap_events : Z; cp_pending : option Batch }.

#[global] Instance Checkpoint_eq_dec : EqDecision Checkpoint. Proof. solve_decision. Defined.

(** [initial]. *)
Definition initial_checkpoint (stream : string) : Checkpoint := mkCheckpoint stream 0 0 0 None 0 None.

(** [State.__init__]: what a checkpoint must satisfy to be used. *)
Definition pending_ok (v : Checkpoint) : bool :=
  match cp_pending v with
  | Some b => batch_ok b && bool_decide (b_stream_id b = cp_stream_id v)
              && (b_sequence b =? cp_sequence v + 1)%Z && (b_after b =? cp_cursor v)%Z
  | None => true
  end.
Definition checkpoint_ok (stream : string) (now : float) (v : Checkpoint) : bool :=
  bool_decide (cp_stream_id v = stream)
  && in_range (cp_sequence v) && in_range (cp_cursor v) && in_range (cp_last_seen v) && in_range (cp_gap_events v)
  && (cp_cursor v <=? cp_last_seen v)%Z
  && match cp_last_ack_at v with Some t => f_le f_zero t && f_le t (f_add now (f_of_Z 300)) | None => true end
  && pending_ok v.
Definition open_checkpoint (stream : string) (now : float) (v : Checkpoint) : res Checkpoint :=
  raise_if (negb (checkpoint_ok stream now v)) (audit_error "audit_configuration") ;; Ok v.

(** The audit table: its rows by identity, in order. *)
Definition audit_rows : Type := list (Z * AuditEvent).

Definition OUTCOMES : list string :=
  ["success"; "failed"; "unknown"; "requested"; "queued"; "running"; "starting"; "preparing"; "prepared"; "completed";
   "succeeded"; "cancelled"; "expired"; "denied"; "confirmed"; "accepted"; "approved"; "enabled"; "disabled";
   "registered"; "verified"].

(** One row, redacted. *)
Definition redacted (i : Z) (a : AuditEvent) : event :=
  RowEvent i (au_at a)
    (if Spec.name (au_action a) then au_action a else "other")
    (if bool_decide (au_outcome a ∈ OUTCOMES) then au_outcome a else "other")
    (identity_of (au_outcome a)) (identity_of (au_target a)) (identity_of (au_actor a))
    (identity_of <$> au_subject_id a) (identity_of <$> au_project_id a).

(** The loop of [page] over the selected rows. *)
Fixpoint page_events (cursor : Z) (rows : audit_rows) : Z * list event :=
  match rows with
  | [] => (cursor, [])
  | (i, a) :: rows =>
      let '(c, l) := page_events i rows in
      (c, (if (cursor + 1 <? i)%Z then [GapEvent (cursor + 1) (i - 1)] else []) ++ redacted i a :: l)
  end.

Definition last_id (rows : audit_rows) : Z := default 0%Z (fst <$> last rows).

(** [page]: the last identity, the new cursor and the events of at most 64 rows. *)
Definition page (rows : audit_rows) (cursor : Z) : Z * Z * list event :=
  let '(c, l) := page_events cursor (take 64 (List.filter (fun r => (cursor <? r.1)%Z) rows)) in
  (last_id rows, c, l).
