(* ===== verification/Collector.v ===== *)
(** * The audit collector

    [audit-providers/https]: the append-only journal of a destination, the request
    handler in front of it, and the provider's client side.  The journal is a table
    keyed by stream and sequence; an exact repeat is acknowledged again, anything else
    must continue its stream. *)

From Stdlib Require Import SpecFloat.
From S2P Require Import Prelude Float64 Sha256 Json Spec AuditFormat.

(** ** [collector.Journal] *)

Record Entry := mkEntry { en_digest : string; en_through : Z; en_body : Batch }.

Abbreviation journal := (gmap (string * Z) Entry).

(** [SELECT sequence, through ... ORDER BY sequence DESC LIMIT 1], or [(0, 0)]. *)
Definition later (stream : string) (best : option (Z * Z)) (row : string * Z * Entry) : option (Z * Z) :=
  let '(s, n, e) := row in
  if bool_decide (s = stream) then
    match best with
    | Some (m, _) => if (m <? n)%Z then Some (n, en_through e) else best
    | None => Some (n, en_through e)
    end
  else best.
Definition last_entry (j : journal) (stream : string) : Z * Z :=
  default (0%Z, 0%Z) (foldl (later stream) None (map_to_list j)).

(** [Journal.append]. *)
Definition append (j : journal) (b : Batch) : res (journal * json) :=
  batch b ;;
  let digest := batch_sha256 b in
  match j !! (b_stream_id b, b_sequence b) with
  | Some e =>
      raise_if (negb (bool_decide (en_digest e = digest))) (audit_error "audit_acknowledgement") ;;
      Ok (j, receipt_of b)
  | None =>
      let '(sequence, through) := last_entry j (b_stream_id b) in
      raise_if (negb ((b_sequence b =? sequence + 1)%Z && (b_after b =? through)%Z))
        (audit_error "audit_acknowledgement") ;;
      Ok (<[(b_stream_id b, b_sequence b) := mkEntry digest (b_through b) b]> j, receipt_of b)
  end.

(** ** The HTTP exchange *)

(** What the connection carries back: a status and, for 200, the JSON value. *)
Inductive response := Status (code : Z) | Answer (value : json).

(** [Handler.do_POST] of a well-formed request: its bearer token, then the journal. *)
Definition do_POST (token : string) (j : journal) (presented : string) (b : Batch) : journal * response :=
  if negb (bool_decide (presented = token)) then (j, Status 401)
  else if negb ((1 <=? String.length (batch_text b))%nat && (Z.of_nat (String.length (batch_text b)) <=? MAX_BATCH)%Z)
  then (j, Status 413)
  else match append j b with
       | Ok (j, value) => (j, Answer value)
       | Err e => (j, Status 503)
       end.

(** [Destination.append]: what is checked before a request, and what is made of its answer. *)
Definition token_ok (s : string) : bool :=
  all_chars (fun c => alnum c || one_of "_-" c) s && length_between 32 256 s.
Definition request_begin (b : Batch) (credential : string) : res unit :=
  batch b ;;
  raise_if (negb (token_ok credential)) (audit_error "audit_unavailable").
Definition request_end (r : response) : res json :=
  match r with
  | Status _ => Err (audit_error "audit_acknowledgement")
  | Answer value =>
      raise_if (MAX_ACK <? Z.of_nat (String.length (encoded value)))%Z (audit_error "audit_acknowledgement") ;;
      Ok value
  end.
