(* ===== verification/AuditDelivery.v ===== *)
(** * Audit delivery

    [audit_delivery.py]: one task reads the audit table, keeps the batch it is about to
    send in its checkpoint, sends it and advances the checkpoint once the destination
    has acknowledged exactly that batch.  A protected action waits until its intent was
    sent that way. *)

From Stdlib Require Import SpecFloat.
From S2P Require Import Prelude Float64 Sha256 Json Spec Wire Database AuditFormat Collector.

(** [ACTIONS]. *)
Definition ACTIONS : list string :=
  ["workload.submit"; "workload.retry"; "source.write"; "source.object.begin"; "source.object.part"; "source.object.complete"].

(** A future of [require]: what it was resolved to. *)
Inductive outcome := Granted | Refused (e : exn) | Abandoned.

(** [Delivery]; [dl_done] holds the futures that are done, [dl_next] names the next one. *)
Record delivery := mkDelivery {
  dl_config : option Configuration; dl_required : bool; dl_state : option Checkpoint; dl_driver : bool;
  dl_started : bool; dl_closed : bool; dl_requests : list (event * nat); dl_active : option (event * nat);
  dl_error : option string; dl_dirty : bool; dl_lag : Z; dl_done : gmap nat outcome; dl_next : nat }.

Definition set_state (d : delivery) (x : option Checkpoint) : delivery :=
  mkDelivery (dl_config d) (dl_required d) x (dl_driver d) (dl_started d) (dl_closed d) (dl_requests d) (dl_active d)
    (dl_error d) (dl_dirty d) (dl_lag d) (dl_done d) (dl_next d).
Definition set_started (d : delivery) (x : bool) : delivery :=
  mkDelivery (dl_config d) (dl_required d) (dl_state d) (dl_driver d) x (dl_closed d) (dl_requests d) (dl_active d)
    (dl_error d) (dl_dirty d) (dl_lag d) (dl_done d) (dl_next d).
Definition set_closed (d : delivery) (x : bool) : delivery :=
  mkDelivery (dl_config d) (dl_required d) (dl_state d) (dl_driver d) (dl_started d) x (dl_requests d) (dl_active d)
    (dl_error d) (dl_dirty d) (dl_lag d) (dl_done d) (dl_next d).
Definition set_requests (d : delivery) (x : list (event * nat)) : delivery :=
  mkDelivery (dl_config d) (dl_required d) (dl_state d) (dl_driver d) (dl_started d) (dl_closed d) x (dl_active d)
    (dl_error d) (dl_dirty d) (dl_lag d) (dl_done d) (dl_next d).
Definition set_active (d : delivery) (x : option (event * nat)) : delivery :=
  mkDelivery (dl_config d) (dl_required d) (dl_state d) (dl_driver d) (dl_started d) (dl_closed d) (dl_requests d) x
    (dl_error d) (dl_dirty d) (dl_lag d) (dl_done d) (dl_next d).
Definition set_error (d : delivery) (x : option string) : delivery :=
  mkDelivery (dl_config d) (dl_required d) (dl_state d) (dl_driver d) (dl_started d) (dl_closed d) (dl_requests d)
    (dl_active d) x (dl_dirty d) (dl_lag d) (dl_done d) (dl_next d).
Definition set_dirty (d : delivery) (x : bool) : delivery :=
  mkDelivery (dl_config d) (dl_required d) (dl_state d) (dl_driver d) (dl_started d) (dl_closed d) (dl_requests d)
    (dl_active d) (dl_error d) x (dl_lag d) (dl_done d) (dl_next d).
Definition set_lag (d : delivery) (x : Z) : delivery :=
  mkDelivery (dl_config d) (dl_required d) (dl_state d) (dl_driver d) (dl_started d) (dl_closed d) (dl_requests d)
    (dl_active d) (dl_error d) (dl_dirty d) x (dl_done d) (dl_next d).
Definition set_done (d : delivery) (x : gmap nat outcome) : delivery :=
  mkDelivery (dl_config d) (dl_required d) (dl_state d) (dl_driver d) (dl_started d) (dl_closed d) (dl_requests d)
    (dl_active d) (dl_error d) (dl_dirty d) (dl_lag d) x (dl_next d).
Definition set_next (d : delivery) (x : nat) : delivery :=
  mkDelivery (dl_config d) (dl_required d) (dl_state d) (dl_driver d) (dl_started d) (dl_closed d) (dl_requests d)
    (dl_active d) (dl_error d) (dl_dirty d) (dl_lag d) (dl_done d) x.

(** ** Opening *)

(** [__init__]: the required marker of the database, the private configuration if it can
    be read, the checkpoint beside it, and the provider.  [Err None] is
    [FileNotFoundError]. *)
Inductive reading (A : Type) := Found (a : A) | Missing | Unreadable (e : exn).
Arguments Found {A} a.
Arguments Missing {A}.
Arguments Unreadable {A} e.

(** [exc.code if isinstance (exc, AuditError) else other]. *)
Definition code_or (e : exn) (other : string) : string := match e with AuditError c _ => c | _ => other end.

Definition fresh (config : option Configuration) (required : bool) (state : option Checkpoint) (driver : bool)
    (error : option string) (lag : Z) : delivery :=
  mkDelivery config required state driver false false [] None error false lag ∅ 0.

(** [driver] is [Ok true] for a provider with [append], or how loading it failed. *)
Definition open_delivery (marker : bool) (config : reading Configuration) (checkpoint : reading Checkpoint)
    (now : float) (driver : res bool) : delivery :=
  match config with
  | Missing => fresh None marker None false (if marker then Some "audit_configuration" else None) 0
  | Unreadable e => fresh None true None false (Some (code_or e "audit_configuration")) 0
  | Found c =>
      match configuration c with
      | Err e => fresh None true None false (Some (code_or e "audit_configuration")) 0
      | Ok c =>
          let required := marker || cf_required c in
          match checkpoint with
          | Missing => fresh (Some c) required None false (Some "audit_configuration") 0
          | Unreadable e => fresh (Some c) required None false (Some (code_or e "audit_configuration")) 0
          | Found v =>
              match open_checkpoint (cf_stream_id c) now v with
              | Err e => fresh (Some c) required None false (Some (code_or e "audit_configuration")) 0
              | Ok v =>
                  let lag := (cp_last_seen v - cp_cursor v)%Z in
                  match driver with
                  | Ok true => fresh (Some c) required (Some v) true None lag
                  | Ok false => fresh (Some c) required (Some v) true (Some "audit_provider") lag
                  | Err e => fresh (Some c) required (Some v) false (Some (code_or e "audit_configuration")) lag
                  end
              end
          end
      end
  end.

(** ** Code between two awaits *)

Definition M (A : Type) : Type := delivery → delivery * res A.
#[global] Instance audit_ret : MRet M := fun A a d => (d, Ok a).
#[global] Instance audit_bind : MBind M := fun A B f m d =>
  match m d with (d', Ok a) => f a d' | (d', Err e) => (d', Err e) end.
Definition lift {A} (r : res A) : M A := fun d => (d, r).
Definition gets {A} (f : delivery → A) : M A := fun d => (d, Ok (f d)).
Definition modify (f : delivery → delivery) : M unit := fun d => (f d, Ok tt).

(** [assert ... is not None]. *)
Definition checkpoint : M Checkpoint := fun d => (d, some_or (dl_state d) (OtherError "AssertionError")).
Definition config : M Configuration := fun d => (d, some_or (dl_config d) (OtherError "AssertionError")).

(** ** What the task waits for *)

(** The background work and the network: saving the checkpoint, reading the secret,
    sending a batch with a credential, reading a page of the audit table. *)
Inductive call :=
| Save (v : Checkpoint)
| Secret (reference : string)
| Post (b : Batch) (credential : string)
| Page (cursor : Z).

Inductive answer :=
| Saved
| Resolved (credential : string)
| Responded (r : response)
| Read (last through : Z) (events : list event)
| Failed (e : exn).

Inductive prog (A : Type) : Type :=
| Return (r : res A)
| Atomic (m : delivery → delivery * prog A)
| Call (c : call) (k : answer → prog A).
Arguments Return {A} r.
Arguments Atomic {A} m.
Arguments Call {A} c k.

Fixpoint prog_then {A B} (p : prog A) (f : A → prog B) : prog B :=
  match p with
  | Return (Ok a) => f a
  | Return (Err e) => Return (Err e)
  | Atomic m => Atomic (fun d => let '(d', q) := m d in (d', prog_then q f))
  | Call c k => Call c (fun a => prog_then (k a) f)
  end.
#[global] Instance audit_prog_ret : MRet prog := fun A a => Return (Ok a).
#[global] Instance audit_prog_bind : MBind prog := fun A B f p => prog_then p f.

Definition here {A} (m : M A) : prog A := Atomic (fun d => let '(d', r) := m d in (d', Return r)).

(** An answer of another call never comes. *)
Definition mismatched : exn := OtherError "mismatched".
Definition failure (a : answer) : exn := match a with Failed e => e | _ => mismatched end.

Definition save (v : Checkpoint) : prog unit :=
  Call (Save v) (fun a => match a with Saved => Return (Ok tt) | _ => Return (Err (failure a)) end).
Definition secret (r : string) : prog string :=
  Call (Secret r) (fun a => match a with Resolved s => Return (Ok s) | _ => Return (Err (failure a)) end).
Definition read_page (cursor : Z) : prog (Z * Z * list event) :=
  Call (Page cursor) (fun a => match a with Read l t es => Return (Ok (l, t, es)) | _ => Return (Err (failure a)) end).

(** [driver.append]: [Destination.append]. *)
Definition driver_append (b : Batch) (credential : string) : prog json :=
  here (lift (request_begin b credential)) ;;
  Call (Post b credential) (fun a => match a with
                                     | Responded r => Return (request_end r)
                                     | _ => Return (Err (failure a))
                                     end).

(** ** The task *)

(** [self.state.value.update (...)]. *)
Definition on_checkpoint (f : Checkpoint → Checkpoint) : M unit := modify (fun d => set_state d (f <$> dl_state d)).

(** A future is resolved once. *)
Definition resolve (f : nat) (o : outcome) (m : gmap nat outcome) : gmap nat outcome :=
  match m !! f with Some _ => m | None => <[f := o]> m end.

(** [refuse]: the active request goes back to the front, then every one is refused. *)
Definition refuse (code : string) : M unit :=
  modify (fun d =>
    let waiting := match dl_active d with Some r => r :: dl_requests d | None => dl_requests d end in
    let e := Failure code (exn_message (audit_error code)) 503 in
    set_done (set_requests (set_active d None) [])
      (foldl (fun m r => resolve r.2 (Refused e) m) (dl_done d) waiting)).

(** [persist]. *)
Definition persist : prog unit :=
  v ← here (modify (fun d => set_dirty d true) ;; checkpoint);
  save v ;;
  here (modify (fun d => set_dirty d false)).

Definition gap_size (e : event) : Z := match e with GapEvent first last => (last - first + 1)%Z | _ => 0%Z end.
Definition gaps (l : list event) : Z := sumZ gap_size l.

(** [value.update (...)] once a batch was acknowledged. *)
Definition acknowledged (b : Batch) (now : float) (v : Checkpoint) : Checkpoint :=
  mkCheckpoint (cp_stream_id v) (b_sequence b) (b_through b) (cp_last_seen v) (Some now)
    (cp_gap_events v + gaps (b_events b)) None.

(** The pending batch, which [batch] refuses if there is none. *)
Definition pending_batch : M Batch :=
  v ← checkpoint; lift (some_or (cp_pending v) (audit_error "audit_acknowledgement")).

(** The active request is granted. *)
Definition grant : M unit :=
  modify (fun d =>
    match dl_active d with
    | Some (_, f) => set_done (set_active d None) (resolve f Granted (dl_done d))
    | None => d
    end).

(** [send]; [now] is the time of the acknowledgement. *)
Definition send (now : float) : prog unit :=
  b ← here pending_batch;
  c ← here config;
  credential ← secret (cf_secret_reference c);
  value ← driver_append b credential;
  here (lift (acknowledgement value b) ;; on_checkpoint (acknowledged b now)) ;;
  persist ;;
  here (modify (fun d => match dl_state d with
                         | Some v => set_lag d (cp_last_seen v - cp_cursor v)
                         | None => d
                         end) ;;
        grant).

(** [while self.requests: ...]: the first request whose future is not done. *)
Fixpoint next_request (l : list (event * nat)) (done : gmap nat outcome) : option (event * nat) * list (event * nat) :=
  match l with
  | [] => (None, [])
  | r :: l => match done !! r.2 with Some _ => next_request l done | None => (Some r, l) end
  end.

(** The events of the next batch: rows, else an intent, else the start of the stream. *)
Definition choose (now : float) (events : list event) : M (list event) := fun d =>
  match events with
  | _ :: _ => (d, Ok events)
  | [] =>
      let '(r, l) := next_request (dl_requests d) (dl_done d) in
      let d := set_requests d l in
      match r with
      | Some (e, f) => (set_active d (Some (e, f)), Ok [e])
      | None =>
          match dl_state d with
          | Some v => (d, Ok (if (cp_sequence v =? 0)%Z then [StreamEvent now] else []))
          | None => (d, Err (OtherError "AssertionError"))
          end
      end
  end.

(** [value["last_seen"] = last; self.lag = ...]. *)
Definition see (last : Z) : M unit :=
  v ← checkpoint;
  lift (raise_if ((last <? cp_last_seen v) || (last <? cp_cursor v))%Z (audit_error "audit_history")) ;;
  on_checkpoint (fun v => mkCheckpoint (cp_stream_id v) (cp_sequence v) (cp_cursor v) last (cp_last_ack_at v)
                            (cp_gap_events v) (cp_pending v)) ;;
  modify (fun d => set_lag d (last - cp_cursor v)).

Definition with_pending (b : Batch) (v : Checkpoint) : Checkpoint :=
  mkCheckpoint (cp_stream_id v) (cp_sequence v) (cp_cursor v) (cp_last_seen v) (cp_last_ack_at v) (cp_gap_events v) (Some b).

(** The batch is kept in the checkpoint, then validated. *)
Definition propose (through : Z) (events : list event) : M unit :=
  v ← checkpoint;
  let b := mkBatch (cp_stream_id v) (cp_sequence v + 1) (cp_cursor v) through events in
  on_checkpoint (with_pending b) ;;
  lift (batch b).

(** [step]; [now] and [later] are the times it reads.  The result is whether there may
    be more to send. *)
Definition step (now later : float) : prog bool :=
  dirty ← here (gets dl_dirty);
  (if (dirty : bool) then persist ;; here (refuse "audit_unavailable") else Return (Ok tt)) ;;
  v ← here checkpoint;
  match cp_pending v with
  | Some _ => send later ;; Return (Ok true)
  | None =>
      '(last, through, events) ← read_page (cp_cursor v);
      events ← here (see last ;; choose now events);
      match events with
      | [] => Return (Ok false)
      | _ => here (propose through events) ;; persist ;; send later ;; Return (Ok true)
      end
  end.

(** [poll]: what follows a step; [except Exception]. *)
Definition step_ended (r : res bool) : M unit :=
  match r with
  | Ok _ => modify (fun d => set_error d None)
  | Err e =>
      let code := code_or e "audit_unavailable" in
      modify (fun d => set_error d (Some code)) ;; refuse code
  end.

(** A task runs to its next await. *)
Fixpoint run {A} (p : prog A) (d : delivery) : delivery * prog A :=
  match p with
  | Atomic m => let '(d', q) := m d in run q d'
  | _ => (d, p)
  end.

(** ** Admission *)

(** [start]. *)
Definition start : M unit :=
  modify (fun d =>
    if negb (dl_started d) && present (dl_config d) && present (dl_state d) && dl_driver d && negb (dl_closed d)
    then set_started d true else d).

Definition unavailable (code : string) : exn := Failure code (exn_message (audit_error code)) 503.

(** Who asks, and of what. *)
Record asking := mkAsking { ak_id : string; ak_subject : string; ak_project : string }.

(** [len (self.requests) + int (self.active is not None)]. *)
Definition waiting (d : delivery) : nat := length (dl_requests d) + (if present (dl_active d) then 1 else 0)%nat.

(** [require] up to its await: nothing to wait for, or the future of the intent. *)
Definition require_begin (i : string) (now : float) (action target : string) (a : asking) : M (option (event * nat)) := fun d =>
  if negb (dl_required d) then (d, Ok None)
  else if negb (bool_decide (action ∈ ACTIONS)) then (d, Err (ValueError "Unsupported protected audit action."))
  else if dl_closed d || negb (present (dl_state d)) || negb (dl_driver d) then (d, Err (unavailable "audit_unavailable"))
  else
    match dl_config d with
    | None => (d, Err (OtherError "AssertionError"))
    | Some c =>
        if (cf_max_lag_events c <? dl_lag d)%Z || (16 <=? waiting d)%nat then (d, Err (unavailable "audit_backpressure"))
        else
          let e := IntentEvent i now action (identity_of target) (identity_of (ak_id a)) (identity_of (ak_subject a))
                     (identity_of (ak_project a)) in
          let f := dl_next d in
          let d := set_next (set_requests d (dl_requests d ++ [(e, f)])) (S f) in
          ((start d).1, Ok (Some (e, f)))
    end.

(** The future is done, or [ADMISSION_SECONDS] have passed, or the caller is cancelled. *)
Definition require_end (f : nat) : M unit := fun d =>
  match dl_done d !! f with
  | Some Granted => (d, Ok tt)
  | Some (Refused e) => (d, Err e)
  | Some Abandoned => (d, Err (OtherError "CancelledError"))
  | None => (set_done d (resolve f Abandoned (dl_done d)), Err (unavailable "audit_unavailable"))
  end.

(** ** [close] and [status] *)

(** The task is cancelled ([finally: self.refuse]) and every request refused. *)
Definition close : M unit :=
  modify (fun d => set_started (set_closed d true) false) ;; refuse "audit_unavailable".

Inductive delivery_state := Unavailable | NotConfigured | Backpressure | Delivering | Current.

Record status := mkStatus {
  st_state : delivery_state; st_required : bool; st_error : option string; st_acknowledged_sequence : Z;
  st_delivered_through : Z; st_last_ack_at : option float; st_pending_events : Z; st_retention_gap_events : Z;
  st_admission_waiters : nat; st_pending_batch : bool }.

Definition status_of (d : delivery) : status :=
  let saved {A} (f : Checkpoint → A) (x : A) := match dl_state d with Some v => f v | None => x end in
  let pending := saved (fun v => present (cp_pending v)) false in
  mkStatus
    (match dl_error d with
     | Some _ => Unavailable
     | None =>
         match dl_config d with
         | None => NotConfigured
         | Some c =>
             if (cf_max_lag_events c <? dl_lag d)%Z then Backpressure
             else if pending || negb (dl_lag d =? 0)%Z || negb (present (saved cp_last_ack_at None)) then Delivering
             else Current
         end
     end)
    (dl_required d) (dl_error d) (saved cp_sequence 0%Z) (saved cp_cursor 0%Z) (saved cp_last_ack_at None)
    (dl_lag d) (saved cp_gap_events 0%Z) (waiting d) pending.
