(* ===== verification/AuditSystem.v ===== *)
(** * A controller, its audit table, the network and a collector

    The whole way of an audit event.  The checkpoint file and the audit table survive a
    crash of the controller, and so do the packets on their way to the collector, which
    may arrive at any time, more than once, or never.  A save that was not answered may
    or may not have reached the disk. *)

From Stdlib Require Import SpecFloat.
From S2P Require Import Prelude Float64 Sha256 Json Spec Wire Database AuditFormat Collector AuditDelivery.

(** The task of a controller: between two steps, or waiting in one. *)
Inductive activity := Resting | Waiting (p : prog bool).

(** A running controller.  [pc_intents] is the history of the futures that [require]
    made, [pc_calls] the calls of [require] that have not returned. *)
Record process := mkProcess {
  pc_delivery : delivery; pc_task : activity; pc_intents : gmap nat event; pc_calls : gset nat }.

(** The controller if it runs, the files of its state, the audit table with SQLite's
    counter, the packets sent, the collector, and two histories: every audit row there
    ever was, and the intents of the calls of [require] that returned. *)
Record system := mkSystem {
  y_process : option process; y_config : Configuration; y_marker : bool; y_disk : Checkpoint;
  y_rows : audit_rows; y_counter : Z; y_log : gmap Z AuditEvent;
  y_network : list (Batch * string); y_journal : journal; y_token : string; y_admitted : list event }.

Definition with_process (y : system) (p : option process) : system :=
  mkSystem p (y_config y) (y_marker y) (y_disk y) (y_rows y) (y_counter y) (y_log y) (y_network y) (y_journal y)
    (y_token y) (y_admitted y).
Definition with_disk (y : system) (v : Checkpoint) : system :=
  mkSystem (y_process y) (y_config y) (y_marker y) v (y_rows y) (y_counter y) (y_log y) (y_network y) (y_journal y)
    (y_token y) (y_admitted y).
Definition with_network (y : system) (l : list (Batch * string)) : system :=
  mkSystem (y_process y) (y_config y) (y_marker y) (y_disk y) (y_rows y) (y_counter y) (y_log y) l (y_journal y)
    (y_token y) (y_admitted y).
Definition with_journal (y : system) (j : journal) : system :=
  mkSystem (y_process y) (y_config y) (y_marker y) (y_disk y) (y_rows y) (y_counter y) (y_log y) (y_network y) j
    (y_token y) (y_admitted y).
Definition with_admitted (y : system) (e : event) : system :=
  mkSystem (y_process y) (y_config y) (y_marker y) (y_disk y) (y_rows y) (y_counter y) (y_log y) (y_network y)
    (y_journal y) (y_token y) (e :: y_admitted y).

(** [Store.audit]: a row, and the retention of the last 10000 identities. *)
Definition retained (rows : audit_rows) (i : Z) : audit_rows := List.filter (fun r => (i - 10000 <? r.1)%Z) rows.
Definition insert_row (y : system) (a : AuditEvent) : system :=
  let i := (y_counter y + 1)%Z in
  mkSystem (y_process y) (y_config y) (y_marker y) (y_disk y) (retained (y_rows y ++ [(i, a)]) i) i (<[i := a]> (y_log y))
    (y_network y) (y_journal y) (y_token y) (y_admitted y).

(** ** Events *)

(** What answers a call: the disk, the secret store, the collector, the database, or a
    failure; a failed save may still have written. *)
Inductive reply := ReplySaved | ReplySecret (s : string) | ReplyPosted | ReplyPage | ReplyFailed (e : exn) (written : bool).

Inductive move :=
| Insert (a : AuditEvent)                                       (* any part of the controller audits an action *)
| Require (i : string) (now : float) (action target : string) (a : asking)
| Settle (f : nat)                                              (* the await of a call of [require] ends *)
| Wake (now later : float)                                      (* the task begins a step *)
| Answered (r : reply)
| Deliver (n : nat)                                             (* a packet reaches the collector *)
| Foreign (presented : string) (b : Batch)                      (* another controller's batch does *)
| Crash (written : bool)
| Close (written : bool)
| Restart (now : float).

(** The task goes on with what it was waiting for. *)
Definition resumed (p : process) (q : prog bool) : process :=
  let '(d, q) := run q (pc_delivery p) in
  match q with
  | Return r => mkProcess (step_ended r d).1 Resting (pc_intents p) (pc_calls p)
  | _ => mkProcess d (Waiting q) (pc_intents p) (pc_calls p)
  end.

(** A packet is handled by the collector; nobody may be waiting for the answer. *)
Definition deliver (y : system) (b : Batch) (credential : string) : system * response :=
  let '(j, r) := do_POST (y_token y) (y_journal y) credential b in (with_journal y j, r).

(** A save that is under way reaches the disk, or does not. *)
Definition written_by (c : call) (written : bool) (y : system) : system :=
  match c with Save v => if written then with_disk y v else y | _ => y end.

(** The answer to a call, and its effect. *)
Definition answer_to (c : call) (r : reply) (y : system) : option (system * answer) :=
  match r with
  | ReplyFailed e written => Some (written_by c written y, Failed e)
  | ReplySaved => match c with Save v => Some (with_disk y v, Saved) | _ => None end
  | ReplySecret s => match c with Secret _ => Some (y, Resolved s) | _ => None end
  | ReplyPosted =>
      match c with
      | Post b credential => let '(y, r) := deliver y b credential in Some (y, Responded r)
      | _ => None
      end
  | ReplyPage => match c with Page cursor => let '(l, t, es) := page (y_rows y) cursor in Some (y, Read l t es) | _ => None end
  end.

(** The packets a task that waits has sent: its batch is on its way. *)
Definition packets (t : activity) : list (Batch * string) :=
  match t with Waiting (Call (Post b credential) _) => [(b, credential)] | _ => [] end.
Definition running (y : system) (p : process) : system :=
  with_network (with_process y (Some p)) (packets (pc_task p) ++ y_network y).

Definition on_process (y : system) (f : process → option system) : option system := p ← y_process y; f p.

(** The task stops where it is; a save under way may still happen. *)
Definition stopped (written : bool) (p : process) (y : system) : system :=
  match pc_task p with Waiting (Call c _) => written_by c written y | _ => y end.

Definition perform (m : move) (y : system) : option system :=
  match m with
  | Insert a => Some (insert_row y a)
  | Require i now action target a =>
      on_process y (fun p =>
        let '(d, r) := require_begin i now action target a (pc_delivery p) in
        match r with
        | Ok (Some (e, f)) =>
            Some (with_process y (Some (mkProcess d (pc_task p) (<[f := e]> (pc_intents p)) ({[f]} ∪ pc_calls p))))
        | _ => Some (with_process y (Some (mkProcess d (pc_task p) (pc_intents p) (pc_calls p))))
        end)
  | Settle f =>
      on_process y (fun p =>
        if bool_decide (f ∈ pc_calls p) then
          let '(d, r) := require_end f (pc_delivery p) in
          let y := with_process y (Some (mkProcess d (pc_task p) (pc_intents p) (pc_calls p ∖ {[f]}))) in
          match r, pc_intents p !! f with Ok _, Some e => Some (with_admitted y e) | _, _ => Some y end
        else None)
  | Wake now later =>
      on_process y (fun p =>
        match pc_task p with
        | Resting => if dl_started (pc_delivery p) then Some (running y (resumed p (step now later))) else None
        | Waiting _ => None
        end)
  | Answered r =>
      on_process y (fun p =>
        match pc_task p with
        | Waiting (Call c k) => '(y, a) ← answer_to c r y; Some (running y (resumed p (k a)))
        | _ => None
        end)
  | Deliver n => '(b, credential) ← y_network y !! n; Some (deliver y b credential).1
  | Foreign presented b =>
      if bool_decide (b_stream_id b = cf_stream_id (y_config y)) then None else Some (deliver y b presented).1
  | Crash written => on_process y (fun p => Some (with_process (stopped written p y) None))
  | Close written =>
      on_process y (fun p =>
        Some (with_process (stopped written p y)
                (Some (mkProcess (close (pc_delivery p)).1 Resting (pc_intents p) (pc_calls p)))))
  | Restart now =>
      match y_process y with
      | Some _ => None
      | None =>
          let d := open_delivery (y_marker y) (Found (y_config y)) (Found (y_disk y)) now (Ok true) in
          Some (with_process y (Some (mkProcess (start d).1 Resting ∅ ∅)))
      end
  end.

Definition moves (y y' : system) : Prop := ∃ m, perform m y = Some y'.

(** [audit_cli.configure] has just provisioned the stream: nothing was sent and the
    collector has nothing of it; the audit table may have any history. *)
Record provisioned (y : system) : Prop := {
  pv_process : y_process y = None;
  pv_config : configuration (y_config y) = Ok (y_config y);
  pv_disk : y_disk y = initial_checkpoint (cf_stream_id (y_config y));
  pv_network : y_network y = [];
  pv_journal n : y_journal y !! (cf_stream_id (y_config y), n) = None;
  pv_admitted : y_admitted y = [];
  pv_rows i a : (i, a) ∈ y_rows y → y_log y !! i = Some a;
  pv_sorted : StronglySorted Z.lt (map fst (y_rows y));
  pv_log i a : y_log y !! i = Some a → (1 <= i <= y_counter y)%Z;
  pv_counter : (0 <= y_counter y)%Z }.

(** The moves from a state, as far as they are possible. *)
Fixpoint performs (l : list move) (y : system) : option system :=
  match l with
  | [] => Some y
  | m :: l => y ← perform m y; performs l y
  end.

Lemma audit_performs_moves l y y' : performs l y = Some y' → rtc moves y y'.
Proof.
  revert y. induction l as [|m l IH]; intros y; simpl; [by intros [= ->]|].
  destruct (perform m y) as [y1|] eqn:E; [|done]. simpl. intros H. eapply rtc_l; [by exists m|by apply IH].
Qed.
