(* ===== verification/AuditProps.v ===== *)
(** * The audit trail

    The collector's journal of a stream is one chain of batches that covers the audit
    table from its first row without omission, repetition or conflict, whatever crashes,
    lost answers and late packets there were; and an admitted action has its intent in
    that chain.

    The proof follows the plan of the stream: the list of batches that were ever kept in
    the checkpoint file.  The disk, the memory of the controller, the packets and the
    journal each know a prefix of it. *)

From Stdlib Require Import SpecFloat.
From S2P Require Import Prelude Float64 Sha256 Json Spec Wire Database AuditFormat Collector AuditDelivery AuditSystem.

(** ** What a list of events accounts for *)

(** From identity [c] on, each identity up to the last one is accounted for once and in
    order: by its row, redacted, or by a range of identities that are gone. *)
Inductive covers (row : gmap Z AuditEvent) (gone : Z → Prop) : Z → list event → Z → Prop :=
| covers_nil c : covers row gone c [] c
| covers_row c a l t :
    row !! (c + 1)%Z = Some a → covers row gone (c + 1) l t → covers row gone c (redacted (c + 1) a :: l) t
| covers_gap c n l t :
    (c + 1 <= n)%Z → (∀ i, (c + 1 <= i <= n)%Z → gone i) → covers row gone n l t →
    covers row gone c (GapEvent (c + 1) n :: l) t
| covers_intent c i at_ action target actor subject project l t :
    covers row gone c l t → covers row gone c (IntentEvent i at_ action target actor subject project :: l) t
| covers_stream c at_ l t : covers row gone c l t → covers row gone c (StreamEvent at_ :: l) t.

Lemma covers_app row gone c l t l' t' :
  covers row gone c l t → covers row gone t l' t' → covers row gone c (l ++ l') t'.
Proof. induction 1; simpl; intros; [done|constructor; auto..]. Qed.

Lemma covers_mono row gone row' gone' c l t :
  row ⊆ row' → (∀ i, gone i → gone' i) → covers row gone c l t → covers row' gone' c l t.
Proof. intros Hr Hg. induction 1; constructor; auto. by eapply lookup_weaken. Qed.

Lemma covers_le row gone c l t : covers row gone c l t → (c <= t)%Z.
Proof. induction 1; lia. Qed.

(** ** The plan of a stream *)

Definition through_at (T : list Batch) (i : nat) : Z :=
  match i with O => 0%Z | S i => default 0%Z (b_through <$> T !! i) end.

Definition entry_of (b : Batch) : Entry := mkEntry (batch_sha256 b) (b_through b) b.

(** What is known of a stream: its plan, how much of it the collector has, the
    checkpoint on the disk, the rows there were, the rows that are gone, and the intents
    of the running controller. *)
Record world := mkWorld {
  w_plan : list Batch; w_recorded : nat; w_disk : Checkpoint; w_row : gmap Z AuditEvent; w_gone : Z → Prop;
  w_intents : gmap nat event }.

Section stream.
Context (stream : string).

(** A batch that continues a plan. *)
Record continues (w : world) (T : list Batch) (b : Batch) : Prop := {
  ct_stream : b_stream_id b = stream;
  ct_sequence : b_sequence b = (Z.of_nat (length T) + 1)%Z;
  ct_after : b_after b = through_at T (length T);
  ct_covers : covers (w_row w) (w_gone w) (b_after b) (b_events b) (b_through b);
  ct_ok : batch_ok b = true }.

Definition chain (w : world) : Prop :=
  ∀ i b, w_plan w !! i = Some b → continues w (take i (w_plan w)) b.

(** A checkpoint that stands after the first [s] batches of a plan. *)
Record stands (T : list Batch) (v : Checkpoint) (s : nat) : Prop := {
  sd_stream : cp_stream_id v = stream;
  sd_sequence : cp_sequence v = Z.of_nat s;
  sd_cursor : cp_cursor v = through_at T s;
  sd_gaps : cp_gap_events v = gaps (take s T ≫= b_events) }.

Definition disk_sequence (w : world) : nat := Z.to_nat (cp_sequence (w_disk w)).

Record world_ok (w : world) : Prop := {
  wo_chain : chain w;
  wo_disk : stands (w_plan w) (w_disk w) (disk_sequence w);
  wo_pending : cp_pending (w_disk w) = w_plan w !! disk_sequence w;
  wo_length : length (w_plan w) ≤ S (disk_sequence w);
  wo_behind : disk_sequence w ≤ w_recorded w;
  wo_recorded : w_recorded w ≤ length (w_plan w) }.

(** An intent that the collector has, as the disk knows. *)
Definition evidenced (w : world) (e : event) : Prop :=
  ∃ i b, w_plan w !! i = Some b ∧ e ∈ b_events b ∧ i < disk_sequence w.

(** ** The checkpoint in memory *)

(** Equal but for [last_seen] and the time of the last acknowledgement. *)
Record agrees (v u : Checkpoint) : Prop := {
  ag_stream : cp_stream_id v = cp_stream_id u;
  ag_sequence : cp_sequence v = cp_sequence u;
  ag_cursor : cp_cursor v = cp_cursor u;
  ag_gaps : cp_gap_events v = cp_gap_events u;
  ag_pending : cp_pending v = cp_pending u }.

(** Memory is at most one unsaved change ahead of the disk: a batch that continues the
    plan, or the acknowledgement of the pending one.  A batch that does not validate is
    never saved nor sent. *)
Inductive linked (w : world) (v : Checkpoint) : bool → Prop :=
| linked_agrees dirty : agrees v (w_disk w) → linked w v dirty
| linked_fresh u b :
    v = with_pending b u → agrees u (w_disk w) → cp_pending (w_disk w) = None → continues w (w_plan w) b → linked w v true
| linked_advanced u b now :
    v = acknowledged b now u → agrees u (w_disk w) → cp_pending (w_disk w) = Some b →
    S (disk_sequence w) ≤ w_recorded w → linked w v true
| linked_stuck u b :
    v = with_pending b u → agrees u (w_disk w) → cp_pending (w_disk w) = None → batch_ok b = false → linked w v false.

(** The active request is in the pending batch, or in the one acknowledged last. *)
Definition active_in (w : world) (v : Checkpoint) (e : event) : Prop :=
  ∃ b, e ∈ b_events b ∧
    (cp_pending v = Some b
     ∨ cp_pending v = None ∧ ∃ i, cp_sequence v = Z.of_nat (S i) ∧ w_plan w !! i = Some b).

Definition is_intent (e : event) : bool := match e with IntentEvent _ _ _ _ _ _ _ => true | _ => false end.

Record state_ok (w : world) (d : delivery) : Prop := {
  so_requests e f : (e, f) ∈ dl_requests d → w_intents w !! f = Some e;
  so_active e f : dl_active d = Some (e, f) → w_intents w !! f = Some e;
  so_granted f : dl_done d !! f = Some Granted → ∃ e, w_intents w !! f = Some e ∧ evidenced w e;
  so_next f e : w_intents w !! f = Some e → f < dl_next d;
  so_intents f e : w_intents w !! f = Some e → is_intent e = true;
  so_started : dl_started d = true → present (dl_state d) = true;
  so_linked v : dl_state d = Some v → linked w v (dl_dirty d);
  so_covered v e f : dl_state d = Some v → dl_active d = Some (e, f) → active_in w v e }.

(** ** Worlds that follow *)

(** The rest of the system moves on: the task's files stay. *)
Record rest (w w' : world) : Prop := {
  re_plan : w_plan w' = w_plan w;
  re_disk : w_disk w' = w_disk w;
  re_recorded : w_recorded w ≤ w_recorded w';
  re_row : w_row w ⊆ w_row w';
  re_gone i : w_gone w i → w_gone w' i;
  re_intents : w_intents w ⊆ w_intents w' }.

Definition same_worker (d d' : delivery) : Prop :=
  dl_state d' = dl_state d ∧ dl_active d' = dl_active d ∧ dl_dirty d' = dl_dirty d ∧ dl_config d' = dl_config d.

(** A save that reached the disk. *)
Definition saved (v : Checkpoint) (w : world) : world :=
  mkWorld
    (match cp_pending v with
     | Some b => if bool_decide (w_plan w !! Z.to_nat (cp_sequence v) = None) then w_plan w ++ [b] else w_plan w
     | None => w_plan w
     end) (w_recorded w) v (w_row w) (w_gone w) (w_intents w).
(** ** Facts of plans *)

Lemma through_at_app T l s : s ≤ length T → through_at (T ++ l) s = through_at T s.
Proof. intros Hs. destruct s as [|s]; simpl; [done|]. by rewrite lookup_app_l by lia. Qed.

Lemma through_at_take T s : s ≤ length T → through_at (take s T) s = through_at T s.
Proof. intros Hs. destruct s as [|s]; simpl; [done|]. by rewrite lookup_take_lt by lia. Qed.

Lemma gaps_app l k : gaps (l ++ k) = (gaps l + gaps k)%Z.
Proof. apply sumZ_app. Qed.

Lemma stands_app T l v s : s ≤ length T → stands T v s → stands (T ++ l) v s.
Proof.
  intros Hs [E1 E2 E3 E4]. split; [done|done|by rewrite through_at_app|]. by rewrite take_app_le.
Qed.

Lemma stands_next T v s b :
  T !! s = Some b → b_sequence b = Z.of_nat (S s) → stands T v s → ∀ now, stands T (acknowledged b now v) (S s).
Proof.
  intros Hb Hs [E1 E2 E3 E4] now. split; simpl; [done|done|by rewrite Hb|].
  by rewrite E4, (take_S_r _ _ _ Hb), bind_app, gaps_app, bind_singleton.
Qed.

Lemma continues_mono w w' T b :
  w_row w ⊆ w_row w' → (∀ i, w_gone w i → w_gone w' i) → continues w T b → continues w' T b.
Proof. intros Hr Hg [E1 E2 E3 E4 E5]. split; try done. by eapply covers_mono. Qed.

Lemma chain_mono w w' :
  w_plan w' = w_plan w → w_row w ⊆ w_row w' → (∀ i, w_gone w i → w_gone w' i) → chain w → chain w'.
Proof. intros E Hr Hg H i b. rewrite E. intros Hi. eapply continues_mono; [exact Hr|exact Hg|]. by apply H. Qed.

Lemma chain_sequence w s b : chain w → w_plan w !! s = Some b → b_sequence b = Z.of_nat (S s).
Proof.
  intros H Hb. rewrite (ct_sequence _ _ _ (H _ _ Hb)), length_take_le; [lia|]. apply lookup_lt_Some in Hb. lia.
Qed.

Lemma agrees_stands T v u s : agrees v u → stands T u s → stands T v s.
Proof. intros [E1 E2 E3 E4 E5] [F1 F2 F3 F4]. split; congruence. Qed.

Lemma agrees_refl v : agrees v v.
Proof. by split. Qed.

Lemma disk_at w : world_ok w → cp_sequence (w_disk w) = Z.of_nat (disk_sequence w).
Proof. intros W. apply (sd_sequence _ _ _ (wo_disk w W)). Qed.

Lemma nothing_pending w : world_ok w → cp_pending (w_disk w) = None → length (w_plan w) = disk_sequence w.
Proof.
  intros W Hn. rewrite (wo_pending w W) in Hn. apply lookup_ge_None in Hn.
  pose proof (wo_behind w W). pose proof (wo_recorded w W). lia.
Qed.

(** A save keeps the plan, but for a fresh batch, which it adds. *)
Lemma saved_ok w v : world_ok w → linked w v true → world_ok (saved v w).
Proof.
  intros W H. pose proof (disk_at w W) as Hs. pose proof W as [Hch Hd Hp Hl Hb Hr].
  inversion H as [? Ha|u b Ev Ha Hn Hc|u b now Ev Ha Hn Hc|]; subst.
  - assert (Ep : w_plan (saved v w) = w_plan w).
    { unfold saved. simpl. rewrite (ag_pending _ _ Ha), (ag_sequence _ _ Ha). fold (disk_sequence w). rewrite Hp.
      destruct (w_plan w !! disk_sequence w); [by rewrite bool_decide_false|done]. }
    assert (Es : disk_sequence (saved v w) = disk_sequence w) by (unfold disk_sequence; simpl; by rewrite (ag_sequence _ _ Ha)).
    split; rewrite ?Es, ?Ep; simpl; try done.
    + by eapply chain_mono; [..|exact Hch].
    + by eapply agrees_stands.
    + by rewrite (ag_pending _ _ Ha).
  - pose proof (nothing_pending w W Hn) as Hlen.
    assert (Ep : w_plan (saved (with_pending b u) w) = w_plan w ++ [b]).
    { unfold saved. simpl. rewrite (ag_sequence _ _ Ha). fold (disk_sequence w). by rewrite <- Hp, bool_decide_true. }
    assert (Es : disk_sequence (saved (with_pending b u) w) = disk_sequence w)
      by (unfold disk_sequence; simpl; by rewrite (ag_sequence _ _ Ha)).
    split; rewrite ?Es, ?Ep, ?length_app; simpl; try lia.
    + intros i b'. rewrite Ep. intros [Hi|[Hi Hi']]%lookup_app_Some.
      * rewrite take_app_le by (apply lookup_lt_Some in Hi; lia). by eapply continues_mono; [..|exact (Hch _ _ Hi)].
      * apply list_lookup_singleton_Some in Hi' as [Hi' <-].
        rewrite take_app_le, take_ge by lia. by eapply continues_mono; [..|exact Hc].
    + apply stands_app; [lia|]. by destruct (agrees_stands _ _ _ _ Ha Hd).
    + rewrite lookup_app_r by lia. by rewrite Hlen, Nat.sub_diag.
  - assert (Hb' : w_plan w !! disk_sequence w = Some b) by by rewrite <- Hp.
    pose proof (chain_sequence w _ _ Hch Hb') as Hseq.
    assert (Ep : w_plan (saved (acknowledged b now u) w) = w_plan w) by done.
    assert (Es : disk_sequence (saved (acknowledged b now u) w) = S (disk_sequence w))
      by (unfold disk_sequence; simpl; rewrite Hseq; lia).
    split; rewrite ?Es, ?Ep; simpl; try lia.
    + by eapply chain_mono; [..|exact Hch].
    + apply stands_next; [done|done|by eapply agrees_stands].
    + symmetry. apply lookup_ge_None. lia.
Qed.

(** ** Programs

    [safe Q p w d]: whatever the rest of the system does while [p] waits and whatever
    it is answered, each call is made in the right state and [p] ends in [Q]. *)

Definition call_ok (c : call) (d : delivery) : Prop :=
  match c with
  | Save v => dl_state d = Some v ∧ dl_dirty d = true
  | Secret _ => True
  | Post b _ => dl_dirty d = false ∧ batch_ok b = true ∧ ∃ v, dl_state d = Some v ∧ cp_pending v = Some b
  | Page c => ∃ v, dl_state d = Some v ∧ cp_cursor v = c
  end.

Definition replied (c : call) (a : answer) (w w' : world) : Prop :=
  match c, a with
  | Save v, Saved => w' = saved v w
  | Save v, Failed _ => w' = w ∨ w' = saved v w
  | Post b _, Responded (Answer _) => w' = w ∧ (b_sequence b <= Z.of_nat (w_recorded w))%Z
  | Page c, Read _ t es => w' = w ∧ covers (w_row w) (w_gone w) c es t
  | _, _ => w' = w
  end.

Lemma audit_prog_induction {A} (P : prog A → Prop) :
  (∀ r, P (Return r)) → (∀ m, (∀ d, P (m d).2) → P (Atomic m)) → (∀ c k, (∀ a, P (k a)) → P (Call c k)) → ∀ p, P p.
Proof.
  intros HR HA HC.
  exact (fix go p : P p := match p with
    | Return r => HR r
    | Atomic m => HA m (fun d => match m d as x return P x.2 with (_, q) => go q end)
    | Call c k => HC c k (fun a => go (k a))
    end).
Qed.

Fixpoint safe {A} (Q : res A → world → delivery → Prop) (p : prog A) (w : world) (d : delivery) : Prop :=
  match p with
  | Return r => Q r w d
  | Atomic m => safe Q (m d).2 w (m d).1
  | Call c k =>
      (state_ok w d ∧ call_ok c d) ∧
      ∀ w1 d1, rest w w1 → world_ok w1 → same_worker d d1 → state_ok w1 d1 →
      ∀ a w2, replied c a w1 w2 → safe Q (k a) w2 d1
  end.

Lemma rest_refl w : rest w w.
Proof. by split. Qed.

Lemma rest_trans w1 w2 w3 : rest w1 w2 → rest w2 w3 → rest w1 w3.
Proof.
  intros [E1 F1 G1 H1 I1 J1] [E2 F2 G2 H2 I2 J2]. split; try congruence; try lia; [by etrans|by auto|by etrans].
Qed.

Lemma same_worker_trans d1 d2 d3 : same_worker d1 d2 → same_worker d2 d3 → same_worker d1 d3.
Proof. intros (A1&A2&A3&A4) (B1&B2&B3&B4). repeat split; congruence. Qed.

Lemma same_worker_call c d d' : same_worker d d' → call_ok c d → call_ok c d'.
Proof. intros (E1&_&E3&_). destruct c; simpl; [|done|..]; by rewrite ?E1, ?E3. Qed.

(** What waits is unaffected by the rest of the system. *)
Lemma safe_rest {A} Q c (k : answer → prog A) w d w' d' :
  safe Q (Call c k) w d → rest w w' → same_worker d d' → state_ok w' d' → safe Q (Call c k) w' d'.
Proof.
  intros [[_ Hc] Hk] Hw Hd S. split; [split; [done|by eapply same_worker_call]|]. intros w1 d1 Hr W1 Hd1 S1. apply Hk; try done.
  - by eapply rest_trans.
  - by eapply same_worker_trans.
Qed.

Lemma audit_safe_run {A} Q (p : prog A) w d : safe Q p w d → safe Q (run p d).2 w (run p d).1.
Proof.
  revert d. induction p as [r|m IH|c k IH] using audit_prog_induction; intros d; simpl; [done| |done].
  intros H. specialize (IH d). by destruct (m d) as [d' q]; apply IH.
Qed.

Lemma safe_mono {A} (Q Q' : res A → world → delivery → Prop) p w d :
  (∀ r w d, Q r w d → Q' r w d) → safe Q p w d → safe Q' p w d.
Proof.
  intros HQ. revert w d. induction p as [r|m IH|c k IH] using audit_prog_induction; intros w d; simpl; [by apply HQ|by apply IH|].
  intros [Hc Hk]. split; [done|]. intros. apply IH. by eapply Hk.
Qed.

Lemma safe_then {A B} Q (p : prog A) (f : A → prog B) w d :
  safe (fun r w d => match r with Ok a => safe Q (f a) w d | Err e => Q (Err e) w d end) p w d →
  safe Q (p ≫= f) w d.
Proof.
  change (p ≫= f) with (prog_then p f). revert w d.
  induction p as [[a|e]|m IH|c k IH] using audit_prog_induction; intros w d; simpl; [done|done| |].
  - specialize (IH d). destruct (m d) as [d' q]. apply IH.
  - intros [Hc Hk]. split; [done|]. intros. apply IH. by eapply Hk.
Qed.

Lemma safe_here {A} Q (m : M A) w d : Q (m d).2 w (m d).1 → safe Q (here m) w d.
Proof. unfold here. simpl. by destruct (m d). Qed.
(** ** The state of the controller in a world that follows *)

Lemma evidenced_mono w w' l e :
  w_plan w' = w_plan w ++ l → disk_sequence w ≤ disk_sequence w' → evidenced w e → evidenced w' e.
Proof.
  intros E Hs (i & b & Hi & He & Hd). exists i, b. rewrite E. split; [by apply lookup_app_l_Some|]. split; [done|lia].
Qed.

Lemma active_in_mono w w' l v e : w_plan w' = w_plan w ++ l → active_in w v e → active_in w' v e.
Proof.
  intros E (b & He & H). exists b. split; [done|]. destruct H as [H|(Hn & i & Hi & Hb)]; [by left|right].
  split; [done|]. exists i. split; [done|]. rewrite E. by apply lookup_app_l_Some.
Qed.

Lemma saved_plan v w : ∃ l, w_plan (saved v w) = w_plan w ++ l.
Proof. unfold saved. simpl. destruct (cp_pending v); [case_bool_decide|]; eauto using app_nil_r. Qed.

Lemma saved_sequence v w : world_ok w → linked w v true → disk_sequence w ≤ disk_sequence (saved v w).
Proof.
  intros W H. unfold disk_sequence at 2. simpl. inversion H as [? Ha|u b Ev Ha|u b now Ev Ha Hn|]; subst; simpl.
  - by rewrite (ag_sequence _ _ Ha).
  - by rewrite (ag_sequence _ _ Ha).
  - rewrite (wo_pending w W) in Hn. rewrite (chain_sequence w _ _ (wo_chain w W) Hn). lia.
Qed.

Lemma saved_state w d v :
  world_ok w → state_ok w d → dl_state d = Some v → dl_dirty d = true → state_ok (saved v w) d.
Proof.
  intros W [S1 S2 S3 S4 SI S5 S6 S7] Hv Hd. pose proof (S6 v Hv) as L. rewrite Hd in L.
  destruct (saved_plan v w) as [l Hl]. pose proof (saved_sequence v w W L) as Hs. split; try done.
  - intros f Hf. destruct (S3 f Hf) as (e & He & Hev). exists e. split; [done|]. by eapply evidenced_mono.
  - intros u [= <-]%(eq_trans (eq_sym Hv)). apply linked_agrees, agrees_refl.
  - intros u e f Hu Ha. eapply active_in_mono; [exact Hl|by eapply S7].
Qed.

Lemma linked_rest w w' v dirty : rest w w' → linked w v dirty → linked w' v dirty.
Proof.
  intros [E1 E2 E3 E4 E5 E6]. assert (Es : disk_sequence w' = disk_sequence w) by (unfold disk_sequence; by rewrite E2).
  destruct 1 as [dirty Ha|u b Ev Ha Hn Hc|u b now Ev Ha Hn Hc|u b Ev Ha Hn Hc].
  - apply linked_agrees. by rewrite E2.
  - eapply linked_fresh; rewrite ?E2; try done. rewrite E1. by eapply continues_mono.
  - eapply linked_advanced; rewrite ?E2, ?Es; try done. lia.
  - eapply linked_stuck; by rewrite ?E2.
Qed.

Lemma state_rest w w' d : rest w w' → w_intents w' = w_intents w → state_ok w d → state_ok w' d.
Proof.
  intros R Hi [S1 S2 S3 S4 SI S5 S6 S7]. pose proof R as [E1 E2 E3 E4 E5 E6]. split; rewrite ?Hi; try done.
  - intros f Hf. destruct (S3 f Hf) as (e & He & Hev). exists e. split; [done|].
    eapply (evidenced_mono _ _ []); [by rewrite app_nil_r|unfold disk_sequence; by rewrite E2|done].
  - intros v Hv. eapply linked_rest; [exact R|by apply S6].
  - intros v e f Hv Ha. eapply (active_in_mono _ _ []); [by rewrite app_nil_r|by eapply S7].
Qed.

Lemma world_rest w w' : rest w w' → w_recorded w' ≤ length (w_plan w') → world_ok w → world_ok w'.
Proof.
  intros [E1 E2 E3 E4 E5 E6] Hn [W1 W2 W3 W4 W5 W6].
  assert (Es : disk_sequence w' = disk_sequence w) by (unfold disk_sequence; by rewrite E2).
  split; rewrite ?Es, ?E1, ?E2; try done; [by eapply chain_mono|lia|by rewrite <- E1].
Qed.

(** Only what the task works on matters for its part of the state. *)
Lemma state_set w d d' v :
  state_ok w d → dl_requests d' = dl_requests d → dl_active d' = dl_active d → dl_done d' = dl_done d →
  dl_next d' = dl_next d → dl_started d' = dl_started d → dl_state d' = Some v → linked w v (dl_dirty d') →
  (∀ e f, dl_active d = Some (e, f) → active_in w v e) → state_ok w d'.
Proof.
  intros [S1 S2 S3 S4 SI S5 S6 S7] E1 E2 E3 E4 E5 E6 L C. split; rewrite ?E1, ?E2, ?E3, ?E4, ?E5, ?E6; try done.
  - by intros u [= <-].
  - intros u e f [= <-]. apply C.
Qed.

(** ** [refuse] and [grant] *)

Lemma resolve_granted f o m g : resolve f o m !! g = Some Granted → m !! g = Some Granted ∨ g = f ∧ o = Granted.
Proof.
  unfold resolve. destruct (m !! f) eqn:E; [by left|]. destruct (decide (g = f)) as [->|Hne].
  - rewrite lookup_insert_eq. intros [= ->]. by right.
  - rewrite lookup_insert_ne by done. by left.
Qed.

Lemma refused_granted e l m f :
  foldl (fun m (r : event * nat) => resolve r.2 (Refused e) m) m l !! f = Some Granted → m !! f = Some Granted.
Proof.
  revert m. induction l as [|r l IH]; intros m; simpl; [done|]. intros [H|[_ H]]%IH%resolve_granted; done.
Qed.

Lemma refuse_ok w d code : state_ok w d → state_ok w (refuse code d).1.
Proof.
  intros [S1 S2 S3 S4 SI S5 S6 S7]. unfold refuse, modify. cbn [fst]. split; simpl; try done.
  - by intros e f ?%elem_of_nil.
  - intros f Hf. by apply S3; eapply refused_granted.
Qed.

Lemma grant_ok w d v :
  world_ok w → state_ok w d → dl_state d = Some v → cp_pending v = None → agrees v (w_disk w) → state_ok w (grant d).1.
Proof.
  intros W S Hv Hn Ha. unfold grant, modify. cbn [fst]. destruct (dl_active d) as [[e f]|] eqn:E; [|done].
  destruct S as [S1 S2 S3 S4 SI S5 S6 S7]. split; simpl; try done.
  intros g Hg. apply resolve_granted in Hg as [Hg|[-> _]]; [by apply S3|]. exists e. split; [by apply S2|].
  destruct (S7 v e f Hv E) as (b & He & [H|(_ & i & Hi & Hb)]); [by rewrite Hn in H|].
  exists i, b. split; [done|]. split; [done|]. unfold disk_sequence. rewrite <- (ag_sequence _ _ Ha), Hi. lia.
Qed.
(** ** The steps of the task *)

(** The checkpoint and the active request stay. *)
Definition keeps (d d' : delivery) : Prop := dl_state d' = dl_state d ∧ dl_active d' = dl_active d.

Lemma persist_safe (Q : res unit → world → delivery → Prop) w d v :
  world_ok w → dl_state d = Some v → state_ok w (set_dirty d true) →
  (∀ w' d', world_ok w' → state_ok w' d' → keeps d d' → dl_dirty d' = false → agrees v (w_disk w') → Q (Ok tt) w' d') →
  (∀ e w' d', world_ok w' → state_ok w' d' → Q (Err e) w' d') →
  safe Q persist w d.
Proof.
  intros W Hv S HOk HErr. unfold persist. apply safe_then, safe_here.
  unfold mbind, audit_bind, modify, checkpoint. cbn [fst snd]. change (dl_state (set_dirty d true)) with (dl_state d).
  rewrite Hv. cbn [some_or]. apply safe_then. split; [by split|]. intros w1 d1 R W1 (E1 & E2 & E3 & E4) S1.
  simpl in E1, E2, E3. rewrite Hv in E1. pose proof (so_linked w1 d1 S1 v E1) as L1. rewrite E3 in L1.
  intros a w2 Hr. destruct a; cbn [replied safe] in *.
  2-4: by subst; apply HErr.
  - subst w2. apply safe_here. cbn [fst snd modify].
    pose proof (saved_ok w1 v W1 L1) as W2. pose proof (saved_state w1 d1 v W1 S1 E1 E3) as S2.
    apply HOk; try done; [|by split; simpl; congruence].
    eapply state_set; try done; [apply linked_agrees, agrees_refl|]. intros e f. by apply (so_covered _ _ S2).
  - apply HErr; destruct Hr as [->| ->]; [done|by apply saved_ok|done|by apply saved_state].
Qed.

(** What is pending and validates is what the disk has. *)
Lemma linked_pending w v b :
  linked w v false → cp_pending v = Some b → batch_ok b = true → agrees v (w_disk w).
Proof.
  inversion 1 as [? Ha| | |u b' Ev Ha Hn Hb]; subst; [done|]. intros [= <-] Hb'. congruence.
Qed.

(** Acknowledging the pending batch leaves the memory one step ahead. *)
Lemma acknowledged_ok w d v b now :
  world_ok w → state_ok w d → dl_state d = Some v → dl_dirty d = false → cp_pending v = Some b → batch_ok b = true →
  (b_sequence b <= Z.of_nat (w_recorded w))%Z →
  linked w (acknowledged b now v) true ∧ ∀ e f, dl_active d = Some (e, f) → active_in w (acknowledged b now v) e.
Proof.
  intros W S Hv Hd Hp Hb Hr. pose proof (so_linked w d S v Hv) as L. rewrite Hd in L.
  pose proof (linked_pending w v b L Hp Hb) as Ha.
  assert (Hpl : w_plan w !! disk_sequence w = Some b) by (rewrite <- (wo_pending w W), <- (ag_pending _ _ Ha); done).
  pose proof (chain_sequence w _ _ (wo_chain w W) Hpl) as Hs. split.
  - eapply linked_advanced; [done|exact Ha|by rewrite <- (ag_pending _ _ Ha)|lia].
  - intros e f He. destruct (so_covered w d S v e f Hv He) as (b' & Hin & [H|[H _]]); [|congruence].
    rewrite Hp in H. injection H as <-. exists b. split; [done|]. right. split; [done|]. by exists (disk_sequence w).
Qed.

Lemma pending_batch_result d v b :
  dl_state d = Some v → cp_pending v = Some b → pending_batch d = (d, Ok b).
Proof. intros Hv Hp. unfold pending_batch, mbind, audit_bind, checkpoint, lift. rewrite Hv. cbn [some_or]. by rewrite Hp. Qed.

Lemma send_safe (Q : res unit → world → delivery → Prop) now w d v b :
  world_ok w → state_ok w d → dl_state d = Some v → cp_pending v = Some b → dl_dirty d = false →
  (∀ w' d', world_ok w' → state_ok w' d' → dl_active d' = None → Q (Ok tt) w' d') →
  (∀ e w' d', world_ok w' → state_ok w' d' → Q (Err e) w' d') →
  safe Q (send now) w d.
Proof.
  intros W S Hv Hp Hd HOk HErr. unfold send. apply safe_then, safe_here. rewrite (pending_batch_result _ _ _ Hv Hp). cbn [fst snd].
  apply safe_then, safe_here. unfold config. cbn [fst snd]. destruct (dl_config d) as [cf|]; [|by apply HErr]. cbn [some_or].
  apply safe_then. split; [by split|]. intros w1 d1 R1 W1 (E1 & E2 & E3 & _) S1 a w2 Hr2.
  rewrite Hv in E1. rewrite Hd in E3. destruct a; cbn [replied safe] in *; try (by subst; apply HErr). subst w2.
  apply safe_then. unfold driver_append. apply safe_then, safe_here. cbn [lift fst snd].
  destruct (request_begin b credential) as [[]|e] eqn:Eb; [|by apply HErr].
  assert (Hb : batch_ok b = true).
  { unfold request_begin, batch in Eb. apply raise_if_bind_Ok in Eb as [Hb _]. by apply negb_false_iff. }
  split; [split; [done|]; split; [done|]; split; [done|]; by exists v|]. intros w2 d2 R2 W2 (F1 & F2 & F3 & _) S2 a w3 Hr3.
  rewrite E1 in F1. rewrite E3 in F3. destruct a as [| |[code|value]| |]; cbn [replied safe] in *; try (by subst; apply HErr).
  destruct Hr3 as [-> Hrec]. destruct (request_end (Answer value)) as [value'|e]; [|by apply HErr].
  apply safe_then, safe_here. unfold mbind, audit_bind, lift, on_checkpoint, modify. cbn [fst snd].
  destruct (acknowledgement value' b) as [[]|e]; [|by apply HErr]. cbn [fst snd]. rewrite F1.
  destruct (acknowledged_ok w2 d2 v b now W2 S2 F1 F3 Hp Hb Hrec) as [L A].
  apply safe_then. eapply (persist_safe _ w2 _ (acknowledged b now v)); [exact W2|done| | |exact HErr].
  { eapply state_set; try done. }
  intros w3 d3 W3 S3 [G1 G2] G3 G4. change (dl_state d3 = Some (acknowledged b now v)) in G1.
  apply safe_here. unfold mbind, audit_bind, modify. cbn [fst snd]. rewrite G1.
  set (d4 := set_lag d3 _).
  assert (S4 : state_ok w3 d4).
  { apply (state_set _ d3 _ (acknowledged b now v)); try done; [by apply (so_linked _ _ S3)|].
    intros e f. by apply (so_covered _ _ S3). }
  pose proof (grant_ok w3 d4 _ W3 S4 G1 eq_refl G4) as S5. unfold grant, modify in *. cbn [fst snd] in *.
  apply HOk; [done|done|]. by destruct (dl_active d4) as [[]|] eqn:E.
Qed.

(** How a step ends. *)
Definition ended (r : res bool) (w : world) (d : delivery) : Prop :=
  world_ok w ∧ state_ok w d ∧ (is_ok r = true → dl_active d = None).

Lemma ended_send now w d v b :
  world_ok w → state_ok w d → dl_state d = Some v → cp_pending v = Some b → dl_dirty d = false →
  safe ended (send now ;; Return (Ok true)) w d.
Proof.
  intros W S Hv Hp Hd. by apply safe_then; eapply send_safe.
Qed.

Lemma next_request_spec l done r l' :
  next_request l done = (r, l') → (∀ x, x ∈ l' → x ∈ l) ∧ ∀ x, r = Some x → x ∈ l.
Proof.
  induction l as [|y l IH]; simpl; [by intros [= <- <-]|]. destruct (done !! y.2).
  - intros [H1 H2]%IH. split; intros x Hx; right; auto.
  - intros [= <- <-]. split; intros x; [by right|intros [= <-]; left].
Qed.

(** The events of a step: what is covered, and the request they are for. *)
Lemma choose_spec now w d v es c t d' l :
  state_ok w d → dl_active d = None → dl_state d = Some v → covers (w_row w) (w_gone w) c es t →
  choose now es d = (d', Ok l) →
  covers (w_row w) (w_gone w) c l t
  ∧ (dl_state d' = dl_state d ∧ dl_dirty d' = dl_dirty d ∧ dl_done d' = dl_done d ∧ dl_next d' = dl_next d ∧ dl_started d' = dl_started d)
  ∧ (∀ x, x ∈ dl_requests d' → x ∈ dl_requests d)
  ∧ (dl_active d' = None ∨ ∃ e f, dl_active d' = Some (e, f) ∧ l = [e] ∧ w_intents w !! f = Some e).
Proof.
  intros S Ha Hv Hc. unfold choose. destruct es as [|e es].
  - inversion Hc; subst. destruct (next_request (dl_requests d) (dl_done d)) as [r l'] eqn:E.
    apply next_request_spec in E as [E1 E2]. destruct r as [[e f]|].
    + intros [= <- <-]. pose proof (so_requests w d S e f (E2 _ eq_refl)) as Hi.
      pose proof (so_intents w d S f e Hi) as Hint. destruct e; try discriminate Hint.
      split; [repeat constructor|]. split; [done|]. split; [done|]. right. by do 2 eexists.
    + cbn [dl_state set_requests]. rewrite Hv. intros [= <- <-].
      split; [destruct (_ =? _)%Z; repeat constructor|]. split; [done|]. split; [done|]. by left.
  - intros [= <- <-]. repeat split; try done. by left.
Qed.

Lemma see_spec last w d v d' r :
  state_ok w d → dl_state d = Some v → dl_dirty d = false → cp_pending v = None → see last d = (d', r) →
  state_ok w d' ∧ dl_active d' = dl_active d ∧ dl_dirty d' = false
  ∧ ∃ u, dl_state d' = Some u ∧ agrees u v.
Proof.
  intros S Hv Hd Hp. unfold see, mbind, audit_bind, checkpoint, lift, on_checkpoint, modify. rewrite Hv. cbn [some_or fst snd].
  destruct (raise_if _ _) as [[]|e]; cbn [fst snd]; intros [= <- <-].
  - set (u := mkCheckpoint _ _ _ _ _ _ _). assert (Hu : agrees u v) by by split.
    split; [|split; [done|split; [done|by exists u]]].
    pose proof (so_linked w d S v Hv) as L. rewrite Hd in L.
    apply (state_set w d _ u); try done.
    + simpl. rewrite Hd. inversion L as [? Ha|? ? Ev|? ? ? Ev|x b Ev]; subst; [|by rewrite Hd in *..|].
      * apply linked_agrees. destruct Ha, Hu. split; congruence.
      * discriminate Hp.
    + intros e f He. destruct (so_covered w d S v e f Hv He) as (b & Hb & H). exists b. split; [done|].
      by destruct Hu as [? -> ? ? ->].
  - split; [done|]. split; [done|]. split; [done|]. exists v. split; [done|apply agrees_refl].
Qed.
Lemma audit_bind_eq {A B} (m : M A) (f : A → M B) d :
  (m ≫= f) d = match m d with (d', Ok a) => f a d' | (d', Err e) => (d', Err e) end.
Proof. done. Qed.

Lemma linked_false_agrees w v : linked w v false → cp_pending v = None → agrees v (w_disk w).
Proof. inversion 1; subst; done. Qed.

(** The batch that is kept continues the plan, or does not validate. *)
Lemma propose_spec through l w d0 d v :
  world_ok w → state_ok w d0 → dl_state d0 = Some v → dl_dirty d0 = false → cp_pending v = None →
  dl_state d = dl_state d0 → dl_dirty d = dl_dirty d0 → dl_done d = dl_done d0 → dl_next d = dl_next d0 →
  dl_started d = dl_started d0 → (∀ x, x ∈ dl_requests d → x ∈ dl_requests d0) →
  (dl_active d = None ∨ ∃ e f, dl_active d = Some (e, f) ∧ l = [e] ∧ w_intents w !! f = Some e) →
  covers (w_row w) (w_gone w) (cp_cursor v) l through →
  ∃ b, dl_state (propose through l d).1 = Some (with_pending b v) ∧
    match (propose through l d).2 with
    | Ok _ => state_ok w (set_dirty (propose through l d).1 true)
    | Err _ => state_ok w (propose through l d).1
    end.
Proof.
  intros W S Hv Hd Hp E1 E2 E3 E4 E5 E6 E7 Hc. unfold propose, mbind, audit_bind, checkpoint, on_checkpoint, modify, lift.
  rewrite E1, Hv. cbn [some_or fst snd]. set (b := mkBatch _ _ _ _ _).
  exists b. split; [by destruct (batch b)|].
  pose proof (so_linked w d0 S v Hv) as L. rewrite Hd in L. pose proof (linked_false_agrees w v L Hp) as Ha.
  assert (Hn : cp_pending (w_disk w) = None) by by rewrite <- (ag_pending _ _ Ha).
  pose proof (nothing_pending w W Hn) as Hlen. pose proof (wo_disk w W) as D.
  assert (G : ∀ d', dl_requests d' = dl_requests d → dl_active d' = dl_active d → dl_done d' = dl_done d →
      dl_next d' = dl_next d → dl_started d' = dl_started d → dl_state d' = Some (with_pending b v) →
      linked w (with_pending b v) (dl_dirty d') → state_ok w d').
  { intros d' F1 F2 F3 F4 F5 F6 F7. destruct S as [S1 S2 S3 S4 SI S5 S6 S7].
    split; rewrite ?F1, ?F2, ?F3, ?F4, ?F5, ?F6, ?E3, ?E4; try done.
    - intros e f Hx. by apply S1, E6.
    - intros e f Hx. destruct E7 as [E7|(e' & f' & E7 & _ & Hi)]; rewrite E7 in Hx; [done|]. by injection Hx as <- <-.
    - by intros u [= <-].
    - intros u e f [= <-] Hx. destruct E7 as [E7|(e' & f' & E7 & El & _)]; rewrite E7 in Hx; [done|]. injection Hx as <- <-.
      exists b. split; [simpl; rewrite El; left|by left]. }
  unfold batch. destruct (batch_ok b) eqn:Eb; cbn [negb raise_if fst snd]; apply G; try done.
  - eapply linked_fresh; [done|exact Ha|done|].
    split; simpl; rewrite ?Hlen, ?(ag_stream _ _ Ha), ?(ag_sequence _ _ Ha), ?(ag_cursor _ _ Ha); try done.
    + apply (sd_stream _ _ _ D).
    + rewrite (sd_sequence _ _ _ D). lia.
    + apply (sd_cursor _ _ _ D).
    + by rewrite <- (ag_cursor _ _ Ha).
  - simpl. rewrite E2, Hd. by eapply linked_stuck.
Qed.

(** The task, from any state between two steps. *)
Lemma step_clean now later w d :
  world_ok w → state_ok w d → dl_active d = None → dl_dirty d = false →
  safe ended
    (v ← here checkpoint;
     match cp_pending v with
     | Some _ => send later ;; Return (Ok true)
     | None =>
         '(last, through, events) ← read_page (cp_cursor v);
         events ← here (see last ;; choose now events);
         match events with
         | [] => Return (Ok false)
         | _ => here (propose through events) ;; persist ;; send later ;; Return (Ok true)
         end
     end) w d.
Proof.
  intros W S Ha Hd. apply safe_then, safe_here. unfold checkpoint. cbn [fst snd].
  destruct (dl_state d) as [v|] eqn:Hv; cbn [some_or]; [|by split].
  destruct (cp_pending v) as [b|] eqn:Hp; [by eapply ended_send|].
  apply safe_then. split; [split; [done|by exists v]|]. intros w1 d1 R W1 (E1 & E2 & E3 & _) S1 a w2 Hr.
  rewrite Hv in E1. rewrite Ha in E2. rewrite Hd in E3.
  destruct a as [| | |last through es|]; cbn [replied safe] in *; try (subst; by split).
  destruct Hr as [-> Hc]. apply safe_then, safe_here. rewrite !audit_bind_eq. destruct (see last d1) as [d2 r2] eqn:Es.
  destruct (see_spec last w1 d1 v d2 r2 S1 E1 E3 Hp Es) as (S2 & F2 & F3 & u & F1 & Fu).
  rewrite E2 in F2. destruct r2 as [[]|e]; [|by split].
  destruct (choose now es d2) as [d3 [l|e]] eqn:Ec; cbn [fst snd].
  2: { split; [done|]. split; [|done]. revert Ec. unfold choose. destruct es; [|done]. destruct (next_request _ _) as [[[]|] l']; [done|].
       cbn [dl_state set_requests]. by rewrite F1. }
  rewrite <- (ag_cursor _ _ Fu) in Hc.
  destruct (choose_spec now w1 d2 u es _ _ d3 l S2 F2 F1 Hc Ec) as (Hl & (G1 & G2 & G3 & G4 & G5) & G6 & G7).
  rewrite F1 in G1. assert (Hpu : cp_pending u = None) by (by rewrite (ag_pending _ _ Fu)).
  destruct l as [|e0 l].
  - destruct G7 as [G7|(e & f & _ & Hx & _)]; [|discriminate Hx]. split; [done|]. split; [|done].
    destruct S2 as [T1 T2 T3 T4 TI T5 T6 T7]. split; rewrite ?G1, ?G2, ?G3, ?G4, ?G5, ?G7; try done.
    + intros e f Hx. by apply T1, G6.
    + intros x [= <-]. apply T6. by rewrite F1.
  - destruct (propose_spec through (e0 :: l) w1 d2 d3 u W1 S2 F1 F3 Hpu) as (b & Hb & Hs); try done; [by rewrite G1|].
    apply safe_then, safe_here. destruct (propose through (e0 :: l) d3) as [d4 [[]|e]] eqn:Ep; cbn [fst snd] in *; [|by split].
    apply safe_then. eapply (persist_safe _ w1 d4); [done|exact Hb|done| |by split].
    intros w5 d5 W5 S5 [K1 K2] K3 K4. eapply (ended_send _ _ _ (with_pending b u)); try done. by rewrite K1.
Qed.

Lemma step_safe now later w d :
  world_ok w → state_ok w d → dl_active d = None → present (dl_state d) = true → safe ended (step now later) w d.
Proof.
  intros W S Ha Hp. unfold step. apply safe_then, safe_here. unfold gets. cbn [fst snd]. apply safe_then.
  destruct (dl_dirty d) eqn:Hd; [|by apply step_clean].
  destruct (dl_state d) as [v|] eqn:Hv; [|done]. apply safe_then. eapply persist_safe; [done|exact Hv| | |by split].
  - apply (state_set w d _ v); try done; [|by intros e f; rewrite Ha]. simpl. rewrite <- Hd. by apply (so_linked w d S).
  - intros w1 d1 W1 S1 [K1 K2] K3 K4. apply safe_here. apply step_clean; [done|by apply refuse_ok|done|done].
Qed.
(** ** The collector *)

(** The journal has the first [n] batches of a plan, and nothing else of the stream. *)
Definition recorded (j : journal) (T : list Batch) (n : nat) : Prop :=
  ∀ k : Z, j !! (stream, k) =
    if decide (1 <= k <= Z.of_nat n)%Z then entry_of <$> T !! Z.to_nat (k - 1) else None.

Lemma later_fold s l best :
  match foldl (later s) best l with
  | None => best = None ∧ ∀ k e, ((s, k), e) ∉ l
  | Some (n, t) =>
      (best = Some (n, t) ∨ ∃ e, ((s, n), e) ∈ l ∧ t = en_through e)
      ∧ (∀ k e, ((s, k), e) ∈ l → (k <= n)%Z) ∧ ∀ m t', best = Some (m, t') → (m <= n)%Z
  end.
Proof.
  revert best. induction l as [|[[s' k] e] l IH]; intros best; simpl.
  - destruct best as [[n t]|].
    + split; [by left|]. split; [by intros ? ? ?%elem_of_nil|]. by intros m t' [= -> ->].
    + split; [done|]. by intros ? ? ?%elem_of_nil.
  - pose proof (IH (later s best (s', k, e))) as H. clear IH. unfold later in H at 2.
    destruct (foldl _ _ l) as [[n t]|]; simpl in H; case_bool_decide as Hs.
    + subst s'. destruct H as (H1 & H2 & H3). destruct best as [[m u]|]; [destruct (m <? k)%Z eqn:Hk|].
      * split; [|split].
        -- destruct H1 as [[= <- <-]|(e' & He & ->)]; right; [exists e; split; [by left|done]|exists e'; split; [by right|done]].
        -- intros k' e' [[= <- <-]|Hx]%elem_of_cons; [by eapply H3|by eapply H2].
        -- intros m' t' [= <- <-]. specialize (H3 _ _ eq_refl). lia.
      * split; [|split].
        -- destruct H1 as [H1|(e' & He & ->)]; [by left|right]. exists e'. split; [by right|done].
        -- intros k' e' [[= <- <-]|Hx]%elem_of_cons; [specialize (H3 _ _ eq_refl); lia|by eapply H2].
        -- exact H3.
      * split; [|split; [|done]].
        -- destruct H1 as [[= <- <-]|(e' & He & ->)]; right; [exists e; split; [by left|done]|exists e'; split; [by right|done]].
        -- intros k' e' [[= <- <-]|Hx]%elem_of_cons; [by eapply H3|by eapply H2].
    + destruct H as (H1 & H2 & H3). split; [|split; [|done]].
      * destruct H1 as [H1|(e' & He & ->)]; [by left|right]. exists e'. split; [by right|done].
      * intros k' e' [[= -> <- <-]|Hx]%elem_of_cons; [done|by eapply H2].
    + destruct H as [H _]. destruct best as [[m u]|]; [destruct (m <? k)%Z|]; discriminate H.
    + destruct H as [-> H]. split; [done|]. intros k' e' [[= -> <- <-]|Hx]%elem_of_cons; [done|by eapply H].
Qed.

Lemma last_recorded j T n :
  recorded j T n → n ≤ length T → last_entry j stream = (Z.of_nat n, through_at T n).
Proof.
  intros H Hn. unfold last_entry. pose proof (later_fold stream (map_to_list j) None) as F.
  destruct (foldl _ _ _) as [[m t]|]; simpl.
  - destruct F as ([F1|(e & He & ->)] & F2 & _); [done|]. apply elem_of_map_to_list in He. pose proof He as Hm.
    rewrite H in He. destruct (decide _) as [Hr|]; [|done].
    apply fmap_Some in He as (b & Hb & ->).
    assert (m = Z.of_nat n).
    { destruct (lookup_lt_is_Some_2 T (pred n)) as [b' Hb']; [lia|].
      assert ((Z.of_nat n <= m)%Z); [|lia]. apply (F2 _ (entry_of b')). apply elem_of_map_to_list. rewrite H.
      rewrite decide_True by lia. replace (Z.to_nat (Z.of_nat n - 1)) with (pred n) by lia. by rewrite Hb'. }
    subst m. destruct n as [|n]; [lia|]. simpl. replace (Z.to_nat (Z.of_nat (S n) - 1)) with n in Hb by lia. by rewrite Hb.
  - destruct F as [_ F]. destruct n as [|n]; [done|]. destruct (lookup_lt_is_Some_2 T n) as [b Hb]; [lia|].
    destruct (F (Z.of_nat (S n)) (entry_of b)). apply elem_of_map_to_list. rewrite H, decide_True by lia.
    replace (Z.to_nat (Z.of_nat (S n) - 1)) with n by lia. by rewrite Hb.
Qed.
(** A batch of the plan that the collector may have is acknowledged, and recorded. *)
Lemma append_recorded j w n i b :
  chain w → recorded j (w_plan w) n → n ≤ length (w_plan w) → w_plan w !! i = Some b → i ≤ n →
  ∃ j' n', append j b = Ok (j', receipt_of b) ∧ recorded j' (w_plan w) n'
    ∧ n ≤ n' ∧ S i ≤ n' ∧ n' ≤ length (w_plan w).
Proof.
  intros Hch H Hn Hi Hle. pose proof (Hch _ _ Hi) as [C1 C2 C3 C4 C5]. pose proof (chain_sequence w i b Hch Hi) as Hs.
  unfold append, batch. rewrite C5, C1. cbn [negb raise_if]. unfold mbind at 1, res_bind at 1.
  destruct (decide (i = n)) as [->|Hne].
  - assert (E : j !! (stream, b_sequence b) = None) by (rewrite H, decide_False by lia; done).
    rewrite E, (last_recorded j (w_plan w) n H Hn), Hs.
    rewrite C3, length_take_le by (apply lookup_lt_Some in Hi; lia).
    rewrite through_at_take by (apply lookup_lt_Some in Hi; lia).
    replace (Z.of_nat (S n) =? Z.of_nat n + 1)%Z with true by (symmetry; apply Z.eqb_eq; lia).
    rewrite Z.eqb_refl. cbn [andb negb raise_if]. unfold mbind, res_bind.
    do 2 eexists. split; [done|]. apply lookup_lt_Some in Hi as Hlt. split; [|split; [exact (Nat.le_succ_diag_r n)|lia]].
    intros k. rewrite <- Hs. destruct (decide (k = b_sequence b)) as [->|Hk].
    + rewrite lookup_insert_eq, decide_True by lia. rewrite Hs.
      replace (Z.to_nat (Z.of_nat (S n) - 1)) with n by lia. by rewrite Hi.
    + rewrite lookup_insert_ne by congruence. rewrite H. destruct (decide _), (decide _); try done; lia.
  - assert (E : j !! (stream, b_sequence b) = Some (entry_of b)).
    { rewrite H, decide_True by lia. rewrite Hs. replace (Z.to_nat (Z.of_nat (S i) - 1)) with i by lia. by rewrite Hi. }
    rewrite E. cbn [en_digest entry_of]. rewrite bool_decide_true by done. cbn [negb raise_if]. unfold mbind, res_bind.
    exists j, n. repeat split; try done; lia.
Qed.

Lemma post_recorded token j w n i b credential j' r :
  chain w → recorded j (w_plan w) n → n ≤ length (w_plan w) → w_plan w !! i = Some b → i ≤ n →
  do_POST token j credential b = (j', r) →
  ∃ n', recorded j' (w_plan w) n' ∧ n ≤ n' ∧ n' ≤ length (w_plan w)
    ∧ ∀ v, r = Answer v → (b_sequence b <= Z.of_nat n')%Z.
Proof.
  intros Hch H Hn Hi Hle. unfold do_POST.
  destruct (negb _); [intros [= <- <-]; by exists n|]. destruct (negb _); [intros [= <- <-]; by exists n|].
  destruct (append_recorded j w n i b Hch H Hn Hi Hle) as (j1 & n1 & -> & H1 & H2 & H3 & H4).
  intros [= <- <-]. exists n1. repeat split; try done. intros v _. rewrite (chain_sequence w i b Hch Hi). lia.
Qed.

Lemma foreign_recorded token j T n b presented j' r :
  b_stream_id b ≠ stream → recorded j T n → do_POST token j presented b = (j', r) → recorded j' T n.
Proof.
  intros Hs H. unfold do_POST. destruct (negb _); [by intros [= <- <-]|]. destruct (negb _); [by intros [= <- <-]|].
  unfold append. destruct (batch b) as [[]|e]; [|by intros [= <- <-]]. unfold mbind at 1, res_bind at 1.
  destruct (j !! _) as [e|].
  - unfold raise_if. by destruct (negb _); intros [= <- <-].
  - destruct (last_entry j (b_stream_id b)) as [s t]. unfold raise_if. destruct (negb _); intros [= <- <-]; [done|].
    intros k. rewrite lookup_insert_ne by congruence. apply H.
Qed.

(** ** The page that is read *)

(** The rows of the table: in order, each one in the history, identities up to the
    counter; an identity that is not in the table any more is gone. *)
Record rows_ok (rows : audit_rows) (counter : Z) (log : gmap Z AuditEvent) : Prop := {
  ro_sorted : StronglySorted Z.lt (map fst rows);
  ro_log i a : (i, a) ∈ rows → log !! i = Some a;
  ro_counter i a : log !! i = Some a → (1 <= i <= counter)%Z;
  ro_nonneg : (0 <= counter)%Z }.

Definition gone (rows : audit_rows) (counter : Z) (i : Z) : Prop := (i <= counter)%Z ∧ i ∉ map fst rows.

Lemma page_covers log gone' l c c' es :
  StronglySorted Z.lt (map fst l) → (∀ i a, (i, a) ∈ l → log !! i = Some a ∧ (c < i)%Z) →
  (∀ i, i ∉ map fst l → (c < i)%Z → (∃ k, k ∈ map fst l ∧ (i < k)%Z) → gone' i) →
  page_events c l = (c', es) → covers log gone' c es c'.
Proof.
  revert c c' es. induction l as [|[i a] l IH]; intros c c' es Hs Hl Hg; simpl; [intros [= <- <-]; constructor|].
  destruct (page_events i l) as [t es'] eqn:E. intros [= <- <-]. inversion Hs as [|x y Hs' Hf]; subst.
  destruct (Hl i a) as [Hi Hc]; [by left|].
  assert (Hrest : covers log gone' i es' t).
  { apply (IH i t es' Hs'); [| |done].
    - intros k b Hk. split; [by apply Hl; right|]. rewrite Forall_forall in Hf. apply Hf. apply list_elem_of_fmap. by exists (k, b).
    - intros k Hk Hik Hex. apply Hg; [|lia|].
      + simpl. rewrite not_elem_of_cons. split; [lia|done].
      + destruct Hex as (m & Hm & Hlt). exists m. split; [by right|done]. }
  destruct (c + 1 <? i)%Z eqn:Hlt.
  - apply Z.ltb_lt in Hlt. simpl. apply covers_gap; [lia| |].
    + intros k Hk. apply Hg; [|lia|].
      * simpl. rewrite not_elem_of_cons. split; [lia|]. intros Hin. rewrite Forall_forall in Hf. specialize (Hf _ Hin). lia.
      * exists i. split; [by left|lia].
    + replace (i - 1)%Z with (i - 1)%Z by done. replace i with (i - 1 + 1)%Z at 2 by lia. apply covers_row.
      * by replace (i - 1 + 1)%Z with i by lia.
      * by replace (i - 1 + 1)%Z with i by lia.
  - apply Z.ltb_ge in Hlt. simpl. assert (i = (c + 1)%Z) as -> by lia. by apply covers_row.
Qed.
Lemma keys_filter_sorted (f : Z * AuditEvent → bool) l :
  StronglySorted Z.lt (map fst l) → StronglySorted Z.lt (map fst (List.filter f l)).
Proof.
  induction l as [|r l IH]; simpl; [done|]. intros Hs. apply StronglySorted_cons in Hs as [Hf Hs].
  destruct (f r); [|by apply IH]. simpl. constructor; [by apply IH|].
  rewrite Forall_forall in *. intros x (r' & -> & Hr')%list_elem_of_fmap. apply Hf.
  apply elem_of_List_filter in Hr' as [_ Hr']. apply list_elem_of_fmap. by exists r'.
Qed.

(** What [page] returns covers the table from the cursor on. *)
Lemma page_reads rows counter log c t es :
  rows_ok rows counter log →
  page_events c (take 64 (List.filter (fun r => (c <? r.1)%Z) rows)) = (t, es) →
  covers log (gone rows counter) c es t.
Proof.
  intros [Rs Rl Rc Rn]. set (f := fun r : Z * AuditEvent => (c <? r.1)%Z).
  assert (Hf : StronglySorted Z.lt (map fst (List.filter f rows))) by by apply keys_filter_sorted.
  rewrite <- (take_drop 64 (List.filter f rows)), map_app in Hf.
  pose proof (fun x1 x2 => StronglySorted_app_1_elem_of _ _ _ x1 x2 Hf) as Hlt.
  apply (page_covers log).
  - by apply StronglySorted_app_1_l in Hf.
  - intros i a Hi. assert (Hin : (i, a) ∈ List.filter f rows) by (rewrite <- (take_drop 64 (List.filter f rows)); apply elem_of_app; by left).
    apply elem_of_List_filter in Hin as [Hc Hin]. split; [by apply Rl|]. unfold f in Hc. simpl in Hc. lia.
  - intros i Hi Hc (k & Hk & Hik). split.
    + apply list_elem_of_fmap in Hk as ([k' a] & -> & Hk). simpl in *.
      assert (Hin : (k', a) ∈ List.filter f rows) by (rewrite <- (take_drop 64 (List.filter f rows)); apply elem_of_app; by left).
      apply elem_of_List_filter in Hin as [_ Hin]. apply Rl, Rc in Hin. lia.
    + intros Hin. apply list_elem_of_fmap in Hin as ([i' a] & -> & Hin). simpl in *.
      assert (Hin' : (i', a) ∈ List.filter f rows) by (apply elem_of_List_filter; split; [unfold f; simpl; lia|done]).
      rewrite <- (take_drop 64 (List.filter f rows)) in Hin'. apply elem_of_app in Hin' as [H|H].
      * apply Hi, list_elem_of_fmap. by exists (i', a).
      * assert ((k < i')%Z); [|lia]. apply Hlt; [done|]. apply list_elem_of_fmap. by exists (i', a).
Qed.

(** ** The whole system *)

Definition task_ok (w : world) (p : process) : Prop :=
  match pc_task p with
  | Resting => dl_active (pc_delivery p) = None
  | Waiting (Call c k) => safe ended (Call c k) w (pc_delivery p)
  | Waiting _ => False
  end.

Record process_ok (w : world) (p : process) : Prop := {
  po_intents : w_intents w = pc_intents p;
  po_state : state_ok w (pc_delivery p);
  po_task : task_ok w p }.

Record sound_at (y : system) (w : world) : Prop := {
  sn_stream : cf_stream_id (y_config y) = stream;
  sn_world : world_ok w;
  sn_disk : w_disk w = y_disk y;
  sn_row : w_row w = y_log y;
  sn_gone : w_gone w = gone (y_rows y) (y_counter y);
  sn_rows : rows_ok (y_rows y) (y_counter y) (y_log y);
  sn_journal : recorded (y_journal y) (w_plan w) (w_recorded w);
  sn_network b c : (b, c) ∈ y_network y → ∃ i, w_plan w !! i = Some b ∧ i ≤ w_recorded w;
  sn_admitted e : e ∈ y_admitted y → evidenced w e;
  sn_process p : y_process y = Some p → process_ok w p }.

(** The plan is longer, or more of it is recorded. *)
Lemma recorded_app j T l n : n ≤ length T → recorded j T n → recorded j (T ++ l) n.
Proof.
  intros Hn H k. rewrite H. destruct (decide _); [|done]. by rewrite lookup_app_l by lia.
Qed.

Lemma process_rest w w' p : rest w w' → w_intents w' = w_intents w → process_ok w p → process_ok w' p.
Proof.
  intros R Hi [P1 P2 P3]. pose proof (state_rest w w' _ R Hi P2) as S. split; [congruence|done|].
  unfold task_ok in *. destruct (pc_task p) as [|[|m|c k]]; try done. by eapply safe_rest.
Qed.

(** The task goes on. *)
Lemma resumed_ok w p q :
  w_intents w = pc_intents p → safe ended q w (pc_delivery p) → process_ok w (resumed p q).
Proof.
  intros Hi H. apply audit_safe_run in H. unfold resumed. destruct (run q (pc_delivery p)) as [d q'] eqn:E. cbn [fst snd] in H.
  assert (Hq : match q' with Atomic _ => False | _ => True end).
  { clear -E. revert E. generalize (pc_delivery p). induction q as [r|m IH|c k IH] using audit_prog_induction; intros d0; simpl.
    - by intros [= <- <-].
    - specialize (IH d0). destruct (m d0) as [d1 q1]. apply IH.
    - by intros [= <- <-]. }
  destruct q' as [r|m|c k]; [|done|].
  - destruct H as (W & S & A). split; cbn [pc_intents pc_delivery pc_task task_ok]; [done| |].
    + destruct r as [b|e]; cbn [step_ended]; [|rewrite audit_bind_eq; cbn [modify]; apply refuse_ok].
      all: destruct S as [S1 S2 S3 S4 SI S5 S6 S7]; by split.
    + by destruct r as [b|e]; [apply A|].
  - split; cbn [pc_intents pc_delivery pc_task]; [done|apply H|exact H].
Qed.

(** A batch that is sent is the one the disk has. *)
Lemma packets_ok w p b c :
  world_ok w → process_ok w p → (b, c) ∈ packets (pc_task p) → ∃ i, w_plan w !! i = Some b ∧ i ≤ w_recorded w.
Proof.
  intros W [P1 P2 P3]. unfold packets, task_ok in *. destruct (pc_task p) as [|[|m|[| |b' c'|] k]]; try by intros ?%elem_of_nil.
  intros [= <- <-]%list_elem_of_singleton. destruct P3 as [[_ (Hd & Hb & v & Hv & Hp)] _].
  pose proof (so_linked w _ P2 v Hv) as L. rewrite Hd in L. pose proof (linked_pending w v b L Hp Hb) as Ha.
  exists (disk_sequence w). split; [|apply (wo_behind w W)].
  by rewrite <- (wo_pending w W), <- (ag_pending _ _ Ha).
Qed.

(** A state whose process is replaced, in a world that follows. *)
Lemma sound_replace y w p :
  sound_at y w → process_ok w p → sound_at (with_process y (Some p)) w.
Proof. intros [N1 N2 N3 N4 N5 N6 N7 N8 N9 N10] P. split; try done. by intros q [= <-]. Qed.

Lemma sound_running y w p : sound_at y w → process_ok w p → sound_at (running y p) w.
Proof.
  intros N P. pose proof N as [N1 N2 N3 N4 N5 N6 N7 N8 N9 N10]. split; try done.
  - intros b c [H|H]%elem_of_app; [by eapply packets_ok|by eapply N8].
  - by intros q [= <-].
Qed.

(** The environment moves, the process stays. *)
Lemma sound_rest y y' w w' :
  sound_at y w → rest w w' → w_intents w' = w_intents w → y_config y' = y_config y → y_disk y' = y_disk y →
  y_network y' = y_network y → y_admitted y' = y_admitted y → y_process y' = y_process y →
  w_row w' = y_log y' → w_gone w' = gone (y_rows y') (y_counter y') → rows_ok (y_rows y') (y_counter y') (y_log y') →
  recorded (y_journal y') (w_plan w) (w_recorded w') → w_recorded w' ≤ length (w_plan w) → sound_at y' w'.
Proof.
  intros [N1 N2 N3 N4 N5 N6 N7 N8 N9 N10] R Hi E1 E2 E3 E4 E5 E6 E7 E8 E9 E10. pose proof R as [R1 R2 R3 R4 R5 R6].
  split; rewrite ?E1, ?E2, ?E3, ?E4, ?E5, ?R1; try done.
  - eapply world_rest; [exact R|by rewrite R1|done].
  - by rewrite R2.
  - intros b c H. destruct (N8 b c H) as (i & Hb & Hn). exists i. split; [done|lia].
  - intros e H. eapply (evidenced_mono w w' []); [by rewrite app_nil_r|unfold disk_sequence; by rewrite R2|by apply N9].
  - intros p Hp. eapply process_rest; [done|done|by apply N10].
Qed.
Lemma sound_stop y w : sound_at y w → sound_at (with_process y None) w.
Proof. by intros [N1 N2 N3 N4 N5 N6 N7 N8 N9 N10]; split. Qed.

(** The disk takes a save. *)
Lemma sound_saved y w v :
  sound_at y w → linked w v true → sound_at (with_process (with_disk y v) None) (saved v w).
Proof.
  intros [N1 N2 N3 N4 N5 N6 N7 N8 N9 N10] L. destruct (saved_plan v w) as [l Hl].
  pose proof (wo_recorded w N2) as Hr. split; try done.
  - by apply saved_ok.
  - rewrite Hl. by apply recorded_app.
  - intros b c H. destruct (N8 b c H) as (i & Hb & Hn). exists i. rewrite Hl. split; [by apply lookup_app_l_Some|done].
  - intros e H. eapply evidenced_mono; [exact Hl|by apply saved_sequence|by apply N9].
Qed.

Lemma written_ok y w p c k written :
  sound_at y w → y_process y = Some p → pc_task p = Waiting (Call c k) →
  ∃ w', sound_at (with_process (written_by c written y) None) w' ∧ w_intents w' = w_intents w
    ∧ state_ok w' (pc_delivery p) ∧ ∀ e, replied c (Failed e) w w'.
Proof.
  intros N Hp Ht. destruct (sn_process y w N p Hp) as [P1 P2 P3]. unfold task_ok in P3. rewrite Ht in P3.
  assert (Hsame : sound_at (with_process y None) w) by by apply sound_stop.
  destruct c as [v| | |]; cbn [written_by replied]; try by exists w.
  destruct written; [|by exists w; eauto]. destruct P3 as [[_ [Hv Hd]] _].
  pose proof (so_linked w _ P2 v Hv) as L. rewrite Hd in L. exists (saved v w).
  split; [by apply sound_saved|]. split; [done|]. split; [|by right]. apply saved_state; try done. apply (sn_world y w N).
Qed.

Lemma stopped_ok y w p written :
  sound_at y w → y_process y = Some p →
  ∃ w', sound_at (with_process (stopped written p y) None) w' ∧ w_intents w' = w_intents w ∧ state_ok w' (pc_delivery p).
Proof.
  intros N Hp. pose proof (sn_process y w N p Hp) as [P1 P2 P3]. unfold stopped.
  destruct (pc_task p) as [|[r|m|c k]] eqn:Ht; try by exists w; split; [apply sound_stop|].
  destruct (written_ok y w p c k written N Hp Ht) as (w' & H1 & H2 & H3 & _). by exists w'.
Qed.

Lemma insert_ok y w a : sound_at y w → ∃ w', sound_at (insert_row y a) w'.
Proof.
  intros N. pose proof N as [N1 N2 N3 N4 N5 [Rs Rl Rc Rn] N7 N8 N9 N10].
  set (i := (y_counter y + 1)%Z). assert (Hi : y_log y !! i = None).
  { destruct (y_log y !! i) eqn:E; [|done]. apply Rc in E. lia. }
  set (y' := insert_row y a).
  set (w' := mkWorld (w_plan w) (w_recorded w) (w_disk w) (y_log y') (gone (y_rows y') (y_counter y')) (w_intents w)).
  assert (Hin : ∀ k, k ∈ map fst (y_rows y') → k ∈ map fst (y_rows y) ∨ k = i).
  { intros k (r & -> & Hr)%list_elem_of_fmap. apply elem_of_List_filter in Hr as [_ Hr].
    apply elem_of_app in Hr as [Hr|Hr]; [left; apply list_elem_of_fmap; by exists r|].
    apply list_elem_of_singleton in Hr as ->. by right. }
  exists w'. eapply (sound_rest y y' w w'); try done; [|split|by apply (wo_recorded w N2)].
  - split; try done; [rewrite N4; by apply insert_subseteq|]. simpl. rewrite N5. intros k [Hk Hk'].
    split; [simpl; lia|]. intros [H| ->]%Hin; [done|lia].
  - simpl. unfold retained. assert (Hs : StronglySorted Z.lt (map fst (y_rows y ++ [(i, a)]))).
    { rewrite map_app. apply StronglySorted_app_2; [|done|by repeat constructor].
      intros x1 x2 (r & -> & Hr)%list_elem_of_fmap Hx. apply list_elem_of_singleton in Hx as ->. destruct r as [k b]. simpl.
      apply Rl, Rc in Hr. lia. }
    by apply keys_filter_sorted.
  - intros k b Hk. apply elem_of_List_filter in Hk as [_ Hk]. simpl. fold i.
    apply elem_of_app in Hk as [Hk|[= -> ->]%list_elem_of_singleton]; [|by rewrite lookup_insert_eq].
    rewrite lookup_insert_ne; [by apply Rl|]. apply Rl in Hk. congruence.
  - intros k b. simpl. fold i. destruct (decide (k = i)) as [->|Hk]; [|rewrite lookup_insert_ne by done; intros H; apply Rc in H; lia].
    intros _. lia.
  - simpl. lia.
Qed.

(** *** Admission *)

Definition with_intents (w : world) (m : gmap nat event) : world :=
  mkWorld (w_plan w) (w_recorded w) (w_disk w) (w_row w) (w_gone w) m.

(** [require] changes the queue only. *)
Lemma require_queue i now action target a d d' r :
  require_begin i now action target a d = (d', r) →
  (d' = d ∧ (∀ e f, r ≠ Ok (Some (e, f))))
  ∨ ∃ e, r = Ok (Some (e, dl_next d)) ∧ is_intent e = true ∧ same_worker d d'
      ∧ dl_requests d' = dl_requests d ++ [(e, dl_next d)] ∧ dl_next d' = S (dl_next d) ∧ dl_done d' = dl_done d
      ∧ (dl_started d' = true → dl_started d = true ∨ present (dl_state d) = true).
Proof.
  unfold require_begin. repeat (case_match; [intros [= <- <-]; left; split; [done|congruence]|]).
  destruct (dl_config d) eqn:Ec; [|intros [= <- <-]; left; split; [done|congruence]].
  case_match; [intros [= <- <-]; left; split; [done|congruence]|]. intros [= <- <-]. right. eexists. split; [done|].
  split; [done|]. unfold start, modify. cbn [fst]. destruct (_ && _) eqn:Hs.
  - repeat split; try done. intros _. right. simpl in Hs. by repeat apply andb_true_iff in Hs as [Hs ?].
  - repeat split; try done. intros Hst. by left.
Qed.

Lemma require_ok y w p i now action target a d r :
  sound_at y w → y_process y = Some p → require_begin i now action target a (pc_delivery p) = (d, r) →
  ∃ w', sound_at (with_process y (Some
    (mkProcess d (pc_task p)
       (match r with Ok (Some (e, f)) => <[f := e]> (pc_intents p) | _ => pc_intents p end)
       (match r with Ok (Some (e, f)) => {[f]} ∪ pc_calls p | _ => pc_calls p end)))) w'.
Proof.
  intros N Hp Hr. destruct (sn_process y w N p Hp) as [P1 P2 P3].
  apply require_queue in Hr as [[-> Hr]|(e & -> & He & Hs & Eq & En & Ed & Est)].
  { exists w. apply sound_replace; [done|]. destruct r as [[[e f]|]|e]; [by destruct (Hr e f)|by split..]. }
  set (f := dl_next (pc_delivery p)) in *. set (w' := with_intents w (<[f := e]> (w_intents w))). exists w'.
  assert (Hf : w_intents w !! f = None).
  { destruct (w_intents w !! f) eqn:E; [|done]. apply (so_next w _ P2) in E. unfold f in E. lia. }
  assert (R : rest w w') by (split; try done; by apply insert_subseteq).
  assert (S : state_ok w' d).
  { destruct P2 as [S1 S2 S3 S4 SI S5 S6 S7]. destruct Hs as (H1 & H2 & H3 & H4).
    split; rewrite ?Eq, ?En, ?Ed, ?H1, ?H2, ?H3; simpl.
    - intros e' g [Hg|Hg]%elem_of_app.
      + rewrite lookup_insert_ne; [by apply S1|]. apply S1 in Hg. congruence.
      + apply list_elem_of_singleton in Hg as [= -> ->]. by rewrite lookup_insert_eq.
    - intros e' g Hg. rewrite lookup_insert_ne; [by apply S2|]. apply S2 in Hg. congruence.
    - intros g Hg. destruct (S3 g Hg) as (e' & He' & Hev). exists e'. split; [|done].
      rewrite lookup_insert_ne; [done|]. congruence.
    - intros g e'. destruct (decide (g = f)) as [->|Hg]; [intros _; unfold f; lia|]. rewrite lookup_insert_ne by done.
      intros H. apply S4 in H. lia.
    - intros g e'. destruct (decide (g = f)) as [->|Hg]; [rewrite lookup_insert_eq; by intros [= <-]|].
      rewrite lookup_insert_ne by done. apply SI.
    - intros Hst. destruct (Est Hst) as [Hst'|Hst']; [by apply S5|done].
    - intros v Hv. eapply linked_rest; [exact R|by apply S6].
    - intros v e' g Hv Hg. eapply (active_in_mono w w' []); [by rewrite app_nil_r|by eapply S7]. }
  pose proof N as [N1 N2 N3 N4 N5 N6 N7 N8 N9 N10]. split; try done.
  - eapply world_rest; [exact R|apply (wo_recorded w N2)|done].
  - intros q [= <-]. split; cbn [pc_intents pc_delivery pc_task]; [by rewrite <- P1|done|].
    unfold task_ok in *. cbn [pc_task pc_delivery]. destruct (pc_task p) as [|[|m|c k]]; try done.
    + by destruct Hs as (_ & -> & _).
    + by eapply safe_rest.
Qed.

(** A future that is granted was evidenced. *)
Lemma audit_settle_ok y w p f d r :
  sound_at y w → y_process y = Some p → require_end f (pc_delivery p) = (d, r) →
  let y' := with_process y (Some (mkProcess d (pc_task p) (pc_intents p) (pc_calls p ∖ {[f]}))) in
  sound_at y' w ∧ ∀ u e, r = Ok u → pc_intents p !! f = Some e → evidenced w e.
Proof.
  intros N Hp Hr y'. destruct (sn_process y w N p Hp) as [P1 P2 P3].
  assert (Hd : same_worker (pc_delivery p) d ∧ state_ok w d ∧ ∀ u, r = Ok u → dl_done (pc_delivery p) !! f = Some Granted).
  { unfold require_end in Hr. destruct (dl_done (pc_delivery p) !! f) as [[]|] eqn:E; injection Hr as <- <-.
    1-3: by split; [by repeat split|].
    split; [by repeat split|]. split; [|done]. destruct P2 as [S1 S2 S3 S4 SI S5 S6 S7]. split; try done.
    simpl. intros g [Hg|[_ Hg]]%resolve_granted; [by apply S3|done]. }
  destruct Hd as (Hs & S & Hg). split.
  - apply sound_replace; [done|]. split; [done|done|]. unfold task_ok in *. cbn [pc_task pc_delivery].
    destruct (pc_task p) as [|[|m|c k]]; try done.
    + by destruct Hs as (_ & -> & _).
    + eapply safe_rest; [done|apply rest_refl|done|done].
  - intros u e Hu He. destruct (so_granted w _ P2 f (Hg u Hu)) as (e' & He' & Hev). rewrite P1, He in He'. by injection He' as <-.
Qed.

(** *** The task and the collector *)

Lemma sound_admit y w e : sound_at y w → evidenced w e → sound_at (with_admitted y e) w.
Proof. intros [N1 N2 N3 N4 N5 N6 N7 N8 N9 N10] He. split; try done. intros x [->|H]%elem_of_cons; [done|by apply N9]. Qed.

Definition with_recorded (w : world) (n : nat) : world :=
  mkWorld (w_plan w) n (w_disk w) (w_row w) (w_gone w) (w_intents w).

(** A packet of the stream, or of another one, reaches the collector. *)
Lemma sound_journal y w j n :
  sound_at y w → recorded j (w_plan w) n → w_recorded w ≤ n → n ≤ length (w_plan w) →
  rest w (with_recorded w n) ∧ sound_at (with_journal y j) (with_recorded w n).
Proof.
  intros N H Hn Hl. assert (R : rest w (with_recorded w n)) by by split. split; [done|].
  pose proof N as [N1 N2 N3 N4 N5 N6 N7 N8 N9 N10]. by eapply sound_rest.
Qed.

Lemma deliver_ok y w b c y' r :
  sound_at y w → (∃ i, w_plan w !! i = Some b ∧ i ≤ w_recorded w) → deliver y b c = (y', r) →
  ∃ n, rest w (with_recorded w n) ∧ sound_at y' (with_recorded w n)
    ∧ ∀ v, r = Answer v → (b_sequence b <= Z.of_nat n)%Z.
Proof.
  intros N (i & Hi & Hle). unfold deliver. destruct (do_POST _ _ _ _) as [j s] eqn:E. intros [= <- <-].
  destruct (post_recorded (y_token y) (y_journal y) w (w_recorded w) i b c j s (wo_chain w (sn_world y w N))
    (sn_journal y w N) (wo_recorded w (sn_world y w N)) Hi Hle E) as (n & H1 & H2 & H3 & H4).
  exists n. destruct (sound_journal y w j n N H1 H2 H3) as [R N']. by split; [|split].
Qed.

Lemma foreign_ok y w b c y' r :
  sound_at y w → b_stream_id b ≠ stream → deliver y b c = (y', r) → ∃ w', sound_at y' w'.
Proof.
  intros N Hb. unfold deliver. destruct (do_POST _ _ _ _) as [j s] eqn:E. intros [= <- <-].
  eexists. eapply (sound_journal y w j (w_recorded w)); [done| |done|apply (wo_recorded w (sn_world y w N))].
  by eapply foreign_recorded; [..|apply (sn_journal y w N)|].
Qed.

Lemma sound_process y w p : sound_at (with_process y None) w → process_ok w p → y_process y = Some p → sound_at y w.
Proof.
  intros [N1 N2 N3 N4 N5 N6 N7 N8 N9 N10] P Hp. split; try done. intros q Hq. rewrite Hp in Hq. by injection Hq as <-.
Qed.

(** The answer to a call leaves a world in which the task may go on. *)
Lemma answer_ok y w p c k r y' a :
  sound_at y w → y_process y = Some p → pc_task p = Waiting (Call c k) → answer_to c r y = Some (y', a) →
  ∃ w', sound_at (with_process y' None) w' ∧ w_intents w' = pc_intents p ∧ safe ended (k a) w' (pc_delivery p).
Proof.
  intros N Hp Ht Ha. destruct (sn_process y w N p Hp) as [P1 P2 P3]. pose proof P3 as Hk. unfold task_ok in Hk. rewrite Ht in Hk.
  destruct Hk as [[_ Hc] Hk]. pose proof (sn_world y w N) as W.
  assert (G : ∀ w1 w2, rest w w1 → w_intents w1 = w_intents w → world_ok w1 → replied c a w1 w2 → safe ended (k a) w2 (pc_delivery p)).
  { intros w1 w2 R Hi W1 Hr. eapply (Hk w1 (pc_delivery p)); [exact R|exact W1|by repeat split|by eapply state_rest|exact Hr]. }
  destruct r as [|s| | |e written]; simpl in Ha.
  - destruct c as [v| | |]; try discriminate Ha. injection Ha as <- <-. destruct Hc as [Hv Hd].
    pose proof (so_linked w _ P2 v Hv) as L. rewrite Hd in L. exists (saved v w).
    split; [by apply sound_saved|]. split; [done|]. by eapply (G w); [apply rest_refl|..].
  - destruct c; try discriminate Ha. injection Ha as <- <-. exists w. split; [by apply sound_stop|]. split; [done|].
    by eapply (G w); [apply rest_refl|..].
  - destruct c as [| |b credential|]; try discriminate Ha.
    destruct (deliver y b credential) as [y1 s] eqn:E. injection Ha as <- <-.
    assert (Hb : ∃ i, w_plan w !! i = Some b ∧ i ≤ w_recorded w).
    { apply (packets_ok w p b credential W); [by split|]. unfold packets. rewrite Ht. by left. }
    destruct (deliver_ok y w b credential y1 s N Hb E) as (n & R & N' & Hn).
    exists (with_recorded w n). split; [by apply sound_stop|]. split; [done|].
    eapply (G (with_recorded w n)); [done|done|apply (sn_world _ _ N')|].
    destruct s as [code|v]; simpl; [done|]. split; [done|]. by eapply Hn.
  - destruct c as [| | |cursor]; try discriminate Ha. unfold page in Ha.
    destruct (page_events _ _) as [t es] eqn:E. injection Ha as <- <-. exists w. split; [by apply sound_stop|].
    split; [done|]. eapply (G w); [apply rest_refl|done|done|]. split; [done|].
    destruct (sn_rows y w N) as [Rs Rl Rc Rn]. rewrite (sn_row y w N), (sn_gone y w N).
    by eapply page_reads.
  - injection Ha as <- <-. destruct (written_ok y w p c k written N Hp Ht) as (w' & H1 & H2 & H3 & H4).
    exists w'. split; [done|]. split; [by rewrite H2|]. by eapply (G w); [apply rest_refl|..].
Qed.

(** *** Stopping and opening *)

Lemma audit_close_ok w d : state_ok w d → state_ok w (close d).1 ∧ dl_active (close d).1 = None.
Proof.
  intros S. unfold close. rewrite audit_bind_eq. cbn [modify]. split; [apply refuse_ok|done].
  destruct S as [S1 S2 S3 S4 SI S5 S6 S7]. by split.
Qed.

(** A controller that opens knows what the disk knows, or nothing. *)
Lemma open_ok w c v now d :
  w_disk w = v → w_intents w = ∅ → d = (start (open_delivery c.1 (Found c.2) (Found v) now (Ok true))).1 →
  state_ok w d ∧ dl_active d = None.
Proof.
  intros Hw Hi ->. unfold open_delivery, start, modify. cbn [fst].
  assert (G : ∀ config required state driver error lag, (∀ u, state = Some u → u = v) →
    state_ok w (if negb false && present config && present state && driver && negb false
                then set_started (fresh config required state driver error lag) true
                else fresh config required state driver error lag)).
  { intros config required state driver error lag Hs.
    assert (F : ∀ b, (b = true → present state = true) → state_ok w (set_started (fresh config required state driver error lag) b)).
    { intros b Hb. split; simpl; rewrite ?Hi; try done.
      - by intros e f ?%elem_of_nil.
      - intros u Hu. apply linked_agrees. rewrite (Hs u Hu), Hw. apply agrees_refl. }
    destruct (_ && _) eqn:E; [|by apply (F false)]. apply F. intros _. by repeat apply andb_true_iff in E as [E ?]. }
  destruct (configuration c.2) as [cf|e]; [|split; [by apply G|done]].
  destruct (open_checkpoint _ _ _) as [u|e] eqn:Eo; [|split; [by apply G|done]].
  assert (u = v) as ->. { unfold open_checkpoint in Eo. apply raise_if_bind_Ok in Eo as [_ Eo]. by injection Eo as ->. }
  split; [apply G; by intros u [= ->]|]. by destruct (_ && _).
Qed.

Lemma sound_with_intents y w m : sound_at (with_process y None) w → sound_at (with_process y None) (with_intents w m).
Proof.
  intros [N1 [W1 W2 W3 W4 W5 W6] N3 N4 N5 N6 N7 N8 N9 N10]. split; try done. split; try done. by eapply chain_mono; [..|exact W1].
Qed.

(** ** Every move *)

Lemma sound_move m y y' w : sound_at y w → perform m y = Some y' → ∃ w', sound_at y' w'.
Proof.
  intros N. destruct m as [a|i now action target a|f|now later|r|n|presented b|written|written|now];
    unfold perform, on_process.
  - intros [= <-]. by eapply insert_ok.
  - destruct (y_process y) as [p|] eqn:Hp; [|done]. simpl. destruct (require_begin _ _ _ _ _ _) as [d r] eqn:E.
    pose proof (require_ok y w p i now action target a d r N Hp E) as H. by destruct r as [[[e f]|]|e]; intros [= <-].
  - destruct (y_process y) as [p|] eqn:Hp; [|done]. simpl. case_bool_decide; [|done].
    destruct (require_end f _) as [d r] eqn:E. destruct (audit_settle_ok y w p f d r N Hp E) as [N' He].
    destruct r as [u|e], (pc_intents p !! f) as [e'|] eqn:Ei; intros [= <-]; exists w; try done.
    apply sound_admit; [done|]. by eapply He.
  - destruct (y_process y) as [p|] eqn:Hp; [|done]. simpl. destruct (sn_process y w N p Hp) as [P1 P2 P3].
    unfold task_ok in P3. destruct (pc_task p) as [|q] eqn:Ht; [|done]. destruct (dl_started _) eqn:Hs; [|done].
    intros [= <-]. exists w. apply sound_running; [done|]. apply resumed_ok; [done|].
    apply step_safe; [apply (sn_world y w N)|done|done|by apply (so_started w _ P2)].
  - destruct (y_process y) as [p|] eqn:Hp; [|done]. simpl. destruct (pc_task p) as [|[|mm|c k]] eqn:Ht; try done.
    destruct (answer_to c r y) as [[y1 a]|] eqn:Ea; [|done]. simpl. intros [= <-].
    destruct (answer_ok y w p c k r y1 a N Hp Ht Ea) as (w' & N' & Hi & Hs). exists w'.
    change (running y1 (resumed p (k a))) with (running (with_process y1 None) (resumed p (k a))).
    apply sound_running; [done|]. by apply resumed_ok.
  - destruct (y_network y !! n) as [[b c]|] eqn:En; [|done]. simpl. intros [= <-].
    destruct (deliver y b c) as [y1 s] eqn:E. apply list_elem_of_lookup_2 in En.
    destruct (deliver_ok y w b c y1 s N (sn_network y w N b c En) E) as (k & _ & N' & _). by exists (with_recorded w k).
  - case_bool_decide as Hb; [done|]. intros [= <-]. rewrite (sn_stream y w N) in Hb.
    destruct (deliver y b presented) as [y1 s] eqn:E. by eapply foreign_ok.
  - destruct (y_process y) as [p|] eqn:Hp; [|done]. simpl. intros [= <-].
    destruct (stopped_ok y w p written N Hp) as (w' & N' & _). by exists w'.
  - destruct (y_process y) as [p|] eqn:Hp; [|done]. simpl. intros [= <-].
    destruct (stopped_ok y w p written N Hp) as (w' & N' & Hi & S). exists w'.
    destruct (audit_close_ok w' _ S) as [S' A'].
    apply (sound_replace (with_process (stopped written p y) None)); [done|].
    split; [|done|done]. simpl. rewrite Hi. apply (po_intents w p (sn_process y w N p Hp)).
  - destruct (y_process y) as [p|] eqn:Hp; [done|]. intros [= <-].
    assert (N' : sound_at (with_process y None) (with_intents w ∅)) by by apply sound_with_intents, sound_stop.
    destruct (open_ok (with_intents w ∅) (y_marker y, y_config y) (y_disk y) now _ (sn_disk y w N) eq_refl eq_refl) as [S A].
    exists (with_intents w ∅). by apply (sound_replace (with_process y None)).
Qed.
End stream.

Definition stream_of (y : system) : string := cf_stream_id (y_config y).

Lemma provisioned_sound y : provisioned y → ∃ w, sound_at (stream_of y) y w.
Proof.
  intros [V1 V2 V3 V4 V5 V6 V7 V8 V9 V10].
  exists (mkWorld [] 0 (y_disk y) (y_log y) (gone (y_rows y) (y_counter y)) ∅).
  split; rewrite ?V3, ?V4, ?V6; try done.
  - split; simpl; try done. lia.
  - by intros k; rewrite V5; destruct (decide _).
  - by intros b c ?%elem_of_nil.
  - by intros e ?%elem_of_nil.
  - by rewrite V1.
Qed.

Lemma config_move m y y' : perform m y = Some y' → y_config y' = y_config y.
Proof.
  destruct m as [a|i now action target a|f|now later|r|n|presented b|written|written|now]; unfold perform, on_process.
  all: try (destruct (y_process y) as [p|]; [simpl|done]).
  - by intros [= <-].
  - destruct (require_begin _ _ _ _ _ _) as [d [[[e f]|]|e]]; by intros [= <-].
  - case_bool_decide; [|done]. destruct (require_end f _) as [d [u|e]]; destruct (pc_intents p !! f); by intros [= <-].
  - destruct (pc_task p); [|done]. destruct (dl_started _); [|done]. by intros [= <-].
  - destruct (pc_task p) as [|[|mm|c k]]; try done. destruct (answer_to c r y) as [[y1 a]|] eqn:E; [|done]. intros [= <-].
    change (y_config (running y1 (resumed p (k a)))) with (y_config y1).
    revert E. destruct r as [|s| | |e written], c; simpl; try done; try (by intros [= <- <-]).
    + unfold deliver. destruct (do_POST _ _ _ _). by intros [= <- <-].
    + repeat case_match; by intros [= <- <-].
    + destruct written; by intros [= <- <-].
  - destruct (y_network y !! n) as [[b c]|]; [|done]. simpl. intros [= <-]. unfold deliver. by destruct (do_POST _ _ _ _).
  - case_bool_decide; [done|]. intros [= <-]. unfold deliver. by destruct (do_POST _ _ _ _).
  - intros [= <-]. unfold stopped. destruct (pc_task p) as [|[| |[]]]; try done. by destruct written.
  - intros [= <-]. unfold stopped. destruct (pc_task p) as [|[| |[]]]; try done. by destruct written.
  - destruct (y_process y); [done|]. by intros [= <-].
Qed.

Lemma moves_sound s y y' w : rtc moves y y' → sound_at s y w → ∃ w', sound_at s y' w'.
Proof.
  intros H. revert w. induction H as [y|y y1 y2 [m Hm] _ IH]; intros w N; [by exists w|].
  destruct (sound_move s m y y1 w N Hm) as [w1 N1]. by eapply IH.
Qed.

Lemma audit_reachable_sound y0 y : provisioned y0 → rtc moves y0 y → ∃ w, sound_at (stream_of y0) y w.
Proof. intros [w N]%provisioned_sound H. by eapply moves_sound. Qed.

(** ** The theorems *)

(** The journal's batches of a stream, in order. *)
Definition trail_is (y : system) (T : list Batch) : Prop :=
  ∀ k : Z, y_journal y !! (stream_of y, k) =
    if decide (1 <= k <= Z.of_nat (length T))%Z then entry_of <$> T !! Z.to_nat (k - 1) else None.

(** The events of a trail continue the table from its first row on. *)
Lemma chain_covers s w n :
  chain s w → n ≤ length (w_plan w) →
  covers (w_row w) (w_gone w) 0 (take n (w_plan w) ≫= b_events) (through_at (w_plan w) n).
Proof.
  intros H. induction n as [|n IH]; intros Hn; [constructor|].
  destruct (lookup_lt_is_Some_2 (w_plan w) n) as [b Hb]; [lia|].
  rewrite (take_S_r _ _ _ Hb), bind_app, bind_singleton. destruct (H n b Hb) as [C1 C2 C3 C4 C5].
  rewrite length_take_le, through_at_take in C3 by lia.
  eapply covers_app; [apply IH; lia|]. rewrite <- C3. simpl. by rewrite Hb.
Qed.

Lemma trail_recorded y w : sound_at (stream_of y) y w → trail_is y (take (w_recorded w) (w_plan w)).
Proof.
  intros N k. pose proof (wo_recorded _ w (sn_world _ y w N)). rewrite (sn_journal _ y w N), length_take_le by done.
  destruct (decide _); [|done]. by rewrite lookup_take_lt by lia.
Qed.

Lemma moves_config y y' : rtc moves y y' → y_config y' = y_config y.
Proof. induction 1 as [|y y1 y2 [m Hm] _ IH]; [done|]. by rewrite IH, (config_move _ _ _ Hm). Qed.

(** C34: the audit trail is complete.  From a newly provisioned stream on, through any
    crashes, restarts, lost or late answers, repeated packets, failed saves and local
    retention, the collector's journal of the stream is one list of batches with
    consecutive sequences whose events account for every audit row from the first one
    on, once and in order: by the redacted row, or by a range of rows that are no longer
    retained.  The checkpoint on the disk is at most one batch behind it and knows the
    size of the gaps; and whatever the controller has sent is acknowledged, so the
    stream never meets a conflict. *)
Theorem audit_trail_complete y0 y (Hy0 : provisioned y0) (Hy : rtc moves y0 y) :
  ∃ T, trail_is y T
    ∧ (∀ i b, T !! i = Some b → b_sequence b = Z.of_nat (S i) ∧ b_after b = through_at T i)
    ∧ covers (y_log y) (gone (y_rows y) (y_counter y)) 0 (T ≫= b_events) (through_at T (length T))
    ∧ (∃ s, cp_sequence (y_disk y) = Z.of_nat s ∧ s ≤ length T ≤ S s
        ∧ cp_cursor (y_disk y) = through_at T s ∧ cp_gap_events (y_disk y) = gaps (take s T ≫= b_events))
    ∧ ∀ b c, (b, c) ∈ y_network y → ∃ j, append (y_journal y) b = Ok (j, receipt_of b).
Proof.
  destruct (audit_reachable_sound y0 y Hy0 Hy) as [w N]. assert (Hs : stream_of y0 = stream_of y) by (unfold stream_of; by rewrite (moves_config _ _ Hy)).
  rewrite Hs in N. pose proof (sn_world _ y w N) as W. pose proof (wo_recorded _ w W) as Hr. pose proof (wo_behind _ w W) as Hb.
  set (n := w_recorded w) in *. exists (take n (w_plan w)). pose proof (wo_disk _ w W) as [D1 D2 D3 D4].
  split; [by apply trail_recorded|]. split; [|split; [|split]].
  - intros i b Hi. apply lookup_take_Some in Hi as [Hi Hlt]. split; [by eapply chain_sequence; [apply (wo_chain _ w W)|]|].
    rewrite (ct_after _ _ _ _ (wo_chain _ w W i b Hi)), length_take_le, through_at_take by lia.
    rewrite <- (through_at_take (take n (w_plan w)) i) by (rewrite length_take_le; lia).
    rewrite take_take, Nat.min_l by lia. by rewrite through_at_take by lia.
  - rewrite length_take_le, through_at_take, <- (sn_row _ y w N), <- (sn_gone _ y w N) by lia.
    eapply chain_covers; [apply (wo_chain _ w W)|done].
  - exists (disk_sequence w). rewrite <- (sn_disk _ y w N), take_take, length_take_le, Nat.min_l by lia.
    pose proof (wo_length _ w W). split; [done|]. split; [lia|]. split; [|done]. rewrite D3.
    rewrite <- (through_at_take (take n (w_plan w)) (disk_sequence w)) by (rewrite length_take_le; lia).
    rewrite take_take, Nat.min_l by lia. by rewrite through_at_take by lia.
  - intros b c Hin. destruct (sn_network _ y w N b c Hin) as (i & Hi & Hle).
    destruct (append_recorded _ (y_journal y) w n i b (wo_chain _ w W) (sn_journal _ y w N) Hr Hi Hle) as (j & n' & -> & _).
    by exists j.
Qed.

