(* ===== verification/AuditSamples.v ===== *)
(** * A run of audit delivery

    Two rows were lost to retention before the stream was provisioned.  The first batch
    reports them with the third row; its acknowledgement is lost in a crash and the
    batch is sent again.  Then a submission is admitted. *)

From Stdlib Require Import SpecFloat.
From S2P Require Import Prelude Float64 Sha256 Json Spec Samples Wire Database AuditFormat Collector AuditDelivery AuditSystem AuditProps.

Definition audit_configured : Configuration :=
  mkConfiguration "https" [] "audit-append" true 1000 (id_of "5").

Definition audit_sample (action target : string) : AuditEvent :=
  mkAudit (f_of_Z 1700000000) action target "success" "local-owner" (Some (id_of "4")) (Some (id_of "3")).

Definition append_token : string := id_of "7".

Definition old_log : gmap Z AuditEvent :=
  {[1%Z := audit_sample "identity.create" "a"; 2%Z := audit_sample "identity.create" "b"; 3%Z := audit_sample "workload.submit" "c"]}.

Definition audit_provisioned : system :=
  mkSystem None audit_configured true (initial_checkpoint (id_of "5")) [(3%Z, audit_sample "workload.submit" "c")] 3 old_log
    [] ∅ append_token [].

Definition audit_moves : list move :=
  let t := f_of_Z 1700000001 in
  [Restart t; Wake t t; Answered ReplyPage; Answered ReplySaved; Answered (ReplySecret append_token); Answered ReplyPosted;
   Crash false; Restart t; Deliver 0; Wake t t; Answered (ReplySecret append_token); Answered ReplyPosted; Answered ReplySaved;
   Require (id_of "e") t "workload.submit" "digest" (mkAsking (id_of "6") (id_of "4") (id_of "3"));
   Wake t t; Answered ReplyPage; Answered ReplySaved; Answered (ReplySecret append_token); Answered ReplyPosted;
   Answered ReplySaved; Settle 0].

Lemma old_log_bounds i a : old_log !! i = Some a → (1 <= i <= 3)%Z.
Proof.
  unfold old_log. rewrite !lookup_insert_Some, lookup_singleton_Some. intros H. decompose [and or] H; subst; try done; lia.
Qed.

Lemma audit_is_provisioned : provisioned audit_provisioned.
Proof.
  split; [reflexivity|vm_compute; reflexivity|reflexivity|reflexivity|reflexivity|reflexivity| | | |].
  - intros i a H. apply list_elem_of_singleton in H as [= -> ->]. reflexivity.
  - repeat constructor.
  - exact old_log_bounds.
  - discriminate.
Qed.

(** What the run leaves: the sequences of the journal and of the disk, and the intents
    that were admitted. *)
Definition audit_seen (y : system) : Z * nat * list bool :=
  (cp_sequence (y_disk y), size (y_journal y), map is_intent (y_admitted y)).

Lemma audit_run : audit_seen <$> performs audit_moves audit_provisioned = Some (2%Z, 2, [true]).
Proof. vm_compute. reflexivity. Qed.

Lemma audit_reached : ∃ y, rtc moves audit_provisioned y ∧ audit_seen y = (2%Z, 2, [true]).
Proof.
  pose proof audit_run as R. apply fmap_Some in R as (y & E & R). exists y. split; [|symmetry; exact R].
  eapply audit_performs_moves, E.
Qed.

Lemma audit_trail_complete_witness :
  ∃ y, rtc moves audit_provisioned y ∧ cp_sequence (y_disk y) = 2%Z
    ∧ ∃ T, trail_is y T ∧ covers (y_log y) (gone (y_rows y) (y_counter y)) 0 (T ≫= b_events) (through_at T (length T)).
Proof.
  destruct audit_reached as (y & Hy & Hs). exists y. split; [exact Hy|]. split; [exact (f_equal (fun x => x.1.1) Hs)|].
  destruct (audit_trail_complete audit_provisioned y audit_is_provisioned Hy) as (T & H1 & _ & H2 & _). by exists T.
Defined.

